(** * claude-gateway: the session journal, the SSE tailer and the exec-turn engine

    A shallow embedding of [lib/codex-stream.js] (journal writer, sidecar,
    SSE framing, tailer) and of the Codex part of the gateway server
    (PTY history buffer, turn queue, turn execution, cancellation, submit).

    Conventions of the embedding.
    - JavaScript strings are [string]s of 8-bit code units; the model covers
      ASCII text, where a code unit, a byte of the UTF-8 file and a character
      coincide.
    - JavaScript numbers are modelled by [Z]: cursors, counts, sizes and exit
      codes are integers.  [None] stands for NaN where a conversion can fail.
      Numeric strings in fraction, exponent or hex notation are outside the
      integer model and are read as NaN.
    - [JSON.stringify] is the function [JSON_stringify] on the inductive
      type [json].  [JSON.parse] is a parameter [JSON_parse] of everything
      that reads text: every general statement holds for any parser, hence
      for the real one.  Closed examples run the reference parser
      [JSON_parse_ref].
    - The sidecar file [<id>.json] is rewritten whole by [JSON.stringify] and
      read back by [JSON.parse]; the model stores the object it denotes.  The
      journal file [<id>.jsonl] is stored as its text.
    - Files are keyed by session id: [getSessionPaths] maps a validated id
      injectively to the two paths [<dir>/<id>.json] and [<dir>/<id>.jsonl]. *)

From Stdlib Require Import ZArith String Ascii List DecimalString DecimalZ Lia.
From stdpp Require Import base option list gmap strings.

#[local] Open Scope Z_scope.

(* ===================================================================== *)
(** * Part I: definitions                                                 *)
(* ===================================================================== *)

(** ** Strings *)

Definition nl : ascii := "010"%char.
Definition cr : ascii := "013"%char.
Definition dq : ascii := "034"%char.
Definition backslash : ascii := "092"%char.

Definition str (c : ascii) : string := String c EmptyString.
Definition NL : string := str nl.
Definition DQ : string := str dq.

Fixpoint str_take (n : nat) (s : string) : string :=
  match n, s with
  | S n', String c t => String c (str_take n' t)
  | _, _ => EmptyString
  end.

Fixpoint str_drop (n : nat) (s : string) : string :=
  match n, s with
  | S n', String _ t => str_drop n' t
  | _, _ => s
  end.

Definition str_len (s : string) : Z := Z.of_nat (String.length s).

(** [s.slice(start)] and [s.slice(0, n)] of JavaScript: a negative start
    counts from the end, and both ends are clamped to the string. *)
Definition js_slice_from (start : Z) (s : string) : string :=
  let len := str_len s in
  let from := if start <? 0 then Z.max (len + start) 0 else Z.min start len in
  str_drop (Z.to_nat from) s.

Definition js_slice_to (n : nat) (s : string) : string := str_take n s.

(** White space and line terminators of [String.prototype.trim], ASCII part. *)
Definition is_ws (c : ascii) : bool :=
  let n := nat_of_ascii c in
  ((9 <=? n)%nat && (n <=? 13)%nat) || (n =? 32)%nat.

Fixpoint all_ws (s : string) : bool :=
  match s with
  | EmptyString => true
  | String c t => is_ws c && all_ws t
  end.

Fixpoint trim_start (s : string) : string :=
  match s with
  | String c t => if is_ws c then trim_start t else s
  | EmptyString => EmptyString
  end.

Fixpoint trim_end (s : string) : string :=
  match s with
  | EmptyString => EmptyString
  | String c t => if all_ws s then EmptyString else String c (trim_end t)
  end.

Definition js_trim (s : string) : string := trim_end (trim_start s).

(** [!line.trim()]: the trimmed line is the empty string. *)
Definition blank (s : string) : bool := all_ws s.

(** [s.split(c)] for a one-character separator. *)
Fixpoint split_on (c : ascii) (s : string) : list string :=
  match s with
  | EmptyString => [EmptyString]
  | String a t =>
      if Ascii.eqb a c then EmptyString :: split_on c t
      else match split_on c t with
           | l :: ls => String a l :: ls
           | [] => [str a]
           end
  end.

(** The lines a [readline] interface with [crlfDelay: Infinity] emits for a
    stream: LF, CR LF and CR each end a line ([after_cr] remembers a CR, so
    that the LF of a CR LF pair ends no second line), and a last line without
    terminator is emitted when it is not empty. *)
Fixpoint readline_go (cur : string) (after_cr : bool) (s : string) : list string :=
  match s with
  | EmptyString => if String.eqb cur EmptyString then [] else [cur]
  | String a t =>
      if Ascii.eqb a nl then
        (if after_cr then readline_go EmptyString false t
         else cur :: readline_go EmptyString false t)
      else if Ascii.eqb a cr then cur :: readline_go EmptyString true t
      else readline_go (cur +:+ str a) false t
  end.

Definition readline_lines (s : string) : list string := readline_go EmptyString false s.

Definition starts_with (p s : string) : bool := String.prefix p s.

Definition join (sep : string) (l : list string) : string := String.concat sep l.

(** [s.split(/\s+/).filter(Boolean)]: the maximal runs of non-space. *)
Fixpoint split_ws_go (cur : string) (s : string) : list string :=
  match s with
  | EmptyString => if String.eqb cur EmptyString then [] else [cur]
  | String a t =>
      if is_ws a then
        (if String.eqb cur EmptyString then [] else [cur]) ++ split_ws_go EmptyString t
      else split_ws_go (cur +:+ str a) t
  end.

Definition split_ws (s : string) : list string := split_ws_go EmptyString s.

(** [s.replace(/pat/g, rep)] for a literal, non-empty pattern: [skip]
    counts the characters of a match that are still to be passed over. *)
Fixpoint replace_all_go (skip : nat) (pat rep : string) (s : string) : string :=
  match s with
  | EmptyString => EmptyString
  | String a t =>
      match skip with
      | S k => replace_all_go k pat rep t
      | O =>
          if String.prefix pat s
          then rep +:+ replace_all_go (String.length pat - 1) pat rep t
          else String a (replace_all_go O pat rep t)
      end
  end.

Definition replace_all (pat rep s : string) : string := replace_all_go O pat rep s.

(** [s.replace(/^pat/, '')]. *)
Definition strip_prefix (pat s : string) : string :=
  if String.prefix pat s then str_drop (String.length pat) s else s.

(** ** JSON values and the conversions of JavaScript *)

#[local] Set Warnings "-register-all".

Inductive json : Type :=
  | JNull
  | JBool (b : bool)
  | JNum (z : Z)
  | JStr (s : string)
  | JArr (l : list json)
  | JObj (kvs : list (string * json)).

(** A JavaScript value read from an object: [None] is [undefined]. *)
Abbreviation jsval := (option json).

(** [String(n)] for an integer (below 10^21 in magnitude, where JavaScript
    prints all digits). *)
Definition String_of_Z (z : Z) : string := NilZero.string_of_int (Z.to_int z).

Definition hex_digit (n : nat) : ascii :=
  ascii_of_nat (if (n <? 10)%nat then 48 + n else 87 + n)%nat.

(** QuoteJSONString, one code unit at a time. *)
Definition escape_char (c : ascii) : string :=
  let n := nat_of_ascii c in
  if Ascii.eqb c dq then String backslash DQ
  else if Ascii.eqb c backslash then String backslash (str backslash)
  else if (n =? 8)%nat then String backslash "b"
  else if (n =? 12)%nat then String backslash "f"
  else if (n =? 10)%nat then String backslash "n"
  else if (n =? 13)%nat then String backslash "r"
  else if (n =? 9)%nat then String backslash "t"
  else if (n <? 32)%nat then
    String backslash ("u00" +:+ str (hex_digit (n / 16)) +:+ str (hex_digit (n mod 16)))
  else str c.

Fixpoint escape_string (s : string) : string :=
  match s with
  | EmptyString => EmptyString
  | String c t => escape_char c +:+ escape_string t
  end.

Definition quote_json (s : string) : string := DQ +:+ escape_string s +:+ DQ.

(** [JSON.stringify(v)] without indentation. *)
Fixpoint JSON_stringify (j : json) : string :=
  match j with
  | JNull => "null"
  | JBool true => "true"
  | JBool false => "false"
  | JNum z => String_of_Z z
  | JStr s => quote_json s
  | JArr l => "[" +:+ join "," (map JSON_stringify l) +:+ "]"
  | JObj kvs =>
      "{" +:+ join "," (map (fun kv => quote_json (fst kv) +:+ ":" +:+ JSON_stringify (snd kv)) kvs)
          +:+ "}"
  end.

(** An object literal whose fields may be [undefined]: [JSON.stringify]
    leaves those fields out. *)
Definition obj (fields : list (string * jsval)) : json :=
  JObj (omap (fun kv => match snd kv with Some v => Some (fst kv, v) | None => None end) fields).

(** [o.k] for a parsed value [o] that is not [null]: the last binding of an
    object, [undefined] for a missing key or a value that is not an object
    (the keys the gateway reads are not properties of arrays or primitives). *)
Fixpoint assoc_last (k : string) (kvs : list (string * json)) : jsval :=
  match kvs with
  | [] => None
  | (k', v) :: rest =>
      match assoc_last k rest with
      | Some v' => Some v'
      | None => if String.eqb k k' then Some v else None
      end
  end.

Definition js_get (k : string) (o : json) : jsval :=
  match o with
  | JObj kvs => assoc_last k kvs
  | _ => None
  end.

(** [o?.k] on a value that may be [undefined] or [null]. *)
Definition js_get_opt (k : string) (o : jsval) : jsval :=
  match o with
  | Some (JObj kvs) => assoc_last k kvs
  | _ => None
  end.

(** ToBoolean. *)
Definition js_truthy (v : jsval) : bool :=
  match v with
  | None | Some JNull | Some (JBool false) => false
  | Some (JNum z) => negb (z =? 0)
  | Some (JStr s) => negb (String.eqb s "")
  | Some _ => true
  end.

(** ToString of a JSON value, as a template literal applies it. *)
Fixpoint js_ToString (j : json) : string :=
  match j with
  | JNull => "null"
  | JBool true => "true"
  | JBool false => "false"
  | JNum z => String_of_Z z
  | JStr s => s
  | JArr l =>
      join "," (map (fun x => match x with JNull => "" | _ => js_ToString x end) l)
  | JObj _ => "[object Object]"
  end.

Definition template (v : jsval) : string :=
  match v with
  | None => "undefined"
  | Some j => js_ToString j
  end.

(** StringToNumber on the integer model: surrounding white space is dropped,
    the empty string is 0, an optional sign and decimal digits give the
    integer; everything else is NaN. *)
Definition StringToNumber (s : string) : option Z :=
  match js_trim s with
  | EmptyString => Some 0
  | String c r as t =>
      if Ascii.eqb c "+" then Z.of_uint <$> NilZero.uint_of_string r
      else Z.of_int <$> NilZero.int_of_string t
  end.

(** [Number(v)]; [None] is NaN. *)
Definition js_Number (v : jsval) : option Z :=
  match v with
  | None => None
  | Some JNull => Some 0
  | Some (JBool b) => Some (if b then 1 else 0)
  | Some (JNum z) => Some z
  | Some (JStr s) => StringToNumber s
  | Some (JArr l) => StringToNumber (js_ToString (JArr l))
  | Some (JObj _) => None
  end.

(** [Number.isFinite(v)]: [v] has type number (and is finite). *)
Definition Number_isFinite (v : jsval) : bool :=
  match v with
  | Some (JNum _) => true
  | _ => false
  end.

(** ** A reference JSON parser

    Used only to run closed examples: objects, arrays, strings with the
    escapes [JSON_stringify] writes, integers, [true], [false], [null]. *)

Definition digit_val (c : ascii) : option Z :=
  let n := nat_of_ascii c in
  if ((48 <=? n) && (n <=? 57))%nat then Some (Z.of_nat (n - 48)) else None.

Definition hex_val (c : ascii) : option nat :=
  let n := nat_of_ascii c in
  if ((48 <=? n) && (n <=? 57))%nat then Some (n - 48)%nat
  else if ((97 <=? n) && (n <=? 102))%nat then Some (n - 87)%nat
  else if ((65 <=? n) && (n <=? 70))%nat then Some (n - 55)%nat
  else None.

Fixpoint parse_digits (acc : Z) (s : string) : Z * string :=
  match s with
  | String c t =>
      match digit_val c with
      | Some d => parse_digits (10 * acc + d) t
      | None => (acc, s)
      end
  | EmptyString => (acc, s)
  end.

(** The body of a string literal, after the opening quote. *)
Fixpoint parse_string_body (s : string) : option (string * string) :=
  match s with
  | EmptyString => None
  | String c t =>
      if Ascii.eqb c dq then Some (EmptyString, t)
      else if Ascii.eqb c backslash then
        match t with
        | String e t' =>
            let continue_with (ch : ascii) (rest : string) :=
              match parse_string_body rest with
              | Some (body, r) => Some (String ch body, r)
              | None => None
              end in
            if Ascii.eqb e "u" then
              match t' with
              | String h1 (String h2 (String h3 (String h4 t''))) =>
                  match hex_val h1, hex_val h2, hex_val h3, hex_val h4 with
                  | Some O, Some O, Some a, Some b =>
                      match parse_string_body t'' with
                      | Some (body, r) => Some (String (ascii_of_nat (16 * a + b)) body, r)
                      | None => None
                      end
                  | _, _, _, _ => None
                  end
              | _ => None
              end
            else if Ascii.eqb e "n" then continue_with nl t'
            else if Ascii.eqb e "r" then continue_with cr t'
            else if Ascii.eqb e "t" then continue_with "009"%char t'
            else if Ascii.eqb e "b" then continue_with "008"%char t'
            else if Ascii.eqb e "f" then continue_with "012"%char t'
            else if Ascii.eqb e dq || Ascii.eqb e backslash || Ascii.eqb e "/"
            then continue_with e t'
            else None
        | EmptyString => None
        end
      else if (nat_of_ascii c <? 32)%nat then None
      else
        match parse_string_body t with
        | Some (body, r) => Some (String c body, r)
        | None => None
        end
  end.

Definition is_json_ws (c : ascii) : bool :=
  let n := nat_of_ascii c in
  (n =? 32)%nat || (n =? 9)%nat || (n =? 10)%nat || (n =? 13)%nat.

Fixpoint skip_ws (s : string) : string :=
  match s with
  | String c t => if is_json_ws c then skip_ws t else s
  | EmptyString => EmptyString
  end.

Fixpoint parse_value (fuel : nat) (s : string) : option (json * string) :=
  match fuel with
  | O => None
  | S fuel' =>
      let fix parse_elems (n : nat) (s : string) : option (list json * string) :=
        match n with
        | O => None
        | S n' =>
            match parse_value fuel' s with
            | Some (v, r) =>
                match skip_ws r with
                | String c r' =>
                    if Ascii.eqb c "," then
                      match parse_elems n' (skip_ws r') with
                      | Some (vs, r'') => Some (v :: vs, r'')
                      | None => None
                      end
                    else if Ascii.eqb c "]" then Some ([v], r')
                    else None
                | EmptyString => None
                end
            | None => None
            end
        end in
      let fix parse_members (n : nat) (s : string) : option (list (string * json) * string) :=
        match n with
        | O => None
        | S n' =>
            match s with
            | String q s1 =>
                if Ascii.eqb q dq then
                  match parse_string_body s1 with
                  | Some (k, r0) =>
                      match skip_ws r0 with
                      | String colon r1 =>
                          if Ascii.eqb colon ":" then
                            match parse_value fuel' (skip_ws r1) with
                            | Some (v, r) =>
                                match skip_ws r with
                                | String c r' =>
                                    if Ascii.eqb c "," then
                                      match parse_members n' (skip_ws r') with
                                      | Some (kvs, r'') => Some ((k, v) :: kvs, r'')
                                      | None => None
                                      end
                                    else if Ascii.eqb c "}" then Some ([(k, v)], r')
                                    else None
                                | EmptyString => None
                                end
                            | None => None
                            end
                          else None
                      | EmptyString => None
                      end
                  | None => None
                  end
                else None
            | EmptyString => None
            end
        end in
      match s with
      | EmptyString => None
      | String c t =>
          if Ascii.eqb c dq then
            match parse_string_body t with
            | Some (body, r) => Some (JStr body, r)
            | None => None
            end
          else if Ascii.eqb c "[" then
            match skip_ws t with
            | String c' r => if Ascii.eqb c' "]" then Some (JArr [], r)
                             else match parse_elems (String.length s) (skip_ws t) with
                                  | Some (vs, r') => Some (JArr vs, r')
                                  | None => None
                                  end
            | EmptyString => None
            end
          else if Ascii.eqb c "{" then
            match skip_ws t with
            | String c' r => if Ascii.eqb c' "}" then Some (JObj [], r)
                             else match parse_members (String.length s) (skip_ws t) with
                                  | Some (kvs, r') => Some (JObj kvs, r')
                                  | None => None
                                  end
            | EmptyString => None
            end
          else if String.prefix "null" s then Some (JNull, str_drop 4 s)
          else if String.prefix "true" s then Some (JBool true, str_drop 4 s)
          else if String.prefix "false" s then Some (JBool false, str_drop 5 s)
          else
            let number (sign : Z) (digits : string) :=
              match digits with
              | String d _ =>
                  match digit_val d with
                  | Some _ =>
                      let '(n, r) := parse_digits 0 digits in
                      match r with
                      | String x _ =>
                          if Ascii.eqb x "." || Ascii.eqb x "e" || Ascii.eqb x "E"
                          then None else Some (JNum (sign * n), r)
                      | EmptyString => Some (JNum (sign * n), r)
                      end
                  | None => None
                  end
              | EmptyString => None
              end in
            if Ascii.eqb c "-" then number (-1) t else number 1 s
      end
  end.

Definition JSON_parse_ref (s : string) : option json :=
  match parse_value (S (String.length s)) (skip_ws s) with
  | Some (j, rest) => if String.eqb (skip_ws rest) EmptyString then Some j else None
  | None => None
  end.

(** ** Regular expressions (the fragment [UUID_PATTERN] is written in) *)

Inductive regex : Type :=
  | Chr (c : ascii)                          (* a literal character *)
  | Class (ranges : list (ascii * ascii))    (* [a-f0-9] *)
  | Cat (r1 r2 : regex)                      (* r1 r2 *)
  | Rep (n : nat) (r : regex).               (* r{n} *)

(** A regular expression literal [/^body$/i]: anchors and the ignore-case
    flag around a body. *)
Record js_regexp : Type := {
  re_anchor_start : bool;
  re_body : regex;
  re_anchor_end : bool;
  re_ignore_case : bool;
}.

(** Canonicalize of a regular expression without the unicode flag:
    [toUpperCase] on one code unit (a code unit above 127 never maps into
    ASCII, so it only matches itself against an ASCII class). *)
Definition canonicalize (ic : bool) (c : ascii) : ascii :=
  let n := nat_of_ascii c in
  if ic && (97 <=? n)%nat && (n <=? 122)%nat then ascii_of_nat (n - 32) else c.

Definition range_chars (lo hi : ascii) : list ascii :=
  map (fun k => ascii_of_nat (nat_of_ascii lo + k)) (seq 0 (S (nat_of_ascii hi) - nat_of_ascii lo)).

(** A character matches when some member of the set has the same canonical
    form. *)
Definition char_matches (ic : bool) (set : list ascii) (c : ascii) : bool :=
  existsb (fun a => Ascii.eqb (canonicalize ic a) (canonicalize ic c)) set.

Definition class_chars (ranges : list (ascii * ascii)) : list ascii :=
  flat_map (fun r => range_chars (fst r) (snd r)) ranges.

(** All ways to match [r] at the head of [s]: the list of remainders. *)
Fixpoint re_run (ic : bool) (r : regex) (s : string) : list string :=
  match r with
  | Chr c =>
      match s with
      | String a t => if char_matches ic [c] a then [t] else []
      | EmptyString => []
      end
  | Class ranges =>
      match s with
      | String a t => if char_matches ic (class_chars ranges) a then [t] else []
      | EmptyString => []
      end
  | Cat r1 r2 => flat_map (re_run ic r2) (re_run ic r1 s)
  | Rep n r1 => Nat.iter n (fun k s' => flat_map k (re_run ic r1 s')) (fun s' => [s']) s
  end.

Fixpoint suffixes (s : string) : list string :=
  s :: match s with
       | String _ t => suffixes t
       | EmptyString => []
       end.

(** [p.test(s)]. *)
Definition re_test (p : js_regexp) (s : string) : bool :=
  existsb
    (fun start =>
       existsb (fun rest => if re_anchor_end p then String.eqb rest EmptyString else true)
               (re_run (re_ignore_case p) (re_body p) start))
    (if re_anchor_start p then [s] else suffixes s).

(** ** lib/codex-stream.js: session ids, paths, files *)

Definition hex_class : regex := Class [("a"%char, "f"%char); ("0"%char, "9"%char)].

(** [/^[a-f0-9]{8}-[a-f0-9]{4}-[a-f0-9]{4}-[a-f0-9]{4}-[a-f0-9]{12}$/i] *)
Definition UUID_PATTERN : js_regexp := {|
  re_anchor_start := true;
  re_body :=
    Cat (Rep 8 hex_class) (Cat (Chr "-")
   (Cat (Rep 4 hex_class) (Cat (Chr "-")
   (Cat (Rep 4 hex_class) (Cat (Chr "-")
   (Cat (Rep 4 hex_class) (Cat (Chr "-")
        (Rep 12 hex_class))))))));
  re_anchor_end := true;
  re_ignore_case := true;
|}.

(** The pattern the specification writes:
    [^[a-f0-9]{8}-([a-f0-9]{4}-){3}[a-f0-9]{12}$], with the case flag as a
    parameter. *)
Definition spec_uuid_pattern (ignore_case : bool) : js_regexp := {|
  re_anchor_start := true;
  re_body :=
    Cat (Rep 8 hex_class) (Cat (Chr "-")
   (Cat (Rep 3 (Cat (Rep 4 hex_class) (Chr "-")))
        (Rep 12 hex_class)));
  re_anchor_end := true;
  re_ignore_case := ignore_case;
|}.

(** The outcome of a call that may throw [new Error(msg)]. *)
Inductive result (A : Type) : Type :=
  | Ok (a : A)
  | Throw (msg : string).
Arguments Ok {A} a.
Arguments Throw {A} msg.

#[global] Instance result_ret : MRet result := fun A a => Ok a.
#[global] Instance result_bind : MBind result :=
  fun A B f m => match m with Ok a => f a | Throw msg => Throw msg end.

Definition validateSessionId (sessionId : string) : result unit :=
  if re_test UUID_PATTERN sessionId then Ok tt else Throw "INVALID_SESSION_ID".

Record session_paths : Type := { metaPath : string; jsonlPath : string }.

(** Paths are written relative to the directory [~/.claude-gateway]. *)
Definition CODEX_SESSIONS_DIR : string := "codex-sessions".
Definition CODEX_EVENTS_DIR : string := "codex-events".

Definition getSessionPaths (sessionId : string) : result session_paths :=
  _ ← validateSessionId sessionId;
  mret {| metaPath := CODEX_SESSIONS_DIR +:+ "/" +:+ sessionId +:+ ".json";
          jsonlPath := CODEX_EVENTS_DIR +:+ "/" +:+ sessionId +:+ ".jsonl" |}.

(** The sidecar object: a map from keys to JSON values. *)
Abbreviation meta := (gmap string json).

(** The two directories: sidecars (as the objects they store) and journals
    (as text), by session id. *)
Record fs : Type := {
  fs_meta : gmap string meta;
  fs_jsonl : gmap string string;
}.

Definition set_meta (sessionId : string) (m : meta) (f : fs) : fs :=
  {| fs_meta := <[sessionId := m]> (fs_meta f); fs_jsonl := fs_jsonl f |}.

Definition set_jsonl (sessionId : string) (text : string) (f : fs) : fs :=
  {| fs_meta := fs_meta f; fs_jsonl := <[sessionId := text]> (fs_jsonl f) |}.

(** The text of a journal, empty when the file does not exist. *)
Definition jsonl_text (f : fs) (sessionId : string) : string :=
  default EmptyString (fs_jsonl f !! sessionId).

Definition readSessionMeta (f : fs) (sessionId : string) : result meta :=
  _ ← getSessionPaths sessionId;
  match fs_meta f !! sessionId with
  | None => Throw "SESSION_NOT_FOUND"
  | Some m => Ok m
  end.

Definition writeSessionMeta (f : fs) (sessionId : string) (m : meta) : result fs :=
  _ ← getSessionPaths sessionId;
  mret (set_meta sessionId m f).

Definition touch_jsonl (sessionId : string) (f : fs) : fs :=
  match fs_jsonl f !! sessionId with
  | None => set_jsonl sessionId EmptyString f
  | Some _ => f
  end.

Definition touchEventLog (f : fs) (sessionId : string) : result fs :=
  _ ← getSessionPaths sessionId;
  mret (touch_jsonl sessionId f).

(** [{ ...meta, ...updates }] and [Object.assign(meta, updates)]. *)
Definition assign (m updates : meta) : meta := updates ∪ m.

Definition updateSessionMeta (f : fs) (sessionId : string) (updates : meta) : result (fs * meta) :=
  m ← readSessionMeta f sessionId;
  let merged := assign m updates in
  f' ← writeSessionMeta f sessionId merged;
  mret (f', merged).

Definition createCodexSession (f : fs) (sessionId cwd model now : string) : result (fs * meta) :=
  let m : meta :=
    <["id" := JStr sessionId]> (<["cwd" := JStr cwd]> (<["model" := JStr model]>
    (<["createdAt" := JStr now]> (<["lastMessageAt" := JStr now]>
    (<["lastMessagePreview" := JStr ""]> (<["messageCount" := JNum 0]>
    (<["lastCursor" := JNum 0]> ∅))))))) in
  f1 ← writeSessionMeta f sessionId m;
  f2 ← touchEventLog f1 sessionId;
  mret (f2, m).

(** ** lib/codex-stream.js: the journal writer *)

(** One [res.write(frame)] or [client.write(frame)]. *)
Abbreviation write := (nat * string)%type.

Section Parser.

Context (JSON_parse : string → option json).

(** What the body of the [try] in [readLastCursorFromFile] and in the
    tailer loops makes of one line: [JSON.parse(line)] followed by the read
    of [entry.cursor]; [None] when either throws (a syntax error, or a
    property read on [null]). *)
Definition parse_entry (line : string) : option json :=
  match JSON_parse line with
  | Some JNull => None
  | other => other
  end.

Definition entry_cursor (entry : json) : option Z := js_Number (js_get "cursor" entry).

(** The loop of [readLastCursorFromFile] over the reversed lines. *)
Fixpoint scan_last_cursor (lines : list string) : Z :=
  match lines with
  | [] => 0
  | line :: rest =>
      if blank line then scan_last_cursor rest
      else match parse_entry line with
           | Some entry =>
               match entry_cursor entry with
               | Some cursor => cursor
               | None => 0
               end
           | None => scan_last_cursor rest
           end
  end.

Definition last_chunk (text : string) : string :=
  let size := String.length text in
  let chunkSize := Nat.min (64 * 1024) size in
  str_take chunkSize (str_drop (size - chunkSize) text).

(** [content] is the text of the file, [None] when it does not exist. *)
Definition readLastCursorFromFile (content : option string) : Z :=
  match content with
  | None => 0
  | Some text => scan_last_cursor (rev (split_on nl (last_chunk text)))
  end.

(** The object [createEventWriter] returns: the sidecar object it parsed
    (mutated by [commit]) and the cursor variable of its closure. *)
Record writer : Type := {
  w_sessionId : string;
  w_meta : meta;
  w_cursor : Z;
}.

(** [meta.lastCursor || 0] for a number. *)
Definition number_or_zero (v : jsval) : Z :=
  match v with
  | Some (JNum z) => z
  | _ => 0
  end.

Definition createEventWriter (f : fs) (sessionId : string) : result (fs * writer) :=
  _ ← getSessionPaths sessionId;
  match fs_meta f !! sessionId with
  | None => Throw "SESSION_NOT_FOUND"
  | Some m =>
      let f1 := touch_jsonl sessionId f in
      let m1 :=
        if Number_isFinite (m !! "lastCursor") then m
        else <["lastCursor" := JNum (readLastCursorFromFile (fs_jsonl f1 !! sessionId))]> m in
      Ok (f1, {| w_sessionId := sessionId; w_meta := m1;
                 w_cursor := number_or_zero (m1 !! "lastCursor") |})
  end.

Definition journal_record (cursor : Z) (event : string) (data : json) : json :=
  JObj [("cursor", JStr (String_of_Z cursor)); ("event", JStr event); ("data", data)].

Definition journal_line (record : json) : string := JSON_stringify record +:+ NL.

(** [writer.append(event, data)]: the file system and the writer after the
    call, and the value returned. *)
Definition writer_append (f : fs) (w : writer) (event : string) (data : json)
  : fs * writer * Z :=
  let cursor := w_cursor w + 1 in
  let record := journal_record cursor event data in
  (set_jsonl (w_sessionId w) (jsonl_text f (w_sessionId w) +:+ journal_line record) f,
   {| w_sessionId := w_sessionId w; w_meta := w_meta w; w_cursor := cursor |},
   cursor).

(** [writer.commit(updates)]. *)
Definition writer_commit (f : fs) (w : writer) (updates : meta) : fs * writer :=
  let m := assign (<["lastCursor" := JNum (w_cursor w)]> (w_meta w)) updates in
  (set_meta (w_sessionId w) m f,
   {| w_sessionId := w_sessionId w; w_meta := m; w_cursor := w_cursor w |}).

(** ** lib/codex-stream.js: SSE framing and the tailer *)

(** [JSON.stringify(v)] inside a template literal. *)
Definition stringify_val (v : jsval) : string :=
  match v with
  | Some j => JSON_stringify j
  | None => "undefined"
  end.

Definition formatSSE (eventType cursor data : jsval) : string :=
  let lines :=
    [ "id: " +:+ template cursor;
      "event: " +:+ template eventType;
      "data: " +:+ stringify_val data;
      "";
      "" ] in
  join NL lines.

Definition entry_frame (entry : json) : string :=
  formatSSE (js_get "event" entry) (js_get "cursor" entry) (js_get "data" entry).

(** A [CodexTailer]: clients are response objects, named by numbers and
    kept in insertion order as a [Set] does. *)
Record tailer : Type := {
  t_sessionId : string;
  t_clients : list nat;
  t_position : Z;
  t_lastCursor : Z;
  t_processing : bool;
}.

Definition set_add (c : nat) (l : list nat) : list nat :=
  if bool_decide (c ∈ l) then l else l ++ [c].

(** The [for await] loop of [streamHistory]: the frames written, the final
    [eventCount] and the final [lastCursor]. [limit = None] is [Infinity]. *)
Fixpoint history_loop (sinceCursor : Z) (limit : option nat)
    (lines : list string) (eventCount : nat) (lastCursor : Z)
  : list string * nat * Z :=
  match lines with
  | [] => ([], eventCount, lastCursor)
  | line :: rest =>
      if blank line then history_loop sinceCursor limit rest eventCount lastCursor
      else if match limit with Some n => (n <=? eventCount)%nat | None => false end
      then ([], eventCount, lastCursor)
      else
        match parse_entry line with
        | Some entry =>
            match entry_cursor entry with
            | Some cursor =>
                if cursor <=? sinceCursor
                then history_loop sinceCursor limit rest eventCount lastCursor
                else
                  let '(frames, n, lc) :=
                    history_loop sinceCursor limit rest (S eventCount) (Z.max lastCursor cursor) in
                  (entry_frame entry :: frames, n, lc)
            | None => history_loop sinceCursor limit rest eventCount lastCursor
            end
        | None => history_loop sinceCursor limit rest eventCount lastCursor
        end
  end.

Definition history_start_frame (sinceCursor : Z) : string :=
  formatSSE (Some (JStr "history_start")) (Some (JStr "history-start"))
            (Some (JObj [("since", JNum sinceCursor)])).

Definition history_end_frame (eventCount : nat) : string :=
  formatSSE (Some (JStr "history_end")) (Some (JStr "history-end"))
            (Some (JObj [("count", JNum (Z.of_nat eventCount))])).

(** [streamHistory(res, sinceCursor, limit)], run without interleaving. *)
Definition streamHistory (f : fs) (t : tailer) (res : nat) (sinceCursor : Z) (limit : option nat)
  : tailer * list write :=
  match fs_jsonl f !! t_sessionId t with
  | None => (t, [])
  | Some text =>
      let '(frames, eventCount, lastCursor) :=
        history_loop sinceCursor limit (readline_lines text) O (t_lastCursor t) in
      ({| t_sessionId := t_sessionId t; t_clients := t_clients t;
          t_position := str_len text; t_lastCursor := lastCursor;
          t_processing := t_processing t |},
       map (pair res) ([history_start_frame sinceCursor] ++ frames ++ [history_end_frame eventCount]))
  end.

(** [addClient(res, { since, limit })] with [sinceCursor = Number(since) || 0],
    when nothing happens between the replay and the registration of the
    client; [conn_step] below has the two steps apart. *)
Definition addClient (f : fs) (t : tailer) (res : nat) (sinceCursor : Z) (limit : option nat)
  : tailer * list write :=
  let '(t1, out) := streamHistory f t res sinceCursor limit in
  ({| t_sessionId := t_sessionId t1; t_clients := set_add res (t_clients t1);
      t_position := t_position t1; t_lastCursor := t_lastCursor t1;
      t_processing := t_processing t1 |}, out).

(** The handler of the [close] event that [addClient] registers. *)
Definition removeClient (t : tailer) (res : nat) : tailer :=
  {| t_sessionId := t_sessionId t; t_clients := filter (fun c => c ≠ res) (t_clients t);
     t_position := t_position t; t_lastCursor := t_lastCursor t;
     t_processing := t_processing t |}.

Definition broadcast (clients : list nat) (frame : string) : list write :=
  map (fun c => (c, frame)) clients.

(** The [for await] loop of [processNewLines]. *)
Fixpoint live_loop (clients : list nat) (lines : list string) (lastCursor : Z)
  : list write * Z :=
  match lines with
  | [] => ([], lastCursor)
  | line :: rest =>
      if blank line then live_loop clients rest lastCursor
      else
        match parse_entry line with
        | Some entry =>
            let n := match entry_cursor entry with
                     | Some c => if c =? 0 then lastCursor else c
                     | None => lastCursor
                     end in
            let '(out, lc) := live_loop clients rest (Z.max lastCursor n) in
            (broadcast clients (entry_frame entry) ++ out, lc)
        | None => live_loop clients rest lastCursor
        end
  end.

(** [processNewLines()], run without interleaving. *)
Definition processNewLines (f : fs) (t : tailer) : tailer * list write :=
  if t_processing t then (t, [])
  else
    match fs_jsonl f !! t_sessionId t with
    | None => (t, [])
    | Some text =>
        let size := str_len text in
        if size <=? t_position t then (t, [])
        else
          let '(out, lastCursor) :=
            live_loop (t_clients t)
                      (readline_lines (str_drop (Z.to_nat (t_position t)) text))
                      (t_lastCursor t) in
          ({| t_sessionId := t_sessionId t; t_clients := t_clients t;
              t_position := size; t_lastCursor := lastCursor;
              t_processing := false |}, out)
    end.

End Parser.

(** ** The PTY history buffer (the [onData] handler of [getSession]) *)

Definition onData (HISTORY_LIMIT : Z) (history data : string) : string :=
  let history := history +:+ data in
  if str_len history >? HISTORY_LIMIT
  then js_slice_from (str_len history - HISTORY_LIMIT) history
  else history.

(** ** The tailer driven by its environment

    What happens to one tailer and the journal it watches: some writer
    appends text to the journal, the file watcher fires
    ([processNewLines]), a client attaches ([addClient]), a client closes
    its connection.  Each handler runs without interleaving. *)

Inductive tail_event : Type :=
  | TAppend (text : string)
  | TNotify
  | TAttach (res : nat) (sinceCursor : Z) (limit : option nat)
  | TClose (res : nat).

Section TailerRun.

Context (JSON_parse : string → option json).

Definition tail_step (st : fs * tailer) (ev : tail_event) : fs * tailer * list write :=
  let '(f, t) := st in
  match ev with
  | TAppend text =>
      (set_jsonl (t_sessionId t) (jsonl_text f (t_sessionId t) +:+ text) f, t, [])
  | TNotify => let '(t', out) := processNewLines JSON_parse f t in (f, t', out)
  | TAttach res sinceCursor limit =>
      let '(t', out) := addClient JSON_parse f t res sinceCursor limit in (f, t', out)
  | TClose res => (f, removeClient t res, [])
  end.

Fixpoint tail_run (st : fs * tailer) (evs : list tail_event) : fs * tailer * list write :=
  match evs with
  | [] => (st, [])
  | ev :: rest =>
      let '(st1, out1) := tail_step st ev in
      let '(st2, out2) := tail_run st1 rest in
      (st2, out1 ++ out2)
  end.

End TailerRun.

(** [new CodexTailer(sessionId, ...)]. *)
Definition new_tailer (sessionId : string) : tailer :=
  {| t_sessionId := sessionId; t_clients := []; t_position := 0; t_lastCursor := 0;
     t_processing := false |}.

(** ** The gateway server: state of the Codex turn engine *)

(** The configuration read from the environment at start-up.
    [cfg_usage model latestUsage] stands for the pair [usageSummary],
    [contextInfo] that [finalizeRun] computes (token sums and, in
    [computeContextInfo], a floating-point ratio); both are only stored in
    the sidecar. *)
Record config : Type := {
  CODEX_MODEL : string;
  CODEX_BIN : string;
  CODEX_MODEL_CHOICES : list string;
  CODEX_APPROVAL_POLICY : string;
  CODEX_SANDBOX_MODE : string;
  WORKDIR : string;
  cfg_usage : json → option json → json * json;
}.

(** An entry of [codexQueueBySession]. *)
Record turn : Type := {
  turn_prompt : string;
  turn_content : string;
  turn_imagePath : option string;
  turn_userMessageId : string;
}.

(** The variables one call of [startNextCodexTurn] closes over; the
    closures [finalizeRun] and the handlers of the child process share
    them.  A run is named by its index in [g_runs]. *)
Record run : Type := {
  r_sessionId : string;
  r_turn : turn;
  r_sessionMeta : meta;
  r_writer : writer;
  r_assistantMessageId : string;
  r_blockIndex : Z;
  r_stderrBuf : string;
  r_finished : bool;
  r_assistantPreview : string;
  r_latestThreadId : string;
  r_latestUsage : option json;
  r_lastCursor : Z;
  r_spawned : bool;      (* the child exists and its handlers are registered *)
  r_killed : bool;       (* [proc.killed] *)
}.

Record gateway : Type := {
  g_fs : fs;
  activeCodexRuns : gset string;
  codexProcBySession : gmap string nat;       (* sessionId -> child process, by run *)
  codexFinalizeBySession : gmap string nat;   (* sessionId -> finalizeRun, by run *)
  codexQueueBySession : gmap string (list turn);
  g_runs : list run;
  g_next_id : nat;                            (* the supply of [newId()] *)
}.

(** What a handler does to the world outside the maps. *)
Inductive obs : Type :=
  | ObsAppend (sessionId : string) (record : json)   (* one line appended to a journal *)
  | ObsEnqueue (sessionId : string) (t : turn)       (* [queue.push(turn)] *)
  | ObsStart (sessionId : string) (rid : nat) (t : turn)  (* a turn becomes the active run *)
  | ObsSpawn (rid : nat) (args : list string)        (* [spawn(CODEX_BIN, args)] *)
  | ObsKill (rid : nat) (signal : string)            (* [proc.kill(signal)] *)
  | ObsSetImmediate (sessionId : string).            (* [setImmediate(startNextCodexTurn)] *)

(** [res.status(status).json(body)]. *)
Record response : Type := { resp_status : Z; resp_body : json }.

(** Handlers are sequential code over the state that logs what it does. *)
Definition M (A : Type) : Type := gateway → A * gateway * list obs.

#[global] Instance M_ret : MRet M := fun A a st => (a, st, []).
#[global] Instance M_bind : MBind M :=
  fun A B k m st =>
    let '(a, st1, o1) := m st in
    let '(b, st2, o2) := k a st1 in
    (b, st2, o1 ++ o2).

Definition get_state : M gateway := fun st => (st, st, []).
Definition tell (o : list obs) : M unit := fun st => (tt, st, o).
Definition modify (g : gateway → gateway) : M unit := fun st => (tt, g st, []).

Definition set_fs (f : fs) (st : gateway) : gateway :=
  {| g_fs := f; activeCodexRuns := activeCodexRuns st;
     codexProcBySession := codexProcBySession st;
     codexFinalizeBySession := codexFinalizeBySession st;
     codexQueueBySession := codexQueueBySession st;
     g_runs := g_runs st; g_next_id := g_next_id st |}.

Definition set_active (a : gset string) (st : gateway) : gateway :=
  {| g_fs := g_fs st; activeCodexRuns := a;
     codexProcBySession := codexProcBySession st;
     codexFinalizeBySession := codexFinalizeBySession st;
     codexQueueBySession := codexQueueBySession st;
     g_runs := g_runs st; g_next_id := g_next_id st |}.

Definition set_procs (p : gmap string nat) (st : gateway) : gateway :=
  {| g_fs := g_fs st; activeCodexRuns := activeCodexRuns st;
     codexProcBySession := p;
     codexFinalizeBySession := codexFinalizeBySession st;
     codexQueueBySession := codexQueueBySession st;
     g_runs := g_runs st; g_next_id := g_next_id st |}.

Definition set_finalizers (p : gmap string nat) (st : gateway) : gateway :=
  {| g_fs := g_fs st; activeCodexRuns := activeCodexRuns st;
     codexProcBySession := codexProcBySession st;
     codexFinalizeBySession := p;
     codexQueueBySession := codexQueueBySession st;
     g_runs := g_runs st; g_next_id := g_next_id st |}.

Definition set_queues (q : gmap string (list turn)) (st : gateway) : gateway :=
  {| g_fs := g_fs st; activeCodexRuns := activeCodexRuns st;
     codexProcBySession := codexProcBySession st;
     codexFinalizeBySession := codexFinalizeBySession st;
     codexQueueBySession := q;
     g_runs := g_runs st; g_next_id := g_next_id st |}.

Definition set_runs (r : list run) (st : gateway) : gateway :=
  {| g_fs := g_fs st; activeCodexRuns := activeCodexRuns st;
     codexProcBySession := codexProcBySession st;
     codexFinalizeBySession := codexFinalizeBySession st;
     codexQueueBySession := codexQueueBySession st;
     g_runs := r; g_next_id := g_next_id st |}.

Definition set_next_id (n : nat) (st : gateway) : gateway :=
  {| g_fs := g_fs st; activeCodexRuns := activeCodexRuns st;
     codexProcBySession := codexProcBySession st;
     codexFinalizeBySession := codexFinalizeBySession st;
     codexQueueBySession := codexQueueBySession st;
     g_runs := g_runs st; g_next_id := n |}.

(** Assignments to the variables of a run. *)
Definition set_writer (w : writer) (c : Z) (r : run) : run :=
  {| r_sessionId := r_sessionId r; r_turn := r_turn r; r_sessionMeta := r_sessionMeta r;
     r_writer := w; r_assistantMessageId := r_assistantMessageId r;
     r_blockIndex := r_blockIndex r; r_stderrBuf := r_stderrBuf r;
     r_finished := r_finished r; r_assistantPreview := r_assistantPreview r;
     r_latestThreadId := r_latestThreadId r; r_latestUsage := r_latestUsage r;
     r_lastCursor := c; r_spawned := r_spawned r; r_killed := r_killed r |}.

Definition set_blockIndex (i : Z) (r : run) : run :=
  {| r_sessionId := r_sessionId r; r_turn := r_turn r; r_sessionMeta := r_sessionMeta r;
     r_writer := r_writer r; r_assistantMessageId := r_assistantMessageId r;
     r_blockIndex := i; r_stderrBuf := r_stderrBuf r; r_finished := r_finished r;
     r_assistantPreview := r_assistantPreview r; r_latestThreadId := r_latestThreadId r;
     r_latestUsage := r_latestUsage r; r_lastCursor := r_lastCursor r;
     r_spawned := r_spawned r; r_killed := r_killed r |}.

Definition set_stderrBuf (s : string) (r : run) : run :=
  {| r_sessionId := r_sessionId r; r_turn := r_turn r; r_sessionMeta := r_sessionMeta r;
     r_writer := r_writer r; r_assistantMessageId := r_assistantMessageId r;
     r_blockIndex := r_blockIndex r; r_stderrBuf := s; r_finished := r_finished r;
     r_assistantPreview := r_assistantPreview r; r_latestThreadId := r_latestThreadId r;
     r_latestUsage := r_latestUsage r; r_lastCursor := r_lastCursor r;
     r_spawned := r_spawned r; r_killed := r_killed r |}.

Definition set_finished (r : run) : run :=
  {| r_sessionId := r_sessionId r; r_turn := r_turn r; r_sessionMeta := r_sessionMeta r;
     r_writer := r_writer r; r_assistantMessageId := r_assistantMessageId r;
     r_blockIndex := r_blockIndex r; r_stderrBuf := r_stderrBuf r; r_finished := true;
     r_assistantPreview := r_assistantPreview r; r_latestThreadId := r_latestThreadId r;
     r_latestUsage := r_latestUsage r; r_lastCursor := r_lastCursor r;
     r_spawned := r_spawned r; r_killed := r_killed r |}.

Definition set_assistantPreview (s : string) (r : run) : run :=
  {| r_sessionId := r_sessionId r; r_turn := r_turn r; r_sessionMeta := r_sessionMeta r;
     r_writer := r_writer r; r_assistantMessageId := r_assistantMessageId r;
     r_blockIndex := r_blockIndex r; r_stderrBuf := r_stderrBuf r;
     r_finished := r_finished r; r_assistantPreview := s;
     r_latestThreadId := r_latestThreadId r; r_latestUsage := r_latestUsage r;
     r_lastCursor := r_lastCursor r; r_spawned := r_spawned r; r_killed := r_killed r |}.

Definition set_latestThreadId (s : string) (r : run) : run :=
  {| r_sessionId := r_sessionId r; r_turn := r_turn r; r_sessionMeta := r_sessionMeta r;
     r_writer := r_writer r; r_assistantMessageId := r_assistantMessageId r;
     r_blockIndex := r_blockIndex r; r_stderrBuf := r_stderrBuf r;
     r_finished := r_finished r; r_assistantPreview := r_assistantPreview r;
     r_latestThreadId := s; r_latestUsage := r_latestUsage r;
     r_lastCursor := r_lastCursor r; r_spawned := r_spawned r; r_killed := r_killed r |}.

Definition set_latestUsage (u : option json) (r : run) : run :=
  {| r_sessionId := r_sessionId r; r_turn := r_turn r; r_sessionMeta := r_sessionMeta r;
     r_writer := r_writer r; r_assistantMessageId := r_assistantMessageId r;
     r_blockIndex := r_blockIndex r; r_stderrBuf := r_stderrBuf r;
     r_finished := r_finished r; r_assistantPreview := r_assistantPreview r;
     r_latestThreadId := r_latestThreadId r; r_latestUsage := u;
     r_lastCursor := r_lastCursor r; r_spawned := r_spawned r; r_killed := r_killed r |}.

Definition set_spawned (r : run) : run :=
  {| r_sessionId := r_sessionId r; r_turn := r_turn r; r_sessionMeta := r_sessionMeta r;
     r_writer := r_writer r; r_assistantMessageId := r_assistantMessageId r;
     r_blockIndex := r_blockIndex r; r_stderrBuf := r_stderrBuf r;
     r_finished := r_finished r; r_assistantPreview := r_assistantPreview r;
     r_latestThreadId := r_latestThreadId r; r_latestUsage := r_latestUsage r;
     r_lastCursor := r_lastCursor r; r_spawned := true; r_killed := r_killed r |}.

Definition set_killed (r : run) : run :=
  {| r_sessionId := r_sessionId r; r_turn := r_turn r; r_sessionMeta := r_sessionMeta r;
     r_writer := r_writer r; r_assistantMessageId := r_assistantMessageId r;
     r_blockIndex := r_blockIndex r; r_stderrBuf := r_stderrBuf r;
     r_finished := r_finished r; r_assistantPreview := r_assistantPreview r;
     r_latestThreadId := r_latestThreadId r; r_latestUsage := r_latestUsage r;
     r_lastCursor := r_lastCursor r; r_spawned := r_spawned r; r_killed := true |}.

(** Assign variables of run [rid]. *)
Definition update_run (rid : nat) (g : run → run) : M unit :=
  modify (fun st => set_runs (alter g rid (g_runs st)) st).

(** ** The gateway server: the handlers of the Codex turn engine *)

(** [a || b] and [a === s] on values read from parsed JSON. *)
Definition js_or (a : jsval) (b : json) : json :=
  match a with
  | Some v => if js_truthy a then v else b
  | None => b
  end.

Definition js_is (v : jsval) (s : string) : bool :=
  match v with
  | Some (JStr x) => String.eqb x s
  | _ => false
  end.

(** The string in a field the Codex schema types as a string; any other
    value is read through [String(v)]. *)
Definition js_text (v : json) : string := js_ToString v.

(** [x.length] of a string or an array, [undefined] otherwise. *)
Definition js_length (v : json) : jsval :=
  match v with
  | JStr s => Some (JNum (str_len s))
  | JArr l => Some (JNum (Z.of_nat (length l)))
  | _ => None
  end.

(** [formatModelLabel(model)]. *)
Definition formatModelLabel (model : string) : string :=
  let m := js_trim model in
  replace_all "-" " " (replace_all "-codex-" " codex " (strip_prefix "gpt-" m)).

(** The body of a request handler or callback of the environment. *)
Inductive event : Type :=
  | EvSubmit (sessionId content : string) (imagePath : option string) (now : string)
  | EvCancel (sessionId : string) (clearQueue : bool) (now : string)
  | EvStartNext (sessionId now : string) (bin_ok : bool)   (* the setImmediate callback *)
  | EvStdout (rid : nat) (line : string)                   (* stdoutRl 'line' *)
  | EvStderr (rid : nat) (text : string)                   (* proc.stderr 'data' *)
  | EvClose (rid : nat) (code : option Z) (now : string)   (* proc 'close' *)
  | EvError (rid : nat) (message : string) (now : string). (* proc 'error' *)

Section Engine.

Context (JSON_parse : string → option json) (cfg : config).

(** [newId()]: [crypto.randomUUID()] is modelled by a counter, which gives
    ids that never repeat. *)
Definition newId : M string :=
  fun st => ("id-" +:+ String_of_Z (Z.of_nat (g_next_id st)),
             set_next_id (S (g_next_id st)) st, []).

Definition append (w : writer) (event : string) (data : json) : M (writer * Z) :=
  fun st =>
    let '(f, w', c) := writer_append (g_fs st) w event data in
    ((w', c), set_fs f st, [ObsAppend (w_sessionId w) (journal_record c event data)]).

Definition commit (w : writer) (updates : meta) : M writer :=
  fun st =>
    let '(f, w') := writer_commit (g_fs st) w updates in
    (w', set_fs f st, []).

Definition with_run (rid : nat) (k : run → M unit) : M unit :=
  st ← get_state;
  match g_runs st !! rid with
  | Some r => k r
  | None => mret tt
  end.

Definition effective_model (m : meta) : json := js_or (m !! "model") (JStr (CODEX_MODEL cfg)).

Definition emitCodexSessionMetaUpdate (sessionId : string) : M unit :=
  st ← get_state;
  match readSessionMeta (g_fs st) sessionId with
  | Throw _ => mret tt
  | Ok m =>
      match createEventWriter JSON_parse (g_fs st) sessionId with
      | Throw _ => mret tt
      | Ok (f1, writer) =>
          modify (set_fs f1);;
          let isActive := bool_decide (sessionId ∈ activeCodexRuns st) in
          let queueLength := length (default [] (codexQueueBySession st !! sessionId)) in
          '(w1, _) ← append writer "session_meta"
            (obj [ ("provider", Some (JStr "codex"));
                   ("sessionId", Some (JStr sessionId));
                   ("cwd", m !! "cwd");
                   ("model", Some (effective_model m));
                   ("latestThreadId", Some (js_or (m !! "latestThreadId") (JStr "")));
                   ("usage", Some (js_or (m !! "usage") JNull));
                   ("contextInfo", Some (js_or (m !! "contextInfo") JNull));
                   ("isActive", Some (JBool isActive));
                   ("queueLength", Some (JNum (Z.of_nat queueLength))) ]);
          _ ← commit w1 ∅;
          mret tt
      end
  end.

(** [append('content_block', { messageId, index: blockIndex++, block })]
    through the writer of run [rid]. *)
Definition append_block (rid : nat) (block : json) : M unit :=
  with_run rid (fun r =>
    '(w, c) ← append (r_writer r) "content_block"
      (JObj [ ("messageId", JStr (r_assistantMessageId r));
              ("index", JNum (r_blockIndex r));
              ("block", block) ]);
    update_run rid (fun r => set_blockIndex (r_blockIndex r + 1) (set_writer w c r))).

Definition appendAssistantText (rid : nat) (text : string) : M unit :=
  append_block rid (JObj [("type", JStr "text"); ("text", JStr text)]).

(** [finalizeRun(stopReason, code, signal)] of run [rid]; [code = None] is
    [null]. *)
Definition finalizeRun (rid : nat) (stopReason : string) (code : option Z) (now : string)
  : M unit :=
  with_run rid (fun r =>
    if r_finished r then mret tt
    else
      update_run rid set_finished;;
      (if String.eqb stopReason "error" then
         let stderrPreview := js_slice_to 2000 (js_trim (r_stderrBuf r)) in
         if r_blockIndex r =? 0 then
           appendAssistantText rid
             ("Codex failed to produce a response (exit="
                +:+ match code with Some z => String_of_Z z | None => "unknown" end
                +:+ ")." +:+ NL
                +:+ (if String.eqb stderrPreview "" then ""
                     else NL +:+ "Stderr:" +:+ NL +:+ stderrPreview))
         else if String.eqb stderrPreview "" then mret tt
         else appendAssistantText rid ("(Codex stderr)" +:+ NL +:+ stderrPreview)
       else mret tt);;
      with_run rid (fun r1 =>
        if String.eqb stopReason "cancelled" && (r_blockIndex r1 =? 0)
        then appendAssistantText rid "Cancelled."
        else mret tt);;
      with_run rid (fun r2 =>
        '(w, lastCursor) ← append (r_writer r2) "message_end"
          (JObj [ ("id", JStr (r_assistantMessageId r2)); ("stopReason", JStr stopReason) ]);
        let model := effective_model (r_sessionMeta r2) in
        let '(usageSummary, contextInfo) := cfg_usage cfg model (r_latestUsage r2) in
        let preview :=
          if String.eqb (r_assistantPreview r2) "" then turn_content (r_turn r2)
          else r_assistantPreview r2 in
        let latestThreadId :=
          if String.eqb (r_latestThreadId r2) ""
          then js_or (w_meta w !! "latestThreadId") (JStr "")
          else JStr (r_latestThreadId r2) in
        w' ← commit w
          (<["lastMessageAt" := JStr now]>
          (<["lastMessagePreview" := JStr (js_slice_to 120 preview)]>
          (<["messageCount" := JNum lastCursor]>
          (<["latestThreadId" := latestThreadId]>
          (<["model" := model]>
          (<["usage" := usageSummary]>
          (<["contextInfo" := contextInfo]> ∅)))))));
        update_run rid (set_writer w' lastCursor);;
        modify (fun st => set_procs (delete (r_sessionId r2) (codexProcBySession st)) st);;
        modify (fun st => set_finalizers (delete (r_sessionId r2) (codexFinalizeBySession st)) st);;
        modify (fun st => set_active (activeCodexRuns st ∖ {[r_sessionId r2]}) st);;
        emitCodexSessionMetaUpdate (r_sessionId r2);;
        tell [ObsSetImmediate (r_sessionId r2)])).

Definition startNextCodexTurn (sessionId now : string) (bin_ok : bool) : M unit :=
  st ← get_state;
  if bool_decide (sessionId ∈ activeCodexRuns st) then mret tt
  else
    match default [] (codexQueueBySession st !! sessionId) with
    | [] => mret tt
    | turn :: queue =>
        modify (fun st => set_queues (<[sessionId := queue]> (codexQueueBySession st)) st);;
        match readSessionMeta (g_fs st) sessionId with
        | Throw _ => mret tt
        | Ok sessionMeta =>
            match createEventWriter JSON_parse (g_fs st) sessionId with
            | Throw _ => mret tt
            | Ok (f1, writer) =>
                modify (set_fs f1);;
                assistantMessageId ← newId;
                let rid := length (g_runs st) in
                let lastCursor := number_or_zero (w_meta writer !! "lastCursor") in
                let r :=
                  {| r_sessionId := sessionId; r_turn := turn; r_sessionMeta := sessionMeta;
                     r_writer := writer; r_assistantMessageId := assistantMessageId;
                     r_blockIndex := 0; r_stderrBuf := ""; r_finished := false;
                     r_assistantPreview := ""; r_latestThreadId := "";
                     r_latestUsage := None; r_lastCursor := lastCursor;
                     r_spawned := false; r_killed := false |} in
                modify (fun st => set_runs (g_runs st ++ [r]) st);;
                modify (fun st => set_finalizers (<[sessionId := rid]> (codexFinalizeBySession st)) st);;
                modify (fun st => set_active ({[sessionId]} ∪ activeCodexRuns st) st);;
                tell [ObsStart sessionId rid turn];;
                emitCodexSessionMetaUpdate sessionId;;
                if negb bin_ok then
                  update_run rid (set_stderrBuf ("Executable not found: " +:+ CODEX_BIN cfg));;
                  finalizeRun rid "error" None now
                else
                  let model := effective_model sessionMeta in
                  let args :=
                    [ "-a"; CODEX_APPROVAL_POLICY cfg; "exec"; "--json"; "--skip-git-repo-check";
                      "-C"; js_text (js_or (sessionMeta !! "cwd") (JStr (WORKDIR cfg)));
                      "--sandbox"; CODEX_SANDBOX_MODE cfg ]
                    ++ (if js_truthy (Some model) then ["--model"; js_text model] else [])
                    ++ [turn_prompt turn] in
                  '(w, c) ← append writer "message_start"
                    (JObj [ ("id", JStr assistantMessageId);
                            ("lineNumber", JNum (lastCursor + 1));
                            ("role", JStr "assistant");
                            ("timestamp", JStr now);
                            ("sessionId", JStr sessionId) ]);
                  update_run rid (set_writer w c);;
                  tell [ObsSpawn rid args];;
                  modify (fun st => set_procs (<[sessionId := rid]> (codexProcBySession st)) st);;
                  update_run rid set_spawned
            end
        end
    end.

(** The ['line'] handler of the child's stdout.  A line that parses to
    [null] makes the handler throw on [entry.type]; nothing is written. *)
Definition on_stdout_line (rid : nat) (line : string) : M unit :=
  with_run rid (fun r =>
    if negb (r_spawned r) || blank line then mret tt
    else
      match parse_entry JSON_parse line with
      | None => mret tt
      | Some entry =>
          let type := js_get "type" entry in
          let item := js_get "item" entry in
          let item_type := js_get_opt "type" item in
          (if js_is type "thread.started" && js_truthy (js_get "thread_id" entry)
           then update_run rid
                  (set_latestThreadId (template (js_get "thread_id" entry)))
           else mret tt);;
          (if js_is type "turn.completed" && js_truthy (js_get "usage" entry)
           then update_run rid (set_latestUsage (js_get "usage" entry))
           else mret tt);;
          (if js_is type "item.started" && js_is item_type "command_execution"
           then append_block rid
                  (obj [ ("type", Some (JStr "tool_use"));
                         ("toolUseId", js_get_opt "id" item);
                         ("toolName", Some (JStr "bash"));
                         ("input", Some (obj [("command", js_get_opt "command" item)])) ])
           else mret tt);;
          (if js_is type "item.completed" then
             if js_is item_type "command_execution" then
               let output := js_or (js_get_opt "aggregated_output" item) (JStr "") in
               let exit_code := js_Number (Some (js_or (js_get_opt "exit_code" item) (JNum 0))) in
               append_block rid
                 (obj [ ("type", Some (JStr "tool_result"));
                        ("toolUseId", js_get_opt "id" item);
                        ("content", Some output);
                        ("isError", Some (JBool (negb (bool_decide (exit_code = Some 0)))));
                        ("charCount", js_length output) ])
             else if js_is item_type "agent_message" then
               let text := js_or (js_get_opt "text" item) (JStr "") in
               (if js_truthy (Some text)
                then update_run rid (set_assistantPreview (js_text text))
                else mret tt);;
               append_block rid (JObj [("type", JStr "text"); ("text", text)])
             else if js_is item_type "reasoning" then
               append_block rid
                 (JObj [ ("type", JStr "thinking");
                         ("thinking", js_or (js_get_opt "text" item) (JStr "")) ])
             else mret tt
           else mret tt)
      end).

Definition on_stderr (rid : nat) (text : string) : M unit :=
  with_run rid (fun r =>
    if negb (r_spawned r) || blank text then mret tt
    else
      let buf := r_stderrBuf r +:+ text in
      update_run rid
        (set_stderrBuf (if str_len buf >? 8000 then js_slice_from (str_len buf - 8000) buf
                        else buf))).

Definition on_close (rid : nat) (code : option Z) (now : string) : M unit :=
  with_run rid (fun r =>
    if negb (r_spawned r) then mret tt
    else finalizeRun rid (if bool_decide (code = Some 0) then "end_turn" else "error") code now).

Definition on_error (rid : nat) (message now : string) : M unit :=
  with_run rid (fun r =>
    if negb (r_spawned r) then mret tt
    else
      update_run rid (fun r => set_stderrBuf (if String.eqb message "" then r_stderrBuf r
                                              else message) r);;
      finalizeRun rid "error" None now).

Definition cancel_response (cancelled clearQueue : bool) : response :=
  {| resp_status := 200;
     resp_body := JObj [ ("ok", JBool true); ("cancelled", JBool cancelled);
                         ("running", JBool cancelled); ("clearedQueue", JBool clearQueue) ] |}.

(** POST /api/codex/sessions/:sessionId/cancel *)
Definition cancel (sessionId : string) (clearQueue : bool) (now : string) : M response :=
  (if clearQueue
   then modify (fun st => set_queues (<[sessionId := []]> (codexQueueBySession st)) st)
   else mret tt);;
  st ← get_state;
  let finalize := codexFinalizeBySession st !! sessionId in
  let proc := codexProcBySession st !! sessionId in
  match proc, finalize with
  | None, None =>
      emitCodexSessionMetaUpdate sessionId;;
      mret (cancel_response false clearQueue)
  | _, _ =>
      match finalize with
      | Some rid => finalizeRun rid "cancelled" None now
      | None => mret tt
      end;;
      match proc with
      | Some prid =>
          with_run prid (fun r =>
            if r_killed r then mret tt
            else tell [ObsKill prid "SIGTERM"];; update_run prid set_killed)
      | None => mret tt
      end;;
      emitCodexSessionMetaUpdate sessionId;;
      mret (cancel_response true clearQueue)
  end.

Definition error_response (status : Z) (error message : string) : response :=
  {| resp_status := status;
     resp_body := JObj [("error", JStr error); ("message", JStr message)] |}.

Definition accepted_response (messageId : string) : response :=
  {| resp_status := 200;
     resp_body := JObj [("accepted", JBool true); ("messageId", JStr messageId)] |}.

Definition current_model (m : meta) : string :=
  js_text (js_or (Some (effective_model m)) (JStr "(default)")).

(** The text of the assistant's answer to a gateway command, with the
    sidecar write of [/model <name>]. *)
Definition slash_command_text (sessionId : string) (sessionMeta : meta) (trimmed : string)
  : M string :=
  if String.eqb trimmed "/models" then
    mret ("Current model: " +:+ current_model sessionMeta +:+ NL +:+ NL
          +:+ "Quick set:" +:+ NL
          +:+ join NL (map (fun m => "- " +:+ formatModelLabel m +:+ "  (/model " +:+ m +:+ ")")
                           (CODEX_MODEL_CHOICES cfg)))
  else
    let parts := split_ws trimmed in
    let requested := join " " (tail parts) in
    if String.eqb requested "" then
      mret ("Current model: " +:+ current_model sessionMeta +:+ NL +:+ NL
            +:+ "Use: /model <name> or /models")
    else
      modify (fun st =>
        match writeSessionMeta (g_fs st) sessionId (<["model" := JStr requested]> sessionMeta) with
        | Ok f => set_fs f st
        | Throw _ => st
        end);;
      mret ("Model set to: " +:+ requested).

(** POST /api/codex/sessions/:sessionId/messages, for a body whose
    [content] is a string and whose [imagePath] is a string or absent;
    [messages_user_message] below takes the body as it comes. *)
Definition submit (sessionId content : string) (imagePath : option string) (now : string)
  : M response :=
  if String.eqb content "" then mret (error_response 400 "MISSING_CONTENT" "content is required")
  else
    st ← get_state;
    match readSessionMeta (g_fs st) sessionId with
    | Throw msg =>
        mret (if String.eqb msg "SESSION_NOT_FOUND" || String.eqb msg "INVALID_SESSION_ID"
              then error_response 404 msg "Session not found"
              else error_response 500 "INTERNAL_ERROR" msg)
    | Ok sessionMeta =>
        let prompt :=
          match imagePath with
          | Some p => if String.eqb p "" then content
                      else content +:+ NL +:+ NL +:+ "[Attached image: " +:+ p +:+ "]"
          | None => content
          end in
        let queue := default [] (codexQueueBySession st !! sessionId) in
        modify (fun st => set_queues (<[sessionId := queue]> (codexQueueBySession st)) st);;
        match createEventWriter JSON_parse (g_fs st) sessionId with
        | Throw msg => mret (error_response 500 "INTERNAL_ERROR" msg)
        | Ok (f1, writer) =>
            modify (set_fs f1);;
            userMessageId ← newId;
            let lastCursor0 := number_or_zero (w_meta writer !! "lastCursor") in
            '(w1, _) ← append writer "message_start"
              (JObj [ ("id", JStr userMessageId);
                      ("lineNumber", JNum (lastCursor0 + 1));
                      ("role", JStr "user");
                      ("timestamp", JStr now);
                      ("sessionId", JStr sessionId) ]);
            '(w2, _) ← append w1 "content_block"
              (JObj [ ("messageId", JStr userMessageId);
                      ("index", JNum 0);
                      ("block", JObj [("type", JStr "text"); ("text", JStr prompt)]) ]);
            '(w3, lastCursor) ← append w2 "message_end"
              (JObj [ ("id", JStr userMessageId); ("stopReason", JStr "end_turn") ]);
            w4 ← commit w3
              (<["lastMessageAt" := JStr now]>
              (<["lastMessagePreview" := JStr (js_slice_to 120 content)]>
              (<["messageCount" := JNum lastCursor]> ∅)));
            let trimmed := js_trim content in
            if String.eqb trimmed "/models" || starts_with "/model" trimmed then
              assistantMessageId ← newId;
              '(w5, _) ← append w4 "message_start"
                (JObj [ ("id", JStr assistantMessageId);
                        ("lineNumber", JNum (lastCursor + 1));
                        ("role", JStr "assistant");
                        ("timestamp", JStr now);
                        ("sessionId", JStr sessionId) ]);
              text ← slash_command_text sessionId sessionMeta trimmed;
              '(w6, _) ← append w5 "content_block"
                (JObj [ ("messageId", JStr assistantMessageId);
                        ("index", JNum 0);
                        ("block", JObj [("type", JStr "text"); ("text", JStr text)]) ]);
              '(w7, assistantCursor) ← append w6 "message_end"
                (JObj [ ("id", JStr assistantMessageId); ("stopReason", JStr "end_turn") ]);
              _ ← commit w7 (<["messageCount" := JNum assistantCursor]> ∅);
              emitCodexSessionMetaUpdate sessionId;;
              mret (accepted_response userMessageId)
            else
              let turn := {| turn_prompt := prompt; turn_content := content;
                             turn_imagePath := imagePath; turn_userMessageId := userMessageId |} in
              modify (fun st =>
                set_queues (<[sessionId := default [] (codexQueueBySession st !! sessionId) ++ [turn]]>
                              (codexQueueBySession st)) st);;
              tell [ObsEnqueue sessionId turn];;
              emitCodexSessionMetaUpdate sessionId;;
              tell [ObsSetImmediate sessionId];;
              mret (accepted_response userMessageId)
        end
    end.

(** One event of the environment: the state after its handler, what the
    handler did, and the response of a request handler. *)
Definition step (ev : event) : M (option response) :=
  match ev with
  | EvSubmit sessionId content imagePath now =>
      r ← submit sessionId content imagePath now; mret (Some r)
  | EvCancel sessionId clearQueue now =>
      r ← cancel sessionId clearQueue now; mret (Some r)
  | EvStartNext sessionId now bin_ok => startNextCodexTurn sessionId now bin_ok;; mret None
  | EvStdout rid line => on_stdout_line rid line;; mret None
  | EvStderr rid text => on_stderr rid text;; mret None
  | EvClose rid code now => on_close rid code now;; mret None
  | EvError rid message now => on_error rid message now;; mret None
  end.

Fixpoint run_events (evs : list event) (st : gateway) : gateway * list obs :=
  match evs with
  | [] => (st, [])
  | ev :: rest =>
      let '(_, st1, o1) := step ev st in
      let '(st2, o2) := run_events rest st1 in
      (st2, o1 ++ o2)
  end.

End Engine.

(** The gateway after start-up, over the files found on disk. *)
Definition gateway_init (f : fs) : gateway :=
  {| g_fs := f; activeCodexRuns := ∅; codexProcBySession := ∅;
     codexFinalizeBySession := ∅; codexQueueBySession := ∅;
     g_runs := []; g_next_id := 0 |}.

(** ** lib/codex-stream.js: [CodexTailer.getSessionMeta] *)

(** [a || b] where [b] may be [undefined]. *)
Definition js_or_val (a b : jsval) : jsval := if js_truthy a then a else b.

(** The object [getSessionMeta()] returns. *)
Record tailer_meta : Type := {
  tm_provider : string;
  tm_sessionId : string;
  tm_project : string;
  tm_cwd : jsval;
  tm_jsonlPath : string;
  tm_createdAt : json;
  tm_isActive : bool;
  tm_totalLines : Z;
  tm_model : json;
  tm_latestThreadId : json;
  tm_usage : json;
  tm_contextInfo : json;
}.

(** [content.split('\n').filter(l => l.trim()).length]; 0 when the file
    cannot be read. *)
Definition totalLines (content : option string) : Z :=
  match content with
  | Some text => Z.of_nat (length (filter (fun l => blank l = false) (split_on nl text)))
  | None => 0
  end.

(** [getSessionMeta()] of the tailer of [sessionId]; [cwd] is [this.cwd],
    [now] the time of the call. *)
Definition getSessionMeta (f : fs) (sessionId : string) (cwd : jsval) (now : string)
  : tailer_meta :=
  let meta := match readSessionMeta f sessionId with Ok m => m | Throw _ => ∅ end in
  {| tm_provider := "codex";
     tm_sessionId := sessionId;
     tm_project := "codex";
     tm_cwd := js_or_val (meta !! "cwd") cwd;
     tm_jsonlPath := CODEX_EVENTS_DIR +:+ "/" +:+ sessionId +:+ ".jsonl";
     tm_createdAt := js_or (meta !! "createdAt") (JStr now);
     tm_isActive := false;
     tm_totalLines := totalLines (fs_jsonl f !! sessionId);
     tm_model := js_or (meta !! "model") (JStr "");
     tm_latestThreadId := js_or (meta !! "latestThreadId") (JStr "");
     tm_usage := js_or (meta !! "usage") JNull;
     tm_contextInfo := js_or (meta !! "contextInfo") JNull |}.

(** ** The gateway server: GET /api/codex/chat-stream *)

(** [a || b] for a header or a query parameter, a string or [undefined]. *)
Definition str_or (a : option string) (b : string) : string :=
  match a with
  | Some s => if String.eqb s "" then b else s
  | None => b
  end.

(** [req.headers['last-event-id'] || req.query.since || '0']. *)
Definition chat_stream_since (last_event_id since : option string) : string :=
  str_or last_event_id (str_or since "0").

(** [Number(req.query.limit) || Infinity]; [None] is [Infinity]. *)
Definition chat_stream_limit (limit : option string) : option nat :=
  match limit with
  | None => None
  | Some s =>
      match StringToNumber s with
      | Some z => if z =? 0 then None else Some (Z.to_nat z)
      | None => None
      end
  end.

(** [Number(since) || 0], the first line of [addClient]. *)
Definition sinceCursor (since : string) : Z := default 0 (StringToNumber since).

(** [tailer.addClient(res, { since, limit })] as the handler calls it. *)
Definition chat_stream_attach (JSON_parse : string → option json) (f : fs) (t : tailer)
    (res : nat) (last_event_id since limit : option string) : tailer * list write :=
  addClient JSON_parse f t res (sinceCursor (chat_stream_since last_event_id since))
            (chat_stream_limit limit).

(** ** The gateway server: lists read from the environment, CORS *)

(** [raw.split(',').map(s => s.trim()).filter(Boolean)]. *)
Definition parseCorsOrigins (raw : string) : list string :=
  filter (fun s => s ≠ "") (map js_trim (split_on "," raw)).

Definition parseCodexModels (raw : string) : list string :=
  let trimmed := js_trim raw in
  if String.eqb trimmed "" then
    [ "gpt-5.2-codex-low"; "gpt-5.2-codex-medium"; "gpt-5.2-codex-high" ]
  else filter (fun s => s ≠ "") (map js_trim (split_on "," trimmed)).

(** The regular expression [isOriginAllowed] builds from an entry: the
    first [replace] puts a backslash before every character that is special
    in a regular expression, so that it stands for itself, and the second
    turns each [*] into [.*]; the pattern is a sequence of literal
    characters and of [.*]. *)
Inductive atom : Type :=
  | Lit (c : ascii)
  | AnyStar.

Fixpoint entry_pattern (entry : string) : list atom :=
  match entry with
  | EmptyString => []
  | String c rest => (if Ascii.eqb c "*" then AnyStar else Lit c) :: entry_pattern rest
  end.

(** [.] matches every character but a line terminator. *)
Definition is_line_terminator (c : ascii) : bool := Ascii.eqb c nl || Ascii.eqb c cr.

(** What [.*] may leave of [s]. *)
Fixpoint dot_star (s : string) : list string :=
  s :: match s with
       | String a t => if is_line_terminator a then [] else dot_star t
       | EmptyString => []
       end.

(** All ways to match the pattern at the head of [s]: the remainders. *)
Fixpoint pattern_run (p : list atom) (s : string) : list string :=
  match p with
  | [] => [s]
  | Lit c :: p' =>
      match s with
      | String a t => if Ascii.eqb a c then pattern_run p' t else []
      | EmptyString => []
      end
  | AnyStar :: p' => flat_map (pattern_run p') (dot_star s)
  end.

(** [new RegExp(`^${escaped}$`).test(origin)]. *)
Definition pattern_test (p : list atom) (origin : string) : bool :=
  existsb (fun rest => String.eqb rest EmptyString) (pattern_run p origin).

(** [entry.includes('*')]. *)
Fixpoint includes_star (entry : string) : bool :=
  match entry with
  | EmptyString => false
  | String c rest => Ascii.eqb c "*" || includes_star rest
  end.

Definition isOriginAllowed (origin : string) (allowed : list string) : bool :=
  match allowed with
  | [] => true
  | _ =>
      if existsb (String.eqb "*") allowed then true
      else existsb (fun entry =>
                      String.eqb entry origin
                      || (includes_star entry && pattern_test (entry_pattern entry) origin))
                   allowed
  end.

(** ** The gateway server: GET /api/files *)

(** The loop of [normalizeString] of Node's [path] module for an absolute
    path: empty segments and [.] are dropped, [..] drops the segment before
    it (and nothing at the root).  [stack] holds the segments kept so far,
    the last one first. *)
Fixpoint normalize_go (stack : list string) (segments : list string) : list string :=
  match segments with
  | [] => rev stack
  | seg :: rest =>
      if String.eqb seg "" || String.eqb seg "." then normalize_go stack rest
      else if String.eqb seg ".." then normalize_go (tail stack) rest
      else normalize_go (seg :: stack) rest
  end.

(** [path.resolve(p)] on POSIX in a process whose working directory is the
    absolute path [cwd]. *)
Definition path_resolve (cwd p : string) : string :=
  let full := if starts_with "/" p then p else cwd +:+ "/" +:+ p in
  "/" +:+ join "/" (normalize_go [] (split_on "/" full)).

(** The path the handler lists: [req.query.path || '~'], with a leading
    [~] replaced by the home directory (a path without [$], which
    [replace] would read as a pattern), resolved. *)
Definition files_target (home cwd : string) (path : option string) : string :=
  let targetPath := str_or path "~" in
  let targetPath :=
    if String.eqb targetPath "~" || starts_with "~/" targetPath
    then home +:+ str_drop 1 targetPath
    else targetPath in
  path_resolve cwd targetPath.

(** The check before the directory is read; [false] is the answer 403. *)
Definition files_allowed (home cwd : string) (path : option string) : bool :=
  let targetPath := files_target home cwd path in
  starts_with home targetPath || starts_with "/tmp" targetPath.

(** ** The tailer and the connections of its clients

    [addClient] awaits the replay of the history and only then adds the
    response to [clients] and registers the handler of its ['close'] event.
    A response emits ['close'] once, and a handler registered after that
    is never called.  So an attach is two steps of the tailer, and the
    connection may close between them. *)
Record conn : Type := {
  c_fs : fs;
  c_tailer : tailer;
  c_replaying : list nat;   (* [addClient] awaits [streamHistory] for these responses *)
  c_listening : list nat;   (* the responses that have the ['close'] handler of [addClient] *)
  c_closed : list nat;      (* the responses that have emitted ['close'] *)
}.

Inductive conn_event : Type :=
  | CAppend (text : string)                               (* a writer appends to the journal *)
  | CNotify                                               (* the watcher fires *)
  | CAttach (res : nat) (sinceCursor : Z) (limit : option nat)  (* [addClient]: the replay *)
  | CAttached (res : nat)                                 (* [addClient] after its [await] *)
  | CClose (res : nat).                                   (* the connection of [res] closes *)

Section ConnRun.

Context (JSON_parse : string → option json).

Definition conn_step (st : conn) (ev : conn_event) : conn * list write :=
  let f := c_fs st in
  let t := c_tailer st in
  match ev with
  | CAppend text =>
      ({| c_fs := set_jsonl (t_sessionId t) (jsonl_text f (t_sessionId t) +:+ text) f;
          c_tailer := t; c_replaying := c_replaying st;
          c_listening := c_listening st; c_closed := c_closed st |}, [])
  | CNotify =>
      let '(t', out) := processNewLines JSON_parse f t in
      ({| c_fs := f; c_tailer := t'; c_replaying := c_replaying st;
          c_listening := c_listening st; c_closed := c_closed st |}, out)
  | CAttach res sinceCursor limit =>
      let '(t', out) := streamHistory JSON_parse f t res sinceCursor limit in
      ({| c_fs := f; c_tailer := t'; c_replaying := c_replaying st ++ [res];
          c_listening := c_listening st; c_closed := c_closed st |}, out)
  | CAttached res =>
      if bool_decide (res ∈ c_replaying st) then
        ({| c_fs := f;
            c_tailer := {| t_sessionId := t_sessionId t; t_clients := set_add res (t_clients t);
                           t_position := t_position t; t_lastCursor := t_lastCursor t;
                           t_processing := t_processing t |};
            c_replaying := filter (fun c => c ≠ res) (c_replaying st);
            c_listening := set_add res (c_listening st); c_closed := c_closed st |}, [])
      else (st, [])
  | CClose res =>
      if bool_decide (res ∈ c_closed st) then (st, [])
      else
        ({| c_fs := f;
            c_tailer := if bool_decide (res ∈ c_listening st) then removeClient t res else t;
            c_replaying := c_replaying st; c_listening := c_listening st;
            c_closed := res :: c_closed st |}, [])
  end.

Fixpoint conn_run (st : conn) (evs : list conn_event) : conn * list write :=
  match evs with
  | [] => (st, [])
  | ev :: rest =>
      let '(st1, out1) := conn_step st ev in
      let '(st2, out2) := conn_run st1 rest in
      (st2, out1 ++ out2)
  end.

End ConnRun.

(** ** The gateway server: the messages handler and the body of the request

    [submit] is the handler for a [content] that is a string.  The handler
    takes [content] and [imagePath] from the JSON body as they come and
    only tests that [content] is truthy; [messages_user_message] is the
    handler from its start to the commit of the user message, for any
    body.  It ends with the response of a request that is refused, with
    the exception of [content.slice(0, 120)] when [content] has no method
    [slice], or with what the rest of the handler goes on with. *)
Inductive intake : Type :=
  | Answered (r : response)
  | Threw
  | Committed (w : writer) (lastCursor : Z) (userMessageId : string) (prompt : json).

(** [content.slice(0, n)]: strings and arrays have the method; a number, a
    boolean or an object parsed from JSON has not, and the call throws a
    TypeError ([None]). *)
Definition content_slice (content : json) (n : nat) : option json :=
  match content with
  | JStr s => Some (JStr (js_slice_to n s))
  | JArr l => Some (JArr (take n l))
  | _ => None
  end.

Definition messages_user_message (JSON_parse : string → option json)
    (sessionId : string) (content imagePath : jsval) (now : string) : M intake :=
  match content with
  | None => mret (Answered (error_response 400 "MISSING_CONTENT" "content is required"))
  | Some c =>
      if negb (js_truthy content)
      then mret (Answered (error_response 400 "MISSING_CONTENT" "content is required"))
      else
        st ← get_state;
        match readSessionMeta (g_fs st) sessionId with
        | Throw msg =>
            mret (Answered
                    (if String.eqb msg "SESSION_NOT_FOUND" || String.eqb msg "INVALID_SESSION_ID"
                     then error_response 404 msg "Session not found"
                     else error_response 500 "INTERNAL_ERROR" msg))
        | Ok sessionMeta =>
            let prompt :=
              if js_truthy imagePath
              then JStr (js_ToString c +:+ NL +:+ NL +:+ "[Attached image: "
                         +:+ template imagePath +:+ "]")
              else c in
            let queue := default [] (codexQueueBySession st !! sessionId) in
            modify (fun st => set_queues (<[sessionId := queue]> (codexQueueBySession st)) st);;
            match createEventWriter JSON_parse (g_fs st) sessionId with
            | Throw _ => mret Threw
            | Ok (f1, writer) =>
                modify (set_fs f1);;
                userMessageId ← newId;
                let lastCursor0 := number_or_zero (w_meta writer !! "lastCursor") in
                '(w1, _) ← append writer "message_start"
                  (JObj [ ("id", JStr userMessageId);
                          ("lineNumber", JNum (lastCursor0 + 1));
                          ("role", JStr "user");
                          ("timestamp", JStr now);
                          ("sessionId", JStr sessionId) ]);
                '(w2, _) ← append w1 "content_block"
                  (JObj [ ("messageId", JStr userMessageId);
                          ("index", JNum 0);
                          ("block", JObj [("type", JStr "text"); ("text", prompt)]) ]);
                '(w3, lastCursor) ← append w2 "message_end"
                  (JObj [ ("id", JStr userMessageId); ("stopReason", JStr "end_turn") ]);
                match content_slice c 120 with
                | None => mret Threw
                | Some preview =>
                    w4 ← commit w3
                      (<["lastMessageAt" := JStr now]>
                      (<["lastMessagePreview" := preview]>
                      (<["messageCount" := JNum lastCursor]> ∅)));
                    mret (Committed w4 lastCursor userMessageId prompt)
                end
            end
        end
  end.

(* ===================================================================== *)
(** * Part II: vocabulary of the properties                              *)
(* ===================================================================== *)

(** The frame as the specification writes it, with three newline characters
    after the data line. *)
Definition spec_frame (kind cursor : jsval) (data : json) : string :=
  "id: " +:+ template cursor +:+ NL +:+
  "event: " +:+ template kind +:+ NL +:+
  "data: " +:+ JSON_stringify data +:+ NL +:+ NL +:+ NL.

(** The buffer after the chunks of a session, oldest first, starting from
    the empty buffer of the spawn. *)
Definition history_after (HISTORY_LIMIT : Z) (chunks : list string) : string :=
  fold_left (onData HISTORY_LIMIT) chunks "".

Definition all_output (chunks : list string) : string := join "" chunks.

Definition upper_id : string := "ABCDEF01-2345-6789-ABCD-EF0123456789".

Fixpoint str_forall (P : ascii → bool) (s : string) : bool :=
  match s with
  | EmptyString => true
  | String c t => P c && str_forall P t
  end.

(** No control character: in particular no line feed and no carriage
    return. *)
Definition printable (c : ascii) : bool := (32 <=? nat_of_ascii c)%nat.

Definition is_digit_or_minus (c : ascii) : bool :=
  let n := nat_of_ascii c in ((48 <=? n) && (n <=? 57))%nat || (n =? 45)%nat.

(** The text is empty or ends with a line feed: it holds whole lines. *)
Definition whole_lines (t : string) : Prop := t = "" ∨ ∃ p, t = p +:+ NL.

Fixpoint ends_nl (t : string) : bool :=
  match t with
  | EmptyString => false
  | String a EmptyString => Ascii.eqb a nl
  | String _ t' => ends_nl t'
  end.

(** ** Vocabulary for the writer *)

(** A sequence of calls [append(event, data)] on one writer: the file
    system and the writer after them, and the values returned. *)
Fixpoint append_all (f : fs) (w : writer) (calls : list (string * json))
  : fs * writer * list Z :=
  match calls with
  | [] => (f, w, [])
  | (event, data) :: rest =>
      let '(f1, w1, c) := writer_append f w event data in
      let '(f2, w2, cs) := append_all f1 w1 rest in
      (f2, w2, c :: cs)
  end.

(** The records whose cursors continue after [cursor]. *)
Fixpoint appended_records (cursor : Z) (calls : list (string * json)) : list json :=
  match calls with
  | [] => []
  | (event, data) :: rest =>
      journal_record (cursor + 1) event data :: appended_records (cursor + 1) rest
  end.

Definition lines_text (records : list json) : string := join "" (map journal_line records).

(** The cursors of the records a reader finds in a journal text: the lines
    that are not blank, parse, and carry a numeric cursor. *)
Definition journal_cursors (JSON_parse : string → option json) (text : string) : list Z :=
  omap (fun line => if blank line then None
                    else parse_entry JSON_parse line ≫= entry_cursor)
       (readline_lines text).

(** A session on disk for the examples: its sidecar says [lastCursor = 2]
    and its journal holds the records 1 and 2. *)
Definition ex_sid : string := "0a1b2c3d-4e5f-6a7b-8c9d-0e1f2a3b4c5d".

Definition ex_meta : meta := <["id" := JStr ex_sid]> (<["lastCursor" := JNum 2]> ∅).

Definition ex_journal : string :=
  lines_text
    [ journal_record 1 "message_start" (JObj [("id", JStr "m1"); ("role", JStr "user")]);
      journal_record 2 "message_end" (JObj [("id", JStr "m1"); ("stopReason", JStr "end_turn")]) ].

Definition ex_fs : fs :=
  {| fs_meta := <[ex_sid := ex_meta]> ∅; fs_jsonl := <[ex_sid := ex_journal]> ∅ |}.

Definition ex_calls : list (string * json) :=
  [ ("message_start", JObj [("id", JStr "m2"); ("role", JStr "assistant")]);
    ("message_end", JObj [("id", JStr "m2"); ("stopReason", JStr "end_turn")]) ].

(** ** Vocabulary for the recovery of the cursor *)

(** [chunk] is the last 64 KiB of [text], or all of it when it is
    shorter. *)
Definition is_last_chunk (text chunk : string) : Prop :=
  (∃ before, text = before +:+ chunk)
  ∧ String.length chunk = Nat.min (64 * 1024) (String.length text).

(** A line the scan passes over: blank, or malformed (parsing it or
    reading its cursor throws). *)
Definition skipped (JSON_parse : string → option json) (line : string) : Prop :=
  blank line = true ∨ parse_entry JSON_parse line = None.

(** The recovery in the words of the specification: split the last chunk
    on line feeds, pass over the malformed lines at the end, take the cursor
    of the first valid record met (0 when it carries no number); 0 when the
    file is absent or holds no valid record. *)
Inductive recovers_to (JSON_parse : string → option json) : option string → Z → Prop :=
  | recovers_absent : recovers_to JSON_parse None 0
  | recovers_none (text chunk : string) :
      is_last_chunk text chunk →
      Forall (skipped JSON_parse) (split_on nl chunk) →
      recovers_to JSON_parse (Some text) 0
  | recovers_found (text chunk : string) (before : list string) (line : string)
      (after : list string) (entry : json) :
      is_last_chunk text chunk →
      split_on nl chunk = before ++ line :: after →
      Forall (skipped JSON_parse) after →
      blank line = false →
      parse_entry JSON_parse line = Some entry →
      recovers_to JSON_parse (Some text) (default 0 (entry_cursor entry)).

(** A session whose sidecar has lost [lastCursor], and whose journal ends
    with a torn line after record 2. *)
Definition torn_meta : meta := <["id" := JStr ex_sid]> ∅.

Definition torn_journal : string := ex_journal +:+ "{" +:+ DQ +:+ "cursor" +:+ DQ +:+ ":" +:+ DQ +:+ "3".

Definition torn_fs : fs :=
  {| fs_meta := <[ex_sid := torn_meta]> ∅; fs_jsonl := <[ex_sid := torn_journal]> ∅ |}.

(** ** Vocabulary for the tailer *)

(** The records a reader finds in a list of lines and in a journal text, in
    file order: the lines that are not blank and parse. *)
Definition entries_of_lines (JSON_parse : string → option json) (lines : list string)
  : list json :=
  omap (fun line => if blank line then None else parse_entry JSON_parse line) lines.

Definition journal_entries (JSON_parse : string → option json) (text : string) : list json :=
  entries_of_lines JSON_parse (readline_lines text).

(** The record carries a numeric cursor greater than [k]. *)
Definition has_cursor_above (k : Z) (entry : json) : bool :=
  match entry_cursor entry with
  | Some c => k <? c
  | None => false
  end.

(** The frames written to one client, in order. *)
Definition delivered_to (c : nat) (ws : list write) : list string :=
  (filter (fun w => w.1 = c) ws).*2.


(** The events that may follow the attach of client [c] in the amended
    claim: appends of whole lines, notifications, and other clients
    leaving. *)
Definition quiet (c : nat) (ev : tail_event) : Prop :=
  match ev with
  | TAppend text => whole_lines text
  | TNotify => True
  | TAttach _ _ _ => False
  | TClose c' => c' ≠ c
  end.

(** The text appended and already read by [processNewLines]: everything
    appended before the last notification ([pending] is appended text not
    yet read). *)
Fixpoint processed_text (pending : string) (evs : list tail_event) : string :=
  match evs with
  | [] => ""
  | TAppend text :: rest => processed_text (pending +:+ text) rest
  | TNotify :: rest => pending +:+ processed_text "" rest
  | _ :: rest => processed_text pending rest
  end.

(** Record 3 of the example session, as the writer would append it. *)
Definition ex_line3 : string :=
  journal_line (journal_record 3 "message_start" (JObj [("id", JStr "m2")])).

(** ** Vocabulary for the turn engine *)

(** A configuration and a freshly created session for the examples. *)
Definition ex_cfg : config :=
  {| CODEX_MODEL := "gpt-5.2-codex-low"; CODEX_BIN := "codex";
     CODEX_MODEL_CHOICES := ["gpt-5.2-codex-low"; "gpt-5.2-codex-high"];
     CODEX_APPROVAL_POLICY := "never"; CODEX_SANDBOX_MODE := "workspace-write";
     WORKDIR := "/home/user";
     cfg_usage := fun _ _ => (JNull, JNull) |}.

Definition new_session_fs : fs :=
  match createCodexSession {| fs_meta := ∅; fs_jsonl := ∅ |} ex_sid "/home/user/project"
                           "gpt-5.2-codex-low" "2026-01-01T00:00:00.000Z" with
  | Ok (f, _) => f
  | Throw _ => {| fs_meta := ∅; fs_jsonl := ∅ |}
  end.

(** A line of the child's stdout: a completed agent message. *)
Definition agent_message_line (text : string) : string :=
  JSON_stringify (JObj [ ("type", JStr "item.completed");
                         ("item", JObj [("type", JStr "agent_message"); ("text", JStr text)]) ]).

(** The records appended to the journal of a session, in order. *)
Definition appends_to (sessionId : string) (log : list obs) : list json :=
  omap (fun o => match o with
                 | ObsAppend sid record => if String.eqb sid sessionId then Some record else None
                 | _ => None
                 end) log.

(** The kind of a journal record and the message it belongs to. *)
Definition record_event (record : json) : string :=
  match js_get "event" record with Some (JStr e) => e | _ => "" end.

Definition record_message (record : json) : string :=
  match js_get "data" record with
  | Some data =>
      match js_get "id" data, js_get "messageId" data with
      | Some (JStr m), _ => m
      | _, Some (JStr m) => m
      | _, _ => ""
      end
  | None => ""
  end.

Definition record_stopReason (record : json) : string :=
  match js_get_opt "stopReason" (js_get "data" record) with Some (JStr e) => e | _ => "" end.

Definition record_summary (record : json) : string * string * string :=
  (template (js_get "cursor" record), record_event record, record_message record).

(** A message is opened and closed well in a list of journal records: its
    [message_start] is followed by exactly one [message_end] with its id,
    and every [content_block] of the message has a cursor strictly between
    theirs. *)
Definition record_cursor (record : json) : Z := default 0 (entry_cursor record).

Definition is_event (kind m : string) (record : json) : bool :=
  String.eqb (record_event record) kind && String.eqb (record_message record) m.

Definition message_well_bracketed (records : list json) (start : json) : bool :=
  let m := record_message start in
  match filter (fun r => is_event "message_end" m r = true) records with
  | [stop] =>
      (record_cursor start <? record_cursor stop)
      && forallb (fun r => negb (is_event "content_block" m r)
                           || ((record_cursor start <? record_cursor r)
                               && (record_cursor r <? record_cursor stop)))
                 records
  | _ => false
  end.

(** The invariant of C3 on a journal. *)
Definition messages_well_bracketed (records : list json) : bool :=
  forallb (fun r => negb (String.eqb (record_event r) "message_start")
                    || message_well_bracketed records r)
          records.

(** A turn is cancelled while its child still writes: the submit, the start
    of the turn, a first answer, the cancel, and one more line of output
    that the child had produced before it received the signal. *)
Definition late_line_trace : list event :=
  [ EvSubmit ex_sid "hi" None "t0";
    EvStartNext ex_sid "t1" true;
    EvStdout 0 (agent_message_line "hello");
    EvCancel ex_sid false "t2";
    EvStdout 0 (agent_message_line "late") ].

(** The [message_end] records with stop reason [cancelled]. *)
Definition is_cancelled_end (record : json) : bool :=
  String.eqb (record_event record) "message_end"
  && String.eqb (record_stopReason record) "cancelled".

Definition count_cancelled (records : list json) : nat :=
  length (filter (fun r => is_cancelled_end r = true) records).

(** Two turns are submitted and the first is started. *)
Definition two_turns_trace : list event :=
  [ EvSubmit ex_sid "first" None "t0";
    EvSubmit ex_sid "second" None "t0";
    EvStartNext ex_sid "t1" true ].

(** ** The skeleton of the turn engine

    The part of the gateway state that decides which turn runs: the four
    maps, and of each run its session, its turn, the session its writer
    appends to, and whether it is finished and spawned.  The handlers are
    restated on the skeleton ([a_submit], [a_cancel], ...) and shown to be
    what the handlers of Part I do to it. *)

Record skel : Type := {
  k_sessionId : string;
  k_turn : turn;
  k_writerSession : string;
  k_finished : bool;
  k_spawned : bool;
}.

Definition skel_of (r : run) : skel :=
  {| k_sessionId := r_sessionId r; k_turn := r_turn r;
     k_writerSession := w_sessionId (r_writer r);
     k_finished := r_finished r; k_spawned := r_spawned r |}.

Record eng : Type := {
  e_active : gset string;
  e_procs : gmap string nat;
  e_fins : gmap string nat;
  e_queues : gmap string (list turn);
  e_runs : list skel;
  e_next_id : nat;
}.

Definition proj (st : gateway) : eng :=
  {| e_active := activeCodexRuns st; e_procs := codexProcBySession st;
     e_fins := codexFinalizeBySession st; e_queues := codexQueueBySession st;
     e_runs := skel_of <$> g_runs st; e_next_id := g_next_id st |}.

(** What the skeleton keeps of the log: the turns enqueued and started, and
    the [message_end] records with their stop reasons. *)
Inductive aobs : Type :=
  | AEnqueue (sessionId : string) (t : turn)
  | AStart (sessionId : string) (rid : nat) (t : turn)
  | AEnd (sessionId : string) (stopReason : string).

Definition abs_obs (o : obs) : list aobs :=
  match o with
  | ObsEnqueue sid t => [AEnqueue sid t]
  | ObsStart sid rid t => [AStart sid rid t]
  | ObsAppend sid record =>
      if String.eqb (record_event record) "message_end"
      then [AEnd sid (record_stopReason record)] else []
  | _ => []
  end.

Definition abs_log (log : list obs) : list aobs := flat_map abs_obs log.

Definition finish (k : skel) : skel :=
  {| k_sessionId := k_sessionId k; k_turn := k_turn k; k_writerSession := k_writerSession k;
     k_finished := true; k_spawned := k_spawned k |}.

Definition spawned (k : skel) : skel :=
  {| k_sessionId := k_sessionId k; k_turn := k_turn k; k_writerSession := k_writerSession k;
     k_finished := k_finished k; k_spawned := true |}.

Definition a_finalize (rid : nat) (stopReason : string) (e : eng) : eng * list aobs :=
  match e_runs e !! rid with
  | Some k =>
      if k_finished k then (e, [])
      else
        ({| e_active := e_active e ∖ {[k_sessionId k]};
            e_procs := delete (k_sessionId k) (e_procs e);
            e_fins := delete (k_sessionId k) (e_fins e);
            e_queues := e_queues e;
            e_runs := alter finish rid (e_runs e);
            e_next_id := e_next_id e |},
         [AEnd (k_writerSession k) stopReason])
  | None => (e, [])
  end.

(** [readable] tells whether [readCodexSessionMeta] succeeds. *)
Definition a_startNext (sid : string) (readable bin_ok : bool) (e : eng) : eng * list aobs :=
  if bool_decide (sid ∈ e_active e) then (e, [])
  else
    match default [] (e_queues e !! sid) with
    | [] => (e, [])
    | t :: queue =>
        if readable then
          let rid := length (e_runs e) in
          let e1 :=
            {| e_active := {[sid]} ∪ e_active e;
               e_procs := e_procs e;
               e_fins := <[sid := rid]> (e_fins e);
               e_queues := <[sid := queue]> (e_queues e);
               e_runs := e_runs e ++ [{| k_sessionId := sid; k_turn := t;
                                         k_writerSession := sid;
                                         k_finished := false; k_spawned := false |}];
               e_next_id := S (e_next_id e) |} in
          if bin_ok then
            ({| e_active := e_active e1; e_procs := <[sid := rid]> (e_procs e1);
                e_fins := e_fins e1; e_queues := e_queues e1;
                e_runs := alter spawned rid (e_runs e1); e_next_id := e_next_id e1 |},
             [AStart sid rid t])
          else
            let '(e2, o) := a_finalize rid "error" e1 in (e2, AStart sid rid t :: o)
        else
          ({| e_active := e_active e; e_procs := e_procs e; e_fins := e_fins e;
              e_queues := <[sid := queue]> (e_queues e);
              e_runs := e_runs e; e_next_id := e_next_id e |}, [])
    end.

Definition a_close (rid : nat) (stopReason : string) (e : eng) : eng * list aobs :=
  match e_runs e !! rid with
  | Some k => if k_spawned k then a_finalize rid stopReason e else (e, [])
  | None => (e, [])
  end.

Definition a_cancel (sid : string) (clearQueue : bool) (e : eng) : eng * list aobs * bool :=
  let e0 :=
    if clearQueue
    then {| e_active := e_active e; e_procs := e_procs e; e_fins := e_fins e;
            e_queues := <[sid := []]> (e_queues e);
            e_runs := e_runs e; e_next_id := e_next_id e |}
    else e in
  match e_procs e0 !! sid, e_fins e0 !! sid with
  | None, None => (e0, [], false)
  | _, fin =>
      let '(e1, o) := match fin with
                      | Some rid => a_finalize rid "cancelled" e0
                      | None => (e0, [])
                      end in
      (e1, o, true)
  end.

Definition is_slash_command (content : string) : bool :=
  String.eqb (js_trim content) "/models" || starts_with "/model" (js_trim content).

Definition submitted_turn (content : string) (imagePath : option string) (next_id : nat) : turn :=
  {| turn_prompt :=
       match imagePath with
       | Some p => if String.eqb p "" then content
                   else content +:+ NL +:+ NL +:+ "[Attached image: " +:+ p +:+ "]"
       | None => content
       end;
     turn_content := content; turn_imagePath := imagePath;
     turn_userMessageId := "id-" +:+ String_of_Z (Z.of_nat next_id) |}.

Definition a_submit (sid content : string) (imagePath : option string) (readable : bool)
    (e : eng) : eng * list aobs :=
  if String.eqb content "" || negb readable then (e, [])
  else
    let queue := default [] (e_queues e !! sid) in
    if is_slash_command content then
      ({| e_active := e_active e; e_procs := e_procs e; e_fins := e_fins e;
          e_queues := <[sid := queue]> (e_queues e);
          e_runs := e_runs e; e_next_id := S (S (e_next_id e)) |},
       [AEnd sid "end_turn"; AEnd sid "end_turn"])
    else
      let t := submitted_turn content imagePath (e_next_id e) in
      ({| e_active := e_active e; e_procs := e_procs e; e_fins := e_fins e;
          e_queues := <[sid := queue ++ [t]]> (e_queues e);
          e_runs := e_runs e; e_next_id := S (e_next_id e) |},
       [AEnd sid "end_turn"; AEnqueue sid t]).

Definition readable (f : fs) (sid : string) : bool :=
  match readSessionMeta f sid with Ok _ => true | Throw _ => false end.

(** The event as the skeleton sees it in state [st]. *)
Definition a_step (st : gateway) (ev : event) (e : eng) : eng * list aobs :=
  match ev with
  | EvSubmit sid content imagePath _ => a_submit sid content imagePath (readable (g_fs st) sid) e
  | EvCancel sid clearQueue _ => (a_cancel sid clearQueue e).1
  | EvStartNext sid _ bin_ok => a_startNext sid (readable (g_fs st) sid) bin_ok e
  | EvStdout _ _ | EvStderr _ _ => (e, [])
  | EvClose rid code _ => a_close rid (if bool_decide (code = Some 0) then "end_turn" else "error") e
  | EvError rid _ _ => a_close rid "error" e
  end.

(** The three components of what a handler returns in state [st]. *)
Definition value {A : Type} (m : M A) (st : gateway) : A := (m st).1.1.
Definition exec {A : Type} (m : M A) (st : gateway) : gateway := (m st).1.2.
Definition logs {A : Type} (m : M A) (st : gateway) : list obs := (m st).2.

(** A handler that leaves the skeleton alone and ends no message. *)
Definition keeps {A : Type} (m : M A) : Prop :=
  ∀ st, proj (exec m st) = proj st ∧ abs_log (logs m st) = [].

(** A handler that does [a] to the skeleton in state [st]. *)
Definition sim_at {A : Type} (m : M A) (st : gateway) (a : eng → eng * list aobs) : Prop :=
  proj (exec m st) = (a (proj st)).1 ∧ abs_log (logs m st) = (a (proj st)).2.

(** Run [rid] is a turn of session [sid] that has not been finalized. *)
Definition unfinished (e : eng) (rid : nat) (sid : string) : Prop :=
  ∃ k, e_runs e !! rid = Some k ∧ k_sessionId k = sid ∧ k_finished k = false.

Definition running (st : gateway) (rid : nat) (sid : string) : Prop :=
  ∃ r, g_runs st !! rid = Some r ∧ r_sessionId r = sid ∧ r_finished r = false.

(** The invariant of the skeleton. *)
Record eng_inv (e : eng) : Prop := {
  inv_running : ∀ rid sid, unfinished e rid sid → sid ∈ e_active e ∧ e_fins e !! sid = Some rid;
  inv_fins : ∀ sid rid, e_fins e !! sid = Some rid → unfinished e rid sid;
  inv_procs : ∀ sid rid, e_procs e !! sid = Some rid → is_Some (e_fins e !! sid);
  inv_writer : ∀ rid k, e_runs e !! rid = Some k → k_writerSession k = k_sessionId k;
}.

(** The turns of a session in the order they were pushed on its queue, and
    in the order they became the active run. *)
Definition enqueued_turns (sid : string) (log : list obs) : list turn :=
  omap (fun o => match o with
                 | ObsEnqueue s t => if String.eqb s sid then Some t else None
                 | _ => None
                 end) log.

Definition started_turns (sid : string) (log : list obs) : list turn :=
  omap (fun o => match o with
                 | ObsStart s _ t => if String.eqb s sid then Some t else None
                 | _ => None
                 end) log.

(** The same, and the [message_end] records with stop reason [cancelled]
    of a journal, read off what the skeleton keeps of the log. *)
Definition a_enqueued (sid : string) (log : list aobs) : list turn :=
  omap (fun o => match o with
                 | AEnqueue s t => if String.eqb s sid then Some t else None
                 | _ => None
                 end) log.

Definition a_started (sid : string) (log : list aobs) : list turn :=
  omap (fun o => match o with
                 | AStart s _ t => if String.eqb s sid then Some t else None
                 | _ => None
                 end) log.

Definition is_cancelled_aend (sid : string) (o : aobs) : bool :=
  match o with
  | AEnd s stopReason => String.eqb s sid && String.eqb stopReason "cancelled"
  | _ => false
  end.

Definition a_cancelled (sid : string) (log : list aobs) : nat :=
  length (filter (fun o => is_cancelled_aend sid o = true) log).

(** [codexQueueBySession.get(sid) || []]. *)
Definition queue_of (st : gateway) (sid : string) : list turn :=
  default [] (codexQueueBySession st !! sid).

(** An event other than a submit or a cancel of session [sid]. *)
Definition other_event (sid : string) (ev : event) : bool :=
  match ev with
  | EvSubmit s _ _ _ | EvCancel s _ _ => negb (String.eqb s sid)
  | _ => true
  end.

(** The turns started so far, followed by the turns that wait, are turns
    that were pushed, in the order they were pushed. *)
Definition fifo (sid : string) (e : eng) (log : list aobs) : Prop :=
  (a_started sid log ++ default [] (e_queues e !! sid)) `sublist_of` a_enqueued sid log.

(** Session [sid] has no child, no finalizer and no turn waiting. *)
Definition idle (sid : string) (e : eng) : Prop :=
  e_procs e !! sid = None ∧ e_fins e !! sid = None ∧ default [] (e_queues e !! sid) = [].

(** What [submit] may leave in the log when it answers a gateway command. *)
Definition is_ObsAppend (o : obs) : bool :=
  match o with
  | ObsAppend _ _ => true
  | _ => false
  end.

(** Two turns are submitted; the first is started, a second start is
    attempted while it runs, its child exits, and the second is started. *)
Definition turns_in_order_trace : list event :=
  [ EvSubmit ex_sid "first" None "t0";
    EvSubmit ex_sid "second" None "t0";
    EvStartNext ex_sid "t1" true;
    EvStartNext ex_sid "t1" true;
    EvClose 0 (Some 0) "t2";
    EvStartNext ex_sid "t3" true ].

(** The records [streamHistory] sends under a limit: the first [n] of them,
    all of them when the limit is [Infinity]. *)
Definition within_limit (limit : option nat) (entries : list json) : list json :=
  match limit with
  | Some n => take n entries
  | None => entries
  end.

(** The greatest of [lastCursor] and the cursors of the records. *)
Definition max_cursor (lastCursor : Z) (entries : list json) : Z :=
  foldl Z.max lastCursor (map record_cursor entries).

(** An event other than an attach of client [c]. *)
Definition not_attach_of (c : nat) (ev : tail_event) : bool :=
  match ev with
  | TAttach c' _ _ => negb (c' =? c)%nat
  | _ => true
  end.

(** Every sidecar of [f] is a sidecar of [f']. *)
Definition fs_ext (f f' : fs) : Prop :=
  ∀ sid, is_Some (fs_meta f !! sid) → is_Some (fs_meta f' !! sid).

(** A handler that removes no sidecar: run where the sidecars of [f] exist,
    it leaves a state where they exist. *)
Definition ext {A : Type} (f : fs) (m : M A) : Prop :=
  ∀ st, fs_ext f (g_fs st) → fs_ext f (g_fs (exec m st)).

(** An event other than a cancel of session [sid] that clears its queue. *)
Definition keeps_queue (sid : string) (ev : event) : bool :=
  match ev with
  | EvCancel s true _ => negb (String.eqb s sid)
  | _ => true
  end.

(** What [finalizeRun] does after the [message_end]: a [session_meta]
    record and the scheduling of the next turn. *)
Definition is_meta_or_schedule (o : obs) : bool :=
  match o with
  | ObsAppend _ record => String.eqb (record_event record) "session_meta"
  | ObsSetImmediate _ => true
  | _ => false
  end.

(** The frames of the records a writer at [cursor] appends for [calls]:
    [formatSSE(event, String(cursor), data)] with the cursors the appends
    return. *)
Fixpoint record_frames (cursor : Z) (calls : list (string * json)) : list string :=
  match calls with
  | [] => []
  | (event, data) :: rest =>
      formatSSE (Some (JStr event)) (Some (JStr (String_of_Z (cursor + 1)))) (Some data)
      :: record_frames (cursor + 1) rest
  end.

(** The ids of the frames that carry no record: [history-start] and
    [history-end] of [streamHistory], [meta] of the first frame of the
    stream, [heartbeat-<time>] of the heartbeats. *)
Definition is_control_id (id : string) : bool :=
  String.eqb id "history-start" || String.eqb id "history-end" || String.eqb id "meta"
  || starts_with "heartbeat-" id.

(** The characters of a list read from the environment that belong to no
    entry. *)
Definition is_ws_or_comma (c : ascii) : bool := is_ws c || Ascii.eqb c ",".

(** An entry as the parsers leave it: not empty, trimmed, without comma. *)
Definition clean_entry (x : string) : Prop :=
  x ≠ "" ∧ js_trim x = x ∧ str_forall (fun c => negb (Ascii.eqb c ",")) x = true.

(** [origin] is [entry] with each [*] replaced by a string without line
    terminator. *)
Inductive glob : string → string → Prop :=
  | glob_nil : glob "" ""
  | glob_lit (c : ascii) (entry origin : string) :
      c ≠ "*"%char → glob entry origin → glob (String c entry) (String c origin)
  | glob_star (entry mid origin : string) :
      str_forall (fun c => negb (is_line_terminator c)) mid = true →
      glob entry origin → glob (String "*" entry) (mid +:+ origin).

(** Every hyphen replaced by a space. *)
Fixpoint dash_to_space (s : string) : string :=
  match s with
  | EmptyString => EmptyString
  | String c t => String (if Ascii.eqb c "-" then " "%char else c) (dash_to_space t)
  end.

(** A segment of a normalized path: not empty, not [.] or [..], without
    separator. *)
Definition plain_segment (seg : string) : Prop :=
  seg ≠ "" ∧ seg ≠ "." ∧ seg ≠ ".."
  ∧ str_forall (fun c => negb (Ascii.eqb c "/")) seg = true.

(** The id [newId] draws when the counter is at [n]. *)
Definition new_id (n : nat) : string := "id-" +:+ String_of_Z (Z.of_nat n).

(** The indices of the [content_block] records of message [m] in a log, in
    the order they were appended. *)
Definition block_index_of (m : string) (o : obs) : option Z :=
  match o with
  | ObsAppend _ record =>
      if String.eqb (record_event record) "content_block"
         && String.eqb (record_message record) m
      then match js_get_opt "index" (js_get "data" record) with
           | Some (JNum i) => Some i
           | _ => None
           end
      else None
  | _ => None
  end.

Definition block_indices (m : string) (log : list obs) : list Z := omap (block_index_of m) log.

(** [0, 1, ..., k - 1]. *)
Definition first_indices (k : Z) : list Z := map Z.of_nat (seq 0 (Z.to_nat k)).

(** The invariant of the block counters, with the ids below [b] in use:
    every run has an id below [b] of its own, and the blocks journaled for
    it are numbered from 0 to its [blockIndex]; no block is journaled for
    an id from [b] on. *)
Record blocks_inv (b : nat) (st : gateway) (log : list obs) : Prop := {
  bi_bound : (b <= g_next_id st)%nat;
  bi_runs : ∀ rid r, g_runs st !! rid = Some r →
            0 <= r_blockIndex r
            ∧ ∃ n, (n < b)%nat ∧ r_assistantMessageId r = new_id n
                   ∧ block_indices (new_id n) log = first_indices (r_blockIndex r);
  bi_unique : ∀ rid1 rid2 r1 r2,
      g_runs st !! rid1 = Some r1 → g_runs st !! rid2 = Some r2 →
      r_assistantMessageId r1 = r_assistantMessageId r2 → rid1 = rid2;
  bi_fresh : ∀ n, (b <= n)%nat → block_indices (new_id n) log = [];
}.

Definition blocks_ok (st : gateway) (log : list obs) : Prop :=
  blocks_inv (g_next_id st) st log.

(** A handler run from a state and a log that satisfy [J] leaves a state
    and a log that satisfy [J'] of its value. *)
Definition hoare {A : Type} (J : gateway → list obs → Prop) (m : M A)
    (J' : A → gateway → list obs → Prop) : Prop :=
  ∀ st log, J st log → J' (value m st) (exec m st) (log ++ logs m st).

(** A handler that keeps the invariant of the block counters. *)
Definition keeps_blocks {A : Type} (m : M A) : Prop :=
  hoare blocks_ok m (fun _ => blocks_ok).

(** The state after [newId] returned [a]: [a] is the id of the counter
    before the call, and no run and no block has it yet. *)
Definition id_drawn (a : string) (st : gateway) (log : list obs) : Prop :=
  ∃ n, a = new_id n ∧ g_next_id st = S n ∧ blocks_inv n st log.

(** A step that changes no run, draws no id and journals no block. *)
Definition inert {A : Type} (m : M A) : Prop :=
  ∀ st, g_runs (exec m st) = g_runs st ∧ g_next_id (exec m st) = g_next_id st
        ∧ ∀ mid, block_indices mid (logs m st) = [].

(** The journal of [sid] is the journal [f0] had, followed by a line for
    each record the log says was appended to it. *)
Definition journal_follows (sid : string) (f0 : fs) (st : gateway) (log : list obs) : Prop :=
  jsonl_text (g_fs st) sid = jsonl_text f0 sid +:+ lines_text (appends_to sid log).

(** The same, in a handler that has read the state [s] and has not
    written a file since. *)
Definition journal_follows_at (sid : string) (f0 : fs) (s : gateway)
    (st : gateway) (log : list obs) : Prop :=
  journal_follows sid f0 st log ∧ g_fs st = g_fs s.

(** A handler that only appends to the journals. *)
Definition keeps_journal {A : Type} (sid : string) (f0 : fs) (m : M A) : Prop :=
  hoare (journal_follows sid f0) m (fun _ => journal_follows sid f0).

(** An event other than a step of an attach of client [c]. *)
Definition not_attaching (c : nat) (ev : conn_event) : bool :=
  match ev with
  | CAttach c' _ _ | CAttached c' => negb (c' =? c)%nat
  | _ => true
  end.

(** The three records of a user message, as the handler appends them
    through a writer at cursor [c]. *)
Definition user_message_records (sid userMessageId now : string) (c : Z) (prompt : json)
  : list json :=
  [ journal_record (c + 1) "message_start"
      (JObj [ ("id", JStr userMessageId); ("lineNumber", JNum (c + 1));
              ("role", JStr "user"); ("timestamp", JStr now); ("sessionId", JStr sid) ]);
    journal_record (c + 2) "content_block"
      (JObj [ ("messageId", JStr userMessageId); ("index", JNum 0);
              ("block", JObj [("type", JStr "text"); ("text", prompt)]) ]);
    journal_record (c + 3) "message_end"
      (JObj [ ("id", JStr userMessageId); ("stopReason", JStr "end_turn") ]) ].

(** [prompt] of the handler: [content], with the note on the image when
    [imagePath] is truthy ([+=] turns it into a string). *)
Definition prompt_of (content : json) (imagePath : jsval) : json :=
  if js_truthy imagePath
  then JStr (js_ToString content +:+ NL +:+ NL +:+ "[Attached image: "
             +:+ template imagePath +:+ "]")
  else content.

(* ===================================================================== *)
(** * Part III: theorems                                                  *)
(* ===================================================================== *)

(** ** Strings *)

Lemma append_cons (x : ascii) (a b : string) : String x a +:+ b = String x (a +:+ b).
Proof. reflexivity. Qed.

Lemma append_nil_l (b : string) : "" +:+ b = b.
Proof. reflexivity. Qed.

Ltac str_simpl := rewrite ?append_cons, ?append_nil_l in *.

Lemma append_assoc (a b c : string) : (a +:+ b) +:+ c = a +:+ (b +:+ c).
Proof. induction a as [|x a IH]; str_simpl; [done | by f_equal]. Qed.

Lemma append_nil_r (a : string) : a +:+ "" = a.
Proof. induction a as [|x a IH]; str_simpl; [done | by f_equal]. Qed.

Lemma length_append (a b : string) :
  String.length (a +:+ b) = (String.length a + String.length b)%nat.
Proof. induction a as [|x a IH]; str_simpl; simpl; [done | by f_equal]. Qed.

Lemma str_len_append (a b : string) : str_len (a +:+ b) = str_len a + str_len b.
Proof. unfold str_len. rewrite length_append. lia. Qed.

Lemma str_len_nonneg (a : string) : 0 <= str_len a.
Proof. unfold str_len. lia. Qed.

Lemma str_take_drop (n : nat) (s : string) : str_take n s +:+ str_drop n s = s.
Proof.
  revert s. induction n as [|n IH]; intros [|c s]; simpl; str_simpl; try done.
  by rewrite IH.
Qed.

Lemma length_str_drop (n : nat) (s : string) :
  String.length (str_drop n s) = (String.length s - n)%nat.
Proof. revert s. induction n as [|n IH]; intros [|c s]; simpl; try done; lia. Qed.

Lemma length_str_take (n : nat) (s : string) :
  String.length (str_take n s) = Nat.min n (String.length s).
Proof. revert s. induction n as [|n IH]; intros [|c s]; simpl; try done. by rewrite IH. Qed.

Lemma str_drop_all (n : nat) (s : string) :
  (String.length s <= n)%nat → str_drop n s = "".
Proof.
  revert s. induction n as [|n IH]; intros [|c s]; simpl; try done; try lia.
  intros H. apply IH. lia.
Qed.

Lemma str_drop_app_le (k : nat) (a b : string) :
  (k <= String.length a)%nat → str_drop k (a +:+ b) = str_drop k a +:+ b.
Proof.
  revert a. induction k as [|k IH]; intros [|x a]; simpl; try done; try lia.
  intros H. str_simpl. cbn [str_drop]. apply IH. lia.
Qed.

Lemma str_drop_add (n m : nat) (s : string) :
  str_drop (n + m) s = str_drop m (str_drop n s).
Proof.
  revert s. induction n as [|n IH]; intros s; [done|].
  destruct s as [|c s]; cbn [Nat.add str_drop]; [by destruct m | apply IH].
Qed.

Lemma str_drop_app_length (a b : string) : str_drop (String.length a) (a +:+ b) = b.
Proof. induction a as [|x a IH]; str_simpl; simpl; [by destruct b | done]. Qed.

Lemma str_take_all (n : nat) (s : string) :
  (String.length s <= n)%nat → str_take n s = s.
Proof.
  revert s. induction n as [|n IH]; intros [|c s]; simpl; try done; try lia.
  intros H. f_equal. apply IH. lia.
Qed.

(** ** SSE framing *)

(** C5, as stated, fails: the frame of a [message_end] event with cursor 7
    and an empty payload ends with two newline characters, not three. *)
Lemma formatSSE_not_three_newlines :
  formatSSE (Some (JStr "message_end")) (Some (JStr "7")) (Some (JObj []))
    = "id: 7" +:+ NL +:+ "event: message_end" +:+ NL +:+ "data: {}" +:+ NL +:+ NL
  ∧ formatSSE (Some (JStr "message_end")) (Some (JStr "7")) (Some (JObj []))
    ≠ spec_frame (Some (JStr "message_end")) (Some (JStr "7")) (JObj []).
Proof. split; [reflexivity | discriminate]. Qed.

(** C5, amended: for every event kind, cursor and payload, [formatSSE]
    returns the id, event and data lines followed by a single blank line:
    exactly two newline characters follow the content of the data line. *)
Theorem formatSSE_frame (kind cursor : jsval) (data : json) :
  formatSSE kind cursor (Some data)
  = "id: " +:+ template cursor +:+ NL +:+
    "event: " +:+ template kind +:+ NL +:+
    "data: " +:+ JSON_stringify data +:+ NL +:+ NL.
Proof.
  unfold formatSSE, join, stringify_val. cbn [String.concat].
  rewrite !append_assoc, !append_nil_r. reflexivity.
Qed.

(** ** The PTY history buffer *)

Lemma join_nil_app (l : list string) (c : string) :
  join "" (l ++ [c]) = join "" l +:+ c.
Proof.
  unfold join. induction l as [|x l IH]; simpl.
  - done.
  - destruct l as [|y l]; simpl in *.
    + done.
    + rewrite IH. by rewrite !append_assoc.
Qed.

Lemma onData_bound (limit : Z) (history data : string) :
  0 <= limit → str_len (onData limit history data) <= limit.
Proof.
  intros Hl. unfold onData.
  destruct (Z.gtb_spec (str_len (history +:+ data)) limit) as [Hgt|Hle]; [|done].
  unfold js_slice_from.
  destruct (Z.ltb_spec (str_len (history +:+ data) - limit) 0) as [?|_]; [lia|].
  unfold str_len in *. rewrite length_str_drop. lia.
Qed.

Lemma onData_suffix (limit : Z) (history data : string) :
  ∃ dropped, history +:+ data = dropped +:+ onData limit history data.
Proof.
  unfold onData. destruct (_ >? _).
  - unfold js_slice_from. eexists. symmetry. apply str_take_drop.
  - by exists "".
Qed.

(** The buffer is the output without its first [length - HISTORY_LIMIT]
    code units (without none when that is negative). *)
Lemma history_after_drop (HISTORY_LIMIT : Z) (chunks : list string) :
  0 <= HISTORY_LIMIT →
  history_after HISTORY_LIMIT chunks
  = str_drop (Z.to_nat (str_len (all_output chunks) - HISTORY_LIMIT)) (all_output chunks).
Proof.
  intros Hl. unfold history_after, all_output.
  induction chunks as [|c chunks IH] using rev_ind; [by destruct (Z.to_nat _)|].
  rewrite fold_left_app, join_nil_app. cbn [fold_left]. rewrite IH. clear IH.
  set (a := join "" chunks). unfold onData. cbv zeta.
  assert (Ha : str_len (str_drop (Z.to_nat (str_len a - HISTORY_LIMIT)) a)
               = Z.min (str_len a) HISTORY_LIMIT).
  { unfold str_len. rewrite length_str_drop. lia. }
  rewrite !str_len_append, Ha.
  destruct (Z.gtb_spec (Z.min (str_len a) HISTORY_LIMIT + str_len c) HISTORY_LIMIT) as [Hgt|Hle].
  - unfold js_slice_from. cbv zeta. rewrite str_len_append, Ha.
    destruct (Z.ltb_spec (Z.min (str_len a) HISTORY_LIMIT + str_len c - HISTORY_LIMIT) 0);
      [lia|].
    rewrite Z.min_l by lia.
    rewrite <- str_drop_app_le by (unfold str_len; lia).
    rewrite <- str_drop_add. f_equal. pose proof (str_len_nonneg a). lia.
  - rewrite <- str_drop_app_le by (unfold str_len; lia).
    f_equal. pose proof (str_len_nonneg c). lia.
Qed.

(** C9: with a non-negative cap, after every chunk the buffer holds at most
    [HISTORY_LIMIT] code units and is a suffix of all output produced since
    the spawn; what is missing at the start is exactly what exceeds the
    cap.  So as long as the output fits the cap the buffer is all of it,
    and once it does not the buffer is its last [HISTORY_LIMIT] code
    units. *)
Theorem history_bounded_suffix (HISTORY_LIMIT : Z) (chunks : list string) :
  0 <= HISTORY_LIMIT →
  str_len (history_after HISTORY_LIMIT chunks) <= HISTORY_LIMIT
  ∧ (∃ dropped,
       all_output chunks = dropped +:+ history_after HISTORY_LIMIT chunks
       ∧ str_len dropped = Z.max 0 (str_len (all_output chunks) - HISTORY_LIMIT))
  ∧ (str_len (all_output chunks) <= HISTORY_LIMIT →
     history_after HISTORY_LIMIT chunks = all_output chunks)
  ∧ (HISTORY_LIMIT <= str_len (all_output chunks) →
     str_len (history_after HISTORY_LIMIT chunks) = HISTORY_LIMIT).
Proof.
  intros Hl. rewrite history_after_drop by done.
  set (all := all_output chunks). set (n := Z.to_nat (str_len all - HISTORY_LIMIT)).
  assert (Hlen : str_len (str_drop n all) = Z.min (str_len all) HISTORY_LIMIT).
  { unfold str_len. rewrite length_str_drop. unfold n, str_len. lia. }
  repeat split.
  - lia.
  - exists (str_take n all). split; [by rewrite str_take_drop|].
    unfold str_len. rewrite length_str_take. unfold n, str_len. lia.
  - intros Hle. replace n with 0%nat by (unfold n; lia). done.
  - intros Hge. lia.
Qed.

Lemma history_bounded_suffix_witness :
  str_len (history_after 5 ["abc"; "defg"; "h"]) <= 5
  ∧ (∃ dropped,
       all_output ["abc"; "defg"; "h"] = dropped +:+ history_after 5 ["abc"; "defg"; "h"]
       ∧ str_len dropped = Z.max 0 (str_len (all_output ["abc"; "defg"; "h"]) - 5))
  ∧ (str_len (all_output ["abc"; "defg"; "h"]) <= 5 →
     history_after 5 ["abc"; "defg"; "h"] = all_output ["abc"; "defg"; "h"])
  ∧ (5 <= str_len (all_output ["abc"; "defg"; "h"]) →
     str_len (history_after 5 ["abc"; "defg"; "h"]) = 5).
Proof. apply (history_bounded_suffix 5 ["abc"; "defg"; "h"]). lia. Defined.

Example history_after_ex : history_after 5 ["abc"; "defg"; "h"] = "defgh".
Proof. reflexivity. Qed.

Example history_after_fits : history_after 5 ["ab"; "c"; "de"] = "abcde".
Proof. reflexivity. Qed.

(** ** Session ids *)

Lemma flat_map_flat_map {A B C : Type} (f : A → list B) (g : B → list C) (l : list A) :
  flat_map g (flat_map f l) = flat_map (fun x => flat_map g (f x)) l.
Proof.
  induction l as [|x l IH]; simpl; [done|].
  by rewrite flat_map_app, IH.
Qed.

Lemma re_run_Cat_assoc (ic : bool) (a b c : regex) (s : string) :
  re_run ic (Cat (Cat a b) c) s = re_run ic (Cat a (Cat b c)) s.
Proof. simpl. apply flat_map_flat_map. Qed.

Lemma re_run_Cat_ext (ic : bool) (a b b' : regex) (s : string) :
  (∀ s', re_run ic b s' = re_run ic b' s') →
  re_run ic (Cat a b) s = re_run ic (Cat a b') s.
Proof. intros H. simpl. apply flat_map_ext. intros s'. apply H. Qed.

Lemma re_run_Rep_S (ic : bool) (n : nat) (r c : regex) (s : string) :
  re_run ic (Cat (Rep (S n) r) c) s = re_run ic (Cat r (Cat (Rep n r) c)) s.
Proof. rewrite <- re_run_Cat_assoc. reflexivity. Qed.

Lemma re_run_Rep_O (ic : bool) (r c : regex) (s : string) :
  re_run ic (Cat (Rep O r) c) s = re_run ic c s.
Proof. simpl. by rewrite app_nil_r. Qed.

(** The pattern of the code and the pattern of the specification differ
    only in how the three middle groups are written. *)
Lemma UUID_PATTERN_body_spec (ic : bool) (s : string) :
  re_run ic (re_body UUID_PATTERN) s = re_run ic (re_body (spec_uuid_pattern ic)) s.
Proof.
  unfold UUID_PATTERN, spec_uuid_pattern; cbn [re_body].
  do 2 (apply re_run_Cat_ext; intros ?).
  symmetry.
  do 3 (rewrite re_run_Rep_S, re_run_Cat_assoc;
        do 2 (apply re_run_Cat_ext; intros ?)).
  apply re_run_Rep_O.
Qed.

Lemma re_test_ext (p q : js_regexp) (s : string) :
  re_anchor_start p = re_anchor_start q →
  re_anchor_end p = re_anchor_end q →
  re_ignore_case p = re_ignore_case q →
  (∀ s', re_run (re_ignore_case q) (re_body p) s' = re_run (re_ignore_case q) (re_body q) s') →
  re_test p s = re_test q s.
Proof.
  intros Hs He Hi Hb. unfold re_test. rewrite Hs, He, Hi.
  induction (if re_anchor_start q then [s] else suffixes s) as [|x l IH]; simpl; [done|].
  by rewrite Hb, IH.
Qed.

Lemma UUID_PATTERN_test_spec (s : string) :
  re_test UUID_PATTERN s = re_test (spec_uuid_pattern true) s.
Proof. apply re_test_ext; try reflexivity. apply (UUID_PATTERN_body_spec true). Qed.

(** C8, as stated, fails: an id written with upper-case hex digits does not
    match the lower-case pattern of the specification, and the code accepts
    it and resolves its paths. *)
Lemma upper_case_id_accepted :
  re_test (spec_uuid_pattern false) upper_id = false
  ∧ validateSessionId upper_id = Ok tt
  ∧ getSessionPaths upper_id
    = Ok {| metaPath := "codex-sessions/ABCDEF01-2345-6789-ABCD-EF0123456789.json";
            jsonlPath := "codex-events/ABCDEF01-2345-6789-ABCD-EF0123456789.jsonl" |}.
Proof. vm_compute. done. Qed.

(** C8, amended: an id is accepted exactly when it matches the pattern of
    the specification read without regard to case, and for every other
    string each operation that resolves the session paths throws
    INVALID_SESSION_ID. *)
Theorem session_id_validation
    (JSON_parse : string → option json) (f : fs) (s : string) :
  (validateSessionId s = Ok tt ↔ re_test (spec_uuid_pattern true) s = true)
  ∧ (re_test (spec_uuid_pattern true) s = false →
       getSessionPaths s = Throw "INVALID_SESSION_ID"
       ∧ readSessionMeta f s = Throw "INVALID_SESSION_ID"
       ∧ (∀ m, writeSessionMeta f s m = Throw "INVALID_SESSION_ID")
       ∧ touchEventLog f s = Throw "INVALID_SESSION_ID"
       ∧ (∀ updates, updateSessionMeta f s updates = Throw "INVALID_SESSION_ID")
       ∧ (∀ cwd model now, createCodexSession f s cwd model now = Throw "INVALID_SESSION_ID")
       ∧ createEventWriter JSON_parse f s = Throw "INVALID_SESSION_ID").
Proof.
  unfold validateSessionId. rewrite UUID_PATTERN_test_spec. split.
  - destruct (re_test _ s); split; intros; done.
  - intros Hno.
    assert (Hp : getSessionPaths s = Throw "INVALID_SESSION_ID").
    { unfold getSessionPaths, validateSessionId.
      by rewrite UUID_PATTERN_test_spec, Hno. }
    unfold readSessionMeta, writeSessionMeta, touchEventLog, updateSessionMeta,
      createCodexSession, createEventWriter, readSessionMeta, writeSessionMeta.
    rewrite Hp. repeat split; reflexivity.
Qed.

Lemma session_id_validation_witness :
  re_test (spec_uuid_pattern true) "../../etc/passwd" = false
  ∧ readSessionMeta {| fs_meta := ∅; fs_jsonl := ∅ |} "../../etc/passwd"
    = Throw "INVALID_SESSION_ID".
Proof.
  split; [reflexivity|].
  apply (session_id_validation JSON_parse_ref {| fs_meta := ∅; fs_jsonl := ∅ |} "../../etc/passwd").
  reflexivity.
Defined.

Example valid_id_ex :
  validateSessionId "0a1b2c3d-4e5f-6a7b-8c9d-0e1f2a3b4c5d" = Ok tt
  ∧ validateSessionId "0a1b2c3d-4e5f-6a7b-8c9d-0e1f2a3b4c5" = Throw "INVALID_SESSION_ID"
  ∧ validateSessionId "0a1b2c3d-4e5f-6a7b-8c9d-0e1f2a3b4c5dx" = Throw "INVALID_SESSION_ID"
  ∧ validateSessionId "0a1b2c3d_4e5f-6a7b-8c9d-0e1f2a3b4c5d" = Throw "INVALID_SESSION_ID"
  ∧ validateSessionId "0a1b2c3g-4e5f-6a7b-8c9d-0e1f2a3b4c5d" = Throw "INVALID_SESSION_ID".
Proof. vm_compute. done. Qed.

(** ** JSON text *)

Lemma str_forall_append (P : ascii → bool) (a b : string) :
  str_forall P (a +:+ b) = str_forall P a && str_forall P b.
Proof.
  induction a as [|x a IH]; str_simpl; simpl; [done|].
  rewrite IH. by destruct (P x).
Qed.

Lemma str_forall_impl (P Q : ascii → bool) (s : string) :
  (∀ c, P c = true → Q c = true) → str_forall P s = true → str_forall Q s = true.
Proof.
  intros HPQ. induction s as [|x s IH]; simpl; [done|].
  intros [Hx Hs]%andb_prop. rewrite (HPQ _ Hx). by apply IH.
Qed.

Lemma string_of_uint_digits (d : Decimal.uint) :
  str_forall is_digit_or_minus (NilEmpty.string_of_uint d) = true.
Proof. induction d; simpl; done. Qed.

Lemma String_of_Z_digits (z : Z) : str_forall is_digit_or_minus (String_of_Z z) = true.
Proof.
  unfold String_of_Z, NilZero.string_of_int, NilZero.string_of_uint.
  destruct (Z.to_int z) as [d|d]; destruct d; simpl; try done;
    apply string_of_uint_digits.
Qed.

Lemma String_of_Z_nonempty (z : Z) : String_of_Z z ≠ "".
Proof.
  unfold String_of_Z, NilZero.string_of_int, NilZero.string_of_uint.
  destruct (Z.to_int z) as [d|d]; destruct d; simpl; done.
Qed.

Lemma all_ws_false_of_forall (s : string) :
  s ≠ "" → str_forall (fun c => negb (is_ws c)) s = true → all_ws s = false.
Proof.
  destruct s as [|c s]; [done|]. simpl. intros _ [Hc _]%andb_prop.
  by destruct (is_ws c).
Qed.

Lemma trim_end_id (s : string) :
  str_forall (fun c => negb (is_ws c)) s = true → trim_end s = s.
Proof.
  induction s as [|c s IH]; [done|].
  intros H. pose proof H as [Hc Hs]%andb_prop.
  cbn [trim_end]. rewrite all_ws_false_of_forall by done.
  by rewrite IH.
Qed.

Lemma js_trim_id (s : string) :
  str_forall (fun c => negb (is_ws c)) s = true → js_trim s = s.
Proof.
  intros H. unfold js_trim.
  assert (trim_start s = s) as ->.
  { destruct s as [|c s]; [done|]. simpl in *.
    apply andb_prop in H as [Hc _]. by destruct (is_ws c). }
  by apply trim_end_id.
Qed.

Lemma digit_not_ws (c : ascii) : is_digit_or_minus c = true → negb (is_ws c) = true.
Proof.
  destruct c as [[] [] [] [] [] [] [] []]; vm_compute; done.
Qed.

Lemma digit_printable (c : ascii) : is_digit_or_minus c = true → printable c = true.
Proof.
  destruct c as [[] [] [] [] [] [] [] []]; vm_compute; done.
Qed.

(** [Number(String(n)) = n]. *)
Lemma StringToNumber_String_of_Z (z : Z) : StringToNumber (String_of_Z z) = Some z.
Proof.
  unfold StringToNumber.
  rewrite js_trim_id
    by (eapply str_forall_impl; [apply digit_not_ws | apply String_of_Z_digits]).
  pose proof (String_of_Z_digits z) as Hd.
  pose proof (String_of_Z_nonempty z) as Hne.
  destruct (String_of_Z z) as [|c r] eqn:E; [done|].
  assert (Ascii.eqb c "+" = false) as ->.
  { simpl in Hd. apply andb_prop in Hd as [Hc _].
    destruct (Ascii.eqb_spec c "+") as [->|]; [done|done]. }
  rewrite <- E. unfold String_of_Z.
  rewrite NilZero.isi.
  - simpl. by rewrite DecimalZ.of_to.
  - destruct z; simpl; try done.
    intros [=H]. by apply DecimalPos.Unsigned.to_uint_nonnil in H.
  - destruct z; simpl; try done.
    intros [=H]. by apply DecimalPos.Unsigned.to_uint_nonnil in H.
Qed.

Lemma json_ind_nested (P : json → Prop) :
  P JNull → (∀ b, P (JBool b)) → (∀ z, P (JNum z)) → (∀ s, P (JStr s)) →
  (∀ l, Forall P l → P (JArr l)) →
  (∀ kvs, Forall (fun kv => P (snd kv)) kvs → P (JObj kvs)) →
  ∀ j, P j.
Proof.
  intros Hnull Hbool Hnum Hstr Harr Hobj.
  fix IH 1. intros [| b | z | s | l | kvs].
  - exact Hnull.
  - apply Hbool.
  - apply Hnum.
  - apply Hstr.
  - apply Harr. induction l as [|x l IHl]; constructor; [apply IH | exact IHl].
  - apply Hobj. induction kvs as [|[k v] kvs IHl]; constructor; [apply IH | exact IHl].
Qed.

Lemma escape_char_printable (c : ascii) : str_forall printable (escape_char c) = true.
Proof. destruct c as [[] [] [] [] [] [] [] []]; vm_compute; reflexivity. Qed.

Lemma escape_string_printable (s : string) : str_forall printable (escape_string s) = true.
Proof.
  induction s as [|c s IH]; simpl; [done|].
  by rewrite str_forall_append, escape_char_printable, IH.
Qed.

Lemma quote_json_printable (s : string) : str_forall printable (quote_json s) = true.
Proof.
  unfold quote_json. by rewrite !str_forall_append, escape_string_printable.
Qed.

Lemma join_printable (sep : string) (l : list string) :
  str_forall printable sep = true →
  Forall (fun s => str_forall printable s = true) l →
  str_forall printable (join sep l) = true.
Proof.
  intros Hsep Hl. unfold join. induction Hl as [|x l Hx Hl IH]; simpl; [done|].
  destruct l as [|y l]; [done|].
  rewrite !str_forall_append, Hx, Hsep. exact IH.
Qed.

(** [JSON.stringify] writes no control character; the only line feed of a
    journal line is the one [append] adds. *)
Lemma JSON_stringify_printable (j : json) : str_forall printable (JSON_stringify j) = true.
Proof.
  induction j as [| [] | z | s | l IH | kvs IH] using json_ind_nested; cbn [JSON_stringify];
    try done.
  - eapply str_forall_impl; [apply digit_printable | apply String_of_Z_digits].
  - apply quote_json_printable.
  - rewrite !str_forall_append. cbn. rewrite join_printable; [done..|].
    by apply Forall_map.
  - rewrite !str_forall_append. cbn. rewrite join_printable; [done..|].
    apply Forall_map. eapply Forall_impl; [exact IH|].
    intros [k v] Hv. cbn [fst snd] in *.
    by rewrite !str_forall_append, quote_json_printable, Hv.
Qed.

(** ** Lines *)

Lemma printable_not_nl (c : ascii) : printable c = true → Ascii.eqb c nl = false.
Proof. destruct c as [[] [] [] [] [] [] [] []]; vm_compute; done. Qed.

Lemma printable_not_cr (c : ascii) : printable c = true → Ascii.eqb c cr = false.
Proof. destruct c as [[] [] [] [] [] [] [] []]; vm_compute; done. Qed.

Lemma split_on_nonempty (c : ascii) (s : string) : split_on c s ≠ [].
Proof.
  induction s as [|a s IH]; simpl; [done|].
  destruct (Ascii.eqb a c); [done|]. by destruct (split_on c s).
Qed.

Lemma split_on_app_sep (c : ascii) (a b : string) :
  split_on c (a +:+ String c b) = split_on c a ++ split_on c b.
Proof.
  induction a as [|x a IH]; str_simpl.
  - simpl. by rewrite Ascii.eqb_refl.
  - simpl. destruct (Ascii.eqb x c); [by rewrite IH|].
    rewrite IH. pose proof (split_on_nonempty c a).
    by destruct (split_on c a).
Qed.

Lemma split_on_printable (s : string) :
  str_forall printable s = true → split_on nl s = [s].
Proof.
  induction s as [|a s IH]; simpl; [done|].
  intros [Ha Hs]%andb_prop. rewrite (printable_not_nl a Ha), IH; done.
Qed.

Lemma ends_nl_app_NL (p : string) : ends_nl (p +:+ NL) = true.
Proof.
  induction p as [|a p IH]; [done|]. str_simpl.
  destruct p as [|b p]; [done|]. exact IH.
Qed.

Lemma ends_nl_append (a b : string) : ends_nl b = true → ends_nl (a +:+ b) = true.
Proof.
  intros Hb. induction a as [|x a IH]; str_simpl; [done|].
  cbn [ends_nl]. destruct (a +:+ b) eqn:E; [|done].
  destruct a; [|done]. simpl in E. by subst.
Qed.

Lemma readline_go_printable (s : string) (cur rest : string) :
  str_forall printable s = true →
  readline_go cur false (s +:+ rest) = readline_go (cur +:+ s) false rest.
Proof.
  revert cur. induction s as [|a s IH]; intros cur; str_simpl.
  - by rewrite append_nil_r.
  - intros [Ha Hs]%andb_prop. cbn [readline_go].
    rewrite (printable_not_nl a Ha), (printable_not_cr a Ha), IH by done.
    by rewrite append_assoc.
Qed.

Lemma readline_go_whole (t u : string) (cur : string) (f : bool) :
  ends_nl t = true →
  readline_go cur f (t +:+ u) = readline_go cur f t ++ readline_go "" false u.
Proof.
  revert cur f. induction t as [|a t IH]; intros cur f; [done|].
  str_simpl. cbn [ends_nl readline_go].
  destruct t as [|b t].
  - intros ->%Ascii.eqb_eq. str_simpl. simpl. by destruct f.
  - intros Ht.
    destruct (Ascii.eqb a nl); [destruct f|destruct (Ascii.eqb a cr)];
      rewrite IH by done; done.
Qed.

Lemma readline_lines_append (t u : string) :
  whole_lines t → readline_lines (t +:+ u) = readline_lines t ++ readline_lines u.
Proof.
  intros [->|[p ->]]; [done|].
  apply readline_go_whole, ends_nl_app_NL.
Qed.

Lemma readline_lines_one (line : string) :
  str_forall printable line = true → readline_lines (line +:+ NL) = [line].
Proof.
  intros H. unfold readline_lines. rewrite readline_go_printable by done.
  str_simpl. simpl. done.
Qed.

Lemma whole_lines_append (t u : string) : whole_lines u → whole_lines t → whole_lines (t +:+ u).
Proof.
  intros [->|[p ->]] Ht.
  - by rewrite append_nil_r.
  - right. exists (t +:+ p). by rewrite append_assoc.
Qed.

(** ** The journal writer *)

Lemma join_nil_cons (x : string) (l : list string) : join "" (x :: l) = x +:+ join "" l.
Proof. unfold join. destruct l; simpl; [by rewrite append_nil_r | done]. Qed.

Lemma lines_text_cons (r : json) (rs : list json) :
  lines_text (r :: rs) = journal_line r +:+ lines_text rs.
Proof. unfold lines_text. simpl map. by rewrite join_nil_cons. Qed.

Lemma lines_text_whole (rs : list json) : whole_lines (lines_text rs).
Proof.
  induction rs as [|r rs IH]; [by left|].
  rewrite lines_text_cons.
  destruct IH as [->|[p ->]].
  - right. exists (JSON_stringify r). by rewrite append_nil_r.
  - right. exists (journal_line r +:+ p). by rewrite append_assoc.
Qed.

Lemma jsonl_text_set_jsonl (f : fs) (sid sid' text : string) :
  jsonl_text (set_jsonl sid text f) sid' = if decide (sid = sid') then text else jsonl_text f sid'.
Proof.
  unfold jsonl_text, set_jsonl. cbn [fs_jsonl]. rewrite lookup_insert.
  by destruct (decide (sid = sid')).
Qed.

Lemma jsonl_text_set_meta (f : fs) (sid sid' : string) (m : meta) :
  jsonl_text (set_meta sid m f) sid' = jsonl_text f sid'.
Proof. reflexivity. Qed.

Lemma shift_cursors (c : Z) (n : nat) :
  (c + 1) :: map (fun k => c + 1 + Z.of_nat k) (seq 1 n)
  = map (fun k => c + Z.of_nat k) (seq 1 (S n)).
Proof.
  cbn [seq map]. replace (c + Z.of_nat 1) with (c + 1) by lia. f_equal.
  rewrite <- (List.seq_shift n 1), List.map_map. apply map_ext. intros k. lia.
Qed.

Lemma writer_append_spec (f : fs) (w : writer) (event : string) (data : json) :
  ∃ f' w',
    writer_append f w event data = (f', w', w_cursor w + 1)
    ∧ w_cursor w' = w_cursor w + 1
    ∧ w_sessionId w' = w_sessionId w
    ∧ w_meta w' = w_meta w
    ∧ jsonl_text f' (w_sessionId w)
      = jsonl_text f (w_sessionId w)
        +:+ JSON_stringify (journal_record (w_cursor w + 1) event data) +:+ NL
    ∧ str_forall printable (JSON_stringify (journal_record (w_cursor w + 1) event data)) = true
    ∧ fs_meta f' = fs_meta f
    ∧ ∀ other, other ≠ w_sessionId w → fs_jsonl f' !! other = fs_jsonl f !! other.
Proof.
  eexists _, _. split; [reflexivity|]. cbn [w_cursor w_sessionId w_meta].
  repeat split.
  - rewrite jsonl_text_set_jsonl. by destruct (decide _).
  - apply JSON_stringify_printable.
  - intros other Hne. cbn. by rewrite lookup_insert_ne.
Qed.

Lemma append_all_spec (calls : list (string * json)) (f : fs) (w : writer) :
  ∃ f1 w1,
    append_all f w calls
      = (f1, w1, map (fun k => w_cursor w + Z.of_nat k) (seq 1 (length calls)))
    ∧ w_cursor w1 = w_cursor w + Z.of_nat (length calls)
    ∧ w_sessionId w1 = w_sessionId w
    ∧ w_meta w1 = w_meta w
    ∧ jsonl_text f1 (w_sessionId w)
      = jsonl_text f (w_sessionId w) +:+ lines_text (appended_records (w_cursor w) calls)
    ∧ fs_meta f1 = fs_meta f.
Proof.
  revert f w. induction calls as [|[event data] calls IH]; intros f w.
  - exists f, w. cbn. rewrite append_nil_r. repeat split; lia.
  - destruct (writer_append_spec f w event data)
      as (f' & w' & Happ & Hc & Hs & Hm & Ht & _ & Hmeta & _).
    destruct (IH f' w') as (f1 & w1 & Hall & Hc1 & Hs1 & Hm1 & Ht1 & Hmeta1).
    exists f1, w1. cbn [append_all]. rewrite Happ, Hall.
    rewrite Hs in Ht1. rewrite Hc in *.
    repeat split.
    + cbn [length]. by rewrite shift_cursors.
    + cbn [length]. lia.
    + congruence.
    + congruence.
    + rewrite Ht1, Ht. cbn [appended_records]. rewrite lines_text_cons.
      unfold journal_line. by rewrite !append_assoc.
    + congruence.
Qed.

Lemma blank_stringify_obj (kvs : list (string * json)) : blank (JSON_stringify (JObj kvs)) = false.
Proof. reflexivity. Qed.

Lemma entry_cursor_journal_record (c : Z) (event : string) (data : json) :
  entry_cursor (journal_record c event data) = Some c.
Proof.
  unfold entry_cursor, journal_record. cbn. apply StringToNumber_String_of_Z.
Qed.

Lemma journal_cursors_append (JSON_parse : string → option json) (t u : string) :
  whole_lines t →
  journal_cursors JSON_parse (t +:+ u) = journal_cursors JSON_parse t ++ journal_cursors JSON_parse u.
Proof.
  intros Ht. unfold journal_cursors. rewrite readline_lines_append by done.
  apply omap_app.
Qed.

Lemma journal_cursors_appended (JSON_parse : string → option json)
    (cursor : Z) (calls : list (string * json)) :
  Forall (fun r => JSON_parse (JSON_stringify r) = Some r) (appended_records cursor calls) →
  journal_cursors JSON_parse (lines_text (appended_records cursor calls))
  = map (fun k => cursor + Z.of_nat k) (seq 1 (length calls)).
Proof.
  revert cursor. induction calls as [|[event data] calls IH]; intros cursor; [done|].
  cbn [appended_records]. intros [Hr Hrest]%Forall_cons.
  rewrite lines_text_cons, journal_cursors_append
    by (right; by exists (JSON_stringify (journal_record (cursor + 1) event data))).
  rewrite IH by done.
  unfold journal_cursors at 1, journal_line.
  rewrite readline_lines_one by apply JSON_stringify_printable.
  cbn [omap list_omap]. unfold journal_record at 1. rewrite blank_stringify_obj.
  fold (journal_record (cursor + 1) event data).
  unfold parse_entry. rewrite Hr. unfold journal_record at 1. cbn [mbind option_bind].
  fold (journal_record (cursor + 1) event data).
  rewrite entry_cursor_journal_record.
  cbn [length app]. by rewrite <- shift_cursors.
Qed.

Lemma createEventWriter_sessionId (JSON_parse : string → option json)
    (f0 f : fs) (sid : string) (w : writer) :
  createEventWriter JSON_parse f0 sid = Ok (f, w) →
  w_sessionId w = sid
  ∧ is_Some (fs_meta f0 !! sid)
  ∧ validateSessionId sid = Ok tt
  ∧ f = touch_jsonl sid f0
  ∧ w_meta w !! "lastCursor" = Some (JNum (w_cursor w)).
Proof.
  unfold createEventWriter, getSessionPaths.
  destruct (validateSessionId sid) as [[]|] eqn:Hv; [|done]. cbn.
  destruct (fs_meta f0 !! sid) as [m|] eqn:Hm; [|done].
  intros [= <- <-]. cbn. repeat split; [by eexists|].
  destruct (Number_isFinite (m !! "lastCursor")) eqn:Hfin.
  - destruct (m !! "lastCursor") as [[]|]; done.
  - by rewrite lookup_insert_eq.
Qed.

(** C2: every [append(event, data)] returns the writer's cursor plus one,
    leaves the writer at that cursor and extends the journal by exactly one
    line, the JSON text of [{cursor: String(cursor), event, data}] (which
    holds no line feed) followed by a line feed.  After the appends of a
    writer opened on an existing session and a [commit] whose updates do not
    name [lastCursor], the sidecar stores the last cursor returned; under
    the single-writer discipline (the journal held whole lines with cursors
    up to the writer's starting cursor, and the lines written parse back)
    that is the greatest record cursor in the journal. *)
Theorem writer_append_commit (JSON_parse : string → option json)
    (f0 f : fs) (sid : string) (w : writer)
    (calls : list (string * json)) (updates : meta) :
  createEventWriter JSON_parse f0 sid = Ok (f, w) →
  calls ≠ [] →
  updates !! "lastCursor" = None →
  whole_lines (jsonl_text f sid) →
  Forall (fun c => c <= w_cursor w) (journal_cursors JSON_parse (jsonl_text f sid)) →
  Forall (fun r => JSON_parse (JSON_stringify r) = Some r) (appended_records (w_cursor w) calls) →
  (∀ f' w' event data, ∃ f'' w'',
      writer_append f' w' event data = (f'', w'', w_cursor w' + 1)
      ∧ w_cursor w'' = w_cursor w' + 1
      ∧ jsonl_text f'' (w_sessionId w')
        = jsonl_text f' (w_sessionId w')
          +:+ JSON_stringify (journal_record (w_cursor w' + 1) event data) +:+ NL
      ∧ str_forall printable (JSON_stringify (journal_record (w_cursor w' + 1) event data)) = true)
  ∧ ∃ f1 w1 f2 w2 last,
      append_all f w calls
        = (f1, w1, map (fun k => w_cursor w + Z.of_nat k) (seq 1 (length calls)))
      ∧ writer_commit f1 w1 updates = (f2, w2)
      ∧ last = w_cursor w + Z.of_nat (length calls)
      ∧ jsonl_text f2 sid
        = jsonl_text f sid +:+ lines_text (appended_records (w_cursor w) calls)
      ∧ fs_meta f2 !! sid ≫= (fun m => m !! "lastCursor") = Some (JNum last)
      ∧ last ∈ journal_cursors JSON_parse (jsonl_text f2 sid)
      ∧ Forall (fun c => c <= last) (journal_cursors JSON_parse (jsonl_text f2 sid)).
Proof.
  intros Hopen Hne Hupd Hwhole Hle Hrt.
  apply createEventWriter_sessionId in Hopen as (Hsid & _ & _ & _ & _).
  split.
  { intros f' w' event data.
    destruct (writer_append_spec f' w' event data) as (f'' & w'' & H1 & H2 & _ & _ & H3 & H4 & _).
    by exists f'', w''. }
  destruct (append_all_spec calls f w) as (f1 & w1 & Hall & Hc1 & Hs1 & Hm1 & Ht1 & Hmeta1).
  rewrite Hsid in Ht1, Hs1.
  eexists f1, w1, _, _, _. split; [exact Hall|]. split; [reflexivity|]. split; [reflexivity|].
  assert (Hcur : journal_cursors JSON_parse (jsonl_text f1 sid)
                 = journal_cursors JSON_parse (jsonl_text f sid)
                   ++ map (fun k => w_cursor w + Z.of_nat k) (seq 1 (length calls))).
  { by rewrite Ht1, journal_cursors_append, journal_cursors_appended. }
  rewrite jsonl_text_set_meta, Hcur.
  split; [exact Ht1|]. split; [|split].
  - rewrite Hs1. cbn [set_meta fs_meta]. rewrite lookup_insert_eq. cbn.
    unfold assign. rewrite lookup_union_r by done.
    by rewrite lookup_insert_eq, Hc1.
  - apply elem_of_app. right. apply list_elem_of_fmap.
    exists (length calls). split; [done|].
    apply elem_of_seq. destruct calls; [done|]. cbn [length]. lia.
  - apply Forall_app. split.
    + eapply Forall_impl; [exact Hle|]. intros c Hc. cbn in Hc. lia.
    + apply Forall_fmap, Forall_forall. intros k Hk%elem_of_seq. cbn. lia.
Qed.

Lemma writer_append_commit_witness :
  ∃ f2,
    jsonl_text f2 ex_sid = ex_journal +:+ lines_text (appended_records 2 ex_calls)
    ∧ fs_meta f2 !! ex_sid ≫= (fun m => m !! "lastCursor") = Some (JNum 4)
    ∧ 4 ∈ journal_cursors JSON_parse_ref (jsonl_text f2 ex_sid)
    ∧ Forall (fun c => c <= 4) (journal_cursors JSON_parse_ref (jsonl_text f2 ex_sid)).
Proof.
  destruct (writer_append_commit JSON_parse_ref ex_fs ex_fs ex_sid
              {| w_sessionId := ex_sid; w_meta := ex_meta; w_cursor := 2 |} ex_calls ∅)
    as (_ & f1 & w1 & f2 & w2 & last & _ & _ & -> & Ht & Hm & Hin & Hall).
  - vm_compute. reflexivity.
  - discriminate.
  - reflexivity.
  - right. exists (lines_text
      [ journal_record 1 "message_start" (JObj [("id", JStr "m1"); ("role", JStr "user")])]
      +:+ JSON_stringify (journal_record 2 "message_end"
            (JObj [("id", JStr "m1"); ("stopReason", JStr "end_turn")]))).
    vm_compute. reflexivity.
  - vm_compute. repeat constructor; discriminate.
  - repeat constructor; vm_compute; reflexivity.
  - exists f2. auto.
Defined.

(** ** Recovery of the cursor *)

Lemma last_chunk_is_last_chunk (text : string) : is_last_chunk text (last_chunk text).
Proof.
  unfold is_last_chunk, last_chunk.
  set (size := String.length text). set (cs := Nat.min (64 * 1024) size).
  assert (Hlen : String.length (str_drop (size - cs) text) = cs).
  { rewrite length_str_drop. fold size. lia. }
  rewrite str_take_all by lia. split; [|done].
  exists (str_take (size - cs) text). by rewrite str_take_drop.
Qed.

Lemma scan_last_cursor_skip (JSON_parse : string → option json) (skip rest : list string) :
  Forall (skipped JSON_parse) skip →
  scan_last_cursor JSON_parse (skip ++ rest) = scan_last_cursor JSON_parse rest.
Proof.
  induction 1 as [|line skip [Hb|Hp] _ IH]; [done| |]; cbn [app scan_last_cursor].
  - by rewrite Hb.
  - rewrite Hp. by destruct (blank line).
Qed.

Lemma scan_last_cursor_spec (JSON_parse : string → option json) (lines : list string) :
  (Forall (skipped JSON_parse) lines ∧ scan_last_cursor JSON_parse (rev lines) = 0)
  ∨ ∃ before line after entry,
      lines = before ++ line :: after
      ∧ Forall (skipped JSON_parse) after
      ∧ blank line = false
      ∧ parse_entry JSON_parse line = Some entry
      ∧ scan_last_cursor JSON_parse (rev lines) = default 0 (entry_cursor entry).
Proof.
  induction lines as [|x lines IH] using rev_ind; [by left|].
  rewrite rev_unit. cbn [scan_last_cursor].
  destruct (blank x) eqn:Hb; [|destruct (parse_entry JSON_parse x) as [entry|] eqn:Hp].
  - destruct IH as [[Hall H0]|(before & line & after & entry & -> & Hafter & Hbl & Hpl & Hs)].
    + left. split; [|done]. apply Forall_app. split; [done|]. constructor; [by left|done].
    + right. exists before, line, (after ++ [x]), entry.
      rewrite <- app_assoc. repeat split; try done.
      apply Forall_app. split; [done|]. constructor; [by left|done].
  - right. exists lines, x, [], entry. repeat split; done.
  - destruct IH as [[Hall H0]|(before & line & after & entry & -> & Hafter & Hbl & Hpl & Hs)].
    + left. split; [|done]. apply Forall_app. split; [done|]. constructor; [by right|done].
    + right. exists before, line, (after ++ [x]), entry.
      rewrite <- app_assoc. repeat split; try done.
      apply Forall_app. split; [done|]. constructor; [by right|done].
Qed.

Lemma readLastCursorFromFile_recovers (JSON_parse : string → option json)
    (content : option string) :
  recovers_to JSON_parse content (readLastCursorFromFile JSON_parse content).
Proof.
  destruct content as [text|]; [|constructor]. cbn [readLastCursorFromFile].
  destruct (scan_last_cursor_spec JSON_parse (split_on nl (last_chunk text)))
    as [[Hall ->]|(before & line & after & entry & Hsplit & Hafter & Hbl & Hpl & ->)].
  - eapply recovers_none; [apply last_chunk_is_last_chunk | done].
  - eapply recovers_found; [apply last_chunk_is_last_chunk | done..].
Qed.

Lemma whole_lines_str_drop (k : nat) (a : string) : whole_lines a → whole_lines (str_drop k a).
Proof.
  intros [->|[p ->]]; [left; by destruct k|].
  destruct (decide (k <= String.length p)%nat) as [Hle|Hgt].
  - right. exists (str_drop k p). by apply str_drop_app_le.
  - left. apply str_drop_all. rewrite length_append. cbn. lia.
Qed.

Lemma split_on_nl_record_line (before line tail : string) :
  whole_lines before → str_forall printable line = true →
  ∃ earlier, split_on nl (before +:+ line +:+ NL +:+ tail)
             = earlier ++ [line] ++ split_on nl tail.
Proof.
  intros Hb Hl.
  replace (before +:+ line +:+ NL +:+ tail) with ((before +:+ line) +:+ String nl tail)
    by (by rewrite append_assoc).
  rewrite split_on_app_sep.
  destruct Hb as [->|[p ->]].
  - exists []. str_simpl. by rewrite (split_on_printable line).
  - exists (split_on nl p).
    replace ((p +:+ NL) +:+ line) with (p +:+ String nl line) by (by rewrite append_assoc).
    rewrite split_on_app_sep, (split_on_printable line) by done.
    by rewrite <- app_assoc.
Qed.

(** A record line followed by a torn tail inside the last chunk: the scan
    returns the cursor of the record. *)
Lemma readLastCursorFromFile_torn_tail (JSON_parse : string → option json)
    (before : string) (n : Z) (event : string) (data : json) (tail : string) :
  whole_lines before →
  JSON_parse (JSON_stringify (journal_record n event data)) = Some (journal_record n event data) →
  Forall (skipped JSON_parse) (split_on nl tail) →
  (String.length (journal_line (journal_record n event data)) + String.length tail
     <= 64 * 1024)%nat →
  readLastCursorFromFile JSON_parse
    (Some (before +:+ journal_line (journal_record n event data) +:+ tail)) = n.
Proof.
  intros Hb Hrt Htail Hlen. cbn [readLastCursorFromFile]. unfold last_chunk.
  set (line := journal_line (journal_record n event data)) in *.
  set (text := before +:+ line +:+ tail).
  set (size := String.length text). set (cs := Nat.min (64 * 1024) size).
  assert (Hsize : size = (String.length before + (String.length line + String.length tail))%nat).
  { unfold size, text. by rewrite !length_append. }
  rewrite str_take_all by (rewrite length_str_drop; fold size; lia).
  unfold text. rewrite str_drop_app_le by lia.
  unfold line, journal_line. rewrite append_assoc.
  destruct (split_on_nl_record_line (str_drop (size - cs) before)
              (JSON_stringify (journal_record n event data)) tail) as [earlier ->].
  { by apply whole_lines_str_drop. }
  { apply JSON_stringify_printable. }
  rewrite !rev_app_distr, <- app_assoc.
  rewrite scan_last_cursor_skip by (by apply Forall_rev).
  cbn [rev app scan_last_cursor]. unfold journal_record at 1.
  rewrite blank_stringify_obj. fold (journal_record n event data).
  unfold parse_entry. rewrite Hrt. unfold journal_record at 1.
  fold (journal_record n event data).
  by rewrite entry_cursor_journal_record.
Qed.

(** C6: when the sidecar of a session with a valid id has no finite
    [lastCursor], the writer opens at the cursor recovered from the journal
    as the specification describes ([recovers_to]), the next [append]
    returns that cursor plus one, and a journal that ends with a record
    line followed by a torn tail inside the last 64 KiB yields the cursor of
    that record. *)
Theorem writer_recovery (JSON_parse : string → option json)
    (f : fs) (sid : string) (m : meta) :
  validateSessionId sid = Ok tt →
  fs_meta f !! sid = Some m →
  Number_isFinite (m !! "lastCursor") = false →
  ∃ f1 w,
    createEventWriter JSON_parse f sid = Ok (f1, w)
    ∧ recovers_to JSON_parse (fs_jsonl f !! sid) (w_cursor w)
    ∧ (∀ event data, ∃ f2 w2,
         writer_append f1 w event data = (f2, w2, w_cursor w + 1)
         ∧ jsonl_text f2 sid
           = jsonl_text f sid +:+ journal_line (journal_record (w_cursor w + 1) event data))
    ∧ (∀ before n event data tail,
         fs_jsonl f !! sid
           = Some (before +:+ journal_line (journal_record n event data) +:+ tail) →
         whole_lines before →
         JSON_parse (JSON_stringify (journal_record n event data))
           = Some (journal_record n event data) →
         Forall (skipped JSON_parse) (split_on nl tail) →
         (String.length (journal_line (journal_record n event data)) + String.length tail
            <= 64 * 1024)%nat →
         w_cursor w = n).
Proof.
  intros Hv Hm Hfin. unfold createEventWriter, getSessionPaths.
  rewrite Hv, Hm, Hfin. cbn [mbind result_bind mret result_ret].
  eexists _, _. split; [reflexivity|]. cbn [w_cursor].
  rewrite lookup_insert_eq. cbn [number_or_zero].
  assert (Hread : readLastCursorFromFile JSON_parse (fs_jsonl (touch_jsonl sid f) !! sid)
                  = readLastCursorFromFile JSON_parse (fs_jsonl f !! sid)).
  { unfold touch_jsonl. destruct (fs_jsonl f !! sid) as [text|] eqn:E; [by rewrite E|].
    cbn. rewrite lookup_insert_eq. reflexivity. }
  assert (Htext : jsonl_text (touch_jsonl sid f) sid = jsonl_text f sid).
  { unfold touch_jsonl, jsonl_text. destruct (fs_jsonl f !! sid) as [text|] eqn:E; [by rewrite E|].
    cbn. by rewrite lookup_insert_eq. }
  rewrite Hread. split; [apply readLastCursorFromFile_recovers|]. split.
  - intros event data. eexists _, _. split; [reflexivity|].
    cbn [w_sessionId w_cursor]. rewrite jsonl_text_set_jsonl.
    destruct (decide (sid = sid)); [|done]. by rewrite Htext.
  - intros before n event data tail -> Hb Hrt Htail Hlen.
    by apply readLastCursorFromFile_torn_tail.
Qed.

Lemma writer_recovery_witness :
  ∃ f1 w,
    createEventWriter JSON_parse_ref torn_fs ex_sid = Ok (f1, w)
    ∧ w_cursor w = 2
    ∧ ∃ f2 w2,
        writer_append f1 w "message_start" (JObj [("id", JStr "m2")]) = (f2, w2, 3).
Proof.
  destruct (writer_recovery JSON_parse_ref torn_fs ex_sid torn_meta)
    as (f1 & w & Hopen & _ & Happ & Htorn).
  - vm_compute. reflexivity.
  - vm_compute. reflexivity.
  - reflexivity.
  - exists f1, w. split; [exact Hopen|].
    assert (Hc : w_cursor w = 2).
    { apply (Htorn
        (journal_line (journal_record 1 "message_start"
                         (JObj [("id", JStr "m1"); ("role", JStr "user")])))
        2 "message_end" (JObj [("id", JStr "m1"); ("stopReason", JStr "end_turn")])
        ("{" +:+ DQ +:+ "cursor" +:+ DQ +:+ ":" +:+ DQ +:+ "3")).
      - vm_compute. reflexivity.
      - right. by eexists.
      - vm_compute. reflexivity.
      - replace (split_on nl ("{" +:+ DQ +:+ "cursor" +:+ DQ +:+ ":" +:+ DQ +:+ "3"))
          with ["{" +:+ DQ +:+ "cursor" +:+ DQ +:+ ":" +:+ DQ +:+ "3"]
          by (vm_compute; reflexivity).
        constructor; [right; vm_compute; reflexivity | constructor].
      - apply Nat.leb_le. vm_compute. reflexivity. }
    split; [exact Hc|].
    destruct (Happ "message_start" (JObj [("id", JStr "m2")])) as (f2 & w2 & H & _).
    exists f2, w2. by rewrite H, Hc.
Defined.

(** ** The tailer *)


Lemma live_loop_spec (JSON_parse : string → option json) (clients : list nat)
    (lines : list string) (lc : Z) :
  ∃ lc', live_loop JSON_parse clients lines lc
         = (flat_map (fun e => broadcast clients (entry_frame e))
                     (entries_of_lines JSON_parse lines), lc').
Proof.
  revert lc. induction lines as [|line lines IH]; intros lc; [by exists lc|].
  cbn [live_loop entries_of_lines omap list_omap].
  fold (entries_of_lines JSON_parse lines).
  destruct (blank line); [apply IH|].
  destruct (parse_entry JSON_parse line) as [entry|]; [|apply IH].
  edestruct IH as [lc' ->]. by exists lc'.
Qed.

Lemma delivered_to_app (c : nat) (a b : list write) :
  delivered_to c (a ++ b) = delivered_to c a ++ delivered_to c b.
Proof. unfold delivered_to. by rewrite filter_app, fmap_app. Qed.


Lemma delivered_to_broadcast (c : nat) (clients : list nat) (frame : string) :
  NoDup clients → c ∈ clients → delivered_to c (broadcast clients frame) = [frame].
Proof.
  unfold delivered_to, broadcast. induction 1 as [|x l Hx Hl IH]; [by intros ?%elem_of_nil|].
  cbn [map]. rewrite filter_cons. cbn [fst].
  destruct (decide (x = c)) as [->|Hne].
  - intros _. cbn. f_equal.
    assert (Hnone : ∀ l', c ∉ l' → (filter (λ w : write, w.1 = c) (map (λ c0, (c0, frame)) l')).*2 = []).
    { induction l' as [|y l' IH']; [done|].
      intros [Hy Hl']%not_elem_of_cons. cbn [map]. rewrite filter_cons, decide_False by (cbn; congruence).
      by apply IH'. }
    by apply Hnone.
  - intros [->|Hin]%elem_of_cons; [done|]. by apply IH.
Qed.

Lemma delivered_to_live (c : nat) (clients : list nat) (entries : list json) :
  NoDup clients → c ∈ clients →
  delivered_to c (flat_map (fun e => broadcast clients (entry_frame e)) entries)
  = map entry_frame entries.
Proof.
  intros Hnd Hin. induction entries as [|e entries IH]; [done|].
  cbn [flat_map map]. by rewrite delivered_to_app, delivered_to_broadcast, IH.
Qed.

Lemma journal_entries_append (JSON_parse : string → option json) (t u : string) :
  whole_lines t →
  journal_entries JSON_parse (t +:+ u) = journal_entries JSON_parse t ++ journal_entries JSON_parse u.
Proof.
  intros Ht. unfold journal_entries, entries_of_lines.
  rewrite readline_lines_append by done. apply omap_app.
Qed.

Lemma set_add_NoDup (c : nat) (l : list nat) : NoDup l → NoDup (set_add c l).
Proof.
  intros Hl. unfold set_add. case_bool_decide as Hin; [done|].
  apply NoDup_app. repeat split; [done| |apply NoDup_singleton].
  intros x Hx ->%list_elem_of_singleton. done.
Qed.

Lemma set_add_elem (c : nat) (l : list nat) : c ∈ set_add c l.
Proof.
  unfold set_add. case_bool_decide as Hin; [done|].
  apply elem_of_app. right. by apply list_elem_of_singleton.
Qed.


Lemma to_nat_str_len (s : string) : Z.to_nat (str_len s) = String.length s.
Proof. unfold str_len. apply Nat2Z.id. Qed.

Lemma str_len_zero (s : string) : str_len s = 0 → s = "".
Proof. destruct s; [done|]. unfold str_len. cbn. lia. Qed.

(** After the attach of [c], while only whole lines are appended and no
    other client attaches, [c] receives exactly the records of the text
    that [processNewLines] has read, in file order. *)
Lemma tail_run_quiet (JSON_parse : string → option json) (c : nat) (evs : list tail_event) :
  ∀ (f : fs) (t : tailer) (base pending : string),
    t_processing t = false → NoDup (t_clients t) → c ∈ t_clients t →
    fs_jsonl f !! t_sessionId t = Some (base +:+ pending) →
    t_position t = str_len base →
    whole_lines pending →
    Forall (quiet c) evs →
    delivered_to c (tail_run JSON_parse (f, t) evs).2
    = map entry_frame (journal_entries JSON_parse (processed_text pending evs)).
Proof.
  induction evs as [|ev evs IH]; intros f t base pending Hproc Hnd Hin Hfile Hpos Hwhole Hq;
    [done|].
  apply Forall_cons in Hq as [Hev Hq]. cbn [tail_run].
  destruct ev as [text| |res k limit|res]; cbn [tail_step quiet processed_text] in *.
  - (* a writer appends whole lines *)
    specialize (IH (set_jsonl (t_sessionId t) (jsonl_text f (t_sessionId t) +:+ text) f)
                   t base (pending +:+ text)).
    destruct (tail_run _ _ evs) as [st2 out2]. cbn [snd app] in *.
    apply IH; try done.
    + cbn. rewrite lookup_insert_eq. unfold jsonl_text. rewrite Hfile. cbn.
      by rewrite append_assoc.
    + by apply whole_lines_append.
  - (* the watcher fires *)
    unfold processNewLines. rewrite Hproc, Hfile, Hpos, str_len_append.
    destruct (Z.leb_spec (str_len base + str_len pending) (str_len base)) as [Hle|Hgt].
    + assert (pending = "") as ->.
      { apply str_len_zero. pose proof (str_len_nonneg pending). lia. }
      specialize (IH f t base "").
      destruct (tail_run _ _ evs) as [st2 out2]. cbn [snd app] in *.
      rewrite append_nil_l. by apply IH.
    + rewrite to_nat_str_len, str_drop_app_length.
      destruct (live_loop_spec JSON_parse (t_clients t) (readline_lines pending) (t_lastCursor t))
        as [lc' ->].
      match goal with |- context [tail_run _ (f, ?t') evs] =>
        specialize (IH f t' (base +:+ pending) "") end.
      destruct (tail_run _ _ evs) as [st2 out2]. cbn [snd] in *.
      rewrite delivered_to_app, delivered_to_live by done.
      rewrite IH; try done.
      * rewrite journal_entries_append by done. by rewrite map_app.
      * by rewrite append_nil_r.
      * by rewrite str_len_append.
      * by left.
  - done.
  - (* another client closes *)
    specialize (IH f (removeClient t res) base pending).
    destruct (tail_run _ _ evs) as [st2 out2]. cbn [snd app] in *.
    apply IH; try done.
    + cbn. by apply NoDup_filter.
    + cbn. apply list_elem_of_filter. split; [congruence|done].
Qed.


(** The shared position: a second client that attaches while a line is
    appended and not yet read moves the position past it, and the first
    client never receives record 3. *)
Lemma attach_swallows_pending_lines :
  let run := tail_run JSON_parse_ref (ex_fs, new_tailer ex_sid)
               [TAttach 1 0 None; TAppend ex_line3; TAttach 2 0 None; TNotify] in
  let r1 := journal_record 1 "message_start" (JObj [("id", JStr "m1"); ("role", JStr "user")]) in
  let r2 := journal_record 2 "message_end"
              (JObj [("id", JStr "m1"); ("stopReason", JStr "end_turn")]) in
  delivered_to 1 run.2
    = [history_start_frame 0; entry_frame r1; entry_frame r2; history_end_frame 2]
  ∧ t_position run.1.2 = str_len (ex_journal +:+ ex_line3).
Proof. vm_compute. done. Qed.



(** ** The turn engine: two executions *)

(** C3 fails on the code: the ['line'] handler of the child's stdout does
    not look at [finished].  After a cancel has written the [message_end]
    of message [id-1] at cursor 7, a line the child had already produced is
    appended as a [content_block] of [id-1] at cursor 8. *)
Theorem content_block_after_message_end :
  let log := (run_events JSON_parse_ref ex_cfg late_line_trace (gateway_init new_session_fs)).2 in
  map record_summary (appends_to ex_sid log)
  = [ ("1", "message_start", "id-0"); ("2", "content_block", "id-0");
      ("3", "message_end", "id-0"); ("4", "session_meta", "");
      ("5", "session_meta", ""); ("5", "message_start", "id-1");
      ("6", "content_block", "id-1"); ("7", "message_end", "id-1");
      ("8", "session_meta", ""); ("9", "session_meta", "");
      ("8", "content_block", "id-1") ]
  ∧ messages_well_bracketed (appends_to ex_sid log) = false.
Proof. vm_compute. done. Qed.

(** [emitCodexSessionMetaUpdate] appends through a writer of its own.  A
    writer opened before it keeps its cursor, so the record it appends next
    repeats the cursor of the [session_meta] record: after a submit and the
    start of its turn the journal holds two records with cursor 5. *)
Example session_meta_cursor_repeated :
  let log := (run_events JSON_parse_ref ex_cfg (take 2 late_line_trace)
                         (gateway_init new_session_fs)).2 in
  map record_summary (appends_to ex_sid log)
  = [ ("1", "message_start", "id-0"); ("2", "content_block", "id-0");
      ("3", "message_end", "id-0"); ("4", "session_meta", "");
      ("5", "session_meta", ""); ("5", "message_start", "id-1") ]
  ∧ bool_decide (NoDup (map record_cursor (appends_to ex_sid log))) = false.
Proof. vm_compute. done. Qed.

Example bracketed_before_the_late_line :
  messages_well_bracketed
    (appends_to ex_sid
       (run_events JSON_parse_ref ex_cfg (take 4 late_line_trace)
                   (gateway_init new_session_fs)).2) = true.
Proof. vm_compute. reflexivity. Qed.

(** C7, as stated, fails: with a second turn waiting in the queue, the
    first cancel ends the running turn, the queued turn starts, and the
    second cancel (no submit in between) cancels that one too: it answers
    [cancelled: true, running: true] and the journal gains a second
    [message_end] with stop reason [cancelled]. *)
Lemma cancel_twice_with_queued_turn :
  let st0 := (run_events JSON_parse_ref ex_cfg two_turns_trace (gateway_init new_session_fs)).1 in
  let c1 := cancel JSON_parse_ref ex_cfg ex_sid false "t2" st0 in
  let mid := run_events JSON_parse_ref ex_cfg [EvStartNext ex_sid "t3" true] c1.1.2 in
  let c2 := cancel JSON_parse_ref ex_cfg ex_sid false "t4" mid.1 in
  c1.1.1 = cancel_response true false
  ∧ c2.1.1 = cancel_response true false
  ∧ count_cancelled (appends_to ex_sid (c1.2 ++ mid.2 ++ c2.2)) = 2%nat.
Proof. vm_compute. done. Qed.

(** ** The turn engine: the handlers on the skeleton *)

Lemma value_bind {A B : Type} (m : M A) (k : A → M B) (st : gateway) :
  value (m ≫= k) st = value (k (value m st)) (exec m st).
Proof.
  unfold value, exec. cbv [mbind M_bind].
  destruct (m st) as [[a st1] o1]. cbn. by destruct (k a st1) as [[b st2] o2].
Qed.

Lemma exec_bind {A B : Type} (m : M A) (k : A → M B) (st : gateway) :
  exec (m ≫= k) st = exec (k (value m st)) (exec m st).
Proof.
  unfold value, exec. cbv [mbind M_bind].
  destruct (m st) as [[a st1] o1]. cbn. by destruct (k a st1) as [[b st2] o2].
Qed.

Lemma logs_bind {A B : Type} (m : M A) (k : A → M B) (st : gateway) :
  logs (m ≫= k) st = logs m st ++ logs (k (value m st)) (exec m st).
Proof.
  unfold value, exec, logs. cbv [mbind M_bind].
  destruct (m st) as [[a st1] o1]. cbn. by destruct (k a st1) as [[b st2] o2].
Qed.

Lemma abs_log_app (l1 l2 : list obs) : abs_log (l1 ++ l2) = abs_log l1 ++ abs_log l2.
Proof. apply flat_map_app. Qed.

Lemma keeps_ret {A : Type} (a : A) : keeps (mret a).
Proof. done. Qed.

Lemma keeps_bind {A B : Type} (m : M A) (k : A → M B) :
  keeps m → (∀ a, keeps (k a)) → keeps (m ≫= k).
Proof.
  intros Hm Hk st. split.
  - rewrite exec_bind. etrans; [apply Hk|apply Hm].
  - rewrite logs_bind, abs_log_app.
    destruct (Hm st) as [_ ->]. by destruct (Hk (value m st) (exec m st)) as [_ ->].
Qed.

Lemma keeps_if {A : Type} (b : bool) (m1 m2 : M A) :
  keeps m1 → keeps m2 → keeps (if b then m1 else m2).
Proof. by destruct b. Qed.

Lemma keeps_get_state : keeps get_state.
Proof. done. Qed.

Lemma skel_alter_keep (g : run → run) (rid : nat) (runs : list run) :
  (∀ r, runs !! rid = Some r → skel_of (g r) = skel_of r) →
  skel_of <$> alter g rid runs = skel_of <$> runs.
Proof.
  intros H. apply list_eq. intros i. rewrite !list_lookup_fmap.
  destruct (decide (i = rid)) as [->|Hne].
  - rewrite list_lookup_alter_eq. destruct (runs !! rid) as [r|] eqn:E; [|done].
    cbn. f_equal. by apply H.
  - by rewrite list_lookup_alter_ne.
Qed.

Lemma keeps_update_run (rid : nat) (g : run → run) :
  (∀ r, skel_of (g r) = skel_of r) → keeps (update_run rid g).
Proof.
  intros H st. split; [|done].
  unfold exec, update_run, modify, proj. cbn.
  f_equal. apply skel_alter_keep. auto.
Qed.

#[local] Arguments js_slice_to : simpl never.
#[local] Arguments js_slice_from : simpl never.
#[local] Arguments js_trim : simpl never.
#[local] Arguments String_of_Z : simpl never.
#[local] Arguments JSON_stringify : simpl never.

Lemma run_with_run (rid : nat) (k : run → M unit) (st : gateway) :
  exec (with_run rid k) st = match g_runs st !! rid with Some r => exec (k r) st | None => st end
  ∧ logs (with_run rid k) st
    = match g_runs st !! rid with Some r => logs (k r) st | None => [] end.
Proof.
  unfold exec, logs, with_run. cbv [mbind M_bind get_state].
  destruct (g_runs st !! rid) as [r|]; [|done].
  by destruct (k r st) as [[[] st1] o1].
Qed.

Lemma keeps_with_run (rid : nat) (k : run → M unit) :
  (∀ r, keeps (k r)) → keeps (with_run rid k).
Proof.
  intros H st. destruct (run_with_run rid k st) as [-> ->].
  destruct (g_runs st !! rid) as [r|]; [apply H|done].
Qed.

Section Simulation.
Context (JSON_parse : string → option json) (cfg : config).

Lemma run_append (w : writer) (event : string) (data : json) (st : gateway) :
  value (append w event data) st
  = ({| w_sessionId := w_sessionId w; w_meta := w_meta w; w_cursor := w_cursor w + 1 |},
     w_cursor w + 1)
  ∧ exec (append w event data) st = set_fs (writer_append (g_fs st) w event data).1.1 st
  ∧ logs (append w event data) st
    = [ObsAppend (w_sessionId w) (journal_record (w_cursor w + 1) event data)].
Proof. done. Qed.

Lemma keeps_append (w : writer) (event : string) (data : json) :
  event ≠ "message_end" → keeps (append w event data).
Proof.
  intros Hne st. split; [done|].
  unfold logs, append, writer_append. cbn.
  apply String.eqb_neq in Hne. unfold record_event. cbn. by rewrite Hne.
Qed.

Lemma keeps_commit (w : writer) (updates : meta) : keeps (commit w updates).
Proof. done. Qed.

Lemma keeps_emit (sid : string) : keeps (emitCodexSessionMetaUpdate JSON_parse cfg sid).
Proof.
  unfold emitCodexSessionMetaUpdate.
  apply keeps_bind; [apply keeps_get_state|]. intros st.
  destruct (readSessionMeta _ _); [|apply keeps_ret].
  destruct (createEventWriter _ _ _) as [[f1 w]|]; [|apply keeps_ret].
  apply keeps_bind; [done|]. intros _.
  apply keeps_bind; [by apply keeps_append|]. intros [w1 c].
  apply keeps_bind; [apply keeps_commit|]. intros _. apply keeps_ret.
Qed.

Lemma keeps_append_block (rid : nat) (block : json) : keeps (append_block rid block).
Proof.
  intros st. unfold append_block. destruct (run_with_run rid
    (fun r => '(w, c) ← append (r_writer r) "content_block"
       (JObj [ ("messageId", JStr (r_assistantMessageId r));
               ("index", JNum (r_blockIndex r)); ("block", block) ]);
       update_run rid (fun r => set_blockIndex (r_blockIndex r + 1) (set_writer w c r))) st)
    as [-> ->].
  destruct (g_runs st !! rid) as [r|] eqn:Hr; [|done].
  rewrite exec_bind, logs_bind. split; [|done].
  unfold proj. cbn. f_equal. apply skel_alter_keep.
  intros r' Hr'. by simplify_eq.
Qed.

Lemma keeps_appendAssistantText (rid : nat) (text : string) :
  keeps (appendAssistantText rid text).
Proof. apply keeps_append_block. Qed.

Lemma skel_alter (g : run → run) (h : skel → skel) (rid : nat) (runs : list run) :
  (∀ r, skel_of (g r) = h (skel_of r)) →
  skel_of <$> alter g rid runs = alter h rid (skel_of <$> runs).
Proof. intros H. apply list_fmap_alter, Forall_forall. auto. Qed.

Lemma sim_finalizeRun (rid : nat) (stopReason : string) (code : option Z) (now : string)
    (st : gateway) :
  sim_at (finalizeRun JSON_parse cfg rid stopReason code now) st (a_finalize rid stopReason).
Proof.
  unfold sim_at, finalizeRun.
  match goal with |- context [with_run rid ?k] => destruct (run_with_run rid k st) as [-> ->] end.
  unfold a_finalize. cbn [proj e_runs]. rewrite list_lookup_fmap.
  destruct (g_runs st !! rid) as [r|] eqn:Hr; [|done].
  cbn [fmap option_fmap option_map skel_of k_finished].
  destruct (r_finished r) eqn:Hfin; [done|].
  rewrite !exec_bind, !logs_bind, !abs_log_app.
  set (st1 := exec (update_run rid set_finished) st).
  match goal with |- context [exec ?A st1] => set (blockA := A) end.
  assert (KA : keeps blockA).
  { subst blockA. repeat apply keeps_if; try apply keeps_ret; apply keeps_appendAssistantText. }
  set (st2 := exec blockA st1).
  match goal with |- context [exec ?B st2] => set (blockB := B) end.
  assert (KB : keeps blockB).
  { apply keeps_with_run. intros r1. apply keeps_if; [apply keeps_appendAssistantText|done]. }
  set (st3 := exec blockB st2).
  destruct (KA st1) as [HA ->]. destruct (KB st2) as [HB ->]. fold st2 in HA. fold st3 in HB.
  assert (H1 : proj st1 = {| e_active := activeCodexRuns st; e_procs := codexProcBySession st;
                             e_fins := codexFinalizeBySession st;
                             e_queues := codexQueueBySession st;
                             e_runs := alter finish rid (skel_of <$> g_runs st);
                             e_next_id := g_next_id st |}).
  { unfold proj, st1. cbn. f_equal. by apply skel_alter. }
  assert (H3 : proj st3 = proj st1) by congruence. rewrite H1 in H3.
  assert (∃ r2, g_runs st3 !! rid = Some r2 ∧ skel_of r2 = finish (skel_of r)) as (r2 & Hr2 & Hk).
  { apply (f_equal e_runs) in H3. cbn in H3. apply (f_equal (.!! rid)) in H3.
    rewrite list_lookup_fmap, list_lookup_alter_eq, list_lookup_fmap, Hr in H3.
    destruct (g_runs st3 !! rid) as [r2|]; [|done]. exists r2. split; [done|].
    cbn in H3. congruence. }
  match goal with |- context [with_run rid ?k] => destruct (run_with_run rid k st3) as [-> ->] end.
  rewrite Hr2. clearbody st3. clear HA HB KA KB H1.
  rewrite exec_bind, logs_bind.
  destruct (run_append (r_writer r2) "message_end"
              (JObj [("id", JStr (r_assistantMessageId r2)); ("stopReason", JStr stopReason)])
              st3) as (-> & -> & ->).
  cbv beta iota.
  destruct (cfg_usage cfg (effective_model cfg (r_sessionMeta r2)) (r_latestUsage r2))
    as [usageSummary contextInfo].
  rewrite !exec_bind, !logs_bind, !abs_log_app.
  change (exec (tell ?o) ?s) with s.
  match goal with |- context [exec (emitCodexSessionMetaUpdate _ _ ?s) ?X] =>
    destruct (keeps_emit s X) as [-> ->] end.
  unfold proj in H3. injection H3 as Ha Hp Hf Hq Hruns Hn.
  apply (f_equal k_sessionId) in Hk as Hks. apply (f_equal k_writerSession) in Hk as Hkw.
  cbn in Hks, Hkw. split.
  - unfold proj. cbn. rewrite Ha, Hp, Hf, Hq, Hn, Hks. f_equal.
    rewrite <- Hruns. apply skel_alter_keep. intros r' Hr'. by simplify_eq.
  - cbn. by rewrite Hkw.
Qed.

Lemma emit_fs (sid : string) (st : gateway) :
  ∃ f, exec (emitCodexSessionMetaUpdate JSON_parse cfg sid) st = set_fs f st.
Proof.
  unfold emitCodexSessionMetaUpdate. rewrite exec_bind.
  change (value get_state st) with st. change (exec get_state st) with st.
  destruct (readSessionMeta _ _); [|by exists (g_fs st); destruct st].
  destruct (createEventWriter _ _ _) as [[f1 w]|]; [|by exists (g_fs st); destruct st].
  rewrite !exec_bind. eexists. reflexivity.
Qed.

Lemma createEventWriter_ok (f : fs) (sid : string) (m : meta) :
  readSessionMeta f sid = Ok m →
  ∃ w, createEventWriter JSON_parse f sid = Ok (touch_jsonl sid f, w) ∧ w_sessionId w = sid.
Proof.
  unfold readSessionMeta, createEventWriter.
  destruct (getSessionPaths sid); [|done]. cbn.
  destruct (fs_meta f !! sid); [|done]. intros _. eexists. split; reflexivity.
Qed.

Lemma alter_snoc {A : Type} (g : A → A) (l : list A) (x : A) :
  alter g (length l) (l ++ [x]) = l ++ [g x].
Proof. induction l as [|y l IH]; [done|]. cbn. by f_equal. Qed.

Lemma sim_startNextCodexTurn (sid now : string) (bin_ok : bool) (st : gateway) :
  sim_at (startNextCodexTurn JSON_parse cfg sid now bin_ok) st
         (a_startNext sid (readable (g_fs st) sid) bin_ok).
Proof.
  unfold sim_at, startNextCodexTurn, a_startNext, readable.
  rewrite exec_bind, logs_bind.
  change (value get_state st) with st. change (exec get_state st) with st.
  change (logs get_state st) with (@nil obs). cbn [proj e_active e_queues app].
  destruct (bool_decide (sid ∈ activeCodexRuns st)); [done|].
  destruct (default [] (codexQueueBySession st !! sid)) as [|t queue] eqn:Hq; [done|].
  rewrite exec_bind, logs_bind.
  destruct (readSessionMeta (g_fs st) sid) as [m|msg] eqn:Hread.
  2:{ done. }
  destruct (createEventWriter_ok _ _ _ Hread) as (w & -> & Hw).
  rewrite !exec_bind, !logs_bind, !abs_log_app.
  match goal with |- context [exec (emitCodexSessionMetaUpdate _ _ sid) ?X] =>
    destruct (emit_fs sid X) as [fe He]; destruct (keeps_emit sid X) as [_ Hl];
    rewrite He, Hl; clear He Hl
  end.
  cbn [proj e_runs e_procs e_fins e_queues e_active e_next_id]. rewrite length_fmap.
  destruct bin_ok; cbn [negb].
  - rewrite !exec_bind, !logs_bind, !abs_log_app.
    match goal with |- context [value (append ?w ?e ?d) ?X] =>
      destruct (run_append w e d X) as (-> & -> & ->) end.
    cbv beta iota. rewrite !exec_bind, !logs_bind, !abs_log_app. split; [|done].
    unfold proj. cbn. f_equal. rewrite !alter_snoc, fmap_app, <- (length_fmap skel_of), alter_snoc.
    cbn. by rewrite Hw.
  - rewrite exec_bind, logs_bind, abs_log_app.
    match goal with |- context [exec (finalizeRun _ _ ?rid ?s ?c ?n) ?Z] =>
      destruct (sim_finalizeRun rid s c n Z) as [-> ->];
      set (e1 := proj Z)
    end.
    match goal with |- context [a_finalize _ _ ?e] =>
      assert (e1 = e) as <-
    end.
    { unfold e1, proj. cbn. f_equal. rewrite alter_snoc, fmap_app. unfold skel_of at 2. cbn. by rewrite Hw. }
    by destruct (a_finalize (length (g_runs st)) "error" e1) as [e2 o].
Qed.

Lemma keeps_kill (prid : nat) :
  keeps (with_run prid (fun r =>
           if r_killed r then mret tt
           else tell [ObsKill prid "SIGTERM"];; update_run prid set_killed)).
Proof.
  apply keeps_with_run. intros r. apply keeps_if; [apply keeps_ret|].
  apply keeps_bind; [done|]. intros _. by apply keeps_update_run.
Qed.

Lemma keeps_then_sim (m : M unit) (k : M unit) (st : gateway) (a : eng → eng * list aobs) :
  keeps m → sim_at k (exec m st) a → sim_at (m ;; k) st a.
Proof.
  intros Hm [Hk1 Hk2]. destruct (Hm st) as [Hp Hl]. unfold sim_at.
  rewrite exec_bind, logs_bind, abs_log_app, Hl, Hk1, Hk2, Hp. done.
Qed.

Ltac keeps_tac :=
  repeat first [ apply keeps_ret | apply keeps_emit | apply keeps_kill
               | apply keeps_append_block | by apply keeps_update_run
               | by apply keeps_append | apply keeps_commit | apply keeps_if
               | apply keeps_bind; [|intros ?] ].

Lemma keeps_on_stdout_line (rid : nat) (line : string) :
  keeps (on_stdout_line JSON_parse rid line).
Proof.
  apply keeps_with_run. intros r. apply keeps_if; [apply keeps_ret|].
  destruct (parse_entry JSON_parse line) as [entry|]; [|apply keeps_ret].
  cbv zeta.
  repeat first [ apply keeps_ret | apply keeps_append_block
               | by apply keeps_update_run | apply keeps_if
               | apply keeps_bind; [|intros _] ].
Qed.

Lemma keeps_on_stderr (rid : nat) (text : string) : keeps (on_stderr rid text).
Proof.
  apply keeps_with_run. intros r. apply keeps_if; [apply keeps_ret|].
  by apply keeps_update_run.
Qed.

Lemma sim_on_close (rid : nat) (code : option Z) (now : string) (st : gateway) :
  sim_at (on_close JSON_parse cfg rid code now) st
         (a_close rid (if bool_decide (code = Some 0) then "end_turn" else "error")).
Proof.
  unfold sim_at, on_close, a_close.
  match goal with |- context [with_run rid ?k] => destruct (run_with_run rid k st) as [-> ->] end.
  cbn [proj e_runs]. rewrite list_lookup_fmap.
  destruct (g_runs st !! rid) as [r|] eqn:Hr; [|done].
  cbn [fmap option_fmap option_map skel_of k_spawned].
  destruct (r_spawned r); [|done]. apply sim_finalizeRun.
Qed.

Lemma sim_on_error (rid : nat) (message now : string) (st : gateway) :
  sim_at (on_error JSON_parse cfg rid message now) st (a_close rid "error").
Proof.
  unfold sim_at, on_error, a_close.
  match goal with |- context [with_run rid ?k] => destruct (run_with_run rid k st) as [-> ->] end.
  cbn [proj e_runs]. rewrite list_lookup_fmap.
  destruct (g_runs st !! rid) as [r|] eqn:Hr; [|done].
  cbn [fmap option_fmap option_map skel_of k_spawned].
  destruct (r_spawned r); [|done]. cbn [negb].
  apply keeps_then_sim; [by apply keeps_update_run|apply sim_finalizeRun].
Qed.

Lemma sim_then_keeps {A B : Type} (m : M A) (k : A → M B) (st : gateway)
    (a : eng → eng * list aobs) :
  sim_at m st a → (∀ x, keeps (k x)) → sim_at (m ≫= k) st a.
Proof.
  intros [Hm1 Hm2] Hk. destruct (Hk (value m st) (exec m st)) as [Hp Hl]. unfold sim_at.
  rewrite exec_bind, logs_bind, abs_log_app, Hl, Hp, Hm1, Hm2, app_nil_r. done.
Qed.

Lemma keeps_sim {A : Type} (m : M A) (st : gateway) : keeps m → sim_at m st (fun e => (e, [])).
Proof. intros H. apply H. Qed.

Lemma sim_cancel (sid : string) (clearQueue : bool) (now : string) (st : gateway) :
  sim_at (cancel JSON_parse cfg sid clearQueue now) st (fun e => (a_cancel sid clearQueue e).1)
  ∧ value (cancel JSON_parse cfg sid clearQueue now) st
    = cancel_response (a_cancel sid clearQueue (proj st)).2 clearQueue.
Proof.
  unfold sim_at, cancel, a_cancel.
  rewrite exec_bind, logs_bind, value_bind, abs_log_app.
  set (m0 := if clearQueue then modify _ else mret tt).
  set (e0 := if clearQueue then _ else proj st).
  assert (proj (exec m0 st) = e0 ∧ logs m0 st = []) as [H0 ->].
  { unfold m0, e0. by destruct clearQueue. }
  set (st0 := exec m0 st) in *. clearbody st0 e0. clear m0. subst e0.
  rewrite exec_bind, logs_bind, value_bind.
  change (value get_state st0) with st0. change (exec get_state st0) with st0.
  change (logs get_state st0) with (@nil obs).
  cbn [proj e_procs e_fins app].
  destruct (codexProcBySession st0 !! sid) as [prid|] eqn:Hp;
    destruct (codexFinalizeBySession st0 !! sid) as [rid|] eqn:Hf.
  all: (split;
    [|rewrite !value_bind;
      first [ done
            | match goal with |- context [a_finalize ?r ?s ?e] => by destruct (a_finalize r s e) end ]]).
  1,3: match goal with |- proj (exec ?m _) = _ ∧ _ =>
         assert (Hk : sim_at m st0 (a_finalize rid "cancelled"))
           by (apply sim_then_keeps; [apply sim_finalizeRun|intros ?; keeps_tac]);
         destruct Hk as [-> ->]; by destruct (a_finalize rid "cancelled" (proj st0))
       end.
  all: match goal with |- proj (exec ?m _) = _ ∧ _ =>
         assert (Hk : keeps m) by keeps_tac; by destruct (Hk st0) as [-> ->]
       end.
Qed.


Lemma fs_only_append (w : writer) (event : string) (data : json) (st : gateway) :
  ∃ f, exec (append w event data) st = set_fs f st.
Proof. by eexists. Qed.

Lemma fs_only_commit (w : writer) (updates : meta) (st : gateway) :
  ∃ f, exec (commit w updates) st = set_fs f st.
Proof. by eexists. Qed.

Lemma value_append (w : writer) (event : string) (data : json) (st : gateway) :
  value (append w event data) st
  = ({| w_sessionId := w_sessionId w; w_meta := w_meta w; w_cursor := w_cursor w + 1 |},
     w_cursor w + 1).
Proof. done. Qed.

Lemma value_commit (w : writer) (updates : meta) (st : gateway) :
  value (commit w updates) st
  = {| w_sessionId := w_sessionId w;
       w_meta := assign (<["lastCursor" := JNum (w_cursor w)]> (w_meta w)) updates;
       w_cursor := w_cursor w |}.
Proof. done. Qed.

Lemma logs_append (w : writer) (event : string) (data : json) (st : gateway) :
  logs (append w event data) st
  = [ObsAppend (w_sessionId w) (journal_record (w_cursor w + 1) event data)].
Proof. done. Qed.

Lemma logs_commit (w : writer) (updates : meta) (st : gateway) :
  logs (commit w updates) st = [].
Proof. done. Qed.

Lemma value_newId (st : gateway) :
  value newId st = "id-" +:+ String_of_Z (Z.of_nat (g_next_id st)).
Proof. done. Qed.

Lemma exec_newId (st : gateway) : exec newId st = set_next_id (S (g_next_id st)) st.
Proof. done. Qed.

Lemma logs_newId (st : gateway) : logs newId st = [].
Proof. done. Qed.

Lemma exec_modify (g : gateway → gateway) (st : gateway) : exec (modify g) st = g st.
Proof. done. Qed.

Lemma logs_modify (g : gateway → gateway) (st : gateway) : logs (modify g) st = [].
Proof. done. Qed.

Lemma exec_tell (o : list obs) (st : gateway) : exec (tell o) st = st.
Proof. done. Qed.

Lemma logs_tell (o : list obs) (st : gateway) : logs (tell o) st = o.
Proof. done. Qed.

Lemma abs_log_emit (sid : string) (st : gateway) :
  abs_log (logs (emitCodexSessionMetaUpdate JSON_parse cfg sid) st) = [].
Proof. apply keeps_emit. Qed.

Lemma slash_command_text_fs (sid : string) (m : meta) (trimmed : string) (st : gateway) :
  (∃ f, exec (slash_command_text cfg sid m trimmed) st = set_fs f st)
  ∧ logs (slash_command_text cfg sid m trimmed) st = [].
Proof.
  unfold slash_command_text.
  destruct (String.eqb trimmed "/models"); [by split; [exists (g_fs st); destruct st|]|].
  cbv zeta. destruct (String.eqb _ ""); [by split; [exists (g_fs st); destruct st|]|].
  rewrite exec_bind, logs_bind. split; [|done].
  change (exec (mret ?x) ?s) with s. unfold exec, modify. cbn.
  destruct (writeSessionMeta _ _ _) as [f|]; [by exists f|by exists (g_fs st); destruct st].
Qed.

Ltac run_fs :=
  repeat match goal with
         | |- context [exec (append ?w ?e ?d) ?X] =>
             let f := fresh "f" in destruct (fs_only_append w e d X) as [f ->]
         | |- context [exec (commit ?w ?u) ?X] =>
             let f := fresh "f" in destruct (fs_only_commit w u X) as [f ->]
         | |- context [exec (emitCodexSessionMetaUpdate _ _ ?s) ?X] =>
             let f := fresh "f" in
             rewrite (abs_log_emit s X); destruct (emit_fs s X) as [f ->]
         | |- context [exec (slash_command_text _ ?s ?m ?t) ?X] =>
             let f := fresh "f" in let H := fresh in
             destruct (slash_command_text_fs s m t X) as [[f ->] ->]
         end.

Ltac run_step :=
  rewrite exec_bind, logs_bind, ?abs_log_app;
  rewrite ?value_newId, ?exec_newId, ?logs_newId, ?value_append, ?logs_append,
          ?value_commit, ?logs_commit, ?exec_modify, ?logs_modify, ?exec_tell, ?logs_tell;
  run_fs;
  cbv beta iota zeta;
  change (set_fs ?f (set_fs ?f' ?s)) with (set_fs f s);
  cbn [w_sessionId w_meta w_cursor fst snd g_next_id set_fs set_next_id set_queues
       codexQueueBySession].

Lemma sim_submit (sid content : string) (imagePath : option string) (now : string)
    (st : gateway) :
  sim_at (submit JSON_parse cfg sid content imagePath now) st
         (a_submit sid content imagePath (readable (g_fs st) sid)).
Proof.
  unfold sim_at, submit, a_submit, readable, is_slash_command.
  destruct (String.eqb content ""); [done|].
  rewrite exec_bind, logs_bind.
  change (value get_state st) with st. change (exec get_state st) with st.
  change (logs get_state st) with (@nil obs). cbn [orb negb app].
  destruct (readSessionMeta (g_fs st) sid) as [m|msg] eqn:Hread; [|done].
  destruct (createEventWriter_ok _ _ _ Hread) as (w & Hw & Hws). cbn [negb].
  rewrite exec_bind, logs_bind, Hw.
  do 6 run_step.
  destruct (String.eqb (js_trim content) "/models" || starts_with "/model" (js_trim content)).
  - repeat run_step. split.
    + unfold proj. cbn. reflexivity.
    + cbn. by rewrite Hws.
  - repeat run_step. split.
    + unfold proj. cbn. rewrite lookup_insert_eq, insert_insert_eq. reflexivity.
    + cbn. by rewrite Hws.
Qed.

Lemma sim_step (ev : event) (st : gateway) :
  sim_at (step JSON_parse cfg ev) st (a_step st ev).
Proof.
  destruct ev; cbn [step a_step].
  - apply sim_then_keeps; [apply sim_submit|intros ?; apply keeps_ret].
  - apply sim_then_keeps; [apply sim_cancel|intros ?; apply keeps_ret].
  - apply sim_then_keeps; [apply sim_startNextCodexTurn|intros ?; apply keeps_ret].
  - apply keeps_sim. apply keeps_bind; [apply keeps_on_stdout_line|intros ?; apply keeps_ret].
  - apply keeps_sim. apply keeps_bind; [apply keeps_on_stderr|intros ?; apply keeps_ret].
  - apply sim_then_keeps; [apply sim_on_close|intros ?; apply keeps_ret].
  - apply sim_then_keeps; [apply sim_on_error|intros ?; apply keeps_ret].
Qed.

Lemma run_events_cons (ev : event) (evs : list event) (st : gateway) :
  run_events JSON_parse cfg (ev :: evs) st
  = let r := run_events JSON_parse cfg evs (exec (step JSON_parse cfg ev) st) in
    (r.1, logs (step JSON_parse cfg ev) st ++ r.2).
Proof.
  cbn [run_events]. unfold exec, logs.
  destruct (step JSON_parse cfg ev st) as [[x st1] o1]. cbn.
  by destruct (run_events JSON_parse cfg evs st1).
Qed.

End Simulation.

(** ** The turn engine: the invariant of the skeleton *)

Lemma eng_inv_init (f : fs) : eng_inv (proj (gateway_init f)).
Proof.
  split; cbn.
  - intros rid sid (k & Hk & _). done.
  - intros sid rid H. by rewrite lookup_empty in H.
  - intros sid rid H. by rewrite lookup_empty in H.
  - intros rid k H. done.
Qed.

Lemma eng_inv_queues (e : eng) (q : gmap string (list turn)) (n : nat) :
  eng_inv e →
  eng_inv {| e_active := e_active e; e_procs := e_procs e; e_fins := e_fins e;
             e_queues := q; e_runs := e_runs e; e_next_id := n |}.
Proof. intros [H1 H2 H3 H4]. by split. Qed.

Lemma eng_inv_finalize (rid : nat) (stopReason : string) (e : eng) :
  eng_inv e → eng_inv (a_finalize rid stopReason e).1.
Proof.
  intros He. unfold a_finalize.
  destruct (e_runs e !! rid) as [k|] eqn:Hk; [|done].
  destruct (k_finished k) eqn:Hfin; [done|].
  destruct He as [H1 H2 H3 H4].
  assert (Hrun : unfinished e rid (k_sessionId k)) by by exists k.
  destruct (H1 _ _ Hrun) as [Hact Hf]. cbn [fst].
  split; unfold unfinished in *; cbn [e_active e_procs e_fins e_runs e_queues fst].
  - intros rid' sid' (k' & Hk' & Hs & Hfin').
    destruct (decide (rid' = rid)) as [->|Hne].
    { rewrite list_lookup_alter_eq, Hk in Hk'. by simplify_eq/=. }
    rewrite list_lookup_alter_ne in Hk' by done.
    destruct (H1 rid' sid') as [Ha' Hf']; [by exists k'|].
    assert (sid' ≠ k_sessionId k) by (intros ->; congruence).
    split; [|by rewrite lookup_delete_ne].
    apply elem_of_difference. split; [done|]. by intros ?%elem_of_singleton.
  - intros sid' rid' Hf'.
    destruct (decide (k_sessionId k = sid')) as [<-|Hne];
      [by rewrite lookup_delete_eq in Hf'|].
    rewrite lookup_delete_ne in Hf' by done.
    destruct (H2 _ _ Hf') as (k' & Hk' & Hs & Hfin').
    assert (rid' ≠ rid) by (intros ->; congruence).
    exists k'. by rewrite list_lookup_alter_ne.
  - intros sid' rid' Hp.
    destruct (decide (k_sessionId k = sid')) as [<-|Hne];
      [by rewrite lookup_delete_eq in Hp|].
    rewrite lookup_delete_ne in Hp |- * by done. eauto.
  - intros rid' k' Hk'.
    destruct (decide (rid' = rid)) as [->|Hne].
    + rewrite list_lookup_alter_eq, Hk in Hk'. simplify_eq/=. eauto.
    + rewrite list_lookup_alter_ne in Hk' by done. eauto.
Qed.

Lemma eng_inv_close (rid : nat) (stopReason : string) (e : eng) :
  eng_inv e → eng_inv (a_close rid stopReason e).1.
Proof.
  intros He. unfold a_close. destruct (e_runs e !! rid) as [k|]; [|done].
  destruct (k_spawned k); [by apply eng_inv_finalize|done].
Qed.

Lemma eng_inv_cancel (sid : string) (clearQueue : bool) (e : eng) :
  eng_inv e → eng_inv (a_cancel sid clearQueue e).1.1.
Proof.
  intros He. unfold a_cancel.
  set (e0 := if clearQueue then _ else e).
  assert (He0 : eng_inv e0) by (unfold e0; destruct clearQueue; [by apply eng_inv_queues|done]).
  clearbody e0.
  destruct (e_procs e0 !! sid), (e_fins e0 !! sid) as [rid|]; try done.
  all: pose proof (eng_inv_finalize rid "cancelled" e0 He0);
       by destruct (a_finalize rid "cancelled" e0).
Qed.

Lemma eng_inv_submit (sid content : string) (imagePath : option string) (readable : bool)
    (e : eng) :
  eng_inv e → eng_inv (a_submit sid content imagePath readable e).1.
Proof.
  intros He. unfold a_submit.
  destruct (_ || _); [done|]. destruct (is_slash_command content); by apply eng_inv_queues.
Qed.

Lemma eng_inv_spawn (sid : string) (rid : nat) (e : eng) :
  eng_inv e → is_Some (e_fins e !! sid) →
  eng_inv {| e_active := e_active e; e_procs := <[sid := rid]> (e_procs e);
             e_fins := e_fins e; e_queues := e_queues e;
             e_runs := alter spawned rid (e_runs e); e_next_id := e_next_id e |}.
Proof.
  intros [H1 H2 H3 H4] Hsid.
  split; unfold unfinished in *; cbn [e_active e_procs e_fins e_runs e_queues fst].
  - intros rid' sid' (k' & Hk' & Hs & Hfin'). apply H1.
    destruct (decide (rid' = rid)) as [->|Hne].
    + rewrite list_lookup_alter_eq in Hk'.
      destruct (e_runs e !! rid) as [k1|] eqn:Hk1; [|done].
      simplify_eq/=. by exists k1.
    + rewrite list_lookup_alter_ne in Hk' by done. by exists k'.
  - intros sid' rid' Hf'. destruct (H2 _ _ Hf') as (k' & Hk' & Hs & Hfin').
    destruct (decide (rid' = rid)) as [->|Hne].
    + exists (spawned k'). by rewrite list_lookup_alter_eq, Hk'.
    + exists k'. by rewrite list_lookup_alter_ne.
  - intros sid' rid' Hp.
    destruct (decide (sid = sid')) as [<-|Hne]; [done|].
    rewrite lookup_insert_ne in Hp by done. eauto.
  - intros rid' k' Hk'.
    destruct (decide (rid' = rid)) as [->|Hne].
    + rewrite list_lookup_alter_eq in Hk'.
      destruct (e_runs e !! rid) as [k1|] eqn:Hk1; [|done].
      simplify_eq/=. eauto.
    + rewrite list_lookup_alter_ne in Hk' by done. eauto.
Qed.

Lemma eng_inv_startNext (sid : string) (readable bin_ok : bool) (e : eng) :
  eng_inv e → eng_inv (a_startNext sid readable bin_ok e).1.
Proof.
  intros He. unfold a_startNext.
  destruct (bool_decide (sid ∈ e_active e)) eqn:Hact; [done|].
  apply bool_decide_eq_false in Hact.
  destruct (default [] (e_queues e !! sid)) as [|t queue]; [done|].
  destruct readable; [|by apply eng_inv_queues].
  set (k0 := {| k_sessionId := sid; k_turn := t; k_writerSession := sid;
                k_finished := false; k_spawned := false |}).
  set (e1 := {| e_active := {[sid]} ∪ e_active e; e_procs := e_procs e;
                e_fins := <[sid := length (e_runs e)]> (e_fins e);
                e_queues := <[sid := queue]> (e_queues e);
                e_runs := e_runs e ++ [k0]; e_next_id := S (e_next_id e) |}).
  assert (He1 : eng_inv e1).
  { destruct He as [H1 H2 H3 H4]. unfold e1. split; unfold unfinished in *; cbn [e_active e_procs e_fins e_runs e_queues fst].
    - intros rid' sid' (k' & Hk' & Hs & Hfin').
      destruct (decide (rid' = length (e_runs e))) as [->|Hne].
      + rewrite lookup_app_r, Nat.sub_diag in Hk' by done. simplify_eq/=.
        split; [|by rewrite lookup_insert_eq].
        apply elem_of_union. left. by apply elem_of_singleton.
      + assert (rid' < length (e_runs e))%nat.
        { apply lookup_lt_Some in Hk'. rewrite length_app in Hk'. cbn in Hk'. lia. }
        rewrite lookup_app_l in Hk' by done.
        destruct (H1 rid' sid') as [Ha' Hf']; [by exists k'|].
        assert (sid' ≠ sid) by (intros ->; done).
        split; [|by rewrite lookup_insert_ne].
        apply elem_of_union. by right.
    - intros sid' rid' Hf'.
      destruct (decide (sid = sid')) as [<-|Hne].
      + rewrite lookup_insert_eq in Hf'. simplify_eq. exists k0.
        by rewrite lookup_app_r, Nat.sub_diag.
      + rewrite lookup_insert_ne in Hf' by done.
        destruct (H2 _ _ Hf') as (k' & Hk' & Hs & Hfin').
        exists k'. split; [|done]. rewrite lookup_app_l; [done|]. by eapply lookup_lt_Some.
    - intros sid' rid' Hp.
      destruct (decide (sid = sid')) as [<-|Hne]; [by rewrite lookup_insert_eq|].
      rewrite lookup_insert_ne by done. eauto.
    - intros rid' k' Hk'.
      apply lookup_app_Some in Hk' as [Hk'|[_ Hk']]; [eauto|].
      apply list_lookup_singleton_Some in Hk' as [_ <-]. done. }
  destruct bin_ok.
  - apply (eng_inv_spawn sid (length (e_runs e)) e1 He1). unfold e1. cbn.
    by rewrite lookup_insert_eq.
  - pose proof (eng_inv_finalize (length (e_runs e)) "error" e1 He1).
    by destruct (a_finalize (length (e_runs e)) "error" e1).
Qed.

Lemma eng_inv_step (st : gateway) (ev : event) (e : eng) :
  eng_inv e → eng_inv (a_step st ev e).1.
Proof.
  intros He. destruct ev; cbn [a_step].
  - by apply eng_inv_submit.
  - by apply eng_inv_cancel.
  - by apply eng_inv_startNext.
  - done.
  - done.
  - by apply eng_inv_close.
  - by apply eng_inv_close.
Qed.

Section Reachable.

Context (JSON_parse : string → option json) (cfg : config).

Lemma eng_inv_run_events (evs : list event) (st : gateway) :
  eng_inv (proj st) → eng_inv (proj (run_events JSON_parse cfg evs st).1).
Proof.
  revert st. induction evs as [|ev evs IH]; intros st Hst; [done|].
  rewrite run_events_cons. cbn. apply IH.
  destruct (sim_step JSON_parse cfg ev st) as [-> _]. by apply eng_inv_step.
Qed.

End Reachable.

(** ** The turn engine: one turn at a time, in the order of the queue *)

Lemma started_turns_abs (sid : string) (log : list obs) :
  started_turns sid log = a_started sid (abs_log log).
Proof.
  induction log as [|o log IH]; [done|].
  unfold started_turns, a_started, abs_log in *. cbn [flat_map]. rewrite omap_app, <- IH.
  destruct o as [s r|s t|s rid t|rid args|rid sig|s]; cbn; try done.
  - by destruct (String.eqb (record_event r) "message_end").
  - by destruct (String.eqb s sid).
Qed.

Lemma enqueued_turns_abs (sid : string) (log : list obs) :
  enqueued_turns sid log = a_enqueued sid (abs_log log).
Proof.
  induction log as [|o log IH]; [done|].
  unfold enqueued_turns, a_enqueued, abs_log in *. cbn [flat_map]. rewrite omap_app, <- IH.
  destruct o as [s r|s t|s rid t|rid args|rid sig|s]; cbn; try done.
  - by destruct (String.eqb (record_event r) "message_end").
  - by destruct (String.eqb s sid).
Qed.

Lemma a_started_app (sid : string) (l1 l2 : list aobs) :
  a_started sid (l1 ++ l2) = a_started sid l1 ++ a_started sid l2.
Proof. apply omap_app. Qed.

Lemma a_enqueued_app (sid : string) (l1 l2 : list aobs) :
  a_enqueued sid (l1 ++ l2) = a_enqueued sid l1 ++ a_enqueued sid l2.
Proof. apply omap_app. Qed.

Lemma a_finalize_queues (rid : nat) (stopReason : string) (e : eng) (sid : string) :
  e_queues (a_finalize rid stopReason e).1 = e_queues e
  ∧ a_started sid (a_finalize rid stopReason e).2 = []
  ∧ a_enqueued sid (a_finalize rid stopReason e).2 = [].
Proof.
  unfold a_finalize. destruct (e_runs e !! rid) as [k|]; [|done].
  by destruct (k_finished k).
Qed.

Lemma a_step_fifo (sid : string) (st : gateway) (ev : event) (e : eng) :
  (a_started sid (a_step st ev e).2 ++ default [] (e_queues (a_step st ev e).1 !! sid))
  `sublist_of` (default [] (e_queues e !! sid) ++ a_enqueued sid (a_step st ev e).2).
Proof.
  set (q := default [] (e_queues e !! sid)).
  assert (Hfin : ∀ rid stopReason e0,
            default [] (e_queues e0 !! sid) `sublist_of` q →
            (a_started sid (a_finalize rid stopReason e0).2
             ++ default [] (e_queues (a_finalize rid stopReason e0).1 !! sid))
            `sublist_of` (q ++ a_enqueued sid (a_finalize rid stopReason e0).2)).
  { intros rid stopReason e0 H0.
    destruct (a_finalize_queues rid stopReason e0 sid) as (-> & -> & ->).
    by rewrite app_nil_r. }
  destruct ev as [s content imagePath now|s clearQueue now|s now bin_ok|rid line|rid text
                 |rid code now|rid message now]; cbn [a_step].
  - unfold a_submit. destruct (_ || _); [by rewrite app_nil_r|].
    destruct (is_slash_command content); cbn.
    + rewrite !app_nil_r. destruct (decide (s = sid)) as [->|Hne].
      * by rewrite lookup_insert_eq.
      * by rewrite lookup_insert_ne.
    + destruct (String.eqb_spec s sid) as [->|Hne].
      * by rewrite lookup_insert_eq.
      * rewrite lookup_insert_ne, !app_nil_r by done. done.
  - unfold a_cancel.
    set (e0 := if clearQueue then _ else e).
    assert (H0 : default [] (e_queues e0 !! sid) `sublist_of` q).
    { unfold e0. destruct clearQueue; [|done]. cbn.
      destruct (decide (s = sid)) as [->|Hne].
      - rewrite lookup_insert_eq. apply sublist_nil_l.
      - by rewrite lookup_insert_ne. }
    clearbody e0.
    destruct (e_procs e0 !! s), (e_fins e0 !! s) as [rid|]; cbn [fst snd].
    1,3: specialize (Hfin rid "cancelled" e0 H0);
         by destruct (a_finalize rid "cancelled" e0).
    all: by rewrite app_nil_r.
  - unfold a_startNext.
    destruct (bool_decide (s ∈ e_active e)); [by rewrite app_nil_r|].
    destruct (default [] (e_queues e !! s)) as [|t queue] eqn:Hq; [by rewrite app_nil_r|].
    destruct readable.
    + set (e1 := {| e_active := {[s]} ∪ e_active e; e_procs := e_procs e;
                    e_fins := <[s := length (e_runs e)]> (e_fins e);
                    e_queues := <[s := queue]> (e_queues e);
                    e_runs := e_runs e ++ [_]; e_next_id := S (e_next_id e) |}).
      assert (H1 : (a_started sid [AStart s (length (e_runs e)) t]
                    ++ default [] (e_queues e1 !! sid)) `sublist_of` q).
      { unfold e1. cbn. destruct (String.eqb_spec s sid) as [->|Hne].
        - rewrite lookup_insert_eq. cbn. unfold q. by rewrite Hq.
        - by rewrite lookup_insert_ne. }
      clearbody e1. destruct bin_ok; cbn [fst snd]; [by rewrite app_nil_r|].
      destruct (a_finalize_queues (length (e_runs e)) "error" e1 sid) as (Hq1 & Hs1 & He1).
      destruct (a_finalize (length (e_runs e)) "error" e1) as [e2 o]. cbn [fst snd] in *.
      change (AStart s (length (e_runs e)) t :: o)
        with ([AStart s (length (e_runs e)) t] ++ o).
      rewrite a_started_app, a_enqueued_app, Hs1, He1, Hq1, !app_nil_r. done.
    + cbn. rewrite app_nil_r. destruct (decide (s = sid)) as [->|Hne].
      * rewrite lookup_insert_eq. unfold q. rewrite Hq. by apply sublist_cons.
      * by rewrite lookup_insert_ne.
  - by rewrite app_nil_r.
  - by rewrite app_nil_r.
  - unfold a_close. destruct (e_runs e !! rid) as [k|]; [|by rewrite app_nil_r].
    destruct (k_spawned k); [by apply Hfin|by rewrite app_nil_r].
  - unfold a_close. destruct (e_runs e !! rid) as [k|]; [|by rewrite app_nil_r].
    destruct (k_spawned k); [by apply Hfin|by rewrite app_nil_r].
Qed.

Lemma fifo_step (sid : string) (st : gateway) (ev : event) (e : eng) (log : list aobs) :
  fifo sid e log → fifo sid (a_step st ev e).1 (log ++ (a_step st ev e).2).
Proof.
  unfold fifo. intros H. rewrite a_started_app, a_enqueued_app, <- app_assoc. etrans.
  - apply sublist_app; [reflexivity|]. apply (a_step_fifo sid st ev e).
  - rewrite app_assoc. by apply sublist_app.
Qed.

Section Fifo.

Context (JSON_parse : string → option json) (cfg : config).

Lemma fifo_run_events (sid : string) (evs : list event) (st : gateway) (log : list aobs) :
  fifo sid (proj st) log →
  fifo sid (proj (run_events JSON_parse cfg evs st).1)
       (log ++ abs_log (run_events JSON_parse cfg evs st).2).
Proof.
  revert st log. induction evs as [|ev evs IH]; intros st log H.
  - cbn. by rewrite app_nil_r.
  - rewrite run_events_cons. cbn [fst snd]. rewrite abs_log_app, app_assoc.
    apply IH. destruct (sim_step JSON_parse cfg ev st) as [-> ->]. by apply fifo_step.
Qed.

Lemma running_unfinished (st : gateway) (rid : nat) (sid : string) :
  running st rid sid → unfinished (proj st) rid sid.
Proof.
  intros (r & Hr & Hs & Hfin). exists (skel_of r). cbn.
  by rewrite list_lookup_fmap, Hr.
Qed.

End Fifo.

(** The bookkeeping of the engine in every state it reaches: the
    finalizer registered for a session is that of a run of this session
    that is not finalized, and the session is then in the active set; a
    session with a child process has a finalizer; and every run appends
    through a writer of its own session's journal. *)
Theorem reachable_state_bookkeeping (JSON_parse : string → option json) (cfg : config)
    (f0 : fs) (evs : list event) :
  let st := (run_events JSON_parse cfg evs (gateway_init f0)).1 in
  (∀ sid rid, codexFinalizeBySession st !! sid = Some rid →
     running st rid sid ∧ sid ∈ activeCodexRuns st)
  ∧ (∀ sid rid, codexProcBySession st !! sid = Some rid →
       is_Some (codexFinalizeBySession st !! sid))
  ∧ (∀ rid r, g_runs st !! rid = Some r → w_sessionId (r_writer r) = r_sessionId r).
Proof.
  intros st.
  assert (Hinv : eng_inv (proj st)) by apply eng_inv_run_events, eng_inv_init.
  split; [|split].
  - intros sid rid Hf. split; [|by apply (inv_running _ Hinv rid), (inv_fins _ Hinv)].
    destruct (inv_fins _ Hinv _ _ Hf) as (k & Hk & Hs & Hfin). cbn in Hk.
    rewrite list_lookup_fmap in Hk. destruct (g_runs st !! rid) as [r|] eqn:Hr; [|done].
    exists r. by simplify_eq/=.
  - intros sid rid Hp. by apply (inv_procs _ Hinv sid rid).
  - intros rid r Hr. apply (inv_writer _ Hinv rid (skel_of r)). cbn.
    by rewrite list_lookup_fmap, Hr.
Qed.

Example turns_started_in_order :
  let r := run_events JSON_parse_ref ex_cfg turns_in_order_trace (gateway_init new_session_fs) in
  let r4 := run_events JSON_parse_ref ex_cfg (take 4 turns_in_order_trace)
                       (gateway_init new_session_fs) in
  map turn_content (started_turns ex_sid r4.2) = ["first"]
  ∧ map turn_content (queue_of r4.1 ex_sid) = ["second"]
  ∧ map turn_content (enqueued_turns ex_sid r.2) = ["first"; "second"]
  ∧ map turn_content (started_turns ex_sid r.2) = ["first"; "second"]
  ∧ queue_of r.1 ex_sid = [].
Proof. vm_compute. done. Qed.

(** ** The turn engine: cancelling twice *)

Lemma a_cancelled_app (sid : string) (l1 l2 : list aobs) :
  a_cancelled sid (l1 ++ l2) = (a_cancelled sid l1 + a_cancelled sid l2)%nat.
Proof. unfold a_cancelled. by rewrite filter_app, length_app. Qed.

Lemma a_cancelled_cons (sid : string) (o : aobs) (l : list aobs) :
  a_cancelled sid (o :: l)
  = ((if is_cancelled_aend sid o then 1 else 0) + a_cancelled sid l)%nat.
Proof.
  unfold a_cancelled. rewrite filter_cons.
  destruct (is_cancelled_aend sid o); by case_decide.
Qed.

Lemma count_cancelled_abs (sid : string) (log : list obs) :
  count_cancelled (appends_to sid log) = a_cancelled sid (abs_log log).
Proof.
  induction log as [|o log IH]; [done|].
  unfold abs_log in *. cbn [flat_map]. rewrite a_cancelled_app, <- IH.
  unfold count_cancelled, appends_to, a_cancelled.
  destruct o as [s r|s t|s rid t|rid args|rid sig|s]; try done.
  cbn -[record_event record_stopReason]. unfold is_cancelled_end.
  destruct (String.eqb s sid) eqn:Hs, (String.eqb (record_event r) "message_end") eqn:He,
           (String.eqb (record_stopReason r) "cancelled") eqn:Hc.
  all: rewrite ?filter_cons, ?filter_nil; cbn [is_cancelled_aend].
  all: rewrite ?Hs, ?He, ?Hc; cbn [andb]; repeat case_decide; done.
Qed.

Lemma a_finalize_idle (sid : string) (rid : nat) (stopReason : string) (e : eng) :
  idle sid e → idle sid (a_finalize rid stopReason e).1.
Proof.
  intros (Hp & Hf & Hq). unfold a_finalize.
  destruct (e_runs e !! rid) as [k|]; [|done]. destruct (k_finished k); [done|].
  repeat split; cbn; [| |done].
  - destruct (decide (k_sessionId k = sid)) as [->|Hne];
      [apply lookup_delete_eq|by rewrite lookup_delete_ne].
  - destruct (decide (k_sessionId k = sid)) as [->|Hne];
      [apply lookup_delete_eq|by rewrite lookup_delete_ne].
Qed.

Lemma a_finalize_cancelled_le (sid : string) (rid : nat) (stopReason : string) (e : eng) :
  (a_cancelled sid (a_finalize rid stopReason e).2 ≤ 1)%nat.
Proof.
  unfold a_finalize. destruct (e_runs e !! rid) as [k|]; [|cbn; lia].
  destruct (k_finished k); [cbn; lia|]. unfold a_cancelled. cbn [snd].
  rewrite filter_cons, filter_nil. case_decide; cbn; lia.
Qed.

Lemma a_finalize_not_cancelled (sid : string) (rid : nat) (stopReason : string) (e : eng) :
  stopReason ≠ "cancelled" → a_cancelled sid (a_finalize rid stopReason e).2 = 0%nat.
Proof.
  intros Hne. unfold a_finalize. destruct (e_runs e !! rid) as [k|]; [|done].
  destruct (k_finished k); [done|]. unfold a_cancelled. cbn [snd].
  rewrite filter_cons, filter_nil. cbn [is_cancelled_aend].
  apply String.eqb_neq in Hne. rewrite Hne, andb_false_r. by case_decide.
Qed.

Lemma a_finalize_other_session (sid : string) (rid : nat) (stopReason : string) (e : eng) :
  (∀ k, e_runs e !! rid = Some k → k_writerSession k ≠ sid) →
  a_cancelled sid (a_finalize rid stopReason e).2 = 0%nat.
Proof.
  intros Hk. unfold a_finalize. destruct (e_runs e !! rid) as [k|]; [|done].
  destruct (k_finished k); [done|]. unfold a_cancelled. cbn [snd].
  rewrite filter_cons, filter_nil. cbn [is_cancelled_aend].
  specialize (Hk k eq_refl). apply String.eqb_neq in Hk. rewrite Hk. by case_decide.
Qed.

Lemma a_cancel_first (sid : string) (clearQueue : bool) (e : eng) :
  eng_inv e →
  default [] (e_queues (a_cancel sid clearQueue e).1.1 !! sid) = [] →
  idle sid (a_cancel sid clearQueue e).1.1
  ∧ (a_cancelled sid (a_cancel sid clearQueue e).1.2 ≤ 1)%nat.
Proof.
  intros He. unfold a_cancel.
  set (e0 := if clearQueue then _ else e).
  assert (He0 : eng_inv e0) by (unfold e0; destruct clearQueue; [by apply eng_inv_queues|done]).
  clearbody e0.
  destruct (e_procs e0 !! sid) as [prid|] eqn:Hp, (e_fins e0 !! sid) as [rid|] eqn:Hf;
    cbn [fst snd].
  4:{ intros Hq. split; [done|]. cbn. lia. }
  2:{ destruct (inv_procs _ He0 _ _ Hp) as [? ?]. congruence. }
  all: pose proof (a_finalize_cancelled_le sid rid "cancelled" e0) as Hle;
       destruct (inv_fins _ He0 _ _ Hf) as (k & Hk & Hs & Hfin);
       revert Hle; unfold a_finalize; rewrite Hk, Hfin; cbn [fst snd];
       intros Hle Hq; (split; [|done]);
       repeat split; cbn; rewrite ?Hs; try apply lookup_delete_eq; done.
Qed.

Lemma a_cancel_second (sid : string) (clearQueue : bool) (e : eng) :
  idle sid e →
  (a_cancel sid clearQueue e).2 = false ∧ a_cancelled sid (a_cancel sid clearQueue e).1.2 = 0%nat.
Proof.
  intros (Hp & Hf & Hq). unfold a_cancel.
  set (e0 := if clearQueue then _ else e).
  assert (e_procs e0 = e_procs e ∧ e_fins e0 = e_fins e) as [-> ->]
    by (unfold e0; by destruct clearQueue).
  by rewrite Hp, Hf.
Qed.

Lemma a_step_idle (sid : string) (st : gateway) (ev : event) (e : eng) :
  eng_inv e → idle sid e → other_event sid ev = true →
  idle sid (a_step st ev e).1 ∧ a_cancelled sid (a_step st ev e).2 = 0%nat.
Proof.
  intros He Hidle Hev.
  assert (Hclose : ∀ rid stopReason, stopReason ≠ "cancelled" →
            idle sid (a_close rid stopReason e).1
            ∧ a_cancelled sid (a_close rid stopReason e).2 = 0%nat).
  { intros rid stopReason Hne. unfold a_close.
    destruct (e_runs e !! rid) as [k|]; [|done]. destruct (k_spawned k); [|done].
    split; [by apply a_finalize_idle|by apply a_finalize_not_cancelled]. }
  destruct ev as [s content imagePath now|s clearQueue now|s now bin_ok|rid line|rid text
                 |rid code now|rid message now]; cbn [a_step other_event] in *.
  - apply negb_true_iff, String.eqb_neq in Hev.
    destruct Hidle as (Hp & Hf & Hq). unfold a_submit.
    destruct (_ || _); [done|].
    destruct (is_slash_command content); cbn [fst snd].
    + split; [|rewrite !a_cancelled_cons; cbn [is_cancelled_aend]; by destruct (String.eqb s sid)].
      repeat split; cbn; [done|done|by rewrite lookup_insert_ne].
    + split; [|rewrite !a_cancelled_cons; cbn [is_cancelled_aend]; by destruct (String.eqb s sid)].
      repeat split; cbn; [done|done|by rewrite lookup_insert_ne].
  - apply negb_true_iff, String.eqb_neq in Hev. unfold a_cancel.
    set (e0 := if clearQueue then _ else e).
    assert (He0 : eng_inv e0)
      by (unfold e0; destruct clearQueue; [by apply eng_inv_queues|done]).
    assert (Hidle0 : idle sid e0).
    { unfold e0. destruct clearQueue; [|done]. destruct Hidle as (Hp & Hf & Hq).
      repeat split; cbn; [done|done|by rewrite lookup_insert_ne]. }
    clearbody e0.
    destruct (e_procs e0 !! s) as [prid|] eqn:Hp, (e_fins e0 !! s) as [rid|] eqn:Hf;
      cbn [fst snd]; try done.
    all: destruct (inv_fins _ He0 _ _ Hf) as (k & Hk & Hs & Hfin);
         pose proof (a_finalize_idle sid rid "cancelled" e0 Hidle0);
         assert (a_cancelled sid (a_finalize rid "cancelled" e0).2 = 0%nat)
           by (apply a_finalize_other_session; intros k' Hk';
               rewrite (inv_writer _ He0 _ _ Hk'); congruence);
         by destruct (a_finalize rid "cancelled" e0).
  - unfold a_startNext.
    destruct (bool_decide (s ∈ e_active e)); [done|].
    destruct (default [] (e_queues e !! s)) as [|t queue] eqn:Hq; [done|].
    assert (Hne : s ≠ sid).
    { intros ->. destruct Hidle as (_ & _ & Hq'). congruence. }
    destruct Hidle as (Hp & Hf & Hq').
    destruct readable.
    2:{ split; [|done]. repeat split; cbn; [done|done|by rewrite lookup_insert_ne]. }
    set (e1 := {| e_active := {[s]} ∪ e_active e; e_procs := e_procs e;
                  e_fins := <[s := length (e_runs e)]> (e_fins e);
                  e_queues := <[s := queue]> (e_queues e);
                  e_runs := e_runs e ++ [_]; e_next_id := S (e_next_id e) |}).
    assert (Hidle1 : idle sid e1).
    { repeat split; cbn; [done|by rewrite lookup_insert_ne|by rewrite lookup_insert_ne]. }
    clearbody e1. destruct bin_ok; cbn [fst snd].
    + split; [|done]. destruct Hidle1 as (Hp1 & Hf1 & Hq1).
      repeat split; cbn; [by rewrite lookup_insert_ne|done|done].
    + pose proof (a_finalize_idle sid (length (e_runs e)) "error" e1 Hidle1).
      assert (a_cancelled sid (a_finalize (length (e_runs e)) "error" e1).2 = 0%nat)
        by by apply a_finalize_not_cancelled.
      destruct (a_finalize (length (e_runs e)) "error" e1) as [e2 o]. cbn [fst snd] in *.
      split; [done|]. by rewrite a_cancelled_cons.
  - done.
  - done.
  - apply Hclose. by case_bool_decide.
  - by apply Hclose.
Qed.

Section CancelTwice.

Context (JSON_parse : string → option json) (cfg : config).

Lemma idle_run_events (sid : string) (evs : list event) (st : gateway) :
  eng_inv (proj st) → idle sid (proj st) → forallb (other_event sid) evs = true →
  idle sid (proj (run_events JSON_parse cfg evs st).1)
  ∧ a_cancelled sid (abs_log (run_events JSON_parse cfg evs st).2) = 0%nat.
Proof.
  revert st. induction evs as [|ev evs IH]; intros st Hinv Hidle Hevs; [done|].
  cbn [forallb] in Hevs. apply andb_true_iff in Hevs as [Hev Hevs].
  rewrite run_events_cons. cbn [fst snd]. rewrite abs_log_app, a_cancelled_app.
  destruct (sim_step JSON_parse cfg ev st) as [Hp Hl].
  destruct (a_step_idle sid st ev (proj st) Hinv Hidle Hev) as [Hidle1 Hc1].
  rewrite Hl, Hc1. apply IH; [|by rewrite Hp|done].
  rewrite Hp. by apply eng_inv_step.
Qed.

End CancelTwice.

(** C7, amended: when the first cancel leaves no turn
    of the session waiting (it cleared the queue, or the queue was empty),
    then whatever the engine does next short of a submit or cancel of this
    session, the second cancel answers [cancelled: false, running: false],
    and the two calls with all that happened between them append at most
    one [message_end] with stop reason [cancelled] to the journal. *)
Theorem cancel_twice_empty_queue (JSON_parse : string → option json) (cfg : config)
    (f0 : fs) (pre : list event) (sid : string)
    (clearQueue1 : bool) (now1 : string) (mid : list event)
    (clearQueue2 : bool) (now2 : string) :
  let st0 := (run_events JSON_parse cfg pre (gateway_init f0)).1 in
  let c1 := cancel JSON_parse cfg sid clearQueue1 now1 st0 in
  let between := run_events JSON_parse cfg mid c1.1.2 in
  let c2 := cancel JSON_parse cfg sid clearQueue2 now2 between.1 in
  queue_of c1.1.2 sid = [] →
  forallb (other_event sid) mid = true →
  c2.1.1 = cancel_response false clearQueue2
  ∧ (count_cancelled (appends_to sid (c1.2 ++ between.2 ++ c2.2)) ≤ 1)%nat.
Proof.
  intros st0 c1 between c2 Hq Hmid.
  assert (Hinv0 : eng_inv (proj st0)) by apply eng_inv_run_events, eng_inv_init.
  destruct (sim_cancel JSON_parse cfg sid clearQueue1 now1 st0) as [[Hp1 Hl1] _].
  fold c1 in Hp1, Hl1. change (exec _ st0) with c1.1.2 in Hp1. change (logs _ st0) with c1.2 in Hl1.
  destruct (a_cancel_first sid clearQueue1 (proj st0) Hinv0) as [Hidle1 Hc1].
  { rewrite <- Hp1. exact Hq. }
  rewrite <- Hp1 in Hidle1. rewrite <- Hl1 in Hc1.
  assert (Hinv1 : eng_inv (proj c1.1.2)) by (rewrite Hp1; by apply eng_inv_cancel).
  destruct (idle_run_events JSON_parse cfg sid mid c1.1.2 Hinv1 Hidle1 Hmid) as [Hidle2 Hc2].
  fold between in Hidle2, Hc2.
  destruct (sim_cancel JSON_parse cfg sid clearQueue2 now2 between.1) as [[Hp3 Hl3] Hv3].
  change (logs _ between.1) with c2.2 in Hl3. change (value _ between.1) with c2.1.1 in Hv3.
  destruct (a_cancel_second sid clearQueue2 (proj between.1) Hidle2) as [Hr Hc3].
  rewrite Hr in Hv3. rewrite <- Hl3 in Hc3. split; [done|].
  rewrite count_cancelled_abs, !abs_log_app, !a_cancelled_app, Hc2, Hc3. lia.
Qed.

Lemma cancel_twice_empty_queue_witness :
  let st0 := (run_events JSON_parse_ref ex_cfg two_turns_trace (gateway_init new_session_fs)).1 in
  let c1 := cancel JSON_parse_ref ex_cfg ex_sid true "t2" st0 in
  let between := run_events JSON_parse_ref ex_cfg
                   [EvStartNext ex_sid "t3" true; EvClose 0 None "t4"] c1.1.2 in
  let c2 := cancel JSON_parse_ref ex_cfg ex_sid false "t5" between.1 in
  c2.1.1 = cancel_response false false
  ∧ (count_cancelled (appends_to ex_sid (c1.2 ++ between.2 ++ c2.2)) ≤ 1)%nat.
Proof.
  apply (cancel_twice_empty_queue JSON_parse_ref ex_cfg new_session_fs two_turns_trace ex_sid
           true "t2" [EvStartNext ex_sid "t3" true; EvClose 0 None "t4"] false "t5").
  - vm_compute. reflexivity.
  - reflexivity.
Defined.

Example cancel_twice_cleared_queue :
  let st0 := (run_events JSON_parse_ref ex_cfg two_turns_trace (gateway_init new_session_fs)).1 in
  let c1 := cancel JSON_parse_ref ex_cfg ex_sid true "t2" st0 in
  let between := run_events JSON_parse_ref ex_cfg
                   [EvStartNext ex_sid "t3" true; EvClose 0 None "t4"] c1.1.2 in
  let c2 := cancel JSON_parse_ref ex_cfg ex_sid false "t5" between.1 in
  c1.1.1 = cancel_response true true
  ∧ count_cancelled (appends_to ex_sid (c1.2 ++ between.2 ++ c2.2)) = 1%nat.
Proof. vm_compute. done. Qed.

(** ** The turn engine: gateway commands *)

Section Commands.

Context (JSON_parse : string → option json) (cfg : config).

Lemma exec_commit (w : writer) (updates : meta) (st : gateway) :
  exec (commit w updates) st
  = set_fs (set_meta (w_sessionId w)
              (assign (<["lastCursor" := JNum (w_cursor w)]> (w_meta w)) updates) (g_fs st)) st.
Proof. done. Qed.

Lemma emit_logs (sid : string) (st : gateway) :
  logs (emitCodexSessionMetaUpdate JSON_parse cfg sid) st = []
  ∨ ∃ c d, logs (emitCodexSessionMetaUpdate JSON_parse cfg sid) st
           = [ObsAppend sid (journal_record c "session_meta" d)].
Proof.
  unfold emitCodexSessionMetaUpdate. rewrite logs_bind.
  change (value get_state st) with st. change (exec get_state st) with st.
  change (logs get_state st) with (@nil obs).
  destruct (readSessionMeta _ _); [|by left].
  destruct (createEventWriter _ _ _) as [[f1 w]|] eqn:Hw; [|by left].
  apply createEventWriter_sessionId in Hw as (Hs & _).
  right. rewrite !logs_bind, logs_append, Hs. cbn. eauto.
Qed.

Lemma emit_sidecar (sid : string) (st : gateway) (m0 : meta) :
  fs_meta (g_fs st) !! sid = Some m0 →
  ∃ m1, fs_meta (g_fs (exec (emitCodexSessionMetaUpdate JSON_parse cfg sid) st)) !! sid = Some m1
        ∧ ∀ key, key ≠ "lastCursor" → m1 !! key = m0 !! key.
Proof.
  intros Hm0. unfold emitCodexSessionMetaUpdate. rewrite exec_bind.
  change (value get_state st) with st. change (exec get_state st) with st.
  destruct (readSessionMeta _ _); [|by exists m0].
  destruct (createEventWriter _ _ _) as [[f1 w]|] eqn:Hw; [|by exists m0].
  unfold createEventWriter in Hw.
  destruct (getSessionPaths sid); [|done]. cbn in Hw. rewrite Hm0 in Hw.
  injection Hw as <- <-.
  rewrite !exec_bind, value_append. cbv beta iota. rewrite !exec_bind, exec_commit.
  change (exec (mret ?x) ?s) with s.
  cbn [w_sessionId w_meta w_cursor g_fs set_fs fs_meta set_meta].
  rewrite lookup_insert_eq. eexists. split; [reflexivity|].
  intros key Hkey. unfold assign. rewrite lookup_union_r by apply lookup_empty.
  rewrite lookup_insert_ne by done.
  destruct (Number_isFinite (m0 !! "lastCursor")); [done|by rewrite lookup_insert_ne].
Qed.

Ltac run_fs_appends :=
  repeat match goal with
         | |- context [exec (append ?w ?e ?d) ?X] =>
             let f := fresh "f" in destruct (fs_only_append w e d X) as [f ->]
         | |- context [exec (slash_command_text _ ?s ?m ?t) ?X] =>
             let f := fresh "f" in
             destruct (slash_command_text_fs cfg s m t X) as [[f ->] ->]
         end.

Ltac run_command_step :=
  rewrite exec_bind, logs_bind, value_bind;
  rewrite ?value_newId, ?exec_newId, ?logs_newId, ?value_append, ?logs_append,
          ?value_commit, ?logs_commit, ?exec_commit, ?exec_modify, ?logs_modify;
  run_fs_appends;
  cbv beta iota zeta;
  cbn [w_sessionId w_meta w_cursor fst snd g_fs g_next_id set_fs set_next_id set_queues
       codexQueueBySession].

Lemma submit_command (st : gateway) (sid content : string) (imagePath : option string)
    (now : string) (m : meta) :
  content ≠ "" →
  readSessionMeta (g_fs st) sid = Ok m →
  starts_with "/model" (js_trim content) = true →
  ∃ (userId assistantId text : string) (c : Z) (before after : list json) (m' : meta) (f : fs),
    value (submit JSON_parse cfg sid content imagePath now) st = accepted_response userId
    ∧ appends_to sid (logs (submit JSON_parse cfg sid content imagePath now) st)
      = before ++
        [ journal_record (c + 1) "message_start"
            (JObj [ ("id", JStr assistantId); ("lineNumber", JNum (c + 1));
                    ("role", JStr "assistant"); ("timestamp", JStr now);
                    ("sessionId", JStr sid) ]);
          journal_record (c + 2) "content_block"
            (JObj [ ("messageId", JStr assistantId); ("index", JNum 0);
                    ("block", JObj [("type", JStr "text"); ("text", JStr text)]) ]);
          journal_record (c + 3) "message_end"
            (JObj [ ("id", JStr assistantId); ("stopReason", JStr "end_turn") ]) ]
        ++ after
    ∧ forallb is_ObsAppend (logs (submit JSON_parse cfg sid content imagePath now) st) = true
    ∧ exec (submit JSON_parse cfg sid content imagePath now) st
      = set_fs f (set_next_id (S (S (g_next_id st)))
                    (set_queues (<[sid := queue_of st sid]> (codexQueueBySession st)) st))
    ∧ fs_meta f !! sid = Some m'
    ∧ m' !! "messageCount" = Some (JNum (c + 3)).
Proof.
  intros Hne Hread Hmodel. unfold submit.
  apply String.eqb_neq in Hne. rewrite Hne.
  rewrite exec_bind, logs_bind, value_bind.
  change (value get_state st) with st. change (exec get_state st) with st.
  change (logs get_state st) with (@nil obs). rewrite Hread.
  destruct (createEventWriter_ok JSON_parse _ _ _ Hread) as (w & Hw & Hws).
  rewrite exec_bind, logs_bind, value_bind, Hw. cbv zeta.
  rewrite Hmodel, orb_true_r.
  do 13 run_command_step.
  change (value (mret ?x) ?s) with x. change (exec (mret ?x) ?s) with s.
  change (logs (mret ?x) ?s) with (@nil obs).
  match goal with |- context [exec (emitCodexSessionMetaUpdate _ _ sid) ?X] => set (Y := X) end.
  match eval unfold Y in Y with set_fs (set_meta _ ?m0 _) _ =>
    destruct (emit_sidecar sid Y m0) as (m1 & Hm1 & Hkeys)
  end.
  { unfold Y. cbn [g_fs set_fs fs_meta set_meta]. by rewrite Hws, lookup_insert_eq. }
  destruct (emit_fs JSON_parse cfg sid Y) as [fe He]. rewrite He in Hm1 |- *.
  set (c := w_cursor w + 1 + 1 + 1).
  exists ("id-" +:+ String_of_Z (Z.of_nat (g_next_id st))),
         ("id-" +:+ String_of_Z (Z.of_nat (S (g_next_id st)))).
  match goal with |- context [appends_to sid ?L] =>
    eexists _, c, (take 3 (appends_to sid L)),
            (appends_to sid (logs (emitCodexSessionMetaUpdate JSON_parse cfg sid) Y)), m1, fe
  end.
  split; [reflexivity|]. split.
  { rewrite Hws. cbn [app]. unfold appends_to at 1 2. cbn [omap list_omap].
    rewrite String.eqb_refl. rewrite app_nil_r. cbn [take app].
    replace (c + 2) with (c + 1 + 1) by lia. replace (c + 3) with (c + 1 + 1 + 1) by lia.
    reflexivity. }
  split.
  { cbn [app forallb is_ObsAppend andb]. rewrite app_nil_r.
    destruct (emit_logs sid Y) as [->|(c' & d & ->)]; reflexivity. }
  split; [reflexivity|]. split; [exact Hm1|].
  rewrite Hkeys by done. unfold assign.
  replace (c + 3) with (c + 1 + 1 + 1) by lia.
  apply lookup_union_Some_l, lookup_insert_eq.
Qed.

End Commands.

(** C10: a message whose trimmed content starts with [/model] (so also
    [/modelfoo]) is answered by [submit] itself.  For a session whose
    sidecar can be read, [submit] returns [accepted]; after the records of
    the user's message it appends to the journal the [message_start] of an
    assistant message, one text [content_block] of it and its
    [message_end] with stop reason [end_turn], at consecutive cursors; it
    leaves the sidecar with [messageCount] at the cursor of that
    [message_end]; it only appends to journals (no turn is pushed or
    started, no child is spawned or killed, nothing is scheduled), and the
    queue of the session, the child processes, the active set and the runs
    are as before. *)
Theorem model_prefix_answered_inline (JSON_parse : string → option json) (cfg : config)
    (st : gateway) (sid content : string) (imagePath : option string) (now : string)
    (m : meta) :
  content ≠ "" →
  readSessionMeta (g_fs st) sid = Ok m →
  starts_with "/model" (js_trim content) = true →
  let r := submit JSON_parse cfg sid content imagePath now st in
  ∃ (userId assistantId text : string) (c : Z) (before after : list json) (m' : meta),
    r.1.1 = accepted_response userId
    ∧ appends_to sid r.2
      = before ++
        [ journal_record (c + 1) "message_start"
            (JObj [ ("id", JStr assistantId); ("lineNumber", JNum (c + 1));
                    ("role", JStr "assistant"); ("timestamp", JStr now);
                    ("sessionId", JStr sid) ]);
          journal_record (c + 2) "content_block"
            (JObj [ ("messageId", JStr assistantId); ("index", JNum 0);
                    ("block", JObj [("type", JStr "text"); ("text", JStr text)]) ]);
          journal_record (c + 3) "message_end"
            (JObj [ ("id", JStr assistantId); ("stopReason", JStr "end_turn") ]) ]
        ++ after
    ∧ forallb is_ObsAppend r.2 = true
    ∧ queue_of r.1.2 sid = queue_of st sid
    ∧ codexProcBySession r.1.2 = codexProcBySession st
    ∧ activeCodexRuns r.1.2 = activeCodexRuns st
    ∧ g_runs r.1.2 = g_runs st
    ∧ fs_meta (g_fs r.1.2) !! sid = Some m'
    ∧ m' !! "messageCount" = Some (JNum (c + 3)).
Proof.
  intros Hne Hread Hmodel r.
  destruct (submit_command JSON_parse cfg st sid content imagePath now m Hne Hread Hmodel)
    as (userId & assistantId & text & c & before & after & m' & f
        & Hv & Hlog & Hobs & Hst & Hm' & Hcount).
  exists userId, assistantId, text, c, before, after, m'.
  change (exec _ st) with r.1.2 in Hst. rewrite Hst.
  repeat split; try done.
  unfold queue_of. cbn. by rewrite lookup_insert_eq.
Qed.

Lemma model_prefix_answered_inline_witness :
  let r := submit JSON_parse_ref ex_cfg ex_sid "/modelfoo" None "t0"
                  (gateway_init new_session_fs) in
  ∃ (userId assistantId text : string) (c : Z) (before after : list json) (m' : meta),
    r.1.1 = accepted_response userId
    ∧ appends_to ex_sid r.2
      = before ++
        [ journal_record (c + 1) "message_start"
            (JObj [ ("id", JStr assistantId); ("lineNumber", JNum (c + 1));
                    ("role", JStr "assistant"); ("timestamp", JStr "t0");
                    ("sessionId", JStr ex_sid) ]);
          journal_record (c + 2) "content_block"
            (JObj [ ("messageId", JStr assistantId); ("index", JNum 0);
                    ("block", JObj [("type", JStr "text"); ("text", JStr text)]) ]);
          journal_record (c + 3) "message_end"
            (JObj [ ("id", JStr assistantId); ("stopReason", JStr "end_turn") ]) ]
        ++ after
    ∧ forallb is_ObsAppend r.2 = true
    ∧ queue_of r.1.2 ex_sid = queue_of (gateway_init new_session_fs) ex_sid
    ∧ codexProcBySession r.1.2 = codexProcBySession (gateway_init new_session_fs)
    ∧ activeCodexRuns r.1.2 = activeCodexRuns (gateway_init new_session_fs)
    ∧ g_runs r.1.2 = g_runs (gateway_init new_session_fs)
    ∧ fs_meta (g_fs r.1.2) !! ex_sid = Some m'
    ∧ m' !! "messageCount" = Some (JNum (c + 3)).
Proof.
  eapply (model_prefix_answered_inline JSON_parse_ref ex_cfg (gateway_init new_session_fs)
            ex_sid "/modelfoo" None "t0").
  - discriminate.
  - vm_compute. reflexivity.
  - reflexivity.
Defined.

Example modelfoo_answer :
  let r := submit JSON_parse_ref ex_cfg ex_sid "/modelfoo" None "t0"
                  (gateway_init new_session_fs) in
  r.1.1 = accepted_response "id-0"
  ∧ map record_summary (appends_to ex_sid r.2)
    = [ ("1", "message_start", "id-0"); ("2", "content_block", "id-0");
        ("3", "message_end", "id-0"); ("4", "message_start", "id-1");
        ("5", "content_block", "id-1"); ("6", "message_end", "id-1");
        ("7", "session_meta", "") ]
  ∧ codexQueueBySession r.1.2 !! ex_sid = Some [].
Proof. vm_compute. done. Qed.

(** ** Sidecars *)

(** [updateSessionMeta]: the merged object has the keys of the updates with
    their new values and every other key of the sidecar unchanged; it is
    returned and is what a later read finds; journals and the sidecars of
    other sessions are untouched.  When the sidecar cannot be read the call
    throws what the read throws. *)
Theorem updateSessionMeta_merges (f : fs) (sid : string) (updates : meta) :
  match readSessionMeta f sid with
  | Ok m =>
      ∃ f' merged,
        updateSessionMeta f sid updates = Ok (f', merged)
        ∧ readSessionMeta f' sid = Ok merged
        ∧ (∀ key, merged !! key = match updates !! key with
                                  | Some v => Some v
                                  | None => m !! key
                                  end)
        ∧ fs_jsonl f' = fs_jsonl f
        ∧ (∀ other, other ≠ sid → fs_meta f' !! other = fs_meta f !! other)
  | Throw msg => updateSessionMeta f sid updates = Throw msg
  end.
Proof.
  unfold updateSessionMeta, writeSessionMeta, readSessionMeta.
  destruct (getSessionPaths sid) as [p|msg]; cbn; [|done].
  destruct (fs_meta f !! sid) as [m|] eqn:Hm; cbn; [|done].
  eexists _, _. split; [reflexivity|]. cbn. rewrite lookup_insert_eq.
  split; [done|]. split; [|split; [done|]].
  - intros key. unfold assign. rewrite lookup_union.
    destruct (updates !! key), (m !! key); done.
  - intros other Hne. by rewrite lookup_insert_ne.
Qed.

Lemma touch_jsonl_meta (sid : string) (g : fs) : fs_meta (touch_jsonl sid g) = fs_meta g.
Proof. unfold touch_jsonl. by destruct (fs_jsonl g !! sid). Qed.

Lemma touch_jsonl_lookup (sid : string) (g : fs) :
  fs_jsonl (touch_jsonl sid g) !! sid = Some (jsonl_text g sid).
Proof.
  unfold touch_jsonl, jsonl_text. destruct (fs_jsonl g !! sid) eqn:E; cbn; [done|].
  by rewrite lookup_insert_eq.
Qed.

Lemma touch_jsonl_other (sid other : string) (g : fs) :
  other ≠ sid → fs_jsonl (touch_jsonl sid g) !! other = fs_jsonl g !! other.
Proof.
  intros Hne. unfold touch_jsonl. destruct (fs_jsonl g !! sid); cbn; [done|].
  by rewrite lookup_insert_ne.
Qed.

Lemma touch_jsonl_idem (sid : string) (g : fs) :
  touch_jsonl sid (touch_jsonl sid g) = touch_jsonl sid g.
Proof. unfold touch_jsonl at 1. by rewrite touch_jsonl_lookup. Qed.

(** [createCodexSession] with a valid id: the sidecar it writes is what a
    later read returns, with [lastCursor] and [messageCount] at 0; the
    journal exists afterwards and keeps the text it had; and a writer opened
    next starts at cursor 0, so its first append returns 1, also when the
    journal already held records. *)
Theorem createCodexSession_fresh (JSON_parse : string → option json)
    (f : fs) (sid cwd model now : string) :
  validateSessionId sid = Ok tt →
  ∃ f' m,
    createCodexSession f sid cwd model now = Ok (f', m)
    ∧ readSessionMeta f' sid = Ok m
    ∧ m !! "id" = Some (JStr sid) ∧ m !! "cwd" = Some (JStr cwd)
    ∧ m !! "model" = Some (JStr model)
    ∧ m !! "createdAt" = Some (JStr now) ∧ m !! "lastMessageAt" = Some (JStr now)
    ∧ m !! "messageCount" = Some (JNum 0) ∧ m !! "lastCursor" = Some (JNum 0)
    ∧ fs_jsonl f' !! sid = Some (jsonl_text f sid)
    ∧ (∀ other, other ≠ sid →
         fs_meta f' !! other = fs_meta f !! other ∧ fs_jsonl f' !! other = fs_jsonl f !! other)
    ∧ ∃ w, createEventWriter JSON_parse f' sid = Ok (f', w)
           ∧ w_cursor w = 0
           ∧ ∀ event data, (writer_append f' w event data).2 = 1.
Proof.
  intros Hv. unfold createCodexSession, writeSessionMeta, touchEventLog, getSessionPaths.
  rewrite Hv. cbn [mbind result_bind mret result_ret].
  set (m := <["id":=JStr sid]> _).
  exists (touch_jsonl sid (set_meta sid m f)), m.
  split; [reflexivity|].
  assert (Hm : fs_meta (touch_jsonl sid (set_meta sid m f)) !! sid = Some m).
  { rewrite touch_jsonl_meta. cbn. apply lookup_insert_eq. }
  split.
  { unfold readSessionMeta, getSessionPaths. rewrite Hv. cbn. by rewrite Hm. }
  do 7 (split; [reflexivity|]).
  split; [by rewrite touch_jsonl_lookup|].
  split.
  { intros other Hne. rewrite touch_jsonl_meta, touch_jsonl_other by done. cbn.
    by rewrite lookup_insert_ne. }
  unfold createEventWriter, getSessionPaths. rewrite Hv. cbn [mbind result_bind mret result_ret].
  rewrite Hm, touch_jsonl_idem.
  eexists. split; [reflexivity|]. split; reflexivity.
Qed.

Lemma createCodexSession_fresh_witness :
  ∃ f' m,
    createCodexSession ex_fs ex_sid "/home/user" "gpt-5.2-codex-low" "t0" = Ok (f', m)
    ∧ fs_jsonl f' !! ex_sid = Some ex_journal
    ∧ ∃ w, createEventWriter JSON_parse_ref f' ex_sid = Ok (f', w)
           ∧ (writer_append f' w "message_start" (JObj [])).2 = 1.
Proof.
  destruct (createCodexSession_fresh JSON_parse_ref ex_fs ex_sid "/home/user"
              "gpt-5.2-codex-low" "t0")
    as (f' & m & Hc & _ & _ & _ & _ & _ & _ & _ & _ & Hj & _ & w & Hw & _ & Ha).
  - reflexivity.
  - exists f', m. split; [exact Hc|]. split; [exact Hj|]. exists w. split; [exact Hw|apply Ha].
Defined.

(** ** The tailer: history under a limit, attaches, closed clients *)

Section TailerMore.

Context (JSON_parse : string → option json).

Lemma history_loop_limit (k : Z) (limit : option nat) (lines : list string) (c : nat) (lc : Z) :
  let found := filter (fun e => has_cursor_above k e = true) (entries_of_lines JSON_parse lines) in
  let sent := match limit with Some n => take (n - c) found | None => found end in
  history_loop JSON_parse k limit lines c lc
  = (map entry_frame sent, (c + length sent)%nat, max_cursor lc sent).
Proof.
  revert c lc. induction lines as [|line lines IH]; intros c lc.
  - cbv zeta. cbn [history_loop entries_of_lines omap list_omap]. rewrite filter_nil.
    destruct limit; rewrite ?take_nil; cbn; by rewrite Nat.add_0_r.
  - cbv zeta in *. cbn [history_loop entries_of_lines omap list_omap].
    fold (entries_of_lines JSON_parse lines).
    destruct (blank line); [apply IH|].
    destruct (match limit with Some n => (n <=? c)%nat | None => false end) eqn:Hn.
    { destruct limit as [n|]; [|done]. apply Nat.leb_le in Hn.
      replace (n - c)%nat with 0%nat by lia. cbn. by rewrite Nat.add_0_r. }
    destruct (parse_entry JSON_parse line) as [entry|]; [|apply IH]. cbn [mbind option_bind].
    rewrite filter_cons.
    destruct (entry_cursor entry) as [cursor|] eqn:Hc.
    2:{ rewrite decide_False; [apply IH|]. unfold has_cursor_above. by rewrite Hc. }
    destruct (cursor <=? k) eqn:Hk.
    { apply Z.leb_le in Hk. rewrite decide_False; [apply IH|].
      unfold has_cursor_above. rewrite Hc. apply not_true_iff_false, Z.ltb_ge. lia. }
    apply Z.leb_gt in Hk. rewrite decide_True.
    2:{ unfold has_cursor_above. rewrite Hc. apply Z.ltb_lt. lia. }
    rewrite IH.
    assert (Hmax : ∀ l, max_cursor lc (entry :: l) = max_cursor (lc `max` cursor) l).
    { intros l. unfold max_cursor. cbn [map foldl].
      change (record_cursor entry) with (default 0 (entry_cursor entry)). by rewrite Hc. }
    destruct limit as [n|].
    + apply Nat.leb_gt in Hn. replace (n - c)%nat with (S (n - S c)) by lia.
      cbn [take map length]. rewrite Hmax. f_equal. f_equal. lia.
    + cbn [map length]. rewrite Hmax. f_equal. f_equal. lia.
Qed.

End TailerMore.

Lemma streamHistory_some (JSON_parse : string → option json)
    (f : fs) (t : tailer) (res : nat) (since : Z) (limit : option nat) (text : string) :
  fs_jsonl f !! t_sessionId t = Some text →
  let sent :=
    within_limit limit
      (filter (fun e => has_cursor_above since e = true) (journal_entries JSON_parse text)) in
  streamHistory JSON_parse f t res since limit
  = ({| t_sessionId := t_sessionId t; t_clients := t_clients t;
        t_position := str_len text; t_lastCursor := max_cursor (t_lastCursor t) sent;
        t_processing := t_processing t |},
     map (pair res)
         ([history_start_frame since] ++ map entry_frame sent
          ++ [history_end_frame (length sent)])).
Proof.
  intros Hf. unfold streamHistory. rewrite Hf.
  cbv zeta. rewrite history_loop_limit. cbv zeta. fold (journal_entries JSON_parse text).
  destruct limit as [n|]; cbn [within_limit]; by rewrite ?Nat.sub_0_r.
Qed.

(** [streamHistory] under a limit: to the attaching client go
    [history_start], the frames of the first [limit] records of the journal
    with a numeric cursor above [since] (all of them without a limit), and
    [history_end] with their count; the tailer's position becomes the size
    of the journal and its [lastCursor] the greatest cursor sent, if that is
    greater than it was.  Without a journal file nothing is written. *)
Theorem streamHistory_within_limit (JSON_parse : string → option json)
    (f : fs) (t : tailer) (res : nat) (since : Z) (limit : option nat) :
  match fs_jsonl f !! t_sessionId t with
  | Some text =>
      let sent :=
        within_limit limit
          (filter (fun e => has_cursor_above since e = true) (journal_entries JSON_parse text)) in
      streamHistory JSON_parse f t res since limit
      = ({| t_sessionId := t_sessionId t; t_clients := t_clients t;
            t_position := str_len text; t_lastCursor := max_cursor (t_lastCursor t) sent;
            t_processing := t_processing t |},
         map (pair res)
             ([history_start_frame since] ++ map entry_frame sent
              ++ [history_end_frame (length sent)]))
  | None => streamHistory JSON_parse f t res since limit = (t, [])
  end.
Proof.
  destruct (fs_jsonl f !! t_sessionId t) as [text|] eqn:Hf.
  - by apply streamHistory_some.
  - unfold streamHistory. by rewrite Hf.
Qed.

Lemma delivered_to_other (c c' : nat) (frames : list string) :
  c' ≠ c → delivered_to c (map (pair c') frames) = [].
Proof.
  intros Hne. unfold delivered_to. induction frames as [|x l IH]; [done|].
  cbn [map]. by rewrite filter_cons, decide_False.
Qed.

Lemma delivered_to_absent (c : nat) (clients : list nat) (entries : list json) :
  c ∉ clients →
  delivered_to c (flat_map (fun e => broadcast clients (entry_frame e)) entries) = [].
Proof.
  intros Hc. induction entries as [|e entries IH]; [done|].
  cbn [flat_map]. rewrite delivered_to_app, IH, app_nil_r.
  unfold delivered_to, broadcast. clear IH.
  induction clients as [|x l IH]; [done|].
  apply not_elem_of_cons in Hc as [Hx Hl]. cbn [map].
  rewrite filter_cons, decide_False by (cbn; congruence). by apply IH.
Qed.

(** A tailer has one read position for all its clients, and an attach
    moves it to the end of the journal.  Records appended since the last
    read are sent to an attached client by the next [processNewLines]; but
    when another client attaches first, that call finds nothing new and the
    attached client never receives them. *)
Theorem attach_skips_unread_records (JSON_parse : string → option json)
    (f : fs) (t : tailer) (c c2 : nat) (base pending : string) (since : Z) (limit : option nat) :
  t_processing t = false → NoDup (t_clients t) → c ∈ t_clients t → c2 ≠ c →
  fs_jsonl f !! t_sessionId t = Some (base +:+ pending) →
  t_position t = str_len base →
  whole_lines pending →
  delivered_to c (tail_run JSON_parse (f, t) [TNotify]).2
  = map entry_frame (journal_entries JSON_parse pending)
  ∧ delivered_to c (tail_run JSON_parse (f, t) [TAttach c2 since limit; TNotify]).2 = [].
Proof.
  intros Hproc Hnd Hin Hne Hfile Hpos Hwhole. split.
  - rewrite (tail_run_quiet JSON_parse c [TNotify] f t base pending) by
      (try done; by repeat constructor).
    cbn. by rewrite append_nil_r.
  - cbn [tail_run tail_step]. unfold addClient.
    rewrite (streamHistory_some JSON_parse f t c2 since limit _ Hfile). cbv zeta.
    cbn [tail_run tail_step]. unfold processNewLines.
    cbn [t_processing t_sessionId t_position]. rewrite Hproc, Hfile.
    rewrite Z.leb_refl. cbn [snd]. rewrite !app_nil_r. by apply delivered_to_other.
Qed.

Lemma attach_skips_unread_records_witness :
  delivered_to 1 (tail_run JSON_parse_ref
                    (set_jsonl ex_sid (ex_journal +:+ ex_line3) ex_fs,
                     {| t_sessionId := ex_sid; t_clients := [1%nat]; t_position := str_len ex_journal;
                        t_lastCursor := 2; t_processing := false |})
                    [TNotify]).2
  = map entry_frame (journal_entries JSON_parse_ref ex_line3)
  ∧ delivered_to 1 (tail_run JSON_parse_ref
                      (set_jsonl ex_sid (ex_journal +:+ ex_line3) ex_fs,
                       {| t_sessionId := ex_sid; t_clients := [1%nat];
                          t_position := str_len ex_journal;
                          t_lastCursor := 2; t_processing := false |})
                      [TAttach 2 0 None; TNotify]).2 = [].
Proof.
  apply (attach_skips_unread_records JSON_parse_ref _ _ 1 2 ex_journal ex_line3 0 None).
  - reflexivity.
  - apply NoDup_singleton.
  - by apply list_elem_of_singleton.
  - discriminate.
  - reflexivity.
  - reflexivity.
  - right. by eexists.
Defined.

Lemma tail_run_absent (JSON_parse : string → option json) (c : nat) (evs : list tail_event) :
  ∀ (f : fs) (t : tailer),
    c ∉ t_clients t → forallb (not_attach_of c) evs = true →
    delivered_to c (tail_run JSON_parse (f, t) evs).2 = [].
Proof.
  induction evs as [|ev evs IH]; intros f t Hc Hevs; [done|].
  cbn [forallb] in Hevs. apply andb_true_iff in Hevs as [Hev Hevs].
  cbn [tail_run].
  destruct ev as [text| |c' since limit|c']; cbn [tail_step].
  - specialize (IH (set_jsonl (t_sessionId t) (jsonl_text f (t_sessionId t) +:+ text) f) t Hc Hevs).
    destruct (tail_run _ _ evs) as [st2 out2]. by cbn [fst snd] in *.
  - unfold processNewLines.
    destruct (t_processing t).
    { specialize (IH f t Hc Hevs). destruct (tail_run _ _ evs) as [st2 out2]. by cbn [fst snd] in *. }
    destruct (fs_jsonl f !! t_sessionId t) as [text|].
    2:{ specialize (IH f t Hc Hevs). destruct (tail_run _ _ evs) as [st2 out2]. by cbn [fst snd] in *. }
    cbv zeta. destruct (str_len text <=? t_position t).
    { specialize (IH f t Hc Hevs). destruct (tail_run _ _ evs) as [st2 out2]. by cbn [fst snd] in *. }
    destruct (live_loop_spec JSON_parse (t_clients t)
                (readline_lines (str_drop (Z.to_nat (t_position t)) text)) (t_lastCursor t))
      as [lc' ->].
    match goal with |- context [tail_run _ (f, ?t') evs] => specialize (IH f t') end.
    specialize (IH Hc Hevs). destruct (tail_run _ _ evs) as [st2 out2]. cbn [fst snd] in *.
    by rewrite delivered_to_app, IH, delivered_to_absent.
  - cbn in Hev. apply negb_true_iff, Nat.eqb_neq in Hev.
    unfold addClient. destruct (streamHistory JSON_parse f t c' since limit) as [t1 out] eqn:Hs.
    assert (t_clients t1 = t_clients t ∧ delivered_to c out = []) as [Hcl Hout].
    { unfold streamHistory in Hs. destruct (fs_jsonl f !! t_sessionId t); [|by simplify_eq].
      destruct (history_loop _ _ _ _ _ _) as [[frames n] lc]. simplify_eq. split; [done|].
      by apply delivered_to_other. }
    match goal with |- context [tail_run _ (f, ?t') evs] => specialize (IH f t') end.
    destruct (tail_run _ _ evs) as [st2 out2]. cbn [fst snd] in *.
    rewrite delivered_to_app, Hout, IH; [done| |done].
    rewrite Hcl. unfold set_add. case_bool_decide; [done|].
    apply not_elem_of_app. split; [done|]. by intros ?%list_elem_of_singleton.
  - specialize (IH f (removeClient t c')).
    destruct (tail_run _ _ evs) as [st2 out2]. cbn [fst snd] in *. apply IH; [|done].
    intros [_ ?]%list_elem_of_filter. done.
Qed.

(** Once the close handler of a client has run ([TClose]), the client is
    out of the tailer's set: as long as it does not attach again, nothing
    more is written to it, whatever is appended, read, attached or closed
    afterwards.  (The handler exists only after the replay of the attach;
    the connection that closes earlier is treated with [conn_run].) *)
Lemma closed_client_receives_nothing (JSON_parse : string → option json)
    (f : fs) (t : tailer) (c : nat) (evs : list tail_event) :
  forallb (not_attach_of c) evs = true →
  delivered_to c (tail_run JSON_parse (f, t) (TClose c :: evs)).2 = [].
Proof.
  intros Hevs. cbn [tail_run tail_step].
  pose proof (tail_run_absent JSON_parse c evs f (removeClient t c)) as H.
  destruct (tail_run _ _ evs) as [st2 out2]. cbn [fst snd] in *. apply H; [|done].
  intros [? _]%list_elem_of_filter. done.
Qed.

Lemma closed_client_receives_nothing_witness :
  delivered_to 1 (tail_run JSON_parse_ref
                    (ex_fs, {| t_sessionId := ex_sid; t_clients := [1%nat; 2%nat];
                               t_position := str_len ex_journal; t_lastCursor := 2;
                               t_processing := false |})
                    [TClose 1; TAppend ex_line3; TNotify; TAttach 3 0 None]).2 = [].
Proof. apply closed_client_receives_nothing. reflexivity. Defined.

(** ** The tailer: counting lines *)

Lemma blank_String_of_Z (z : Z) : blank (String_of_Z z) = false.
Proof.
  apply all_ws_false_of_forall; [apply String_of_Z_nonempty|].
  eapply str_forall_impl; [|apply String_of_Z_digits]. apply digit_not_ws.
Qed.

Lemma blank_JSON_stringify (j : json) : blank (JSON_stringify j) = false.
Proof.
  destruct j as [|[]|z|s|l|kvs]; try reflexivity. apply blank_String_of_Z.
Qed.

Lemma totalLines_lookup (f : fs) (sid : string) :
  totalLines (fs_jsonl f !! sid) = totalLines (Some (jsonl_text f sid)).
Proof. unfold jsonl_text. by destruct (fs_jsonl f !! sid). Qed.

Lemma totalLines_line (t line : string) :
  whole_lines t → str_forall printable line = true → blank line = false →
  totalLines (Some (t +:+ line +:+ NL)) = totalLines (Some t) + 1.
Proof.
  intros Ht Hp Hb. unfold totalLines.
  assert (Hsplit : filter (fun l => blank l = false) (split_on nl (t +:+ line +:+ NL))
                   = filter (fun l => blank l = false) (split_on nl t) ++ [line]).
  { destruct Ht as [->|[p ->]].
    - str_simpl. change (line +:+ NL) with (line +:+ String nl "").
      rewrite split_on_app_sep, (split_on_printable line) by done.
      cbn [split_on app]. rewrite !filter_cons, filter_nil, decide_True by done. done.
    - replace ((p +:+ NL) +:+ line +:+ NL) with ((p +:+ String nl line) +:+ String nl "")
        by (by rewrite !append_assoc).
      change (p +:+ NL) with (p +:+ String nl "").
      rewrite !split_on_app_sep, (split_on_printable line) by done.
      cbn [split_on]. rewrite !filter_app, !filter_cons, !filter_nil, decide_True by done.
      by rewrite !app_nil_r. }
  rewrite Hsplit, length_app. cbn [length]. lia.
Qed.

Lemma totalLines_lines_text (t : string) (rs : list json) :
  whole_lines t →
  totalLines (Some (t +:+ lines_text rs)) = totalLines (Some t) + Z.of_nat (length rs).
Proof.
  revert t. induction rs as [|r rs IH]; intros t Ht.
  - cbn. rewrite append_nil_r. lia.
  - rewrite lines_text_cons. unfold journal_line.
    replace (t +:+ (JSON_stringify r +:+ NL) +:+ lines_text rs)
      with ((t +:+ JSON_stringify r +:+ NL) +:+ lines_text rs) by (by rewrite !append_assoc).
    rewrite IH.
    + rewrite totalLines_line; [cbn [length]; lia|done|..].
      * apply JSON_stringify_printable.
      * apply blank_JSON_stringify.
    + right. exists (t +:+ JSON_stringify r). by rewrite append_assoc.
Qed.

(** The count of lines [getSessionMeta] reports grows by one for every
    record a writer appends: after [n] appends to a journal that held whole
    lines, [totalLines] is [n] more than before. *)
Theorem totalLines_counts_appends (f : fs) (w : writer) (calls : list (string * json))
    (cwd : jsval) (now : string) :
  whole_lines (jsonl_text f (w_sessionId w)) →
  tm_totalLines (getSessionMeta (append_all f w calls).1.1 (w_sessionId w) cwd now)
  = tm_totalLines (getSessionMeta f (w_sessionId w) cwd now) + Z.of_nat (length calls).
Proof.
  intros Hwhole. cbn [getSessionMeta tm_totalLines].
  destruct (append_all_spec calls f w) as (f1 & w1 & -> & _ & _ & _ & Ht & _). cbn [fst].
  rewrite !totalLines_lookup, Ht, totalLines_lines_text by done.
  f_equal. f_equal. generalize (w_cursor w). clear.
  induction calls as [|[] calls IH]; intros c; cbn [appended_records length]; [done|by rewrite IH].
Qed.

Lemma totalLines_counts_appends_witness :
  tm_totalLines (getSessionMeta
                   (append_all ex_fs {| w_sessionId := ex_sid; w_meta := ex_meta; w_cursor := 2 |}
                               ex_calls).1.1 ex_sid None "t0")
  = tm_totalLines (getSessionMeta ex_fs ex_sid None "t0") + 2.
Proof.
  apply (totalLines_counts_appends ex_fs
           {| w_sessionId := ex_sid; w_meta := ex_meta; w_cursor := 2 |} ex_calls None "t0").
  apply lines_text_whole.
Defined.

(** ** The turn engine: requests that are refused, runs that are over *)

Section EngineMore.

Context (JSON_parse : string → option json) (cfg : config).

Ltac value_step :=
  rewrite value_bind;
  rewrite ?value_append, ?value_commit;
  cbv beta iota zeta;
  repeat match goal with
         | |- context [exec ?m ?s] => generalize (exec m s); intro
         end.

Lemma submit_accepted (sid content : string) (imagePath : option string) (now : string)
    (st : gateway) (m : meta) :
  content ≠ "" → readSessionMeta (g_fs st) sid = Ok m →
  value (submit JSON_parse cfg sid content imagePath now) st
  = accepted_response ("id-" +:+ String_of_Z (Z.of_nat (g_next_id st))).
Proof.
  intros Hne Hread. unfold submit. apply String.eqb_neq in Hne. rewrite Hne.
  rewrite value_bind. change (value get_state st) with st. change (exec get_state st) with st.
  rewrite Hread. cbv zeta.
  destruct (createEventWriter_ok JSON_parse _ _ _ Hread) as (w & Hw & Hws).
  rewrite value_bind, Hw, !exec_modify.
  rewrite value_bind, exec_modify. rewrite value_bind, value_newId, exec_newId.
  cbn [g_next_id set_fs set_queues set_next_id].
  generalize ("id-" +:+ String_of_Z (Z.of_nat (g_next_id st))). intros uid.
  do 4 value_step.
  destruct (_ || _).
  - value_step. generalize (value newId g). intros aid.
    value_step. rewrite value_bind.
    generalize (value (slash_command_text cfg sid m (js_trim content)) g1). intros text.
    repeat value_step. reflexivity.
  - repeat value_step. reflexivity.
Qed.

Lemma submit_refused (sid content : string) (imagePath : option string) (now : string)
    (st : gateway) :
  content = "" ∨ readable (g_fs st) sid = false →
  ∃ r, submit JSON_parse cfg sid content imagePath now st = (r, st, []) ∧ resp_status r ≠ 200.
Proof.
  unfold submit, readable. intros [->|Hread].
  - cbn. eexists. split; [reflexivity|done].
  - destruct (String.eqb content ""); [eexists; split; [reflexivity|done]|].
    cbv [mbind M_bind get_state].
    destruct (readSessionMeta (g_fs st) sid) as [m|msg]; [done|].
    cbv [mret M_ret]. eexists. split; [reflexivity|].
    by destruct (String.eqb msg "SESSION_NOT_FOUND" || String.eqb msg "INVALID_SESSION_ID").
Qed.

End EngineMore.

(** A message whose content is a string is accepted (status 200) exactly
    when the content is not empty and the sidecar of the session can be
    read, and when it is refused the gateway is left as it was: nothing is
    written to a journal or a sidecar, no id is drawn, no queue is created,
    nothing is scheduled.  (The content that is not a string is treated with
    [messages_user_message].) *)
Lemma refused_submit_changes_nothing (JSON_parse : string → option json) (cfg : config)
    (st : gateway) (sid content : string) (imagePath : option string) (now : string) :
  let r := submit JSON_parse cfg sid content imagePath now st in
  (resp_status r.1.1 = 200 ↔ content ≠ "" ∧ readable (g_fs st) sid = true)
  ∧ (resp_status r.1.1 ≠ 200 → r.1.2 = st ∧ r.2 = []).
Proof.
  intros r.
  destruct (decide (content = "")) as [Hc|Hc].
  { destruct (submit_refused JSON_parse cfg sid content imagePath now st (or_introl Hc))
      as (x & Hx & Hs).
    unfold r. rewrite Hx. cbn. split; [|done]. split; [done|]. by intros [? _]. }
  destruct (readable (g_fs st) sid) eqn:Hr.
  - unfold readable in Hr. destruct (readSessionMeta (g_fs st) sid) as [m|] eqn:Hread; [|done].
    pose proof (submit_accepted JSON_parse cfg sid content imagePath now st m Hc Hread) as Hv.
    change (value _ st) with r.1.1 in Hv. rewrite Hv. cbn. split; [done|]. done.
  - destruct (submit_refused JSON_parse cfg sid content imagePath now st (or_intror Hr))
      as (x & Hx & Hs).
    unfold r. rewrite Hx. cbn. split; [|done]. split; [done|]. by intros [_ ?].
Qed.

Lemma with_run_none (rid : nat) (k : run → M unit) (st : gateway) :
  g_runs st !! rid = None → with_run rid k st = (tt, st, []).
Proof. intros H. unfold with_run. cbv [mbind M_bind get_state]. by rewrite H. Qed.

Lemma with_run_some (rid : nat) (k : run → M unit) (st : gateway) (r : run) :
  g_runs st !! rid = Some r → k r st = (tt, st, []) → with_run rid k st = (tt, st, []).
Proof. intros H Hk. unfold with_run. cbv [mbind M_bind get_state]. by rewrite H, Hk. Qed.

Lemma finalizeRun_finished (JSON_parse : string → option json) (cfg : config)
    (rid : nat) (stopReason : string) (code : option Z) (now : string) (st : gateway) :
  (∀ r, g_runs st !! rid = Some r → r_finished r = true) →
  finalizeRun JSON_parse cfg rid stopReason code now st = (tt, st, []).
Proof.
  intros H. unfold finalizeRun. destruct (g_runs st !! rid) as [r|] eqn:Hr.
  - eapply with_run_some; [done|]. by rewrite (H r).
  - by apply with_run_none.
Qed.

Lemma on_close_finished (JSON_parse : string → option json) (cfg : config)
    (rid : nat) (code : option Z) (now : string) (st : gateway) :
  (∀ r, g_runs st !! rid = Some r → r_finished r = true) →
  on_close JSON_parse cfg rid code now st = (tt, st, []).
Proof.
  intros H. unfold on_close. destruct (g_runs st !! rid) as [r|] eqn:Hr.
  - eapply with_run_some; [done|]. destruct (r_spawned r); [|done].
    apply finalizeRun_finished. by rewrite Hr.
  - by apply with_run_none.
Qed.

Lemma a_finalize_finished (rid : nat) (stopReason : string) (e : eng) (k : skel) :
  e_runs (a_finalize rid stopReason e).1 !! rid = Some k → k_finished k = true.
Proof.
  unfold a_finalize. destruct (e_runs e !! rid) as [k0|] eqn:Hk; [|cbn; congruence].
  destruct (k_finished k0) eqn:Hf; cbn.
  - congruence.
  - rewrite list_lookup_alter_eq, Hk. cbn. by intros [= <-].
Qed.

Lemma proj_finished (st : gateway) (rid : nat) :
  (∀ k, e_runs (proj st) !! rid = Some k → k_finished k = true) →
  ∀ r, g_runs st !! rid = Some r → r_finished r = true.
Proof.
  intros H r Hr. apply (H (skel_of r)). cbn. by rewrite list_lookup_fmap, Hr.
Qed.

(** A run is finalized once.  When a turn is cancelled while the
    finalizer of its run is registered, the later exit of the child (its
    [close] event, with any exit code) finds the run finished: it appends no
    second [message_end], writes no sidecar and leaves the maps as they
    are. *)
Theorem exit_after_cancel_writes_nothing (JSON_parse : string → option json) (cfg : config)
    (st : gateway) (sid : string) (rid : nat) (clearQueue : bool) (now now' : string)
    (code : option Z) :
  codexFinalizeBySession st !! sid = Some rid →
  let st1 := (cancel JSON_parse cfg sid clearQueue now st).1.2 in
  on_close JSON_parse cfg rid code now' st1 = (tt, st1, []).
Proof.
  intros Hfin st1. apply on_close_finished, proj_finished.
  destruct (sim_cancel JSON_parse cfg sid clearQueue now st) as [[Hp _] _].
  change (exec _ st) with st1 in Hp. rewrite Hp. clear Hp.
  unfold a_cancel.
  set (e0 := if clearQueue then _ else proj st).
  assert (Hf0 : e_fins e0 !! sid = Some rid) by (unfold e0; by destruct clearQueue).
  rewrite Hf0. intros k.
  destruct (e_procs e0 !! sid);
    pose proof (a_finalize_finished rid "cancelled" e0 k) as H;
    destruct (a_finalize rid "cancelled" e0); exact H.
Qed.

Lemma exit_after_cancel_writes_nothing_witness :
  let st := (run_events JSON_parse_ref ex_cfg two_turns_trace (gateway_init new_session_fs)).1 in
  let st1 := (cancel JSON_parse_ref ex_cfg ex_sid false "t2" st).1.2 in
  on_close JSON_parse_ref ex_cfg 0 (Some 143) "t3" st1 = (tt, st1, []).
Proof.
  apply (exit_after_cancel_writes_nothing JSON_parse_ref ex_cfg _ ex_sid 0 false "t2" "t3"
           (Some 143)).
  vm_compute. reflexivity.
Defined.

(** ** The turn engine: the cursors of a turn's first records *)

Lemma createEventWriter_touch (JSON_parse : string → option json) (f f1 : fs) (sid : string)
    (w : writer) :
  createEventWriter JSON_parse f sid = Ok (f1, w) →
  createEventWriter JSON_parse f1 sid = Ok (f1, w).
Proof.
  unfold createEventWriter. destruct (getSessionPaths sid); [|done]. cbn.
  destruct (fs_meta f !! sid) as [m|] eqn:Hm; [|done]. intros [= <- <-].
  by rewrite touch_jsonl_meta, Hm, touch_jsonl_idem.
Qed.

Lemma emit_logs_cursor (JSON_parse : string → option json) (cfg : config)
    (sid : string) (st : gateway) (f1 : fs) (w : writer) :
  createEventWriter JSON_parse (g_fs st) sid = Ok (f1, w) →
  ∃ d, logs (emitCodexSessionMetaUpdate JSON_parse cfg sid) st
       = [ObsAppend sid (journal_record (w_cursor w + 1) "session_meta" d)].
Proof.
  intros Hw. unfold emitCodexSessionMetaUpdate. rewrite logs_bind.
  change (value get_state st) with st. change (exec get_state st) with st.
  change (logs get_state st) with (@nil obs).
  destruct (createEventWriter_sessionId JSON_parse _ _ _ _ Hw) as (Hs & [m Hm] & Hv & _).
  assert (Hread : readSessionMeta (g_fs st) sid = Ok m).
  { unfold readSessionMeta, getSessionPaths. rewrite Hv. cbn. by rewrite Hm. }
  rewrite Hread, Hw. rewrite !logs_bind, logs_append, Hs. cbn. eauto.
Qed.

(** The cursor of a turn's first record is not new.  When
    [startNextCodexTurn] starts a turn (the session is not active, a turn
    waits, the sidecar can be read, the executable exists), it opens the
    writer of the run, then [emitCodexSessionMetaUpdate] opens a writer of
    its own from the same sidecar: the [session_meta] record and the
    [message_start] of the assistant message are appended, in this order,
    with the same cursor, one above the cursor the writer was opened
    with. *)
Theorem turn_start_repeats_cursor (JSON_parse : string → option json) (cfg : config)
    (st : gateway) (sid now : string) (t : turn) (queue : list turn) (m : meta) :
  sid ∉ activeCodexRuns st →
  codexQueueBySession st !! sid = Some (t :: queue) →
  readSessionMeta (g_fs st) sid = Ok m →
  ∃ f1 w d1 d2,
    createEventWriter JSON_parse (g_fs st) sid = Ok (f1, w)
    ∧ appends_to sid (startNextCodexTurn JSON_parse cfg sid now true st).2
      = [ journal_record (w_cursor w + 1) "session_meta" d1;
          journal_record (w_cursor w + 1) "message_start" d2 ]
    ∧ map record_cursor (appends_to sid (startNextCodexTurn JSON_parse cfg sid now true st).2)
      = [w_cursor w + 1; w_cursor w + 1].
Proof.
  intros Hact Hq Hread.
  destruct (createEventWriter_ok JSON_parse _ _ _ Hread) as (w & Hw & Hws).
  change ((startNextCodexTurn JSON_parse cfg sid now true st).2)
    with (logs (startNextCodexTurn JSON_parse cfg sid now true) st).
  unfold startNextCodexTurn. rewrite logs_bind.
  change (value get_state st) with st. change (exec get_state st) with st.
  change (logs get_state st) with (@nil obs).
  rewrite bool_decide_eq_false_2 by done. rewrite Hq.
  change (default [] (Some (t :: queue))) with (t :: queue). cbn [app].
  rewrite logs_bind, Hread, Hw. rewrite !logs_bind, ?exec_bind.
  rewrite ?logs_modify, ?exec_modify, ?logs_newId, ?exec_newId, ?logs_tell, ?exec_tell.
  match goal with |- context [logs (emitCodexSessionMetaUpdate _ _ sid) ?X] =>
    destruct (emit_logs_cursor JSON_parse cfg sid X (touch_jsonl sid (g_fs st)) w) as [d1 ->]
  end.
  { cbn [g_fs set_fs set_active set_finalizers set_runs set_next_id set_queues].
    by apply createEventWriter_touch with (f := g_fs st). }
  cbn [negb]. rewrite !logs_bind.
  rewrite logs_append.
  cbv beta iota. rewrite ?logs_bind, ?logs_modify, ?logs_tell.
  unfold update_run. rewrite ?logs_modify.
  eexists _, w, d1, _. split; [reflexivity|].
  cbn [app]. unfold appends_to. cbn [omap list_omap]. rewrite Hws, String.eqb_refl.
  split; [reflexivity|].
  cbn [map]. unfold record_cursor. by rewrite !entry_cursor_journal_record.
Qed.

Lemma turn_start_repeats_cursor_witness :
  let t := {| turn_prompt := "hi"; turn_content := "hi"; turn_imagePath := None;
              turn_userMessageId := "id-0" |} in
  let st := {| g_fs := ex_fs; activeCodexRuns := ∅; codexProcBySession := ∅;
               codexFinalizeBySession := ∅; codexQueueBySession := {[ ex_sid := [t] ]};
               g_runs := []; g_next_id := 1 |} in
  ∃ f1 w d1 d2,
    createEventWriter JSON_parse_ref (g_fs st) ex_sid = Ok (f1, w)
    ∧ appends_to ex_sid (startNextCodexTurn JSON_parse_ref ex_cfg ex_sid "t1" true st).2
      = [ journal_record (w_cursor w + 1) "session_meta" d1;
          journal_record (w_cursor w + 1) "message_start" d2 ]
    ∧ map record_cursor
          (appends_to ex_sid (startNextCodexTurn JSON_parse_ref ex_cfg ex_sid "t1" true st).2)
      = [w_cursor w + 1; w_cursor w + 1].
Proof.
  intros t st.
  apply (turn_start_repeats_cursor JSON_parse_ref ex_cfg st ex_sid "t1" t [] ex_meta).
  - apply not_elem_of_empty.
  - apply lookup_singleton_eq.
  - vm_compute. reflexivity.
Defined.

(** ** The turn engine: sidecars stay, and no turn is lost *)

Lemma fs_ext_refl (f : fs) : fs_ext f f.
Proof. by intros sid. Qed.

Lemma fs_ext_trans (f g h : fs) : fs_ext f g → fs_ext g h → fs_ext f h.
Proof. intros H1 H2 sid H. by apply H2, H1. Qed.

Lemma fs_ext_set_jsonl (f : fs) (sid text : string) : fs_ext f (set_jsonl sid text f).
Proof. by intros s. Qed.

Lemma fs_ext_set_meta (f : fs) (sid : string) (m : meta) : fs_ext f (set_meta sid m f).
Proof.
  intros s H. cbn. destruct (decide (s = sid)) as [->|Hne].
  - by rewrite lookup_insert_eq.
  - by rewrite lookup_insert_ne.
Qed.

Lemma fs_ext_touch (f : fs) (sid : string) : fs_ext f (touch_jsonl sid f).
Proof. intros s. by rewrite touch_jsonl_meta. Qed.

Lemma ext_ret {A : Type} (f : fs) (a : A) : ext f (mret a).
Proof. by intros st. Qed.

Lemma ext_bind {A B : Type} (f : fs) (m : M A) (k : A → M B) :
  ext f m → (∀ a, ext f (k a)) → ext f (m ≫= k).
Proof. intros Hm Hk st H. rewrite exec_bind. by apply Hk, Hm. Qed.

Lemma ext_get {B : Type} (f : fs) (k : gateway → M B) :
  (∀ s, fs_ext f (g_fs s) → ext f (k s)) → ext f (get_state ≫= k).
Proof. intros Hk st H. rewrite exec_bind. by apply Hk. Qed.

Lemma ext_if {A : Type} (f : fs) (b : bool) (m1 m2 : M A) :
  ext f m1 → ext f m2 → ext f (if b then m1 else m2).
Proof. by destruct b. Qed.

Lemma ext_modify (f : fs) (g : gateway → gateway) :
  (∀ st, g_fs (g st) = g_fs st) → ext f (modify g).
Proof. intros Hg st H. rewrite exec_modify. by rewrite Hg. Qed.

Lemma ext_set_fs (f f1 : fs) : fs_ext f f1 → ext f (modify (set_fs f1)).
Proof. by intros H st _. Qed.

Lemma ext_tell (f : fs) (o : list obs) : ext f (tell o).
Proof. by intros st. Qed.

Lemma ext_update_run (f : fs) (rid : nat) (g : run → run) : ext f (update_run rid g).
Proof. by apply ext_modify. Qed.

Lemma ext_newId (f : fs) : ext f newId.
Proof. by intros st. Qed.

Lemma ext_append (f : fs) (w : writer) (event : string) (data : json) :
  ext f (append w event data).
Proof. intros st H. eapply fs_ext_trans; [exact H|]. apply fs_ext_set_jsonl. Qed.

Lemma ext_commit (f : fs) (w : writer) (updates : meta) : ext f (commit w updates).
Proof. intros st H. eapply fs_ext_trans; [exact H|]. apply fs_ext_set_meta. Qed.

Lemma ext_with_run (f : fs) (rid : nat) (k : run → M unit) :
  (∀ r, ext f (k r)) → ext f (with_run rid k).
Proof.
  intros Hk. apply ext_get. intros s _. destruct (g_runs s !! rid); [apply Hk|apply ext_ret].
Qed.

Section SidecarsStay.

Context (JSON_parse : string → option json) (cfg : config).

Lemma ext_opened (f f0 f1 : fs) (sid : string) (w : writer) :
  fs_ext f f0 → createEventWriter JSON_parse f0 sid = Ok (f1, w) → ext f (modify (set_fs f1)).
Proof.
  intros H Hw. apply ext_set_fs.
  apply createEventWriter_sessionId in Hw as (_ & _ & _ & -> & _).
  eapply fs_ext_trans; [exact H|apply fs_ext_touch].
Qed.

Ltac ext_basic :=
  lazymatch goal with
  | |- ext _ (mret _) => apply ext_ret
  | |- ext _ (tell _) => apply ext_tell
  | |- ext _ newId => apply ext_newId
  | |- ext _ (append _ _ _) => apply ext_append
  | |- ext _ (commit _ _) => apply ext_commit
  | |- ext _ (update_run _ _) => apply ext_update_run
  | |- ext _ (modify _) => apply ext_modify; intros ?; reflexivity
  | |- ext _ (with_run _ _) => apply ext_with_run; intros ?
  | |- ext _ (_ ≫= _) => apply ext_bind; [|intros ?]
  | |- ext _ (if _ then _ else _) => apply ext_if
  | |- ext _ (let '(_, _) := ?x in _) => destruct x
  end.

Lemma ext_emit (f : fs) (sid : string) : ext f (emitCodexSessionMetaUpdate JSON_parse cfg sid).
Proof.
  unfold emitCodexSessionMetaUpdate. apply ext_get. intros s Hs.
  destruct (readSessionMeta _ _); [|apply ext_ret].
  destruct (createEventWriter _ _ _) as [[f1 w]|] eqn:Hw; [|apply ext_ret].
  apply ext_bind; [by eapply ext_opened|]. intros _. cbv zeta. repeat ext_basic.
Qed.

Lemma ext_append_block (f : fs) (rid : nat) (block : json) : ext f (append_block rid block).
Proof. unfold append_block. repeat ext_basic. Qed.

Ltac ext_blocks :=
  first [ lazymatch goal with
          | |- ext _ (emitCodexSessionMetaUpdate _ _ _) => apply ext_emit
          | |- ext _ (append_block _ _) => apply ext_append_block
          | |- ext _ (appendAssistantText _ _) => apply ext_append_block
          end
        | ext_basic ].

Lemma ext_finalizeRun (f : fs) (rid : nat) (stopReason : string) (code : option Z)
    (now : string) :
  ext f (finalizeRun JSON_parse cfg rid stopReason code now).
Proof. unfold finalizeRun. repeat ext_blocks. Qed.

Ltac ext_tac :=
  repeat first [ lazymatch goal with
                 | |- ext _ (finalizeRun _ _ _ _ _ _) => apply ext_finalizeRun
                 end
               | ext_blocks ].

Lemma ext_startNextCodexTurn (f : fs) (sid now : string) (bin_ok : bool) :
  ext f (startNextCodexTurn JSON_parse cfg sid now bin_ok).
Proof.
  unfold startNextCodexTurn. apply ext_get. intros s Hs.
  apply ext_if; [apply ext_ret|].
  destruct (default [] _) as [|t queue]; [apply ext_ret|].
  apply ext_bind; [by apply ext_modify|]. intros _.
  destruct (readSessionMeta _ _); [|apply ext_ret].
  destruct (createEventWriter _ _ _) as [[f1 w]|] eqn:Hw; [|apply ext_ret].
  apply ext_bind; [by eapply ext_opened|]. intros _. cbv zeta. ext_tac.
Qed.

Lemma ext_on_stdout_line (f : fs) (rid : nat) (line : string) :
  ext f (on_stdout_line JSON_parse rid line).
Proof.
  unfold on_stdout_line. apply ext_with_run. intros r. apply ext_if; [apply ext_ret|].
  destruct (parse_entry JSON_parse line); [|apply ext_ret]. cbv zeta. ext_tac.
Qed.

Lemma ext_cancel (f : fs) (sid : string) (clearQueue : bool) (now : string) :
  ext f (cancel JSON_parse cfg sid clearQueue now).
Proof.
  unfold cancel. apply ext_bind; [apply ext_if; [by apply ext_modify|apply ext_ret]|].
  intros _. apply ext_get. intros s Hs. cbv zeta.
  destruct (codexProcBySession s !! sid), (codexFinalizeBySession s !! sid); ext_tac.
Qed.

Lemma ext_slash_command_text (f : fs) (sid : string) (m : meta) (trimmed : string) :
  ext f (slash_command_text cfg sid m trimmed).
Proof.
  unfold slash_command_text. apply ext_if; [apply ext_ret|]. cbv zeta.
  apply ext_if; [apply ext_ret|]. apply ext_bind; [|intros; apply ext_ret].
  intros st H. rewrite exec_modify. unfold writeSessionMeta.
  destruct (getSessionPaths sid); cbn; [|done].
  eapply fs_ext_trans; [exact H|apply fs_ext_set_meta].
Qed.

Lemma ext_submit (f : fs) (sid content : string) (imagePath : option string) (now : string) :
  ext f (submit JSON_parse cfg sid content imagePath now).
Proof.
  unfold submit. apply ext_if; [apply ext_ret|]. apply ext_get. intros s Hs.
  destruct (readSessionMeta _ _); [|apply ext_ret]. cbv zeta.
  apply ext_bind; [by apply ext_modify|]. intros _.
  destruct (createEventWriter _ _ _) as [[f1 w]|] eqn:Hw; [|apply ext_ret].
  apply ext_bind; [by eapply ext_opened|]. intros _.
  repeat first [ lazymatch goal with
                 | |- ext _ (slash_command_text _ _ _ _) => apply ext_slash_command_text
                 end
               | ext_blocks ].
Qed.

Lemma ext_step (f : fs) (ev : event) : ext f (step JSON_parse cfg ev).
Proof.
  destruct ev; cbn [step]; (apply ext_bind; [|intros; apply ext_ret]).
  - apply ext_submit.
  - apply ext_cancel.
  - apply ext_startNextCodexTurn.
  - apply ext_on_stdout_line.
  - unfold on_stderr. ext_tac.
  - unfold on_close. ext_tac.
  - unfold on_error. ext_tac.
Qed.

Lemma readable_step (ev : event) (st : gateway) (sid : string) :
  readable (g_fs st) sid = true → readable (g_fs (exec (step JSON_parse cfg ev) st)) sid = true.
Proof.
  unfold readable, readSessionMeta. destruct (getSessionPaths sid); cbn; [|done].
  destruct (fs_meta (g_fs st) !! sid) eqn:Hm; [|done]. intros _.
  destruct (ext_step (g_fs st) ev st (fs_ext_refl _) sid) as [m' ->]; done.
Qed.

End SidecarsStay.

Lemma a_step_conserve (sid : string) (st : gateway) (ev : event) (e : eng) :
  keeps_queue sid ev = true →
  (default [] (e_queues e !! sid) ≠ [] → readable (g_fs st) sid = true) →
  a_started sid (a_step st ev e).2 ++ default [] (e_queues (a_step st ev e).1 !! sid)
  = default [] (e_queues e !! sid) ++ a_enqueued sid (a_step st ev e).2
  ∧ (default [] (e_queues (a_step st ev e).1 !! sid) ≠ [] → readable (g_fs st) sid = true).
Proof.
  intros Hev Hread.
  set (q := default [] (e_queues e !! sid)) in *.
  assert (Hfin : ∀ rid stopReason e0,
            default [] (e_queues e0 !! sid) = q →
            a_started sid (a_finalize rid stopReason e0).2
            ++ default [] (e_queues (a_finalize rid stopReason e0).1 !! sid)
            = q ++ a_enqueued sid (a_finalize rid stopReason e0).2
            ∧ (default [] (e_queues (a_finalize rid stopReason e0).1 !! sid) ≠ []
               → readable (g_fs st) sid = true)).
  { intros rid stopReason e0 H0.
    destruct (a_finalize_queues rid stopReason e0 sid) as (-> & -> & ->).
    rewrite H0, app_nil_r. done. }
  assert (Hsame : [] ++ q = q ++ [] ∧ (q ≠ [] → readable (g_fs st) sid = true)).
  { by rewrite app_nil_r. }
  destruct ev as [s content imagePath now|s clearQueue now|s now bin_ok|rid line|rid text
                 |rid code now|rid message now]; cbn [a_step].
  - unfold a_submit. destruct (String.eqb content "" || negb (readable (g_fs st) s)) eqn:Hc;
      [exact Hsame|].
    apply orb_false_iff in Hc as [_ Hr%negb_false_iff].
    destruct (is_slash_command content); cbn [fst snd e_queues a_started a_enqueued omap list_omap].
    + destruct (decide (s = sid)) as [->|Hne].
      * rewrite lookup_insert_eq. exact Hsame.
      * rewrite lookup_insert_ne by done. exact Hsame.
    + destruct (String.eqb_spec s sid) as [->|Hne].
      * rewrite lookup_insert_eq. cbn. done.
      * rewrite lookup_insert_ne by done. exact Hsame.
  - unfold a_cancel.
    set (e0 := if clearQueue then _ else e).
    assert (H0 : default [] (e_queues e0 !! sid) = q).
    { unfold e0. destruct clearQueue; [|done]. cbn in Hev |- *.
      apply negb_true_iff, String.eqb_neq in Hev. by rewrite lookup_insert_ne. }
    clearbody e0.
    destruct (e_procs e0 !! s), (e_fins e0 !! s) as [rid|]; cbn [fst snd].
    1,3: specialize (Hfin rid "cancelled" e0 H0);
         by destruct (a_finalize rid "cancelled" e0).
    all: by rewrite H0.
  - unfold a_startNext.
    destruct (bool_decide (s ∈ e_active e)); [exact Hsame|].
    destruct (default [] (e_queues e !! s)) as [|t queue] eqn:Hq; [exact Hsame|].
    destruct (decide (s = sid)) as [->|Hne].
    + assert (Hr : readable (g_fs st) sid = true) by (apply Hread; unfold q; by rewrite Hq).
      rewrite Hr.
      set (e1 := {| e_active := {[sid]} ∪ e_active e; e_procs := e_procs e;
                    e_fins := <[sid := length (e_runs e)]> (e_fins e);
                    e_queues := <[sid := queue]> (e_queues e);
                    e_runs := e_runs e ++ [_]; e_next_id := S (e_next_id e) |}).
      assert (H1 : default [] (e_queues e1 !! sid) = queue)
        by (unfold e1; cbn; by rewrite lookup_insert_eq).
      assert (Hqq : q = t :: queue) by (unfold q; by rewrite Hq).
      clearbody e1. destruct bin_ok; cbn [fst snd].
      * cbn. rewrite String.eqb_refl, H1, Hqq, app_nil_r. done.
      * destruct (a_finalize_queues (length (e_runs e)) "error" e1 sid) as (Hq1 & Hs1 & He1).
        destruct (a_finalize (length (e_runs e)) "error" e1) as [e2 o]. cbn [fst snd] in *.
        change (AStart sid (length (e_runs e)) t :: o)
          with ([AStart sid (length (e_runs e)) t] ++ o).
        rewrite a_started_app, a_enqueued_app, Hs1, He1, Hq1, H1, Hqq, !app_nil_r.
        cbn. rewrite String.eqb_refl. done.
    + assert (Hs : String.eqb s sid = false) by by apply String.eqb_neq.
      destruct (readable (g_fs st) s).
      * set (e1 := {| e_active := {[s]} ∪ e_active e; e_procs := e_procs e;
                      e_fins := <[s := length (e_runs e)]> (e_fins e);
                      e_queues := <[s := queue]> (e_queues e);
                      e_runs := e_runs e ++ [_]; e_next_id := S (e_next_id e) |}).
        assert (H1 : default [] (e_queues e1 !! sid) = q)
          by (unfold e1; cbn; by rewrite lookup_insert_ne).
        clearbody e1. destruct bin_ok; cbn [fst snd].
        -- cbn. rewrite Hs, H1. exact Hsame.
        -- destruct (a_finalize_queues (length (e_runs e)) "error" e1 sid) as (Hq1 & Hs1 & He1).
           destruct (a_finalize (length (e_runs e)) "error" e1) as [e2 o]. cbn [fst snd] in *.
           change (AStart s (length (e_runs e)) t :: o)
             with ([AStart s (length (e_runs e)) t] ++ o).
           rewrite a_started_app, a_enqueued_app, Hs1, He1, Hq1, H1. cbn. rewrite Hs.
           exact Hsame.
      * cbn. rewrite lookup_insert_ne by done. exact Hsame.
  - exact Hsame.
  - exact Hsame.
  - unfold a_close. destruct (e_runs e !! rid) as [k|]; [|exact Hsame].
    destruct (k_spawned k); [by apply Hfin|exact Hsame].
  - unfold a_close. destruct (e_runs e !! rid) as [k|]; [|exact Hsame].
    destruct (k_spawned k); [by apply Hfin|exact Hsame].
Qed.

Section NoTurnLost.

Context (JSON_parse : string → option json) (cfg : config).

Lemma conserve_run_events (sid : string) (evs : list event) (st : gateway) (log : list aobs) :
  forallb (keeps_queue sid) evs = true →
  (default [] (e_queues (proj st) !! sid) ≠ [] → readable (g_fs st) sid = true) →
  a_enqueued sid log = a_started sid log ++ default [] (e_queues (proj st) !! sid) →
  let r := run_events JSON_parse cfg evs st in
  a_enqueued sid (log ++ abs_log r.2)
  = a_started sid (log ++ abs_log r.2) ++ default [] (e_queues (proj r.1) !! sid).
Proof.
  revert st log. induction evs as [|ev evs IH]; intros st log Hevs Hread Hlog.
  - cbn. by rewrite app_nil_r.
  - cbn [forallb] in Hevs. apply andb_true_iff in Hevs as [Hev Hevs].
    rewrite run_events_cons. cbn [fst snd]. rewrite abs_log_app, app_assoc.
    destruct (sim_step JSON_parse cfg ev st) as [Hp Hl].
    destruct (a_step_conserve sid st ev (proj st) Hev Hread) as [Hc Hr].
    apply IH; [done| |].
    + rewrite Hp. intros Hq. by apply readable_step, Hr.
    + rewrite Hp, Hl, a_enqueued_app, a_started_app, Hlog, <- !app_assoc. by rewrite Hc.
Qed.

End NoTurnLost.

(** ** The turn engine: turns are started from the head of the queue *)

Lemma a_step_suffix (sid : string) (st : gateway) (ev : event) (e : eng) :
  (default [] (e_queues e !! sid) ≠ [] → readable (g_fs st) sid = true) →
  (∃ gone, default [] (e_queues e !! sid) ++ a_enqueued sid (a_step st ev e).2
           = gone ++ default [] (e_queues (a_step st ev e).1 !! sid))
  ∧ (default [] (e_queues (a_step st ev e).1 !! sid) ≠ [] → readable (g_fs st) sid = true).
Proof.
  intros Hread.
  set (q := default [] (e_queues e !! sid)) in *.
  assert (Hsame : (∃ gone, q ++ [] = gone ++ q) ∧ (q ≠ [] → readable (g_fs st) sid = true)).
  { split; [|done]. exists []. by rewrite app_nil_r. }
  assert (Hfin : ∀ rid stopReason e0 g0,
            q = g0 ++ default [] (e_queues e0 !! sid) →
            (∃ gone, q ++ a_enqueued sid (a_finalize rid stopReason e0).2
                     = gone ++ default [] (e_queues (a_finalize rid stopReason e0).1 !! sid))
            ∧ (default [] (e_queues (a_finalize rid stopReason e0).1 !! sid) ≠ []
               → readable (g_fs st) sid = true)).
  { intros rid stopReason e0 g0 H0.
    destruct (a_finalize_queues rid stopReason e0 sid) as (-> & _ & ->).
    split; [exists g0; by rewrite app_nil_r|].
    intros Hq. apply Hread. rewrite H0. by destruct g0, (default [] (e_queues e0 !! sid)). }
  destruct ev as [s content imagePath now|s clearQueue now|s now bin_ok|rid line|rid text
                 |rid code now|rid message now]; cbn [a_step].
  - unfold a_submit. destruct (String.eqb content "" || negb (readable (g_fs st) s)) eqn:Hc;
      [exact Hsame|].
    apply orb_false_iff in Hc as [_ Hr%negb_false_iff].
    destruct (is_slash_command content); cbn [fst snd e_queues a_enqueued omap list_omap].
    + destruct (decide (s = sid)) as [->|Hne].
      * rewrite lookup_insert_eq. exact Hsame.
      * rewrite lookup_insert_ne by done. exact Hsame.
    + destruct (String.eqb_spec s sid) as [->|Hne].
      * rewrite lookup_insert_eq. cbn. split; [by exists []|done].
      * rewrite lookup_insert_ne by done. exact Hsame.
  - unfold a_cancel.
    set (e0 := if clearQueue then _ else e).
    assert (H0 : ∃ g0, q = g0 ++ default [] (e_queues e0 !! sid)).
    { unfold e0. destruct clearQueue; [|by exists []]. cbn.
      destruct (decide (s = sid)) as [->|Hne].
      - rewrite lookup_insert_eq. exists q. by rewrite app_nil_r.
      - rewrite lookup_insert_ne by done. by exists []. }
    destruct H0 as [g0 H0]. clearbody e0.
    destruct (e_procs e0 !! s), (e_fins e0 !! s) as [rid|]; cbn [fst snd].
    1,3: specialize (Hfin rid "cancelled" e0 g0 H0);
         by destruct (a_finalize rid "cancelled" e0).
    all: (split; [exists g0; by rewrite app_nil_r|]);
         intros Hq; apply Hread; rewrite H0;
         by destruct g0, (default [] (e_queues e0 !! sid)).
  - unfold a_startNext.
    destruct (bool_decide (s ∈ e_active e)); [exact Hsame|].
    destruct (default [] (e_queues e !! s)) as [|t queue] eqn:Hq; [exact Hsame|].
    assert (Hshift : ∀ e1 q1, e_queues e1 = <[s := queue]> (e_queues e) →
              q1 = default [] (e_queues e1 !! sid) →
              ∃ g0, q = g0 ++ q1).
    { intros e1 q1 -> ->. destruct (decide (s = sid)) as [->|Hne].
      - rewrite lookup_insert_eq. exists [t]. unfold q. by rewrite Hq.
      - rewrite lookup_insert_ne by done. by exists []. }
    assert (Hback : ∀ g0 q1, q = g0 ++ q1 → q1 ≠ [] → readable (g_fs st) sid = true).
    { intros g0 q1 H0 Hq1. apply Hread. rewrite H0. by destruct g0, q1. }
    destruct (readable (g_fs st) s).
    + set (e1 := {| e_active := {[s]} ∪ e_active e; e_procs := e_procs e;
                    e_fins := <[s := length (e_runs e)]> (e_fins e);
                    e_queues := <[s := queue]> (e_queues e);
                    e_runs := e_runs e ++ [_]; e_next_id := S (e_next_id e) |}).
      destruct (Hshift e1 _ eq_refl eq_refl) as [g0 H0].
      clearbody e1. destruct bin_ok; cbn [fst snd].
      * cbn [a_enqueued omap list_omap e_queues]. split; [exists g0; by rewrite app_nil_r|].
        by apply Hback with g0.
      * destruct (a_finalize_queues (length (e_runs e)) "error" e1 sid) as (Hq1 & Hs1 & He1).
        destruct (a_finalize (length (e_runs e)) "error" e1) as [e2 o]. cbn [fst snd] in *.
        change (AStart s (length (e_runs e)) t :: o)
          with ([AStart s (length (e_runs e)) t] ++ o).
        rewrite a_enqueued_app, He1, Hq1. cbn [a_enqueued omap list_omap app].
        split; [exists g0; by rewrite app_nil_r|]. by apply Hback with g0.
    + cbn [fst snd e_queues a_enqueued omap list_omap].
      destruct (Hshift {| e_active := e_active e; e_procs := e_procs e; e_fins := e_fins e;
                          e_queues := <[s := queue]> (e_queues e);
                          e_runs := e_runs e; e_next_id := e_next_id e |} _ eq_refl eq_refl)
        as [g0 H0].
      cbn [e_queues] in H0.
      split; [exists g0; by rewrite app_nil_r|]. by apply Hback with g0.
  - exact Hsame.
  - exact Hsame.
  - unfold a_close. destruct (e_runs e !! rid) as [k|]; [|exact Hsame].
    destruct (k_spawned k); [by apply (Hfin _ _ _ [])|exact Hsame].
  - unfold a_close. destruct (e_runs e !! rid) as [k|]; [|exact Hsame].
    destruct (k_spawned k); [by apply (Hfin _ _ _ [])|exact Hsame].
Qed.

Section QueueOrder.

Context (JSON_parse : string → option json) (cfg : config).

Lemma suffix_run_events (sid : string) (evs : list event) (st : gateway) (log : list aobs) :
  (default [] (e_queues (proj st) !! sid) ≠ [] → readable (g_fs st) sid = true) →
  (∃ gone, a_enqueued sid log = gone ++ default [] (e_queues (proj st) !! sid)) →
  let r := run_events JSON_parse cfg evs st in
  (∃ gone, a_enqueued sid (log ++ abs_log r.2)
           = gone ++ default [] (e_queues (proj r.1) !! sid))
  ∧ (default [] (e_queues (proj r.1) !! sid) ≠ [] → readable (g_fs r.1) sid = true).
Proof.
  revert st log. induction evs as [|ev evs IH]; intros st log Hread [gone Hlog].
  - cbn. rewrite app_nil_r. split; [by exists gone|done].
  - rewrite run_events_cons. cbn [fst snd]. rewrite abs_log_app, app_assoc.
    destruct (sim_step JSON_parse cfg ev st) as [Hp Hl].
    destruct (a_step_suffix sid st ev (proj st) Hread) as [[g Hg] Hr].
    apply IH.
    + rewrite Hp. intros Hq. by apply readable_step, Hr.
    + exists (gone ++ g). rewrite Hp, Hl, a_enqueued_app, Hlog, <- !app_assoc. by rewrite Hg.
Qed.

(** [startNextCodexTurn] for a session that is not active and whose sidecar
    can be read takes the turn at the head of the queue. *)
Lemma startNext_takes_head (st : gateway) (sid now : string) (bin_ok : bool)
    (t : turn) (rest : list turn) :
  sid ∉ activeCodexRuns st → queue_of st sid = t :: rest → readable (g_fs st) sid = true →
  let r := startNextCodexTurn JSON_parse cfg sid now bin_ok st in
  started_turns sid r.2 = [t]
  ∧ queue_of r.1.2 sid = rest
  ∧ ∃ run, g_runs r.1.2 !! length (g_runs st) = Some run
           ∧ r_sessionId run = sid ∧ r_turn run = t ∧ r_finished run = negb bin_ok.
Proof.
  intros Hact Hq Hread r.
  destruct (sim_startNextCodexTurn JSON_parse cfg sid now bin_ok st) as [Hp Hl].
  fold (exec (startNextCodexTurn JSON_parse cfg sid now bin_ok) st) in *.
  change r.2 with (logs (startNextCodexTurn JSON_parse cfg sid now bin_ok) st).
  change r.1.2 with (exec (startNextCodexTurn JSON_parse cfg sid now bin_ok) st).
  clearbody r. clear r.
  set (st' := exec (startNextCodexTurn JSON_parse cfg sid now bin_ok) st) in *.
  rewrite started_turns_abs, Hl. unfold queue_of in *.
  change (codexQueueBySession st') with (e_queues (proj st')).
  assert (Hruns : ∀ k, e_runs (proj st') !! length (g_runs st) = Some k →
            ∃ run, g_runs st' !! length (g_runs st) = Some run
                   ∧ r_sessionId run = k_sessionId k ∧ r_turn run = k_turn k
                   ∧ r_finished run = k_finished k).
  { intros k Hk. cbn in Hk. rewrite list_lookup_fmap in Hk.
    destruct (g_runs st' !! length (g_runs st)) as [run|]; [|done].
    exists run. by simplify_eq/=. }
  rewrite Hp in *. clearbody st'. clear Hp Hl.
  unfold a_startNext in *. cbn [proj e_active e_queues e_runs] in *.
  rewrite bool_decide_eq_false_2, Hq, Hread in * by done.
  rewrite length_fmap in *.
  set (k0 := {| k_sessionId := sid; k_turn := t; k_writerSession := sid;
                k_finished := false; k_spawned := false |}) in *.
  destruct bin_ok.
  - cbn [fst snd e_queues e_runs a_started omap list_omap] in *.
    rewrite String.eqb_refl, lookup_insert_eq. repeat split; [done..|].
    destruct (Hruns (spawned k0)) as (run & ? & ? & ? & ?); [|by exists run].
    rewrite list_lookup_alter_eq, lookup_app_r, length_fmap, Nat.sub_diag by
      (rewrite length_fmap; lia).
    done.
  - set (e1 := {| e_active := _; e_procs := _; e_fins := _; e_queues := _;
                  e_runs := (skel_of <$> g_runs st) ++ [k0]; e_next_id := _ |}) in *.
    assert (Hk0 : e_runs e1 !! length (g_runs st) = Some k0).
    { cbn. by rewrite lookup_app_r, length_fmap, Nat.sub_diag by (rewrite length_fmap; lia). }
    assert (Hq1 : default [] (e_queues e1 !! sid) = rest).
    { cbn. by rewrite lookup_insert_eq. }
    destruct (a_finalize_queues (length (g_runs st)) "error" e1 sid) as (Hqf & Hsf & _).
    assert (Hrf : e_runs (a_finalize (length (g_runs st)) "error" e1).1 !! length (g_runs st)
                  = Some (finish k0)).
    { unfold a_finalize. rewrite Hk0. cbn [k_finished k0 fst e_runs].
      by rewrite list_lookup_alter_eq, Hk0. }
    clearbody e1.
    destruct (a_finalize (length (g_runs st)) "error" e1) as [e2 o]. cbn [fst snd] in *.
    change (AStart sid (length (g_runs st)) t :: o)
      with ([AStart sid (length (g_runs st)) t] ++ o).
    rewrite a_started_app, Hsf, Hqf, Hq1. cbn [a_started omap list_omap app].
    rewrite String.eqb_refl. repeat split; [done..|].
    destruct (Hruns (finish k0) Hrf) as (run & ? & ? & ? & ?). by exists run.
Qed.

End QueueOrder.

(** C4: in every state the engine reaches, a session has at most one turn
    that was started and is not finalized, and its id is then in the active
    set; [startNextCodexTurn] does nothing for a session in the active set,
    and for a session that is not active and has turns waiting it takes
    the turn at the head of the queue: this turn, and no other, is started,
    and the rest of the queue waits.  The queue is the end of the list of
    the turns [submit] pushed, in the order it pushed them, and the turns
    started so far are, in the order they were started, turns that came
    before it: all of them, unless a cancel has cleared the queue of the
    session (turns it removes are never started). *)
Theorem one_turn_at_a_time_in_queue_order (JSON_parse : string → option json) (cfg : config)
    (f0 : fs) (evs : list event) (sid : string) :
  let st := (run_events JSON_parse cfg evs (gateway_init f0)).1 in
  let log := (run_events JSON_parse cfg evs (gateway_init f0)).2 in
  (∀ rid1 rid2, running st rid1 sid → running st rid2 sid → rid1 = rid2)
  ∧ (∀ rid, running st rid sid → sid ∈ activeCodexRuns st)
  ∧ (∀ now bin_ok, sid ∈ activeCodexRuns st →
       startNextCodexTurn JSON_parse cfg sid now bin_ok st = (tt, st, []))
  ∧ (∀ now bin_ok t rest, sid ∉ activeCodexRuns st → queue_of st sid = t :: rest →
       let r := startNextCodexTurn JSON_parse cfg sid now bin_ok st in
       started_turns sid r.2 = [t]
       ∧ queue_of r.1.2 sid = rest
       ∧ ∃ run, g_runs r.1.2 !! length (g_runs st) = Some run
                ∧ r_sessionId run = sid ∧ r_turn run = t ∧ r_finished run = negb bin_ok)
  ∧ (∃ gone, enqueued_turns sid log = gone ++ queue_of st sid
             ∧ started_turns sid log `sublist_of` gone
             ∧ (forallb (keeps_queue sid) evs = true → gone = started_turns sid log)).
Proof.
  intros st log.
  assert (Hinv : eng_inv (proj st)) by apply eng_inv_run_events, eng_inv_init.
  destruct (suffix_run_events JSON_parse cfg sid evs (gateway_init f0) [])
    as [[gone Hgone] Hread]; [done|by exists []|].
  cbn [app] in Hgone. fold st in Hread, Hgone. fold log in Hgone.
  rewrite <- enqueued_turns_abs in Hgone.
  change (default [] (e_queues (proj st) !! sid)) with (queue_of st sid) in *.
  split; [|split; [|split; [|split]]].
  - intros rid1 rid2 H1%running_unfinished H2%running_unfinished.
    apply (inv_running _ Hinv) in H1 as [_ H1]. apply (inv_running _ Hinv) in H2 as [_ H2].
    congruence.
  - intros rid H%running_unfinished. by apply (inv_running _ Hinv) in H as [H _].
  - intros now bin_ok Hact. unfold startNextCodexTurn. cbv [mbind M_bind get_state].
    by rewrite bool_decide_eq_true_2.
  - intros now bin_ok t rest Hact Hq. apply startNext_takes_head; [done..|].
    apply Hread. by rewrite Hq.
  - exists gone. split; [done|]. split.
    + apply (sublist_app_inv_r (queue_of st sid)). rewrite <- Hgone.
      rewrite started_turns_abs, enqueued_turns_abs.
      apply (fifo_run_events JSON_parse cfg sid evs (gateway_init f0) []). apply sublist_nil_l.
    + intros Hevs. apply (app_inv_tail (queue_of st sid)). rewrite <- Hgone.
      rewrite started_turns_abs, enqueued_turns_abs.
      apply (conserve_run_events JSON_parse cfg sid evs (gateway_init f0) []); done.
Qed.

(** Two turns wait and the session is not active: the start takes the
    first. *)
Example head_of_queue_is_started :
  let st := (run_events JSON_parse_ref ex_cfg (take 2 turns_in_order_trace)
               (gateway_init new_session_fs)).1 in
  let r := startNextCodexTurn JSON_parse_ref ex_cfg ex_sid "t1" true st in
  bool_decide (ex_sid ∈ activeCodexRuns st) = false
  ∧ map turn_content (queue_of st ex_sid) = ["first"; "second"]
  ∧ map turn_content (started_turns ex_sid r.2) = ["first"]
  ∧ map turn_content (queue_of r.1.2 ex_sid) = ["second"].
Proof. vm_compute. done. Qed.

(** No turn is lost.  As long as no cancel clears the queue of a session,
    the turns [submit] pushed on it are, in the order they were pushed, the
    turns that were started followed by the turns that still wait: every
    accepted message is started or waiting, none twice, whatever else the
    gateway is asked to do. *)
Theorem no_turn_lost (JSON_parse : string → option json) (cfg : config)
    (f0 : fs) (evs : list event) (sid : string) :
  forallb (keeps_queue sid) evs = true →
  let r := run_events JSON_parse cfg evs (gateway_init f0) in
  enqueued_turns sid r.2 = started_turns sid r.2 ++ queue_of r.1 sid.
Proof.
  intros Hevs r. rewrite started_turns_abs, enqueued_turns_abs.
  apply (conserve_run_events JSON_parse cfg sid evs (gateway_init f0) []); done.
Qed.

Lemma no_turn_lost_witness :
  let r := run_events JSON_parse_ref ex_cfg turns_in_order_trace (gateway_init new_session_fs) in
  enqueued_turns ex_sid r.2 = started_turns ex_sid r.2 ++ queue_of r.1 ex_sid.
Proof.
  apply (no_turn_lost JSON_parse_ref ex_cfg new_session_fs turns_in_order_trace ex_sid).
  reflexivity.
Defined.

(** ** The turn engine: a turn that ends without output *)

Lemma append_block_run (rid : nat) (block : json) (st : gateway) (r : run) :
  g_runs st !! rid = Some r →
  logs (append_block rid block) st
  = [ObsAppend (w_sessionId (r_writer r))
       (journal_record (w_cursor (r_writer r) + 1) "content_block"
          (JObj [ ("messageId", JStr (r_assistantMessageId r));
                  ("index", JNum (r_blockIndex r)); ("block", block) ]))]
  ∧ g_runs (exec (append_block rid block) st)
    = alter (fun r' => set_blockIndex (r_blockIndex r' + 1)
                         (set_writer {| w_sessionId := w_sessionId (r_writer r);
                                        w_meta := w_meta (r_writer r);
                                        w_cursor := w_cursor (r_writer r) + 1 |}
                                     (w_cursor (r_writer r) + 1) r'))
            rid (g_runs st).
Proof.
  intros Hr. unfold append_block.
  match goal with |- context [with_run rid ?k] => destruct (run_with_run rid k st) as [-> ->] end.
  rewrite Hr. rewrite logs_bind, exec_bind, value_append, logs_append. cbv beta iota.
  unfold update_run. rewrite logs_modify, exec_modify, app_nil_r. done.
Qed.

Lemma starts_with_append (p s : string) : starts_with p (p +:+ s) = true.
Proof.
  unfold starts_with. induction p as [|a p IH]; [by destruct s|].
  rewrite append_cons. cbn. by destruct (ascii_dec a a).
Qed.

Section TurnWithoutOutput.

Context (JSON_parse : string → option json) (cfg : config).

Lemma finalize_tail (rid : nat) (stopReason now : string) (st : gateway) (r2 : run) :
  g_runs st !! rid = Some r2 →
  ∃ rest,
    logs (with_run rid (fun r2 =>
        '(w, lastCursor) ← append (r_writer r2) "message_end"
          (JObj [ ("id", JStr (r_assistantMessageId r2)); ("stopReason", JStr stopReason) ]);
        let model := effective_model cfg (r_sessionMeta r2) in
        let '(usageSummary, contextInfo) := cfg_usage cfg model (r_latestUsage r2) in
        let preview :=
          if String.eqb (r_assistantPreview r2) "" then turn_content (r_turn r2)
          else r_assistantPreview r2 in
        let latestThreadId :=
          if String.eqb (r_latestThreadId r2) ""
          then js_or (w_meta w !! "latestThreadId") (JStr "")
          else JStr (r_latestThreadId r2) in
        w' ← commit w
          (<["lastMessageAt" := JStr now]>
          (<["lastMessagePreview" := JStr (js_slice_to 120 preview)]>
          (<["messageCount" := JNum lastCursor]>
          (<["latestThreadId" := latestThreadId]>
          (<["model" := model]>
          (<["usage" := usageSummary]>
          (<["contextInfo" := contextInfo]> ∅)))))));
        update_run rid (set_writer w' lastCursor);;
        modify (fun st => set_procs (delete (r_sessionId r2) (codexProcBySession st)) st);;
        modify (fun st => set_finalizers (delete (r_sessionId r2) (codexFinalizeBySession st)) st);;
        modify (fun st => set_active (activeCodexRuns st ∖ {[r_sessionId r2]}) st);;
        emitCodexSessionMetaUpdate JSON_parse cfg (r_sessionId r2);;
        tell [ObsSetImmediate (r_sessionId r2)])) st
    = ObsAppend (w_sessionId (r_writer r2))
        (journal_record (w_cursor (r_writer r2) + 1) "message_end"
           (JObj [ ("id", JStr (r_assistantMessageId r2)); ("stopReason", JStr stopReason) ]))
      :: rest
    ∧ forallb is_meta_or_schedule rest = true.
Proof.
  intros Hr.
  match goal with |- context [with_run rid ?k] => destruct (run_with_run rid k st) as [_ ->] end.
  rewrite Hr, logs_bind, logs_append, value_append. cbv beta iota zeta.
  destruct (cfg_usage cfg _ _) as [usageSummary contextInfo].
  rewrite !logs_bind, logs_commit, !logs_modify, logs_tell. unfold update_run at 1.
  rewrite logs_modify. cbn [app]. eexists. split; [reflexivity|].
  rewrite forallb_app. apply andb_true_iff. split; [|done].
  match goal with |- context [logs (emitCodexSessionMetaUpdate _ _ ?s) ?X] =>
    destruct (emit_logs JSON_parse cfg s X) as [->|(c & d & ->)] end; done.
Qed.

End TurnWithoutOutput.

(** A turn that fails or is cancelled before any block of its answer was
    written does not end empty.  [finalizeRun] with stop reason [error] or
    [cancelled] on a run that is not finished and has written no block
    appends one text block with index 0 (the text [Cancelled.], or one that
    starts with [Codex failed to produce a response (exit=]) and then the
    [message_end] with the stop reason, at the next two cursors of the
    run's writer; the rest of what it does is the [session_meta] record and
    the scheduling of the next turn. *)
Theorem turn_without_output_is_explained (JSON_parse : string → option json) (cfg : config)
    (rid : nat) (stopReason : string) (code : option Z)
    (now : string) (st : gateway) (r : run) :
  g_runs st !! rid = Some r → r_finished r = false → r_blockIndex r = 0 →
  stopReason = "error" ∨ stopReason = "cancelled" →
  ∃ text rest,
    logs (finalizeRun JSON_parse cfg rid stopReason code now) st
    = [ ObsAppend (w_sessionId (r_writer r))
          (journal_record (w_cursor (r_writer r) + 1) "content_block"
             (JObj [ ("messageId", JStr (r_assistantMessageId r)); ("index", JNum 0);
                     ("block", JObj [("type", JStr "text"); ("text", JStr text)]) ]));
        ObsAppend (w_sessionId (r_writer r))
          (journal_record (w_cursor (r_writer r) + 2) "message_end"
             (JObj [ ("id", JStr (r_assistantMessageId r));
                     ("stopReason", JStr stopReason) ])) ]
      ++ rest
    ∧ (stopReason = "cancelled" → text = "Cancelled.")
    ∧ (stopReason = "error" →
       starts_with "Codex failed to produce a response (exit=" text = true)
    ∧ forallb is_meta_or_schedule rest = true.
Proof.
  intros Hr Hfin Hbi Hstop. unfold finalizeRun.
  match goal with |- context [with_run rid ?k] => destruct (run_with_run rid k st) as [_ ->] end.
  rewrite Hr, Hfin. rewrite logs_bind.
  change (logs (update_run rid set_finished) st) with (@nil obs).
  change (exec (update_run rid set_finished) st)
    with (set_runs (alter set_finished rid (g_runs st)) st).
  cbn [app].
  set (st1 := set_runs (alter set_finished rid (g_runs st)) st).
  assert (Hr1 : g_runs st1 !! rid = Some (set_finished r)).
  { unfold st1. cbn. by rewrite list_lookup_alter_eq, Hr. }
  rewrite 2!logs_bind.
  destruct Hstop as [->| ->].
  - change (String.eqb "error" "error") with true. cbv iota zeta. rewrite Hbi.
    change (0 =? 0) with true. cbv iota. unfold appendAssistantText.
    match goal with |- context [append_block rid ?b] =>
      destruct (append_block_run rid b st1 _ Hr1) as [-> Hruns];
      set (st2 := exec (append_block rid b) st1) in *
    end.
    match goal with |- context [logs (with_run rid ?k) st2] =>
      destruct (run_with_run rid k st2) as [-> ->] end.
    rewrite Hruns, list_lookup_alter_eq, Hr1. cbn [fmap option_fmap option_map].
    change (String.eqb "error" "cancelled") with false. cbn [andb].
    change (exec (mret tt) st2) with st2. change (logs (mret tt) st2) with (@nil obs).
    cbn [app].
    edestruct (finalize_tail JSON_parse cfg rid "error" now st2) as (rest & Hlog & Hrest).
    { by rewrite Hruns, list_lookup_alter_eq, Hr1. }
    cbv iota zeta in Hlog. rewrite Hlog. clear Hlog.
    eexists _, rest. split.
    { cbn [set_finished set_writer set_blockIndex r_writer r_assistantMessageId r_blockIndex
           w_sessionId w_cursor app]. rewrite Hbi.
      replace (w_cursor (r_writer r) + 2) with (w_cursor (r_writer r) + 1 + 1) by lia.
      reflexivity. }
    split; [intros [=]|]. split; [intros _; apply starts_with_append|done].
  - change (String.eqb "cancelled" "error") with false. cbv iota zeta.
    change (exec (mret tt) st1) with st1. change (logs (mret tt) st1) with (@nil obs).
    cbn [app].
    match goal with |- context [logs (with_run rid ?k) st1] =>
      destruct (run_with_run rid k st1) as [-> ->] end.
    rewrite Hr1. cbn [set_finished r_blockIndex]. rewrite Hbi.
    change (String.eqb "cancelled" "cancelled" && (0 =? 0)) with true. cbv iota.
    unfold appendAssistantText.
    match goal with |- context [append_block rid ?b] =>
      destruct (append_block_run rid b st1 _ Hr1) as [-> Hruns];
      set (st2 := exec (append_block rid b) st1) in *
    end.
    edestruct (finalize_tail JSON_parse cfg rid "cancelled" now st2) as (rest & Hlog & Hrest).
    { by rewrite Hruns, list_lookup_alter_eq, Hr1. }
    cbv iota zeta in Hlog. rewrite Hlog. clear Hlog.
    eexists _, rest. split.
    { cbn [set_finished set_writer set_blockIndex r_writer r_assistantMessageId r_blockIndex
           w_sessionId w_cursor app]. rewrite Hbi.
      replace (w_cursor (r_writer r) + 2) with (w_cursor (r_writer r) + 1 + 1) by lia.
      reflexivity. }
    split; [intros _; reflexivity|]. split; [intros [=]|done].
Qed.

Lemma turn_without_output_is_explained_witness :
  let w := {| w_sessionId := ex_sid; w_meta := ex_meta; w_cursor := 2 |} in
  let r := {| r_sessionId := ex_sid;
              r_turn := {| turn_prompt := "hi"; turn_content := "hi"; turn_imagePath := None;
                           turn_userMessageId := "id-0" |};
              r_sessionMeta := ex_meta; r_writer := w; r_assistantMessageId := "id-1";
              r_blockIndex := 0; r_stderrBuf := ""; r_finished := false;
              r_assistantPreview := ""; r_latestThreadId := ""; r_latestUsage := None;
              r_lastCursor := 2; r_spawned := true; r_killed := false |} in
  let st := {| g_fs := ex_fs; activeCodexRuns := {[ ex_sid ]};
               codexProcBySession := {[ ex_sid := 0%nat ]};
               codexFinalizeBySession := {[ ex_sid := 0%nat ]};
               codexQueueBySession := {[ ex_sid := [] ]};
               g_runs := [r]; g_next_id := 2 |} in
  ∃ text rest,
    logs (finalizeRun JSON_parse_ref ex_cfg 0 "cancelled" None "t2") st
    = [ ObsAppend ex_sid
          (journal_record 3 "content_block"
             (JObj [ ("messageId", JStr "id-1"); ("index", JNum 0);
                     ("block", JObj [("type", JStr "text"); ("text", JStr text)]) ]));
        ObsAppend ex_sid
          (journal_record 4 "message_end"
             (JObj [ ("id", JStr "id-1"); ("stopReason", JStr "cancelled") ])) ]
      ++ rest
    ∧ (("cancelled" : string) = "cancelled" → text = "Cancelled.")
    ∧ (("cancelled" : string) = "error" →
       starts_with "Codex failed to produce a response (exit=" text = true)
    ∧ forallb is_meta_or_schedule rest = true.
Proof.
  intros w r st.
  apply (turn_without_output_is_explained JSON_parse_ref ex_cfg 0 "cancelled" None "t2" st r).
  - reflexivity.
  - reflexivity.
  - reflexivity.
  - by right.
Defined.

(** ** The turn engine: the buffer of the child's stderr *)

(** The ['data'] handler of the child's stderr keeps at most the last 8000
    code units: after a chunk that is not only white space, the buffer of a
    spawned run is a suffix of the old buffer followed by the chunk and is
    at most 8000 long; a chunk of white space only is dropped and leaves the
    buffer as it was.  Nothing is written to a journal. *)
Theorem stderr_buffer_bounded (rid : nat) (text : string) (st : gateway) (r : run) :
  g_runs st !! rid = Some r → r_spawned r = true →
  ∃ r',
    g_runs (on_stderr rid text st).1.2 !! rid = Some r'
    ∧ (on_stderr rid text st).2 = []
    ∧ (blank text = true → r' = r)
    ∧ (blank text = false →
       str_len (r_stderrBuf r') <= 8000
       ∧ ∃ dropped, r_stderrBuf r +:+ text = dropped +:+ r_stderrBuf r').
Proof.
  intros Hr Hs.
  change ((on_stderr rid text st).1.2) with (exec (on_stderr rid text) st).
  change ((on_stderr rid text st).2) with (logs (on_stderr rid text) st).
  unfold on_stderr.
  match goal with |- context [with_run rid ?k] => destruct (run_with_run rid k st) as [-> ->] end.
  rewrite Hr, Hs. cbn [negb orb].
  destruct (blank text) eqn:Hb.
  - exists r. by repeat split.
  - unfold update_run. rewrite exec_modify, logs_modify. cbn [g_runs set_runs].
    rewrite list_lookup_alter_eq, Hr. cbn [fmap option_fmap option_map].
    eexists. split; [reflexivity|]. split; [done|]. split; [done|]. intros _.
    cbn [r_stderrBuf set_stderrBuf].
    change (if str_len (r_stderrBuf r +:+ text) >? 8000
            then js_slice_from (str_len (r_stderrBuf r +:+ text) - 8000) (r_stderrBuf r +:+ text)
            else r_stderrBuf r +:+ text)
      with (onData 8000 (r_stderrBuf r) text).
    split; [by apply onData_bound|apply onData_suffix].
Qed.

Lemma stderr_buffer_bounded_witness :
  let r := {| r_sessionId := ex_sid;
              r_turn := {| turn_prompt := "hi"; turn_content := "hi"; turn_imagePath := None;
                           turn_userMessageId := "id-0" |};
              r_sessionMeta := ex_meta;
              r_writer := {| w_sessionId := ex_sid; w_meta := ex_meta; w_cursor := 2 |};
              r_assistantMessageId := "id-1";
              r_blockIndex := 0; r_stderrBuf := "warning: "; r_finished := false;
              r_assistantPreview := ""; r_latestThreadId := ""; r_latestUsage := None;
              r_lastCursor := 2; r_spawned := true; r_killed := false |} in
  let st := {| g_fs := ex_fs; activeCodexRuns := {[ ex_sid ]};
               codexProcBySession := {[ ex_sid := 0%nat ]};
               codexFinalizeBySession := {[ ex_sid := 0%nat ]};
               codexQueueBySession := {[ ex_sid := [] ]};
               g_runs := [r]; g_next_id := 2 |} in
  ∃ r',
    g_runs (on_stderr 0 "disk full" st).1.2 !! 0%nat = Some r'
    ∧ (on_stderr 0 "disk full" st).2 = []
    ∧ (blank "disk full" = true → r' = r)
    ∧ (blank "disk full" = false →
       str_len (r_stderrBuf r') <= 8000
       ∧ ∃ dropped, r_stderrBuf r +:+ "disk full" = dropped +:+ r_stderrBuf r').
Proof.
  intros r st. apply (stderr_buffer_bounded 0 "disk full" st r); reflexivity.
Defined.

(** ** From the writer to the clients of the tailer *)

Lemma journal_entries_lines_text (JSON_parse : string → option json) (rs : list json) :
  Forall (fun r => JSON_parse (JSON_stringify r) = Some r ∧ r ≠ JNull) rs →
  journal_entries JSON_parse (lines_text rs) = rs.
Proof.
  induction rs as [|r rs IH]; [done|]. intros [[Hr Hn] Hrs]%Forall_cons.
  rewrite lines_text_cons, journal_entries_append
    by (right; by exists (JSON_stringify r)).
  rewrite IH by done. unfold journal_entries at 1, journal_line.
  rewrite readline_lines_one by apply JSON_stringify_printable.
  unfold entries_of_lines. cbn [omap list_omap].
  rewrite blank_JSON_stringify. unfold parse_entry. rewrite Hr.
  by destruct r.
Qed.

Lemma appended_records_frames (cursor : Z) (calls : list (string * json)) :
  map entry_frame (appended_records cursor calls) = record_frames cursor calls.
Proof.
  revert cursor. induction calls as [|[event data] calls IH]; intros cursor; [done|].
  cbn [appended_records record_frames map]. by rewrite IH.
Qed.

Lemma append_all_exists (calls : list (string * json)) (f : fs) (w : writer) :
  is_Some (fs_jsonl f !! w_sessionId w) →
  is_Some (fs_jsonl (append_all f w calls).1.1 !! w_sessionId w).
Proof.
  revert f w. induction calls as [|[event data] calls IH]; intros f w Hf; [done|].
  cbn [append_all]. unfold writer_append.
  match goal with |- context [append_all ?f' ?w' calls] => specialize (IH f' w') end.
  cbn [w_sessionId] in IH. destruct (append_all _ _ calls) as [[f2 w2] cs]. cbn [fst] in *.
  apply IH. cbn. rewrite lookup_insert_eq. by eexists.
Qed.

(** What a writer appends is what the clients of the tailer receive.  When
    the tailer has read the journal to its end and a writer at cursor [n]
    appends records, the next [processNewLines] writes to every attached
    client one frame per record, in the order of the appends:
    [formatSSE(event, String(cursor), data)] with the cursor the append
    returned, [n + 1], [n + 2], ...  (The lines the writer wrote have to
    parse back to the records, which [JSON.parse] does for what
    [JSON.stringify] printed.) *)
Theorem appended_records_reach_clients (JSON_parse : string → option json)
    (f : fs) (t : tailer) (w : writer) (calls : list (string * json)) (c : nat)
    (text : string) :
  t_processing t = false → NoDup (t_clients t) → c ∈ t_clients t →
  w_sessionId w = t_sessionId t →
  fs_jsonl f !! t_sessionId t = Some text → t_position t = str_len text →
  Forall (fun r => JSON_parse (JSON_stringify r) = Some r) (appended_records (w_cursor w) calls) →
  delivered_to c (tail_run JSON_parse ((append_all f w calls).1.1, t) [TNotify]).2
  = record_frames (w_cursor w) calls.
Proof.
  intros Hproc Hnd Hin Hws Hfile Hpos Hparse.
  destruct (append_all_spec calls f w) as (f1 & w1 & Heq & _ & _ & _ & Ht & _).
  pose proof (append_all_exists calls f w) as Hex. rewrite Heq in Hex |- *. cbn [fst] in *.
  rewrite Hws in Ht, Hex. destruct Hex as [text1 Hf1]; [by rewrite Hfile|].
  assert (text1 = text +:+ lines_text (appended_records (w_cursor w) calls)) as ->.
  { unfold jsonl_text in Ht. by rewrite Hf1, Hfile in Ht. }
  rewrite (tail_run_quiet JSON_parse c [TNotify] f1 t text
             (lines_text (appended_records (w_cursor w) calls)));
    try done; [|apply lines_text_whole|by repeat constructor].
  cbn [processed_text]. rewrite append_nil_r, journal_entries_lines_text.
  - apply appended_records_frames.
  - clear -Hparse. revert Hparse. generalize (w_cursor w).
    induction calls as [|[event data] calls IH]; intros n; [done|].
    cbn [appended_records]. intros [H1 H2]%Forall_cons. constructor; [done|by apply IH].
Qed.

Lemma appended_records_reach_clients_witness :
  delivered_to 1 (tail_run JSON_parse_ref
                    ((append_all ex_fs
                        {| w_sessionId := ex_sid; w_meta := ex_meta; w_cursor := 2 |}
                        ex_calls).1.1,
                     {| t_sessionId := ex_sid; t_clients := [1%nat; 2%nat];
                        t_position := str_len ex_journal; t_lastCursor := 2;
                        t_processing := false |})
                    [TNotify]).2
  = record_frames 2 ex_calls.
Proof.
  apply (appended_records_reach_clients JSON_parse_ref ex_fs _
           {| w_sessionId := ex_sid; w_meta := ex_meta; w_cursor := 2 |} ex_calls 1 ex_journal).
  - reflexivity.
  - apply NoDup_cons. split; [|apply NoDup_singleton].
    intros H%list_elem_of_singleton. discriminate.
  - constructor.
  - reflexivity.
  - reflexivity.
  - reflexivity.
  - repeat constructor; vm_compute; reflexivity.
Defined.

(** ** Resuming a stream with Last-Event-ID *)

Lemma uint_of_string_letter (a : ascii) (s : string) :
  (nat_of_ascii a <? 48)%nat || (57 <? nat_of_ascii a)%nat = true →
  NilZero.uint_of_string (String a s) = None.
Proof.
  intros Ha. cbn [NilZero.uint_of_string NilEmpty.uint_of_string].
  destruct (NilEmpty.uint_of_string s);
    destruct a as [[] [] [] [] [] [] [] []]; first [reflexivity|by vm_compute in Ha].
Qed.

Lemma StringToNumber_letter (a : ascii) (s : string) :
  is_ws a = false →
  (nat_of_ascii a <? 48)%nat || (57 <? nat_of_ascii a)%nat = true →
  Ascii.eqb a "+" = false → Ascii.eqb a "-" = false →
  StringToNumber (String a s) = None.
Proof.
  intros Hws Ha Hplus Hminus. unfold StringToNumber, js_trim.
  cbn [trim_start]. rewrite Hws. cbn [trim_end all_ws]. rewrite Hws. cbn [andb].
  rewrite Hplus. unfold NilZero.int_of_string.
  destruct a as [[] [] [] [] [] [] [] []]; try done;
    (rewrite uint_of_string_letter; [done|vm_compute; done]).
Qed.

Lemma sinceCursor_control (id : string) : is_control_id id = true → sinceCursor id = 0.
Proof.
  unfold is_control_id, sinceCursor. intros H.
  destruct id as [|a s]; [done|].
  assert (Ha : a = "h"%char ∨ a = "m"%char).
  { apply orb_true_iff in H as [H|H].
    - apply orb_true_iff in H as [H|H]; [apply orb_true_iff in H as [H|H]|].
      + apply String.eqb_eq in H. injection H as -> _. by left.
      + apply String.eqb_eq in H. injection H as -> _. by left.
      + apply String.eqb_eq in H. injection H as -> _. by right.
    - unfold starts_with in H. cbn [String.prefix] in H.
      destruct (ascii_dec "h" a) as [<-|]; [by left|done]. }
  destruct Ha as [-> | ->]; by rewrite StringToNumber_letter.
Qed.

(** Resuming a stream.  The id of the frame of a record is its cursor, and
    a client that reconnects with it as Last-Event-ID is attached with
    exactly this cursor: it is sent the records after it.  The frames that
    carry no record have the ids [history-start], [history-end], [meta] and
    [heartbeat-<time>]; none is a number, so a client that reconnects with
    the id of one of them (an EventSource sends the id of the last frame it
    received) is attached with cursor 0 and is sent the journal again from
    its start. *)
Theorem last_event_id_resume (JSON_parse : string → option json)
    (f : fs) (t : tailer) (res : nat) (since limit : option string) :
  (∀ (c : Z) (event : string) (data : json),
     entry_frame (journal_record c event data)
     = formatSSE (Some (JStr event)) (Some (JStr (String_of_Z c))) (Some data)
     ∧ chat_stream_attach JSON_parse f t res (Some (String_of_Z c)) since limit
       = addClient JSON_parse f t res c (chat_stream_limit limit))
  ∧ (∀ id, is_control_id id = true →
       chat_stream_attach JSON_parse f t res (Some id) since limit
       = addClient JSON_parse f t res 0 (chat_stream_limit limit)).
Proof.
  split.
  - intros c event data. split; [done|].
    unfold chat_stream_attach, chat_stream_since, str_or, sinceCursor.
    destruct (String.eqb_spec (String_of_Z c) "") as [H|_];
      [by apply String_of_Z_nonempty in H|].
    by rewrite StringToNumber_String_of_Z.
  - intros id Hid. unfold chat_stream_attach, chat_stream_since, str_or.
    destruct (String.eqb_spec id "") as [->|_]; [done|].
    by rewrite sinceCursor_control.
Qed.

(** ** Lists read from the environment *)

Lemma all_ws_forall (s : string) : all_ws s = str_forall is_ws s.
Proof. induction s as [|c s IH]; [done|]. cbn. by rewrite IH. Qed.

Lemma trim_start_nil (s : string) : trim_start s = "" ↔ all_ws s = true.
Proof.
  induction s as [|c s IH]; [done|]. cbn. destruct (is_ws c); [exact IH|]. by split.
Qed.

Lemma all_ws_trim_start (s : string) : all_ws (trim_start s) = all_ws s.
Proof. induction s as [|c s IH]; [done|]. cbn. by destruct (is_ws c) eqn:Hc; cbn; rewrite ?Hc. Qed.

Lemma trim_end_nil (s : string) : trim_end s = "" ↔ all_ws s = true.
Proof.
  destruct s as [|c s]; [done|]. cbn [trim_end].
  destruct (all_ws (String c s)); by split.
Qed.

Lemma js_trim_nil (s : string) : js_trim s = "" ↔ all_ws s = true.
Proof. unfold js_trim. by rewrite trim_end_nil, all_ws_trim_start. Qed.

Lemma trim_start_fix (s : string) :
  match s with String c _ => is_ws c = false | EmptyString => True end → trim_start s = s.
Proof. destruct s as [|c s]; [done|]. cbn. by intros ->. Qed.

Lemma trim_start_head (s : string) :
  match trim_start s with String c _ => is_ws c = false | EmptyString => True end.
Proof. induction s as [|c s IH]; [done|]. cbn. by destruct (is_ws c) eqn:Hc. Qed.

Lemma trim_end_head (s : string) :
  match s with String c _ => is_ws c = false | EmptyString => True end →
  match trim_end s with String c _ => is_ws c = false | EmptyString => True end.
Proof. destruct s as [|c s]; [done|]. cbn [trim_end]. by destruct (all_ws (String c s)). Qed.

Lemma all_ws_trim_end (s : string) : all_ws s = false → all_ws (trim_end s) = false.
Proof.
  induction s as [|c s IH]; [done|]. intros H. cbn [trim_end]. rewrite H.
  cbn in H |- *. destruct (is_ws c); [|done]. cbn in *. by apply IH.
Qed.

Lemma trim_end_idem (s : string) : trim_end (trim_end s) = trim_end s.
Proof.
  induction s as [|c s IH]; [done|]. cbn [trim_end].
  destruct (all_ws (String c s)) eqn:H; [done|]. cbn [trim_end].
  assert (H' : all_ws (String c (trim_end s)) = false).
  { cbn in H |- *. destruct (is_ws c); [|done]. cbn in *. by apply all_ws_trim_end. }
  by rewrite H', IH.
Qed.

Lemma js_trim_idem (s : string) : js_trim (js_trim s) = js_trim s.
Proof.
  unfold js_trim. rewrite (trim_start_fix (trim_end (trim_start s))).
  - apply trim_end_idem.
  - apply trim_end_head, trim_start_head.
Qed.

Lemma str_forall_trim_start (P : ascii → bool) (s : string) :
  str_forall P s = true → str_forall P (trim_start s) = true.
Proof.
  induction s as [|c s IH]; [done|]. cbn. intros [Hc Hs]%andb_prop.
  destruct (is_ws c); [by apply IH|]. cbn. by rewrite Hc, Hs.
Qed.

Lemma str_forall_trim_end (P : ascii → bool) (s : string) :
  str_forall P s = true → str_forall P (trim_end s) = true.
Proof.
  induction s as [|c s IH]; [done|]. intros H. cbn [trim_end].
  destruct (all_ws (String c s)); [done|]. cbn in *.
  apply andb_prop in H as [Hc Hs]. by rewrite Hc, IH.
Qed.

Lemma str_forall_js_trim (P : ascii → bool) (s : string) :
  str_forall P s = true → str_forall P (js_trim s) = true.
Proof. intros H. by apply str_forall_trim_end, str_forall_trim_start. Qed.

Lemma split_on_cons (c a : ascii) (s : string) :
  Ascii.eqb a c = false →
  ∃ l ls, split_on c s = l :: ls ∧ split_on c (String a s) = String a l :: ls.
Proof.
  intros Ha. cbn [split_on]. rewrite Ha.
  destruct (split_on c s) as [|l ls] eqn:Hs; [|by eauto].
  destruct s as [|b s]; [done|]. cbn in Hs. destruct (Ascii.eqb b c); [done|].
  by destruct (split_on c s).
Qed.

Lemma split_on_no_sep (c : ascii) (s : string) :
  Forall (fun seg => str_forall (fun a => negb (Ascii.eqb a c)) seg = true) (split_on c s).
Proof.
  induction s as [|a s IH]; [by repeat constructor|].
  destruct (Ascii.eqb a c) eqn:Ha.
  - cbn [split_on]. rewrite Ha. by constructor.
  - destruct (split_on_cons c a s Ha) as (l & ls & Hs & ->). rewrite Hs in IH.
    apply Forall_cons in IH as [Hl Hls]. constructor; [|done]. cbn. by rewrite Ha.
Qed.

Lemma split_on_all (c : ascii) (P : ascii → bool) (s : string) :
  forallb (str_forall P) (split_on c s)
  = str_forall (fun a => P a || Ascii.eqb a c) s.
Proof.
  induction s as [|a s IH]; [done|].
  destruct (Ascii.eqb a c) eqn:Ha.
  - cbn [split_on str_forall]. rewrite Ha, orb_true_r. cbn. exact IH.
  - destruct (split_on_cons c a s Ha) as (l & ls & Hs & ->). rewrite Hs in IH.
    cbn in IH |- *. rewrite Ha, orb_false_r, <- IH. by rewrite andb_assoc.
Qed.

Lemma parsed_clean (raw : string) (x : string) :
  x ∈ filter (fun s => s ≠ "") (map js_trim (split_on "," raw)) → clean_entry x.
Proof.
  intros [Hx Hin]%list_elem_of_filter. apply list_elem_of_fmap in Hin as (seg & -> & Hseg).
  split; [done|]. split; [apply js_trim_idem|].
  apply str_forall_js_trim.
  pose proof (split_on_no_sep "," raw) as H. rewrite Forall_forall in H. by apply H.
Qed.

Lemma parsed_nil (raw : string) :
  filter (fun s => s ≠ "") (map js_trim (split_on "," raw)) = []
  ↔ str_forall is_ws_or_comma raw = true.
Proof.
  unfold is_ws_or_comma. rewrite <- (split_on_all "," is_ws raw).
  induction (split_on "," raw) as [|seg segs IH]; [done|].
  cbn [map forallb]. rewrite filter_cons. rewrite <- all_ws_forall.
  destruct (all_ws seg) eqn:Hseg.
  - apply js_trim_nil in Hseg. rewrite decide_False by (by rewrite Hseg; intros []).
    cbn. exact IH.
  - rewrite decide_True; [by split|]. intros H%js_trim_nil. congruence.
Qed.

Lemma str_forall_trimmed (P : ascii → bool) (s : string) :
  (∀ c, is_ws c = true → P c = true) →
  str_forall P (js_trim s) = str_forall P s.
Proof.
  intros HP. unfold js_trim.
  assert (Hend : ∀ t, str_forall P (trim_end t) = str_forall P t).
  { induction t as [|c t IH]; [done|]. cbn [trim_end].
    destruct (all_ws (String c t)) eqn:Hws.
    - symmetry. rewrite all_ws_forall in Hws. eapply str_forall_impl; [|exact Hws]. exact HP.
    - cbn. by rewrite IH. }
  rewrite Hend. induction s as [|c s IH]; [done|]. cbn.
  destruct (is_ws c) eqn:Hc; [|done]. by rewrite IH, HP.
Qed.

(** [parseCodexModels]: a blank list gives the three default models; the
    entries of any other list are not empty, trimmed and hold no comma; and
    the list of choices is empty exactly when the variable is not blank and
    holds only commas and white space (as in [CODEX_MODELS=","]). *)
Theorem parseCodexModels_entries (raw : string) :
  (blank raw = true →
   parseCodexModels raw = ["gpt-5.2-codex-low"; "gpt-5.2-codex-medium"; "gpt-5.2-codex-high"])
  ∧ (∀ x, blank raw = false → x ∈ parseCodexModels raw → clean_entry x)
  ∧ (parseCodexModels raw = [] ↔ blank raw = false ∧ str_forall is_ws_or_comma raw = true).
Proof.
  unfold parseCodexModels, blank. cbv zeta.
  destruct (String.eqb_spec (js_trim raw) "") as [Hnil|Hnil].
  - apply js_trim_nil in Hnil as Hws. rewrite Hws. split; [done|]. split; [done|].
    split; [done|]. by intros [? _].
  - assert (Hws : all_ws raw = false).
    { destruct (all_ws raw) eqn:H; [|done]. by apply js_trim_nil in H. }
    rewrite Hws. split; [done|]. split; [intros x _; apply parsed_clean|].
    rewrite parsed_nil, str_forall_trimmed.
    + split; [done|by intros [_ ?]].
    + intros c Hc. unfold is_ws_or_comma. by rewrite Hc.
Qed.

(** [parseCorsOrigins]: the entries are not empty, trimmed and hold no
    comma.  A list that holds only commas and white space (the empty
    default, but also [","]) has no entry, and then the CORS check lets
    every origin through. *)
Theorem cors_list_without_entries_allows_all (raw : string) :
  (∀ x, x ∈ parseCorsOrigins raw → clean_entry x)
  ∧ (parseCorsOrigins raw = [] ↔ str_forall is_ws_or_comma raw = true)
  ∧ (str_forall is_ws_or_comma raw = true →
     ∀ origin, isOriginAllowed origin (parseCorsOrigins raw) = true).
Proof.
  split; [intros x; apply parsed_clean|]. split; [apply parsed_nil|].
  intros H origin. apply parsed_nil in H. unfold parseCorsOrigins. by rewrite H.
Qed.

(** ** CORS: origins with wildcards *)

Lemma glob_refl (e : string) : glob e e.
Proof.
  induction e as [|c e IH]; [constructor|].
  destruct (decide (c = "*"%char)) as [->|Hc].
  - by apply (glob_star e "*" e).
  - by constructor.
Qed.

Lemma glob_no_star (e o : string) : includes_star e = false → glob e o → e = o.
Proof.
  intros He H. induction H as [|c e o Hc H IH|e mid o Hmid H IH]; [done| |done].
  cbn in He. apply orb_false_iff in He as [_ He]. by rewrite IH.
Qed.

Lemma dot_star_spec (s s' : string) :
  s' ∈ dot_star s
  ↔ ∃ mid, s = mid +:+ s' ∧ str_forall (fun c => negb (is_line_terminator c)) mid = true.
Proof.
  induction s as [|a t IH].
  - cbn. rewrite list_elem_of_singleton. split.
    + intros ->. by exists "".
    + intros (mid & Hs & _). destruct mid; [done|discriminate].
  - cbn [dot_star]. rewrite elem_of_cons. split.
    + intros [->|Hin]; [by exists ""|].
      destruct (is_line_terminator a) eqn:Ha; [by apply elem_of_nil in Hin|].
      apply IH in Hin as (mid & -> & Hmid). exists (String a mid). cbn. by rewrite Ha, Hmid.
    + intros (mid & Hs & Hmid). destruct mid as [|b mid]; [by left|].
      rewrite append_cons in Hs. injection Hs as <- ->. cbn in Hmid.
      apply andb_prop in Hmid as [Ha%negb_true_iff Hmid]. rewrite Ha. right.
      apply IH. by exists mid.
Qed.

Lemma pattern_run_spec (e : string) :
  ∀ s rest, rest ∈ pattern_run (entry_pattern e) s ↔ ∃ o, s = o +:+ rest ∧ glob e o.
Proof.
  induction e as [|c e IH]; intros s rest.
  - cbn. rewrite list_elem_of_singleton. split.
    + intros ->. exists "". split; [done|constructor].
    + intros (o & -> & Ho). by inversion Ho.
  - cbn [entry_pattern]. destruct (Ascii.eqb_spec c "*") as [->|Hc].
    + cbn [pattern_run]. rewrite list_elem_of_In, in_flat_map. split.
      * intros (s' & Hs'%list_elem_of_In & Hrest%list_elem_of_In).
        apply dot_star_spec in Hs' as (mid & -> & Hmid).
        apply IH in Hrest as (o & -> & Ho). exists (mid +:+ o).
        split; [by rewrite append_assoc|by constructor].
      * intros (o & -> & Ho). inversion Ho as [|c' e' o' Hc' Ho' |e' mid o' Hmid Ho']; subst;
          [done|].
        exists (o' +:+ rest). rewrite <- !list_elem_of_In. split.
        -- apply dot_star_spec. exists mid. by rewrite append_assoc.
        -- apply IH. by exists o'.
    + cbn [pattern_run]. split.
      * destruct s as [|a t]; [by intros ?%elem_of_nil|].
        destruct (Ascii.eqb_spec a c) as [->|Ha]; [|by intros ?%elem_of_nil].
        intros (o & -> & Ho)%IH. exists (String c o). split; [done|by constructor].
      * intros (o & -> & Ho). inversion Ho as [|c' e' o' Hc' Ho' |e' mid o' Hmid Ho']; subst;
          [|done].
        rewrite append_cons, Ascii.eqb_refl. apply IH. by exists o'.
Qed.

Lemma pattern_test_glob (e origin : string) :
  pattern_test (entry_pattern e) origin = true ↔ glob e origin.
Proof.
  unfold pattern_test. rewrite existsb_exists. split.
  - intros (rest & Hin%list_elem_of_In & ->%String.eqb_eq).
    apply pattern_run_spec in Hin as (o & -> & Ho). by rewrite append_nil_r.
  - intros H. exists "". split; [|done]. apply list_elem_of_In, pattern_run_spec.
    exists origin. by rewrite append_nil_r.
Qed.

(** [isOriginAllowed]: an origin is let through exactly when the list is
    empty, or holds the entry [*], or holds an entry that gives the origin
    when each of its [*] is replaced by some string without line
    terminator (an entry without [*] only gives itself).  So a wildcard
    stands for any number of characters, dots and slashes included, and the
    rest of the entry has to match from the first to the last character of
    the origin. *)
Theorem isOriginAllowed_glob (origin : string) (allowed : list string) :
  isOriginAllowed origin allowed = true
  ↔ allowed = [] ∨ "*" ∈ allowed ∨ ∃ entry, entry ∈ allowed ∧ glob entry origin.
Proof.
  unfold isOriginAllowed. destruct allowed as [|e0 rest]; [by split; [left|]|].
  set (allowed := e0 :: rest).
  destruct (existsb (String.eqb "*") allowed) eqn:Hstar.
  - split; [|done]. intros _. right. left.
    apply existsb_exists in Hstar as (x & Hx%list_elem_of_In & ->%String.eqb_eq). done.
  - rewrite existsb_exists. split.
    + intros (entry & Hin%list_elem_of_In & H). right. right. exists entry. split; [done|].
      apply orb_true_iff in H as [->%String.eqb_eq|[_ H]%andb_true_iff].
      * apply glob_refl.
      * by apply pattern_test_glob.
    + intros [?|[Hin|(entry & Hin & Hg)]]; [done| |].
      * assert (existsb (String.eqb "*") allowed = true); [|congruence].
        apply existsb_exists. exists "*". by rewrite <- list_elem_of_In.
      * exists entry. rewrite <- list_elem_of_In. split; [done|].
        destruct (includes_star entry) eqn:Hs.
        -- apply orb_true_iff. right. by apply pattern_test_glob.
        -- apply orb_true_iff. left. apply String.eqb_eq. by apply glob_no_star.
Qed.

(** ** The label of a model *)

Lemma dash_to_space_append (a b : string) :
  dash_to_space (a +:+ b) = dash_to_space a +:+ dash_to_space b.
Proof. induction a as [|c a IH]; [done|]. rewrite append_cons. cbn. by rewrite IH. Qed.

Lemma replace_dash (s : string) : replace_all "-" " " s = dash_to_space s.
Proof.
  unfold replace_all. induction s as [|a t IH]; [done|].
  cbn [replace_all_go String.prefix String.length Nat.sub dash_to_space].
  destruct (ascii_dec "-" a) as [<-|Hne].
  - destruct t; cbn [String.prefix]; rewrite IH; reflexivity.
  - rewrite IH. destruct (Ascii.eqb_spec a "-") as [->|_]; done.
Qed.

Lemma replace_all_go_skip (pat rep : string) (k : nat) (s : string) :
  replace_all_go k pat rep s = replace_all_go 0 pat rep (str_drop k s).
Proof.
  revert k. induction s as [|a t IH]; intros [|k]; try done.
  cbn [replace_all_go str_drop]. apply IH.
Qed.

Lemma prefix_split (p s : string) :
  String.prefix p s = true → s = p +:+ str_drop (String.length p) s.
Proof.
  revert s. induction p as [|a p IH]; intros s; [done|].
  destruct s as [|b s]; [done|]. cbn [String.prefix].
  destruct (ascii_dec a b) as [<-|]; [|done]. intros H.
  rewrite append_cons. cbn [String.length str_drop]. f_equal. by apply IH.
Qed.

Lemma replace_codex_dashes (s : string) :
  dash_to_space (replace_all "-codex-" " codex " s) = dash_to_space s.
Proof.
  unfold replace_all.
  assert (H : ∀ n s, (String.length s <= n)%nat →
            dash_to_space (replace_all_go 0 "-codex-" " codex " s) = dash_to_space s).
  { clear s. induction n as [|n IH]; intros [|a t] Hlen; try done; [cbn in Hlen; lia|].
    cbn [replace_all_go].
    destruct (String.prefix "-codex-" (String a t)) eqn:Hp.
    - apply prefix_split in Hp.
      change (str_drop (String.length "-codex-") (String a t)) with (str_drop 6 t) in Hp.
      rewrite Hp. rewrite !dash_to_space_append. f_equal.
      change (String.length "-codex-" - 1)%nat with 6%nat.
      rewrite replace_all_go_skip. apply IH.
      rewrite length_str_drop. cbn in Hlen. lia.
    - cbn [dash_to_space]. f_equal. apply IH. cbn in Hlen. lia. }
  by apply (H (String.length s)).
Qed.

Lemma dash_to_space_no_dash (s : string) :
  str_forall (fun c => negb (Ascii.eqb c "-")) (dash_to_space s) = true.
Proof.
  induction s as [|c s IH]; [done|]. cbn. rewrite IH.
  by destruct (Ascii.eqb_spec c "-") as [->|Hc%Ascii.eqb_neq]; [|rewrite Hc].
Qed.

(** [formatModelLabel]: the label is the trimmed model id without a
    leading [gpt-], with every hyphen replaced by a space (the replacement
    of [-codex-] changes nothing the last one would not); it has the length
    of what it is made from and holds no hyphen. *)
Theorem formatModelLabel_spaces (model : string) :
  formatModelLabel model = dash_to_space (strip_prefix "gpt-" (js_trim model))
  ∧ String.length (formatModelLabel model)
    = String.length (strip_prefix "gpt-" (js_trim model))
  ∧ str_forall (fun c => negb (Ascii.eqb c "-")) (formatModelLabel model) = true.
Proof.
  assert (H : formatModelLabel model = dash_to_space (strip_prefix "gpt-" (js_trim model))).
  { unfold formatModelLabel. cbv zeta. by rewrite replace_dash, replace_codex_dashes. }
  rewrite H. split; [done|]. split; [|apply dash_to_space_no_dash].
  generalize (strip_prefix "gpt-" (js_trim model)). intros s.
  induction s as [|c s IH]; [done|]. cbn. by rewrite IH.
Qed.

(** ** The turn engine: what [/model <name>] leaves in the sidecar *)

Ltac run_fs_appends :=
  repeat match goal with
         | |- context [exec (append ?w ?e ?d) ?X] =>
             let f := fresh "f" in destruct (fs_only_append w e d X) as [f ->]
         end.

Ltac run_model_step :=
  rewrite exec_bind, logs_bind, ?value_bind;
  rewrite ?value_newId, ?exec_newId, ?logs_newId, ?value_append, ?logs_append,
          ?value_commit, ?logs_commit, ?exec_commit, ?exec_modify, ?logs_modify;
  run_fs_appends;
  cbv beta iota zeta;
  cbn [w_sessionId w_meta w_cursor fst snd g_fs g_next_id set_fs set_next_id set_queues
       codexQueueBySession].

Lemma createEventWriter_model (JSON_parse : string → option json)
    (f f1 : fs) (sid : string) (m : meta) (w : writer) :
  readSessionMeta f sid = Ok m →
  createEventWriter JSON_parse f sid = Ok (f1, w) →
  w_meta w !! "model" = m !! "model" ∧ w_sessionId w = sid.
Proof.
  unfold readSessionMeta, createEventWriter. destruct (getSessionPaths sid); [|done]. cbn.
  destruct (fs_meta f !! sid) as [m0|]; [|done]. intros [= ->] [= <- <-]. cbn.
  split; [|done]. destruct (Number_isFinite _); [done|]. by rewrite lookup_insert_ne.
Qed.

Lemma slash_command_text_set (cfg : config)
    (sid : string) (m : meta) (trimmed : string) (st : gateway) :
  trimmed ≠ "/models" → join " " (tail (split_ws trimmed)) ≠ "" →
  value (slash_command_text cfg sid m trimmed) st
  = "Model set to: " +:+ join " " (tail (split_ws trimmed)).
Proof.
  intros Hnot%String.eqb_neq Hreq%String.eqb_neq. unfold slash_command_text.
  rewrite Hnot. cbv zeta. rewrite Hreq. by rewrite value_bind.
Qed.

(** [/model <name>] does not change the model.  The handler answers
    [Model set to: <name>] and writes the sidecar it read at the start of
    the request with the new model; but the [commit] of the writer that
    follows writes the writer's own copy of the sidecar, which still has the
    old model (or none).  After the request the sidecar of the session holds
    the model it held before. *)
Theorem model_command_does_not_persist (JSON_parse : string → option json) (cfg : config)
    (st : gateway) (sid content : string) (imagePath : option string)
    (now : string) (m : meta) :
  content ≠ "" →
  readSessionMeta (g_fs st) sid = Ok m →
  starts_with "/model" (js_trim content) = true →
  js_trim content ≠ "/models" →
  join " " (tail (split_ws (js_trim content))) ≠ "" →
  ∃ (assistantId : string) (c : Z) (before after : list json) (m' : meta),
    appends_to sid (logs (submit JSON_parse cfg sid content imagePath now) st)
    = before ++
      [ journal_record c "content_block"
          (JObj [ ("messageId", JStr assistantId); ("index", JNum 0);
                  ("block", JObj [("type", JStr "text");
                                  ("text", JStr ("Model set to: "
                                                 +:+ join " " (tail (split_ws (js_trim content)))))]) ]) ]
      ++ after
    ∧ fs_meta (g_fs (exec (submit JSON_parse cfg sid content imagePath now) st)) !! sid = Some m'
    ∧ m' !! "model" = m !! "model".
Proof.
  intros Hne Hread Hmodel Hnot Hreq. unfold submit.
  apply String.eqb_neq in Hne. rewrite Hne.
  rewrite exec_bind, logs_bind.
  change (value get_state st) with st. change (exec get_state st) with st.
  change (logs get_state st) with (@nil obs). rewrite Hread.
  destruct (createEventWriter_ok JSON_parse _ _ _ Hread) as (w & Hw & Hws).
  destruct (createEventWriter_model JSON_parse _ _ _ _ _ Hread Hw) as [Hwm _].
  rewrite exec_bind, logs_bind, Hw. cbv zeta.
  rewrite Hmodel, orb_true_r.
  do 8 run_model_step.
  rewrite exec_bind, logs_bind.
  match goal with |- context [exec (slash_command_text _ ?s ?m0 ?t) ?X] =>
    rewrite (slash_command_text_set cfg s m0 t X Hnot Hreq);
    destruct (slash_command_text_fs cfg s m0 t X) as [[f3 ->] ->]
  end.
  do 3 run_model_step.
  rewrite exec_bind, logs_bind.
  change (exec (mret ?x) ?s) with s. change (logs (mret ?x) ?s) with (@nil obs).
  match goal with |- context [exec (emitCodexSessionMetaUpdate _ _ sid) ?X] => set (Y := X) end.
  match eval unfold Y in Y with set_fs (set_meta _ ?m0 _) _ =>
    destruct (emit_sidecar JSON_parse cfg sid Y m0) as (m1 & Hm1 & Hkeys)
  end.
  { unfold Y. cbn [g_fs set_fs fs_meta set_meta]. by rewrite Hws, lookup_insert_eq. }
  exists ("id-" +:+ String_of_Z (Z.of_nat (S (g_next_id st)))), (w_cursor w + 1 + 1 + 1 + 1 + 1).
  match goal with |- context [appends_to sid ?L] =>
    exists (take 4 (appends_to sid L)),
           (drop 5 (appends_to sid L)), m1
  end.
  split.
  { rewrite Hws. cbn [app]. unfold appends_to at 1 2 3. cbn [omap list_omap].
    rewrite String.eqb_refl. cbn [take drop app]. reflexivity. }
  split; [exact Hm1|].
  rewrite Hkeys by done. unfold assign.
  rewrite lookup_union_r by (by rewrite lookup_insert_ne).
  rewrite lookup_insert_ne by done. cbn [w_meta].
  rewrite lookup_union_r by (by rewrite !lookup_insert_ne).
  by rewrite lookup_insert_ne.
Qed.

Lemma model_command_does_not_persist_witness :
  ∃ (assistantId : string) (c : Z) (before after : list json) (m' : meta),
    appends_to ex_sid
      (logs (submit JSON_parse_ref ex_cfg ex_sid "/model gpt-5" None "t0")
            (gateway_init ex_fs))
    = before ++
      [ journal_record c "content_block"
          (JObj [ ("messageId", JStr assistantId); ("index", JNum 0);
                  ("block", JObj [("type", JStr "text");
                                  ("text", JStr ("Model set to: "
                                                 +:+ join " " (tail (split_ws (js_trim "/model gpt-5")))))]) ]) ]
      ++ after
    ∧ fs_meta (g_fs (exec (submit JSON_parse_ref ex_cfg ex_sid "/model gpt-5" None "t0")
                          (gateway_init ex_fs))) !! ex_sid = Some m'
    ∧ m' !! "model" = ex_meta !! "model".
Proof.
  apply (model_command_does_not_persist JSON_parse_ref ex_cfg (gateway_init ex_fs) ex_sid
           "/model gpt-5" None "t0" ex_meta).
  - discriminate.
  - vm_compute. reflexivity.
  - reflexivity.
  - discriminate.
  - discriminate.
Defined.

(** ** The file browser: which paths pass the check *)

Lemma split_on_none (c : ascii) (s : string) :
  str_forall (fun a => negb (Ascii.eqb a c)) s = true → split_on c s = [s].
Proof.
  induction s as [|a s IH]; [done|]. cbn. intros [Ha%negb_true_iff Hs]%andb_prop.
  by rewrite Ha, IH.
Qed.

Lemma split_on_join (c : ascii) (seg : string) (segs : list string) :
  Forall (fun s => str_forall (fun a => negb (Ascii.eqb a c)) s = true) (seg :: segs) →
  split_on c (join (str c) (seg :: segs)) = seg :: segs.
Proof.
  revert seg. induction segs as [|s segs IH]; intros seg [Hseg Hsegs]%Forall_cons.
  - cbn. by apply split_on_none.
  - change (join (str c) (seg :: s :: segs)) with (seg +:+ String c (join (str c) (s :: segs))).
    rewrite split_on_app_sep, split_on_none, IH by done. done.
Qed.

Lemma normalize_go_plain (stack segs : list string) :
  Forall plain_segment segs → normalize_go stack segs = rev stack ++ segs.
Proof.
  revert stack. induction segs as [|seg segs IH]; intros stack H.
  - cbn. by rewrite app_nil_r.
  - apply Forall_cons in H as [(H1 & H2 & H3 & _) Hsegs]. cbn [normalize_go].
    apply String.eqb_neq in H1, H2, H3. rewrite H1, H2, H3. cbn [orb].
    rewrite IH by done. cbn [rev]. by rewrite <- app_assoc.
Qed.

Lemma path_resolve_normalized (cwd : string) (segs : list string) :
  Forall plain_segment segs → path_resolve cwd ("/" +:+ join "/" segs) = "/" +:+ join "/" segs.
Proof.
  intros H. unfold path_resolve.
  change ("/" +:+ join "/" segs) with (String "/" (join "/" segs)).
  assert (Hs : starts_with "/" (String "/" (join "/" segs)) = true).
  { unfold starts_with. cbn [String.prefix].
    destruct (ascii_dec "/" "/"); [by destruct (join "/" segs)|done]. }
  rewrite Hs. cbv zeta. cbn [split_on]. rewrite Ascii.eqb_refl.
  destruct segs as [|seg segs].
  - reflexivity.
  - change "/" with (str "/") at 2.
    rewrite split_on_join
      by (eapply Forall_impl; [exact H|]; by intros s (_ & _ & _ & ?)).
    change (normalize_go [] ("" :: seg :: segs)) with (normalize_go [] (seg :: segs)).
    by rewrite normalize_go_plain.
Qed.

(** The check of the file browser is a test on the first characters of
    the resolved path, not on its directories.  A path that is already
    normalized (absolute, no empty segment, no [.] and no [..]) resolves to
    itself, so it passes exactly when its text starts with the text of the
    home directory or with [/tmp]: every directory of the root whose name
    starts with [tmp] passes, and so does every sibling of the home
    directory whose name starts with the name of the home directory. *)
Theorem files_check_is_a_prefix_test (home cwd : string) (segs : list string) :
  Forall plain_segment segs →
  let path := "/" +:+ join "/" segs in
  files_target home cwd (Some path) = path
  ∧ files_allowed home cwd (Some path) = starts_with home path || starts_with "/tmp" path.
Proof.
  intros H path.
  assert (Ht : files_target home cwd (Some path) = path).
  { unfold files_target, str_or. cbv zeta.
    change (String.eqb path "") with false. cbv iota.
    change (String.eqb path "~") with false.
    change (starts_with "~/" path) with false. cbn [orb].
    by apply path_resolve_normalized. }
  split; [done|]. unfold files_allowed. cbv zeta. by rewrite Ht.
Qed.

Lemma files_check_is_a_prefix_test_witness :
  files_target "/home/user" "/srv/gateway" (Some ("/" +:+ join "/" ["home"; "user2"; "secrets"]))
  = "/" +:+ join "/" ["home"; "user2"; "secrets"]
  ∧ files_allowed "/home/user" "/srv/gateway"
      (Some ("/" +:+ join "/" ["home"; "user2"; "secrets"]))
    = starts_with "/home/user" ("/" +:+ join "/" ["home"; "user2"; "secrets"])
      || starts_with "/tmp" ("/" +:+ join "/" ["home"; "user2"; "secrets"]).
Proof.
  apply (files_check_is_a_prefix_test "/home/user" "/srv/gateway" ["home"; "user2"; "secrets"]).
  repeat constructor; discriminate.
Defined.

Example sibling_of_home_is_listed :
  files_allowed "/home/user" "/srv/gateway" (Some "/home/user2/secrets") = true
  ∧ files_allowed "/home/user" "/srv/gateway" (Some "/tmpfiles/x") = true
  ∧ files_allowed "/home/user" "/srv/gateway" (Some "~/../../etc") = false
  ∧ files_target "/home/user" "/srv/gateway" (Some "~/../user2/./secrets/") = "/home/user2/secrets".
Proof. vm_compute. done. Qed.

(** ** The turn engine: the numbering of content blocks *)

Lemma append_inj_l (a x y : string) : a +:+ x = a +:+ y → x = y.
Proof.
  induction a as [|c a IH]; [done|]. rewrite !append_cons. intros [= H]. by apply IH.
Qed.

Lemma new_id_inj (n1 n2 : nat) : new_id n1 = new_id n2 → n1 = n2.
Proof.
  unfold new_id. intros H%append_inj_l.
  apply (f_equal StringToNumber) in H. rewrite !StringToNumber_String_of_Z in H.
  injection H as H. lia.
Qed.

Lemma block_indices_app (m : string) (l1 l2 : list obs) :
  block_indices m (l1 ++ l2) = block_indices m l1 ++ block_indices m l2.
Proof. apply omap_app. Qed.

Lemma first_indices_succ (k : Z) : 0 <= k → first_indices (k + 1) = first_indices k ++ [k].
Proof.
  intros Hk. unfold first_indices. replace (Z.to_nat (k + 1)) with (S (Z.to_nat k)) by lia.
  rewrite seq_S, map_app. cbn. f_equal. f_equal. lia.
Qed.

Lemma hoare_ret {A : Type} (J : gateway → list obs → Prop) (a : A) :
  hoare J (mret a) (fun _ => J).
Proof. intros st log H. cbn. by rewrite app_nil_r. Qed.

Lemma hoare_bind {A B : Type} (J : gateway → list obs → Prop)
    (J1 : A → gateway → list obs → Prop) (J2 : B → gateway → list obs → Prop)
    (m : M A) (k : A → M B) :
  hoare J m J1 → (∀ a, hoare (J1 a) (k a) J2) → hoare J (m ≫= k) J2.
Proof.
  intros Hm Hk st log H. rewrite value_bind, exec_bind, logs_bind, app_assoc.
  by apply Hk, Hm.
Qed.

Lemma hoare_get {B : Type} (J : gateway → list obs → Prop)
    (J2 : B → gateway → list obs → Prop) (k : gateway → M B) :
  (∀ s, hoare J (k s) J2) → hoare J (get_state ≫= k) J2.
Proof.
  intros Hk. eapply hoare_bind; [|exact Hk]. intros st log H. cbn. by rewrite app_nil_r.
Qed.

Lemma hoare_if {A : Type} (J : gateway → list obs → Prop)
    (J' : A → gateway → list obs → Prop) (b : bool) (m1 m2 : M A) :
  hoare J m1 J' → hoare J m2 J' → hoare J (if b then m1 else m2) J'.
Proof. by destruct b. Qed.

Lemma keeps_blocks_with_run (rid : nat) (k : run → M unit) :
  (∀ r, keeps_blocks (k r)) → keeps_blocks (with_run rid k).
Proof.
  intros Hk. apply hoare_get. intros s.
  destruct (g_runs s !! rid); [apply Hk|apply hoare_ret].
Qed.

Lemma blocks_inv_log (b : nat) (st : gateway) (log : list obs) (o : list obs) :
  (∀ m, block_indices m o = []) → blocks_inv b st log → blocks_inv b st (log ++ o).
Proof.
  intros Ho [H1 H2 H3 H4]. split; [done| |done|].
  - intros rid r Hr. destruct (H2 rid r Hr) as (Hk & n & Hn & Hid & Hb).
    split; [done|]. exists n. by rewrite block_indices_app, Ho, app_nil_r.
  - intros n Hn. by rewrite block_indices_app, Ho, app_nil_r, H4.
Qed.

Lemma blocks_inv_state (b : nat) (st st' : gateway) (log : list obs) :
  g_runs st' = g_runs st → (g_next_id st <= g_next_id st')%nat →
  blocks_inv b st log → blocks_inv b st' log.
Proof.
  intros Hr Hn [H1 H2 H3 H4]. split; [lia| | |done].
  - intros rid r. rewrite Hr. apply H2.
  - intros rid1 rid2 r1 r2. rewrite Hr. apply H3.
Qed.

Lemma blocks_inv_mono (b b' : nat) (st : gateway) (log : list obs) :
  (b <= b')%nat → (b' <= g_next_id st)%nat → blocks_inv b st log → blocks_inv b' st log.
Proof.
  intros Hb Hb' [H1 H2 H3 H4]. split; [done| |done|].
  - intros rid r Hr. destruct (H2 rid r Hr) as (Hk & n & Hn & Hid & Hbl).
    split; [done|]. exists n. split; [lia|done].
  - intros n Hn. apply H4. lia.
Qed.

Lemma keeps_blocks_modify (g : gateway → gateway) :
  (∀ st, g_runs (g st) = g_runs st ∧ g_next_id (g st) = g_next_id st) → keeps_blocks (modify g).
Proof.
  intros Hg st log H. rewrite exec_modify, logs_modify, app_nil_r.
  destruct (Hg st) as [Hr Hn]. unfold blocks_ok in *. rewrite Hn.
  eapply blocks_inv_state; [exact Hr|lia|done].
Qed.

Lemma keeps_blocks_tell (o : list obs) :
  (∀ m, block_indices m o = []) → keeps_blocks (tell o).
Proof. intros Ho st log H. rewrite exec_tell, logs_tell. by apply blocks_inv_log. Qed.

Lemma keeps_blocks_append (w : writer) (event : string) (data : json) :
  event ≠ "content_block" → keeps_blocks (append w event data).
Proof.
  intros He%String.eqb_neq st log H. rewrite logs_append.
  apply blocks_inv_log.
  - intros m. unfold block_indices, block_index_of, record_event, journal_record. cbn.
    by rewrite He.
  - eapply blocks_inv_state; [| |exact H]; done.
Qed.

Lemma keeps_blocks_commit (w : writer) (updates : meta) : keeps_blocks (commit w updates).
Proof.
  intros st log H. rewrite logs_commit, app_nil_r.
  eapply blocks_inv_state; [| |exact H]; done.
Qed.

Lemma keeps_blocks_newId : keeps_blocks newId.
Proof.
  intros st log H. rewrite logs_newId, exec_newId, app_nil_r. unfold blocks_ok in *.
  cbn [g_next_id set_next_id]. apply (blocks_inv_mono (g_next_id st)); [lia|cbn; lia|].
  eapply blocks_inv_state; [| |exact H]; cbn; [done|lia].
Qed.

Lemma keeps_blocks_update_run (rid : nat) (g : run → run) :
  (∀ r, r_assistantMessageId (g r) = r_assistantMessageId r
        ∧ r_blockIndex (g r) = r_blockIndex r) →
  keeps_blocks (update_run rid g).
Proof.
  intros Hg st log [H1 H2 H3 H4]. unfold update_run. rewrite exec_modify, logs_modify, app_nil_r.
  assert (Hl : ∀ i r', alter g rid (g_runs st) !! i = Some r' →
            ∃ r, g_runs st !! i = Some r
                 ∧ r_assistantMessageId r' = r_assistantMessageId r
                 ∧ r_blockIndex r' = r_blockIndex r).
  { intros i r'. destruct (decide (i = rid)) as [->|Hne].
    - rewrite list_lookup_alter_eq. destruct (g_runs st !! rid) as [r|]; [|done].
      intros [= <-]. exists r. split; [done|]. apply Hg.
    - rewrite list_lookup_alter_ne by done. intros Hr. by exists r'. }
  split; cbn [g_runs g_next_id set_runs]; [done| |  |done].
  - intros i r' (r & Hr & Hid & Hbi)%Hl. rewrite Hid, Hbi. by apply (H2 i).
  - intros i1 i2 r1' r2' (r1 & Hr1 & Hid1 & _)%Hl (r2 & Hr2 & Hid2 & _)%Hl.
    rewrite Hid1, Hid2. by apply H3.
Qed.

Lemma block_index_of_block (sid mid m : string) (c i : Z) (block : json) :
  block_index_of m
    (ObsAppend sid (journal_record c "content_block"
                      (JObj [("messageId", JStr mid); ("index", JNum i); ("block", block)])))
  = if String.eqb mid m then Some i else None.
Proof. unfold block_index_of, record_event, record_message, journal_record. cbn. done. Qed.

Lemma keeps_blocks_append_block (rid : nat) (block : json) :
  keeps_blocks (append_block rid block).
Proof.
  intros st log H. destruct (g_runs st !! rid) as [r|] eqn:Hr.
  2:{ unfold append_block.
      match goal with |- context [with_run rid ?k] =>
        destruct (run_with_run rid k st) as [-> ->] end.
      rewrite Hr. by rewrite app_nil_r. }
  destruct (append_block_run rid block st r Hr) as [Hlog Hruns]. rewrite Hlog.
  assert (Hn : g_next_id (exec (append_block rid block) st) = g_next_id st).
  { unfold append_block.
    match goal with |- context [with_run rid ?k] => destruct (run_with_run rid k st) as [-> _] end.
    rewrite Hr. by rewrite exec_bind. }
  destruct H as [H1 H2 H3 H4]. unfold blocks_ok. rewrite Hn.
  destruct (H2 rid r Hr) as (Hk & n & Hnb & Hid & Hbl).
  set (g := fun r' => set_blockIndex (r_blockIndex r' + 1) _) in Hruns.
  assert (Hl : ∀ i r', alter g rid (g_runs st) !! i = Some r' →
            (i = rid ∧ r' = g r) ∨ (i ≠ rid ∧ g_runs st !! i = Some r')).
  { intros i r'. destruct (decide (i = rid)) as [->|Hne].
    - rewrite list_lookup_alter_eq, Hr. intros [= <-]. by left.
    - rewrite list_lookup_alter_ne by done. by right. }
  split; [by rewrite Hn| | |].
  - intros i r'. rewrite Hruns. intros [[-> ->]|[Hne Hi]]%Hl.
    + cbn [g r_blockIndex set_blockIndex r_assistantMessageId set_writer].
      split; [lia|]. exists n. split; [done|]. split; [done|].
      rewrite block_indices_app, Hbl, first_indices_succ by done. f_equal.
      unfold block_indices. cbn [omap list_omap]. rewrite block_index_of_block.
      by rewrite Hid, String.eqb_refl.
    + destruct (H2 i r' Hi) as (Hk' & n' & Hnb' & Hid' & Hbl').
      split; [done|]. exists n'. split; [done|]. split; [done|].
      rewrite block_indices_app, Hbl'. unfold block_indices. cbn [omap list_omap].
      rewrite block_index_of_block.
      destruct (String.eqb_spec (r_assistantMessageId r) (new_id n')) as [He|_];
        [|by rewrite app_nil_r].
      exfalso. apply Hne. apply (H3 i rid r' r); congruence.
  - intros i1 i2 r1 r2. rewrite Hruns.
    intros [[-> ->]|[Hne1 Hi1]]%Hl [[-> ->]|[Hne2 Hi2]]%Hl; try done.
    + cbn [g r_assistantMessageId set_blockIndex set_writer]. intros He.
      symmetry. by apply (H3 i2 rid r2 r).
    + cbn [g r_assistantMessageId set_blockIndex set_writer]. intros He.
      by apply (H3 i1 rid r1 r).
    + by apply H3.
  - intros n' Hn'. rewrite block_indices_app, H4 by done. unfold block_indices.
    cbn [omap list_omap]. rewrite block_index_of_block.
    destruct (String.eqb_spec (r_assistantMessageId r) (new_id n')) as [He|_]; [|done].
    rewrite Hid in He. apply new_id_inj in He. lia.
Qed.

Lemma keeps_blocks_ret {A : Type} (a : A) : keeps_blocks (mret a).
Proof. apply hoare_ret. Qed.

Lemma keeps_blocks_bind {A B : Type} (m : M A) (k : A → M B) :
  keeps_blocks m → (∀ a, keeps_blocks (k a)) → keeps_blocks (m ≫= k).
Proof. intros Hm Hk. eapply hoare_bind; [exact Hm|exact Hk]. Qed.

Lemma keeps_blocks_get {B : Type} (k : gateway → M B) :
  (∀ s, keeps_blocks (k s)) → keeps_blocks (get_state ≫= k).
Proof. apply hoare_get. Qed.

Lemma keeps_blocks_if {A : Type} (b : bool) (m1 m2 : M A) :
  keeps_blocks m1 → keeps_blocks m2 → keeps_blocks (if b then m1 else m2).
Proof. apply hoare_if. Qed.

Ltac blocks_basic :=
  lazymatch goal with
  | |- keeps_blocks (mret _) => apply keeps_blocks_ret
  | |- keeps_blocks (tell _) => apply keeps_blocks_tell; intros ?; reflexivity
  | |- keeps_blocks newId => apply keeps_blocks_newId
  | |- keeps_blocks (append _ _ _) => apply keeps_blocks_append; discriminate
  | |- keeps_blocks (commit _ _) => apply keeps_blocks_commit
  | |- keeps_blocks (update_run _ _) =>
      apply keeps_blocks_update_run; intros ?; split; reflexivity
  | |- keeps_blocks (modify _) => apply keeps_blocks_modify; intros ?; split; reflexivity
  | |- keeps_blocks (append_block _ _) => apply keeps_blocks_append_block
  | |- keeps_blocks (appendAssistantText _ _) => apply keeps_blocks_append_block
  | |- keeps_blocks (with_run _ _) => apply keeps_blocks_with_run; intros ?
  | |- keeps_blocks (get_state ≫= _) => apply keeps_blocks_get; intros ?
  | |- keeps_blocks (_ ≫= _) => apply keeps_blocks_bind; [|intros ?]
  | |- keeps_blocks (if _ then _ else _) => apply keeps_blocks_if
  | |- keeps_blocks (let '(_, _) := ?x in _) => destruct x
  end.

Section BlockNumbers.

Context (JSON_parse : string → option json) (cfg : config).

Lemma keeps_blocks_emit (sid : string) :
  keeps_blocks (emitCodexSessionMetaUpdate JSON_parse cfg sid).
Proof.
  unfold emitCodexSessionMetaUpdate. apply keeps_blocks_get. intros s.
  destruct (readSessionMeta _ _); [|apply keeps_blocks_ret].
  destruct (createEventWriter _ _ _) as [[f1 w]|]; [|apply keeps_blocks_ret].
  cbv zeta. repeat blocks_basic.
Qed.

Ltac blocks_emit :=
  first [ lazymatch goal with
          | |- keeps_blocks (emitCodexSessionMetaUpdate _ _ _) => apply keeps_blocks_emit
          end
        | blocks_basic ].

Lemma keeps_blocks_finalizeRun (rid : nat) (stopReason : string) (code : option Z)
    (now : string) :
  keeps_blocks (finalizeRun JSON_parse cfg rid stopReason code now).
Proof. unfold finalizeRun. repeat blocks_emit. Qed.

Ltac blocks_tac :=
  repeat first [ lazymatch goal with
                 | |- keeps_blocks (finalizeRun _ _ _ _ _ _) => apply keeps_blocks_finalizeRun
                 end
               | blocks_emit ].

Lemma keeps_blocks_on_stdout_line (rid : nat) (line : string) :
  keeps_blocks (on_stdout_line JSON_parse rid line).
Proof.
  unfold on_stdout_line. apply keeps_blocks_with_run. intros r.
  apply keeps_blocks_if; [apply keeps_blocks_ret|].
  destruct (parse_entry JSON_parse line); [|apply keeps_blocks_ret]. cbv zeta. blocks_tac.
Qed.

Lemma keeps_blocks_cancel (sid : string) (clearQueue : bool) (now : string) :
  keeps_blocks (cancel JSON_parse cfg sid clearQueue now).
Proof.
  unfold cancel. apply keeps_blocks_bind; [blocks_tac|]. intros _.
  apply keeps_blocks_get. intros s. cbv zeta.
  destruct (codexProcBySession s !! sid), (codexFinalizeBySession s !! sid); blocks_tac.
Qed.

Lemma hoare_newId : hoare blocks_ok newId id_drawn.
Proof.
  intros st log H. rewrite value_newId, exec_newId, logs_newId, app_nil_r.
  exists (g_next_id st). split; [done|]. split; [done|].
  eapply blocks_inv_state; [| |exact H]; cbn; [done|lia].
Qed.

Lemma hoare_inert_drawn {A : Type} (a : string) (m : M A) :
  inert m → hoare (id_drawn a) m (fun _ => id_drawn a).
Proof.
  intros Hm st log (n & Ha & Hn & H). destruct (Hm st) as (Hr & Hid & Hl).
  exists n. split; [done|]. split; [congruence|].
  apply blocks_inv_log; [done|]. eapply blocks_inv_state; [exact Hr|lia|done].
Qed.

Lemma inert_append (w : writer) (event : string) (data : json) :
  event ≠ "content_block" → inert (append w event data).
Proof.
  intros He%String.eqb_neq st. split; [done|]. split; [done|]. intros mid.
  rewrite logs_append. unfold block_indices, block_index_of, record_event, journal_record. cbn.
  by rewrite He.
Qed.

Lemma inert_slash_command_text (sid : string) (m : meta) (trimmed : string) :
  inert (slash_command_text cfg sid m trimmed).
Proof.
  intros st. destruct (slash_command_text_fs cfg sid m trimmed st) as [[f ->] ->]. done.
Qed.

Lemma hoare_add_run (a : string) (r : run) :
  r_assistantMessageId r = a → r_blockIndex r = 0 →
  hoare (id_drawn a) (modify (fun st => set_runs (g_runs st ++ [r]) st)) (fun _ => blocks_ok).
Proof.
  intros Ha Hb st log (n & -> & Hn & [H1 H2 H3 H4]).
  rewrite exec_modify, logs_modify, app_nil_r. unfold blocks_ok.
  cbn [g_next_id g_runs set_runs]. rewrite Hn.
  assert (Hl : ∀ i r', (g_runs st ++ [r]) !! i = Some r' →
            g_runs st !! i = Some r' ∨ (i = length (g_runs st) ∧ r' = r)).
  { intros i r' [?|[? [? ?]%list_lookup_singleton_Some]]%lookup_app_Some; [by left|].
    right. split; [lia|done]. }
  split; cbn [g_next_id g_runs set_runs]; [lia| | |].
  - intros i r' [Hi|[-> ->]]%Hl.
    + destruct (H2 i r' Hi) as (Hk & n' & Hn' & Hid & Hbl).
      split; [done|]. exists n'. split; [lia|done].
    + rewrite Hb. split; [done|]. exists n. split; [lia|]. split; [done|]. by apply H4.
  - intros i1 i2 r1 r2 [Hi1|[-> ->]]%Hl [Hi2|[-> ->]]%Hl; try done.
    + by apply H3.
    + destruct (H2 i1 r1 Hi1) as (_ & n' & Hn' & Hid & _). rewrite Hid, Ha.
      intros ?%new_id_inj. lia.
    + destruct (H2 i2 r2 Hi2) as (_ & n' & Hn' & Hid & _). rewrite Hid, Ha.
      intros ?%new_id_inj. lia.
  - intros n' Hn'. apply H4. lia.
Qed.

Lemma hoare_first_block (a : string) (w : writer) (block : json) :
  hoare (id_drawn a)
        (append w "content_block"
           (JObj [("messageId", JStr a); ("index", JNum 0); ("block", block)]))
        (fun _ => blocks_ok).
Proof.
  intros st log (n & -> & Hn & [H1 H2 H3 H4]). rewrite logs_append. unfold blocks_ok.
  change (g_next_id (exec (append _ _ _) st)) with (g_next_id st).
  change (g_runs (exec (append _ _ _) st)) with (g_runs st). rewrite Hn.
  split.
  - change (g_next_id (exec (append ?w0 ?e ?d) st)) with (g_next_id st). lia.
  - intros i r Hi. change (g_runs (exec (append ?w0 ?e ?d) st)) with (g_runs st) in Hi.
    destruct (H2 i r Hi) as (Hk & n' & Hn' & Hid & Hbl).
    split; [done|]. exists n'. split; [lia|]. split; [done|].
    rewrite block_indices_app, Hbl. unfold block_indices. cbn [omap list_omap].
    rewrite block_index_of_block.
    destruct (String.eqb_spec (new_id n) (new_id n')) as [He%new_id_inj|_]; [lia|].
    by rewrite app_nil_r.
  - intros i1 i2 r1 r2 Hi1 Hi2. by apply H3.
  - intros n' Hn'. rewrite block_indices_app, H4 by lia. unfold block_indices.
    cbn [omap list_omap]. rewrite block_index_of_block.
    destruct (String.eqb_spec (new_id n) (new_id n')) as [He%new_id_inj|_]; [lia|done].
Qed.

Ltac to_keeps_blocks :=
  intros ?; cbv beta;
  lazymatch goal with |- hoare blocks_ok ?m _ => change (keeps_blocks m) end.

Lemma keeps_blocks_startNextCodexTurn (sid now : string) (bin_ok : bool) :
  keeps_blocks (startNextCodexTurn JSON_parse cfg sid now bin_ok).
Proof.
  unfold startNextCodexTurn. apply keeps_blocks_get. intros s.
  apply keeps_blocks_if; [apply keeps_blocks_ret|].
  destruct (default [] _) as [|t queue]; [apply keeps_blocks_ret|].
  apply keeps_blocks_bind; [blocks_tac|]. intros _.
  destruct (readSessionMeta _ _); [|apply keeps_blocks_ret].
  destruct (createEventWriter _ _ _) as [[f1 w]|]; [|apply keeps_blocks_ret].
  apply keeps_blocks_bind; [blocks_tac|]. intros _.
  eapply hoare_bind; [apply hoare_newId|]. intros assistantMessageId. cbv zeta.
  eapply hoare_bind; [by apply hoare_add_run|]. to_keeps_blocks.
  blocks_tac.
Qed.

Lemma keeps_blocks_submit (sid content : string) (imagePath : option string) (now : string) :
  keeps_blocks (submit JSON_parse cfg sid content imagePath now).
Proof.
  unfold submit. apply keeps_blocks_if; [apply keeps_blocks_ret|].
  apply keeps_blocks_get. intros s.
  destruct (readSessionMeta _ _); [|apply keeps_blocks_ret]. cbv zeta.
  apply keeps_blocks_bind; [blocks_tac|]. intros _.
  destruct (createEventWriter _ _ _) as [[f1 w]|]; [|apply keeps_blocks_ret].
  apply keeps_blocks_bind; [blocks_tac|]. intros _.
  eapply hoare_bind; [apply hoare_newId|]. intros uid.
  eapply hoare_bind; [by apply hoare_inert_drawn, inert_append|]. intros [w1 c1]. cbv beta.
  eapply hoare_bind; [apply hoare_first_block|]. intros [w2 c2]. cbv beta.
  lazymatch goal with |- hoare blocks_ok ?m _ => change (keeps_blocks m) end.
  apply keeps_blocks_bind; [blocks_tac|]. intros [w3 c3].
  apply keeps_blocks_bind; [blocks_tac|]. intros w4.
  apply keeps_blocks_if; [|blocks_tac].
  eapply hoare_bind; [apply hoare_newId|]. intros aid.
  eapply hoare_bind; [by apply hoare_inert_drawn, inert_append|]. intros [w5 c5]. cbv beta.
  eapply hoare_bind; [apply hoare_inert_drawn, inert_slash_command_text|]. intros text.
  cbv beta.
  eapply hoare_bind; [apply hoare_first_block|]. intros [w6 c6]. cbv beta.
  lazymatch goal with |- hoare blocks_ok ?m _ => change (keeps_blocks m) end.
  blocks_tac.
Qed.

Lemma keeps_blocks_step (ev : event) : keeps_blocks (step JSON_parse cfg ev).
Proof.
  destruct ev; cbn [step]; (apply keeps_blocks_bind; [|intros; apply keeps_blocks_ret]).
  - apply keeps_blocks_submit.
  - apply keeps_blocks_cancel.
  - apply keeps_blocks_startNextCodexTurn.
  - apply keeps_blocks_on_stdout_line.
  - unfold on_stderr. blocks_tac.
  - unfold on_close. blocks_tac.
  - unfold on_error. blocks_tac.
Qed.

Lemma blocks_ok_run_events (evs : list event) (st : gateway) (log : list obs) :
  blocks_ok st log →
  blocks_ok (run_events JSON_parse cfg evs st).1 (log ++ (run_events JSON_parse cfg evs st).2).
Proof.
  revert st log. induction evs as [|ev evs IH]; intros st log H.
  - cbn. by rewrite app_nil_r.
  - rewrite run_events_cons. cbn [fst snd]. rewrite app_assoc. apply IH.
    by apply keeps_blocks_step.
Qed.

End BlockNumbers.

(** The content blocks of an assistant message are numbered in the order
    they are journaled.  In every state the engine reaches, the
    [content_block] records journaled so far for the assistant message of a
    run carry the indices 0, 1, 2, ... in this order, [blockIndex] is their
    number, and no two runs share a message id: no index is skipped or used
    twice, whichever handlers wrote the blocks (the lines of the child,
    [finalizeRun] for an error or a cancel).  Ids are drawn from a counter,
    as [newId] is modelled. *)
Theorem content_blocks_numbered (JSON_parse : string → option json) (cfg : config)
    (f0 : fs) (evs : list event) :
  let st := (run_events JSON_parse cfg evs (gateway_init f0)).1 in
  let log := (run_events JSON_parse cfg evs (gateway_init f0)).2 in
  (∀ rid r, g_runs st !! rid = Some r →
     0 <= r_blockIndex r
     ∧ block_indices (r_assistantMessageId r) log = first_indices (r_blockIndex r))
  ∧ (∀ rid1 rid2 r1 r2, g_runs st !! rid1 = Some r1 → g_runs st !! rid2 = Some r2 →
       r_assistantMessageId r1 = r_assistantMessageId r2 → rid1 = rid2).
Proof.
  intros st log.
  assert (H : blocks_ok st log).
  { apply (blocks_ok_run_events JSON_parse cfg evs (gateway_init f0) []).
    split; cbn; [lia|done|done|done]. }
  destruct H as [H1 H2 H3 H4]. split; [|exact H3].
  intros rid r Hr. destruct (H2 rid r Hr) as (Hk & n & _ & Hid & Hbl). by rewrite Hid.
Qed.

Example block_indices_of_a_turn :
  let r := run_events JSON_parse_ref ex_cfg
             [ EvSubmit ex_sid "hi" None "t0"; EvStartNext ex_sid "t1" true;
               EvStdout 0 (agent_message_line "hello");
               EvStdout 0 (agent_message_line "world");
               EvClose 0 (Some 1) "t2" ]
             (gateway_init new_session_fs) in
  block_indices "id-1" r.2 = [0; 1]
  ∧ (r_blockIndex <$> g_runs r.1 !! 0%nat) = Some 2.
Proof. vm_compute. done. Qed.

(** ** The turn engine: journals are only appended to *)

Lemma lines_text_app (l1 l2 : list json) : lines_text (l1 ++ l2) = lines_text l1 +:+ lines_text l2.
Proof.
  induction l1 as [|r l1 IH]; [done|]. cbn [app].
  by rewrite !lines_text_cons, IH, append_assoc.
Qed.

Lemma appends_to_app (sid : string) (l1 l2 : list obs) :
  appends_to sid (l1 ++ l2) = appends_to sid l1 ++ appends_to sid l2.
Proof. apply omap_app. Qed.

Lemma jsonl_text_touch (sid sid' : string) (f : fs) :
  jsonl_text (touch_jsonl sid' f) sid = jsonl_text f sid.
Proof.
  unfold jsonl_text, touch_jsonl. destruct (fs_jsonl f !! sid') eqn:H; [done|]. cbn.
  destruct (decide (sid = sid')) as [->|Hne].
  - by rewrite lookup_insert_eq, H.
  - by rewrite lookup_insert_ne.
Qed.

Section AppendOnly.

Context (JSON_parse : string → option json) (cfg : config) (sid : string) (f0 : fs).

Lemma journal_follows_quiet (st st' : gateway) (log o : list obs) :
  jsonl_text (g_fs st') sid = jsonl_text (g_fs st) sid → appends_to sid o = [] →
  journal_follows sid f0 st log → journal_follows sid f0 st' (log ++ o).
Proof.
  unfold journal_follows. intros -> Ho ->. by rewrite appends_to_app, Ho, app_nil_r.
Qed.

Lemma keeps_journal_ret {A : Type} (a : A) : keeps_journal sid f0 (mret a).
Proof. apply hoare_ret. Qed.

Lemma keeps_journal_bind {A B : Type} (m : M A) (k : A → M B) :
  keeps_journal sid f0 m → (∀ a, keeps_journal sid f0 (k a)) → keeps_journal sid f0 (m ≫= k).
Proof. intros Hm Hk. eapply hoare_bind; [exact Hm|exact Hk]. Qed.

Lemma keeps_journal_if {A : Type} (b : bool) (m1 m2 : M A) :
  keeps_journal sid f0 m1 → keeps_journal sid f0 m2 →
  keeps_journal sid f0 (if b then m1 else m2).
Proof. apply hoare_if. Qed.

Lemma keeps_journal_with_run (rid : nat) (k : run → M unit) :
  (∀ r, keeps_journal sid f0 (k r)) → keeps_journal sid f0 (with_run rid k).
Proof.
  intros Hk. apply hoare_get. intros s.
  destruct (g_runs s !! rid); [apply Hk|apply hoare_ret].
Qed.

Lemma keeps_journal_modify (g : gateway → gateway) :
  (∀ st, g_fs (g st) = g_fs st) → keeps_journal sid f0 (modify g).
Proof.
  intros Hg st log H. rewrite exec_modify, logs_modify.
  apply (journal_follows_quiet st); [by rewrite Hg|done|done].
Qed.

Lemma keeps_journal_tell (o : list obs) :
  appends_to sid o = [] → keeps_journal sid f0 (tell o).
Proof. intros Ho st log H. rewrite exec_tell, logs_tell. by apply (journal_follows_quiet st). Qed.

Lemma keeps_journal_newId : keeps_journal sid f0 newId.
Proof. intros st log H. by apply (journal_follows_quiet st). Qed.

Lemma keeps_journal_commit (w : writer) (updates : meta) :
  keeps_journal sid f0 (commit w updates).
Proof. intros st log H. by apply (journal_follows_quiet st). Qed.

Lemma keeps_journal_append (w : writer) (event : string) (data : json) :
  keeps_journal sid f0 (append w event data).
Proof.
  intros st log H. rewrite logs_append. unfold journal_follows in *.
  rewrite appends_to_app, lines_text_app, <- append_assoc, <- H.
  change (g_fs (exec (append w event data) st))
    with (set_jsonl (w_sessionId w)
            (jsonl_text (g_fs st) (w_sessionId w)
             +:+ journal_line (journal_record (w_cursor w + 1) event data)) (g_fs st)).
  unfold appends_to. cbn [omap list_omap].
  destruct (String.eqb_spec (w_sessionId w) sid) as [->|Hne].
  - unfold jsonl_text at 1. cbn. rewrite lookup_insert_eq. cbn.
    by rewrite ?lines_text_cons, ?append_nil_r.
  - unfold jsonl_text at 1. cbn. rewrite lookup_insert_ne by done.
    by rewrite ?append_nil_r.
Qed.

Lemma hoare_snapshot {B : Type} (J2 : B → gateway → list obs → Prop) (k : gateway → M B) :
  (∀ s, hoare (journal_follows_at sid f0 s) (k s) J2) →
  hoare (journal_follows sid f0) (get_state ≫= k) J2.
Proof.
  intros Hk st log H. rewrite value_bind, exec_bind, logs_bind, app_assoc.
  apply Hk. cbn. by rewrite app_nil_r.
Qed.

Lemma hoare_at_modify (s : gateway) (g : gateway → gateway) :
  (∀ st, g_fs (g st) = g_fs st) →
  hoare (journal_follows_at sid f0 s) (modify g) (fun _ => journal_follows_at sid f0 s).
Proof.
  intros Hg st log [H He]. rewrite exec_modify, logs_modify. split; [|by rewrite Hg].
  apply (journal_follows_quiet st); [by rewrite Hg|done|done].
Qed.

Lemma hoare_at_weaken {A : Type} (s : gateway) (m : M A) :
  keeps_journal sid f0 m →
  hoare (journal_follows_at sid f0 s) m (fun _ => journal_follows sid f0).
Proof. intros Hm st log [H _]. by apply Hm. Qed.

Lemma hoare_at_opened (s : gateway) (sid' : string) (f1 : fs) (w : writer) :
  createEventWriter JSON_parse (g_fs s) sid' = Ok (f1, w) →
  hoare (journal_follows_at sid f0 s) (modify (set_fs f1)) (fun _ => journal_follows sid f0).
Proof.
  intros Hw st log [H He]. rewrite exec_modify, logs_modify.
  apply (journal_follows_quiet st); [|done|done].
  apply createEventWriter_sessionId in Hw as (_ & _ & _ & -> & _).
  cbn. by rewrite <- He, jsonl_text_touch.
Qed.

Ltac journal_basic :=
  lazymatch goal with
  | |- keeps_journal _ _ (mret _) => apply keeps_journal_ret
  | |- keeps_journal _ _ (tell _) => apply keeps_journal_tell; reflexivity
  | |- keeps_journal _ _ newId => apply keeps_journal_newId
  | |- keeps_journal _ _ (append _ _ _) => apply keeps_journal_append
  | |- keeps_journal _ _ (commit _ _) => apply keeps_journal_commit
  | |- keeps_journal _ _ (update_run _ _) => apply keeps_journal_modify; intros ?; reflexivity
  | |- keeps_journal _ _ (modify _) => apply keeps_journal_modify; intros ?; reflexivity
  | |- keeps_journal _ _ (with_run _ _) => apply keeps_journal_with_run; intros ?
  | |- keeps_journal _ _ (_ ≫= _) => apply keeps_journal_bind; [|intros ?]
  | |- keeps_journal _ _ (if _ then _ else _) => apply keeps_journal_if
  | |- keeps_journal _ _ (let '(_, _) := ?x in _) => destruct x
  end.

Ltac to_keeps_journal :=
  intros ?; cbv beta;
  lazymatch goal with |- hoare (journal_follows ?s ?f) ?m _ => change (keeps_journal s f m) end.

Lemma keeps_journal_emit (sid' : string) :
  keeps_journal sid f0 (emitCodexSessionMetaUpdate JSON_parse cfg sid').
Proof.
  unfold emitCodexSessionMetaUpdate. apply hoare_snapshot. intros s.
  destruct (readSessionMeta _ _); [|apply hoare_at_weaken, keeps_journal_ret].
  destruct (createEventWriter _ _ _) as [[f1 w]|] eqn:Hw;
    [|apply hoare_at_weaken, keeps_journal_ret].
  eapply hoare_bind; [by eapply hoare_at_opened|]. to_keeps_journal.
  cbv zeta. repeat journal_basic.
Qed.

Lemma keeps_journal_append_block (rid : nat) (block : json) :
  keeps_journal sid f0 (append_block rid block).
Proof. unfold append_block. repeat journal_basic. Qed.

Ltac journal_blocks :=
  first [ lazymatch goal with
          | |- keeps_journal _ _ (emitCodexSessionMetaUpdate _ _ _) => apply keeps_journal_emit
          | |- keeps_journal _ _ (append_block _ _) => apply keeps_journal_append_block
          | |- keeps_journal _ _ (appendAssistantText _ _) => apply keeps_journal_append_block
          end
        | journal_basic ].

Lemma keeps_journal_finalizeRun (rid : nat) (stopReason : string) (code : option Z)
    (now : string) :
  keeps_journal sid f0 (finalizeRun JSON_parse cfg rid stopReason code now).
Proof. unfold finalizeRun. repeat journal_blocks. Qed.

Ltac journal_tac :=
  repeat first [ lazymatch goal with
                 | |- keeps_journal _ _ (finalizeRun _ _ _ _ _ _) =>
                     apply keeps_journal_finalizeRun
                 end
               | journal_blocks ].

Lemma keeps_journal_startNextCodexTurn (sid' now : string) (bin_ok : bool) :
  keeps_journal sid f0 (startNextCodexTurn JSON_parse cfg sid' now bin_ok).
Proof.
  unfold startNextCodexTurn. apply hoare_snapshot. intros s.
  apply hoare_if; [apply hoare_at_weaken, keeps_journal_ret|].
  destruct (default [] _) as [|t queue]; [apply hoare_at_weaken, keeps_journal_ret|].
  eapply hoare_bind; [by apply hoare_at_modify|]. intros ?; cbv beta.
  destruct (readSessionMeta _ _); [|apply hoare_at_weaken, keeps_journal_ret].
  destruct (createEventWriter _ _ _) as [[f1 w]|] eqn:Hw;
    [|apply hoare_at_weaken, keeps_journal_ret].
  eapply hoare_bind; [by eapply hoare_at_opened|]. to_keeps_journal.
  cbv zeta. journal_tac.
Qed.

Lemma keeps_journal_on_stdout_line (rid : nat) (line : string) :
  keeps_journal sid f0 (on_stdout_line JSON_parse rid line).
Proof.
  unfold on_stdout_line. apply keeps_journal_with_run. intros r.
  apply keeps_journal_if; [apply keeps_journal_ret|].
  destruct (parse_entry JSON_parse line); [|apply keeps_journal_ret]. cbv zeta. journal_tac.
Qed.

Lemma keeps_journal_cancel (sid' : string) (clearQueue : bool) (now : string) :
  keeps_journal sid f0 (cancel JSON_parse cfg sid' clearQueue now).
Proof.
  unfold cancel. apply keeps_journal_bind; [journal_tac|]. intros _.
  apply hoare_get. intros s. cbv zeta.
  destruct (codexProcBySession s !! sid'), (codexFinalizeBySession s !! sid');
    lazymatch goal with |- hoare (journal_follows ?s0 ?f) ?m _ => change (keeps_journal s0 f m) end;
    journal_tac.
Qed.

Lemma keeps_journal_slash_command_text (sid' : string) (m : meta) (trimmed : string) :
  keeps_journal sid f0 (slash_command_text cfg sid' m trimmed).
Proof.
  unfold slash_command_text. apply keeps_journal_if; [apply keeps_journal_ret|]. cbv zeta.
  apply keeps_journal_if; [apply keeps_journal_ret|].
  apply keeps_journal_bind; [|intros; apply keeps_journal_ret].
  intros st log H. rewrite exec_modify, logs_modify.
  apply (journal_follows_quiet st); [|done|done].
  unfold writeSessionMeta. by destruct (getSessionPaths sid').
Qed.

Lemma keeps_journal_submit (sid' content : string) (imagePath : option string) (now : string) :
  keeps_journal sid f0 (submit JSON_parse cfg sid' content imagePath now).
Proof.
  unfold submit. apply keeps_journal_if; [apply keeps_journal_ret|].
  apply hoare_snapshot. intros s.
  destruct (readSessionMeta _ _); [|apply hoare_at_weaken, keeps_journal_ret]. cbv zeta.
  eapply hoare_bind; [by apply hoare_at_modify|]. intros ?; cbv beta.
  destruct (createEventWriter _ _ _) as [[f1 w]|] eqn:Hw;
    [|apply hoare_at_weaken, keeps_journal_ret].
  eapply hoare_bind; [by eapply hoare_at_opened|]. to_keeps_journal.
  repeat first [ lazymatch goal with
                 | |- keeps_journal _ _ (slash_command_text _ _ _ _) =>
                     apply keeps_journal_slash_command_text
                 end
               | journal_blocks ].
Qed.

Lemma keeps_journal_step (ev : event) : keeps_journal sid f0 (step JSON_parse cfg ev).
Proof.
  destruct ev; cbn [step]; (apply keeps_journal_bind; [|intros; apply keeps_journal_ret]).
  - apply keeps_journal_submit.
  - apply keeps_journal_cancel.
  - apply keeps_journal_startNextCodexTurn.
  - apply keeps_journal_on_stdout_line.
  - unfold on_stderr. journal_tac.
  - unfold on_close. journal_tac.
  - unfold on_error. journal_tac.
Qed.

Lemma journal_follows_run_events (evs : list event) (st : gateway) (log : list obs) :
  journal_follows sid f0 st log →
  journal_follows sid f0 (run_events JSON_parse cfg evs st).1
                  (log ++ (run_events JSON_parse cfg evs st).2).
Proof.
  revert st log. induction evs as [|ev evs IH]; intros st log H.
  - cbn. by rewrite app_nil_r.
  - rewrite run_events_cons. cbn [fst snd]. rewrite app_assoc. apply IH.
    by apply keeps_journal_step.
Qed.

End AppendOnly.

(** Journals are only appended to.  Whatever the gateway is asked to do,
    the journal of a session is afterwards the journal it was at start-up
    followed by one line per record the handlers appended to it, in the
    order of the appends: the line of a record is its JSON text and a line
    feed.  No handler truncates a journal, rewrites a line or writes
    anything that is not a whole record. *)
Theorem journal_is_append_only (JSON_parse : string → option json) (cfg : config)
    (f0 : fs) (evs : list event) (sid : string) :
  let r := run_events JSON_parse cfg evs (gateway_init f0) in
  jsonl_text (g_fs r.1) sid = jsonl_text f0 sid +:+ lines_text (appends_to sid r.2).
Proof.
  intros r.
  apply (journal_follows_run_events JSON_parse cfg sid f0 evs (gateway_init f0) []).
  unfold journal_follows. cbn. by rewrite append_nil_r.
Qed.

(** ** The tailer: a connection that closes, before and after the attach *)

Lemma streamHistory_clients (JSON_parse : string → option json)
    (f : fs) (t : tailer) (res : nat) (since : Z) (limit : option nat) (c : nat) :
  t_clients (streamHistory JSON_parse f t res since limit).1 = t_clients t
  ∧ (res ≠ c → delivered_to c (streamHistory JSON_parse f t res since limit).2 = []).
Proof.
  unfold streamHistory. destruct (fs_jsonl f !! t_sessionId t); [|done].
  destruct (history_loop _ _ _ _ _ _) as [[frames n] lc]. split; [done|].
  intros Hne. by apply delivered_to_other.
Qed.

Lemma processNewLines_clients (JSON_parse : string → option json) (f : fs) (t : tailer)
    (c : nat) :
  t_clients (processNewLines JSON_parse f t).1 = t_clients t
  ∧ (c ∉ t_clients t → delivered_to c (processNewLines JSON_parse f t).2 = []).
Proof.
  unfold processNewLines. destruct (t_processing t); [done|].
  destruct (fs_jsonl f !! t_sessionId t) as [text|]; [|done].
  cbv zeta. destruct (str_len text <=? t_position t); [done|].
  destruct (live_loop_spec JSON_parse (t_clients t)
              (readline_lines (str_drop (Z.to_nat (t_position t)) text)) (t_lastCursor t))
    as [lc' ->].
  split; [done|]. intros Hc. by apply delivered_to_absent.
Qed.

(** The two steps of an attach are [addClient]. *)
Lemma conn_attach_addClient (JSON_parse : string → option json) (st : conn)
    (res : nat) (since : Z) (limit : option nat) :
  let r := conn_run JSON_parse st [CAttach res since limit; CAttached res] in
  (c_tailer r.1, r.2) = addClient JSON_parse (c_fs st) (c_tailer st) res since limit
  ∧ c_fs r.1 = c_fs st.
Proof.
  cbn [conn_run conn_step]. unfold addClient.
  destruct (streamHistory JSON_parse (c_fs st) (c_tailer st) res since limit) as [t1 out].
  cbn [c_replaying]. rewrite bool_decide_eq_true_2.
  - cbn. by rewrite !app_nil_r.
  - apply elem_of_app. right. by apply list_elem_of_singleton.
Qed.

Lemma conn_run_absent (JSON_parse : string → option json) (c : nat) (evs : list conn_event) :
  ∀ st : conn,
    c ∉ t_clients (c_tailer st) → forallb (not_attaching c) evs = true →
    delivered_to c (conn_run JSON_parse st evs).2 = [].
Proof.
  induction evs as [|ev evs IH]; intros st Hc Hevs; [done|].
  cbn [forallb] in Hevs. apply andb_true_iff in Hevs as [Hev Hevs].
  cbn [conn_run].
  assert (Hstep : (c ∉ t_clients (c_tailer (conn_step JSON_parse st ev).1))
                  ∧ delivered_to c (conn_step JSON_parse st ev).2 = []).
  { destruct ev as [text| |c' since limit|c'|c']; cbn [conn_step].
    - done.
    - destruct (processNewLines_clients JSON_parse (c_fs st) (c_tailer st) c) as [Hcl Hout].
      destruct (processNewLines JSON_parse (c_fs st) (c_tailer st)) as [t' out].
      cbn [fst snd c_tailer] in *. rewrite Hcl. auto.
    - cbn in Hev. apply negb_true_iff, Nat.eqb_neq in Hev.
      destruct (streamHistory_clients JSON_parse (c_fs st) (c_tailer st) c' since limit c)
        as [Hcl Hout].
      destruct (streamHistory JSON_parse (c_fs st) (c_tailer st) c' since limit) as [t' out].
      cbn [fst snd c_tailer] in *. rewrite Hcl. auto.
    - cbn in Hev. apply negb_true_iff, Nat.eqb_neq in Hev.
      case_bool_decide; [|done]. cbn [fst snd c_tailer t_clients]. split; [|done].
      unfold set_add. case_bool_decide; [done|].
      apply not_elem_of_app. split; [done|]. by intros ?%list_elem_of_singleton.
    - case_bool_decide; [done|]. cbn [fst snd c_tailer]. split; [|done].
      case_bool_decide; [|done]. cbn. by intros [_ ?]%list_elem_of_filter. }
  destruct Hstep as [Hc1 Hout1]. specialize (IH (conn_step JSON_parse st ev).1 Hc1 Hevs).
  destruct (conn_step JSON_parse st ev) as [st1 out1]. cbn [fst snd] in *.
  destruct (conn_run JSON_parse st1 evs) as [st2 out2]. cbn [fst snd] in *.
  by rewrite delivered_to_app, Hout1, IH.
Qed.

Lemma conn_run_stays (JSON_parse : string → option json) (c : nat) (evs : list conn_event) :
  ∀ st : conn,
    c ∈ t_clients (c_tailer st) → c ∈ c_closed st →
    c ∈ t_clients (c_tailer (conn_run JSON_parse st evs).1).
Proof.
  induction evs as [|ev evs IH]; intros st Hc Hcl; [done|].
  cbn [conn_run].
  assert (Hstep : c ∈ t_clients (c_tailer (conn_step JSON_parse st ev).1)
                  ∧ c ∈ c_closed (conn_step JSON_parse st ev).1).
  { destruct ev as [text| |c' since limit|c'|c']; cbn [conn_step].
    - done.
    - destruct (processNewLines_clients JSON_parse (c_fs st) (c_tailer st) c) as [Hcl' _].
      destruct (processNewLines JSON_parse (c_fs st) (c_tailer st)) as [t' out].
      cbn [fst snd c_tailer c_closed] in *. by rewrite Hcl'.
    - destruct (streamHistory_clients JSON_parse (c_fs st) (c_tailer st) c' since limit c)
        as [Hcl' _].
      destruct (streamHistory JSON_parse (c_fs st) (c_tailer st) c' since limit) as [t' out].
      cbn [fst snd c_tailer c_closed] in *. by rewrite Hcl'.
    - case_bool_decide; [|done]. cbn [fst snd c_tailer t_clients c_closed]. split; [|done].
      unfold set_add. case_bool_decide; [done|]. apply elem_of_app. by left.
    - case_bool_decide as Hcl'; [done|]. cbn [fst snd c_tailer c_closed].
      split; [|apply elem_of_cons; by right].
      case_bool_decide; [|done]. cbn. apply list_elem_of_filter. split; [|done].
      intros ->. done. }
  destruct Hstep as [Hc1 Hcl1]. specialize (IH (conn_step JSON_parse st ev).1 Hc1 Hcl1).
  destruct (conn_step JSON_parse st ev) as [st1 out1]. cbn [fst snd] in *.
  by destruct (conn_run JSON_parse st1 evs) as [st2 out2].
Qed.

(** The close handler of [addClient] exists only after the replay.  A
    client [a] whose connection closes once the handler is registered is
    taken out of the tailer's set: as long as no new attach of it begins,
    nothing more is written to it.  A client [b] whose connection closes
    during the replay, before the handler is registered, is added to the
    set when the replay is over and stays in it whatever happens then to
    the tailer: the records that [processNewLines] reads afterwards are
    written to the closed response. *)
Theorem close_during_replay_is_missed (JSON_parse : string → option json)
    (st : conn) (a b : nat) (since : Z) (limit : option nat) (evs : list conn_event) :
  a ∈ c_listening st → a ∉ c_closed st →
  b ∉ c_listening st → b ∉ c_closed st →
  (forallb (not_attaching a) evs = true →
   delivered_to a (conn_run JSON_parse st (CClose a :: evs)).2 = [])
  ∧ (let st3 := (conn_run JSON_parse st [CAttach b since limit; CClose b; CAttached b]).1 in
     b ∈ t_clients (c_tailer (conn_run JSON_parse st3 evs).1)
     ∧ ∀ text pending,
         t_processing (c_tailer st) = false → NoDup (t_clients (c_tailer st)) →
         fs_jsonl (c_fs st) !! t_sessionId (c_tailer st) = Some text →
         whole_lines pending →
         delivered_to b (conn_run JSON_parse st3 [CAppend pending; CNotify]).2
         = map entry_frame (journal_entries JSON_parse pending)).
Proof.
  intros Hla Hca Hl Hcl. split.
  - intros Hevs. cbn [conn_run conn_step].
    rewrite (bool_decide_eq_false_2 (a ∈ c_closed st)) by done.
    rewrite (bool_decide_eq_true_2 (a ∈ c_listening st)) by done.
    match goal with |- context [conn_run _ ?s evs] =>
      pose proof (conn_run_absent JSON_parse a evs s) as H;
      destruct (conn_run JSON_parse s evs) as [st2 out2]
    end.
    cbn [fst snd app c_tailer] in *. apply H; [|done].
    cbn. by intros [? _]%list_elem_of_filter.
  - clear a Hla Hca. rename b into c. intros st3.
    assert (H3 : c_tailer st3
                 = (addClient JSON_parse (c_fs st) (c_tailer st) c since limit).1
                 ∧ c_fs st3 = c_fs st ∧ c ∈ c_closed st3).
    { subst st3. cbn [conn_run conn_step]. unfold addClient.
      destruct (streamHistory JSON_parse (c_fs st) (c_tailer st) c since limit) as [t1 out].
      cbn [c_closed c_listening c_replaying c_tailer c_fs].
      rewrite (bool_decide_eq_false_2 (c ∈ c_closed st)) by done.
      rewrite (bool_decide_eq_false_2 (c ∈ c_listening st)) by done.
      cbn [c_closed c_listening c_replaying c_tailer c_fs].
      rewrite bool_decide_eq_true_2
        by (apply elem_of_app; right; by apply list_elem_of_singleton).
      cbn. repeat split. by left. }
    destruct H3 as (Ht3 & Hf3 & Hc3). clearbody st3.
    assert (Hin : c ∈ t_clients (c_tailer st3)).
    { rewrite Ht3. unfold addClient.
      destruct (streamHistory JSON_parse (c_fs st) (c_tailer st) c since limit) as [t1 out].
      cbn. apply set_add_elem. }
    split; [by apply conn_run_stays|].
    intros text pending Hproc Hnd Hfile Hwhole.
    pose proof (tail_run_quiet JSON_parse c [TAppend pending; TNotify] (c_fs st3)
                  (c_tailer st3) text "") as Hq.
    assert (Hrun : (conn_run JSON_parse st3 [CAppend pending; CNotify]).2
                   = (tail_run JSON_parse (c_fs st3, c_tailer st3) [TAppend pending; TNotify]).2).
    { cbn [conn_run conn_step tail_run tail_step c_fs c_tailer].
      by destruct (processNewLines JSON_parse _ _) as [t' out]. }
    rewrite Hrun, Hq.
    + cbn [processed_text]. by rewrite append_nil_l, append_nil_r.
    + rewrite Ht3. unfold addClient.
      rewrite (streamHistory_some JSON_parse _ _ c since limit _ Hfile). done.
    + rewrite Ht3. unfold addClient.
      rewrite (streamHistory_some JSON_parse _ _ c since limit _ Hfile). cbn.
      by apply set_add_NoDup.
    + done.
    + rewrite Ht3, Hf3. unfold addClient.
      rewrite (streamHistory_some JSON_parse _ _ c since limit _ Hfile). cbn.
      by rewrite append_nil_r.
    + rewrite Ht3. unfold addClient.
      rewrite (streamHistory_some JSON_parse _ _ c since limit _ Hfile). done.
    + by left.
    + apply Forall_cons. split; [exact Hwhole|]. by apply Forall_cons.
Qed.

Lemma close_during_replay_is_missed_witness :
  let st := {| c_fs := ex_fs;
               c_tailer := {| t_sessionId := ex_sid; t_clients := [1%nat];
                              t_position := str_len ex_journal; t_lastCursor := 2;
                              t_processing := false |};
               c_replaying := []; c_listening := [1%nat]; c_closed := [] |} in
  (forallb (not_attaching 1) [CAppend ex_line3; CNotify] = true →
   delivered_to 1 (conn_run JSON_parse_ref st (CClose 1 :: [CAppend ex_line3; CNotify])).2 = [])
  ∧ (let st3 := (conn_run JSON_parse_ref st [CAttach 2 0 None; CClose 2; CAttached 2]).1 in
     2%nat ∈ t_clients (c_tailer (conn_run JSON_parse_ref st3 [CAppend ex_line3; CNotify]).1)
     ∧ ∀ text pending,
         t_processing (c_tailer st) = false → NoDup (t_clients (c_tailer st)) →
         fs_jsonl (c_fs st) !! t_sessionId (c_tailer st) = Some text →
         whole_lines pending →
         delivered_to 2 (conn_run JSON_parse_ref st3 [CAppend pending; CNotify]).2
         = map entry_frame (journal_entries JSON_parse_ref pending)).
Proof.
  intros st.
  apply (close_during_replay_is_missed JSON_parse_ref st 1 2 0 None [CAppend ex_line3; CNotify]).
  - by apply list_elem_of_singleton.
  - apply not_elem_of_nil.
  - by intros ?%list_elem_of_singleton.
  - apply not_elem_of_nil.
Defined.

(** The connection of client 2 closes while its history is replayed; the
    record appended afterwards is written to it. *)
Example closed_during_replay_is_written_to :
  let st := {| c_fs := ex_fs;
               c_tailer := {| t_sessionId := ex_sid; t_clients := [1%nat];
                              t_position := str_len ex_journal; t_lastCursor := 2;
                              t_processing := false |};
               c_replaying := []; c_listening := [1%nat]; c_closed := [] |} in
  let r := conn_run JSON_parse_ref st
             [CAttach 2 2 None; CClose 2; CAttached 2; CAppend ex_line3; CNotify] in
  t_clients (c_tailer r.1) = [1%nat; 2%nat]
  ∧ c_closed r.1 = [2%nat]
  ∧ length (delivered_to 2 r.2) = 3%nat
  ∧ last (delivered_to 2 r.2) = Some (entry_frame (default JNull (JSON_parse_ref ex_line3))).
Proof. vm_compute. done. Qed.

(** ** The messages handler: what a refused request leaves behind *)

Lemma readable_Ok (f : fs) (sid : string) :
  readable f sid = true → ∃ m, readSessionMeta f sid = Ok m.
Proof. unfold readable. destruct (readSessionMeta f sid) as [m|]; [by exists m|done]. Qed.

Lemma readable_Throw (f : fs) (sid : string) :
  readable f sid = false →
  ∃ msg, readSessionMeta f sid = Throw msg
         ∧ (msg = "SESSION_NOT_FOUND" ∨ msg = "INVALID_SESSION_ID").
Proof.
  unfold readable, readSessionMeta, getSessionPaths, validateSessionId.
  destruct (re_test UUID_PATTERN sid); cbn.
  - destruct (fs_meta f !! sid); [done|]. intros _. eexists. split; [done|by left].
  - intros _. eexists. split; [done|by right].
Qed.

Lemma fs_meta_touch_jsonl (sid : string) (f : fs) : fs_meta (touch_jsonl sid f) = fs_meta f.
Proof. unfold touch_jsonl. by destruct (fs_jsonl f !! sid). Qed.

Lemma user_message_run (JSON_parse : string → option json)
    (st : gateway) (sid : string) (c : json) (imagePath : jsval) (now : string) :
  js_truthy (Some c) = true → readable (g_fs st) sid = true →
  let r := messages_user_message JSON_parse sid (Some c) imagePath now st in
  ∃ w,
    createEventWriter JSON_parse (g_fs st) sid = Ok (touch_jsonl sid (g_fs st), w)
    ∧ r.2 = map (ObsAppend sid)
                (user_message_records sid (new_id (g_next_id st)) now (w_cursor w)
                   (prompt_of c imagePath))
    ∧ g_next_id r.1.2 = S (g_next_id st)
    ∧ codexQueueBySession r.1.2 = <[sid := queue_of st sid]> (codexQueueBySession st)
    ∧ match c with
      | JStr _ | JArr _ =>
          ∃ w' m' preview,
            r.1.1 = Committed w' (w_cursor w + 3) (new_id (g_next_id st))
                      (prompt_of c imagePath)
            ∧ content_slice c 120 = Some preview
            ∧ fs_meta (g_fs r.1.2) !! sid = Some m'
            ∧ m' !! "lastCursor" = Some (JNum (w_cursor w + 3))
            ∧ m' !! "lastMessagePreview" = Some preview
      | _ => r.1.1 = Threw ∧ fs_meta (g_fs r.1.2) = fs_meta (g_fs st)
      end.
Proof.
  intros Hc Hr r. subst r. unfold messages_user_message. rewrite Hc. cbn [negb].
  destruct (readable_Ok _ _ Hr) as (m & Hm).
  destruct (createEventWriter_ok JSON_parse _ _ _ Hm) as (w & Hw & Hws).
  exists w. split; [done|].
  fold (prompt_of c imagePath).
  destruct (createEventWriter_sessionId JSON_parse _ _ _ _ Hw) as (_ & _ & _ & _ & Hlc).
  cbv [mbind M_bind get_state modify]. rewrite Hm, Hw.
  cbv [mbind M_bind modify newId append writer_append]. rewrite Hlc.
  cbn [number_or_zero w_sessionId w_meta w_cursor g_fs set_fs set_queues set_next_id
       g_next_id codexQueueBySession fst snd app].
  fold (new_id (g_next_id st)).
  replace (w_cursor w + 1 + 1 + 1) with (w_cursor w + 3) by lia.
  replace (w_cursor w + 1 + 1) with (w_cursor w + 2) by lia.
  rewrite Hws.
  destruct c as [|b|z|s|l|kvs]; cbn [content_slice];
    cbv [commit writer_commit mret M_ret];
    cbn [fst snd app g_fs set_fs g_next_id codexQueueBySession fs_meta set_jsonl set_meta
         w_sessionId w_meta w_cursor map user_message_records];
    (split; [reflexivity|]); (split; [reflexivity|]); (split; [reflexivity|]).
  all: try (split; [reflexivity|apply fs_meta_touch_jsonl]).
  all: eexists _, _, _; (split; [reflexivity|]); (split; [reflexivity|]);
    rewrite lookup_insert_eq; (split; [reflexivity|]); unfold assign.
  all: split;
    [ rewrite lookup_union_r by (by rewrite !lookup_insert_ne by done); apply lookup_insert_eq
    | apply lookup_union_Some_l; rewrite lookup_insert_ne by done; apply lookup_insert_eq ].
Qed.

(** The messages handler refuses before it writes, and it refuses only a
    [content] that is falsy (400) and a session whose sidecar cannot be
    read (404): such a request changes nothing.  Every other request,
    whatever the type of [content], has the queue of its session created,
    an id drawn and the three records of the user message appended at the
    next three cursors, with [content] as it came as the text (as a string
    with the note on the image when [imagePath] is truthy).  When [content]
    is a string or an array the sidecar is then committed with the new
    cursor and the handler goes on; when it is a number, [true] or an
    object, [content.slice] throws: the request fails with the three
    records in the journal and the sidecar as it was. *)
Theorem refusal_precedes_writes (JSON_parse : string → option json)
    (st : gateway) (sid : string) (content imagePath : jsval) (now : string) :
  let r := messages_user_message JSON_parse sid content imagePath now st in
  (js_truthy content = false →
   r = (Answered (error_response 400 "MISSING_CONTENT" "content is required"), st, []))
  ∧ (js_truthy content = true → readable (g_fs st) sid = false →
     ∃ resp, r = (Answered resp, st, []) ∧ resp_status resp = 404)
  ∧ (∀ c, content = Some c → js_truthy content = true → readable (g_fs st) sid = true →
     ∃ w,
       createEventWriter JSON_parse (g_fs st) sid = Ok (touch_jsonl sid (g_fs st), w)
       ∧ r.2 = map (ObsAppend sid)
                   (user_message_records sid (new_id (g_next_id st)) now (w_cursor w)
                      (prompt_of c imagePath))
       ∧ g_next_id r.1.2 = S (g_next_id st)
       ∧ codexQueueBySession r.1.2 = <[sid := queue_of st sid]> (codexQueueBySession st)
       ∧ match c with
         | JStr _ | JArr _ =>
             ∃ w' m' preview,
               r.1.1 = Committed w' (w_cursor w + 3) (new_id (g_next_id st))
                         (prompt_of c imagePath)
               ∧ content_slice c 120 = Some preview
               ∧ fs_meta (g_fs r.1.2) !! sid = Some m'
               ∧ m' !! "lastCursor" = Some (JNum (w_cursor w + 3))
               ∧ m' !! "lastMessagePreview" = Some preview
         | _ => r.1.1 = Threw ∧ fs_meta (g_fs r.1.2) = fs_meta (g_fs st)
         end).
Proof.
  intros r. subst r. split; [|split].
  - intros Hc. unfold messages_user_message. destruct content as [c|]; [|done]. by rewrite Hc.
  - intros Hc Hr. unfold messages_user_message.
    destruct content as [c|]; [|done]. rewrite Hc. cbn [negb].
    destruct (readable_Throw _ _ Hr) as (msg & Hm & Hmsg).
    cbv [mbind M_bind get_state]. rewrite Hm.
    eexists. split; [reflexivity|]. by destruct Hmsg as [->| ->].
  - intros c -> Hc Hr. by apply user_message_run.
Qed.

(** A request whose [content] is the number 123: it is not refused, its
    three user records are appended at cursors 3, 4 and 5, and the handler
    throws; the sidecar still says that the last cursor is 2. *)
Example number_content_is_journaled :
  let r := messages_user_message JSON_parse_ref ex_sid (Some (JNum 123)) None "t0"
             (gateway_init ex_fs) in
  r.1.1 = Threw
  ∧ map record_summary (appends_to ex_sid r.2)
    = [("3", "message_start", "id-0"); ("4", "content_block", "id-0");
       ("5", "message_end", "id-0")]
  ∧ fs_meta (g_fs r.1.2) !! ex_sid = Some ex_meta.
Proof. vm_compute. done. Qed.


(** For a [content] that is a string, [submit] begins as
    [messages_user_message] does: it refuses with the same response, and
    otherwise what it does begins with the three records of the user
    message. *)
Lemma submit_user_message (JSON_parse : string → option json) (cfg : config)
    (st : gateway) (sid content : string) (imagePath : option string) (now : string) :
  let r := messages_user_message JSON_parse sid (Some (JStr content)) (JStr <$> imagePath) now st in
  match r.1.1 with
  | Answered resp => submit JSON_parse cfg sid content imagePath now st = (resp, st, [])
  | Threw => False
  | Committed _ _ _ _ =>
      ∃ rest, logs (submit JSON_parse cfg sid content imagePath now) st = r.2 ++ rest
  end.
Proof.
  intros r.
  destruct (String.eqb_spec content "") as [->|Hne].
  { subst r. done. }
  destruct (readable (g_fs st) sid) eqn:Hr.
  2:{ destruct (readable_Throw _ _ Hr) as (msg & Hm & Hmsg). subst r.
      unfold messages_user_message, submit. cbn [js_truthy].
      apply String.eqb_neq in Hne. rewrite Hne. cbn [negb].
      cbv [mbind M_bind get_state]. by rewrite Hm. }
  assert (Hc : js_truthy (Some (JStr content)) = true).
  { cbn. by apply negb_true_iff, String.eqb_neq. }
  destruct (user_message_run JSON_parse st sid (JStr content) (JStr <$> imagePath) now Hc Hr)
    as (w & Hw & Hlog & _ & _ & w' & m' & preview & Hv & _).
  fold r in Hlog, Hv. rewrite Hv, Hlog. clear Hv Hlog r.
  destruct (readable_Ok _ _ Hr) as (m & Hm).
  destruct (createEventWriter_sessionId JSON_parse _ _ _ _ Hw) as (Hws & _ & _ & _ & Hlc).
  unfold submit. apply String.eqb_neq in Hne. rewrite Hne.
  rewrite logs_bind.
  change (value get_state st) with st. change (exec get_state st) with st.
  change (logs get_state st) with (@nil obs). rewrite Hm. cbv zeta.
  rewrite logs_bind, logs_modify, exec_modify, Hw.
  rewrite logs_bind, logs_modify, exec_modify.
  rewrite logs_bind, logs_newId, value_newId, exec_newId.
  rewrite logs_bind, logs_append, value_append. cbv beta iota.
  rewrite logs_bind, logs_append, value_append. cbv beta iota.
  rewrite logs_bind, logs_append, value_append. cbv beta iota.
  rewrite logs_bind, logs_commit, value_commit.
  cbn [w_sessionId w_meta w_cursor app g_next_id set_queues set_fs].
  rewrite Hlc, Hws. cbn [number_or_zero user_message_records map app].
  fold (new_id (g_next_id st)).
  replace (w_cursor w + 1 + 1 + 1) with (w_cursor w + 3) by lia.
  replace (w_cursor w + 1 + 1) with (w_cursor w + 2) by lia.
  assert (Hp : prompt_of (JStr content) (JStr <$> imagePath)
               = JStr match imagePath with
                      | Some p => if String.eqb p "" then content
                                  else content +:+ NL +:+ NL +:+ "[Attached image: " +:+ p +:+ "]"
                      | None => content
                      end).
  { unfold prompt_of. destruct imagePath as [p|]; [|done]. cbn. by destruct (String.eqb p ""). }
  rewrite Hp. eexists. reflexivity.
Qed.
